(* ===== verification/_CoqProject ===== *)
-Q . S2P
Prelude.v
GoLib.v
Sha256.v
Wire.v
Pubkey.v
Message.v
Compile.v
System.v
Token.v
Pda.v
Btcd.v
Keys.v
Bip322.v
Transaction.v
Decompile.v
Loader.v
Programs.v
Json.v
JsonText.v
WebSocket.v
WebSocketInv.v
WebSocketProps.v
Broker.v
Correlation.v
JsonTypes.v
Rpc.v
RpcText.v
Frames.v
Node.v
Fixtures.v
