(* ===== verification/Prelude.v ===== *)
(** * A verification of arch-go, the Go SDK of the Arch network.

    ** The program

    The SDK builds, signs and submits Arch transactions. A caller makes [Instruction]s
    with the builders of system.go, token.go and loader.go, whose accounts may be
    program-derived addresses (pda.go); [NewSanitizedMessage] (compile.go) merges them
    into a [SanitizedMessage] that lists every key once, ordered by privilege, and
    refers to keys by index (message.go has its binary form and signing digest);
    [BuildAndSignTransaction] (transaction.go) signs the digest with one BIP-322
    signature per required key (bip322.go, keys.go, over the btcsuite libraries); the
    result goes to a node through the JSON-RPC client (rpc.go, types.go, bytes.go), and
    events come back through the WebSocket client (websocket.go).

    ** The files

    - Prelude.v: this header; bytes, machine integers, little-endian encodings, list
      lemmas, hint databases and tactics.
    - GoLib.v: what the SDK uses of Go: errors and results, [[n]byte] arrays and [copy],
      encoding/hex, [bytes.Compare], and the class [GoRuntime] for the two choices the
      runtime leaves open, the order of a map iteration and the algorithm of [sort.Slice].
    - Sha256.v: an executable SHA-256 with the standard's test vectors.
    - Wire.v: parsers and the class [Wire], a decoder that inverts an encoder.
    - Pubkey.v (pubkey.go, constants.go), Message.v (message.go), Compile.v (compile.go),
      System.v (system.go), Token.v (token.go), Pda.v (pda.go), Keys.v (keys.go),
      Bip322.v (bip322.go), Transaction.v (transaction.go), Loader.v (loader.go): one Rocq
      definition per Go function, under its name; a method [T.M] is [T_M]; a struct is a
      record whose fields have a prefix; the closures and loops inside a long function
      are definitions of their own ([getMeta], [classify], [findBump], ...).
    - Decompile.v: the node's reading of a compiled message, and a reference definition
      of the compiler.
    - Btcd.v: the functions of btcec, schnorr, txscript, wire, chainhash and btcutil that
      the SDK calls, as the class [Btcd]; what it relies on, as the class [BtcdLaws]; and
      an instance of both.
    - Json.v (bytes.go, the JSON form of arrays), JsonTypes.v (types.go, the event
      payloads of websocket.go) and Rpc.v (rpc.go): documents are syntax trees; the class
      [GoJson] is the interface of a type to encoding/json; an RPC method is an
      [exchange], the one request it posts and what it makes of any outcome. JsonText.v:
      the texts of documents as encoding/json writes and reads them, with its fuel
      ([enough]: a value takes at most two steps per byte, and [parse_value_enough] shows
      that more changes nothing). RpcText.v: the bytes that are posted.
    - WebSocket.v (websocket.go): the goroutines as a transition system; WebSocketInv.v:
      its invariants; WebSocketProps.v: what they imply; Broker.v: an abstract event
      broker that it refines; Correlation.v: which response a call gets; Frames.v: the
      text frames of requests and messages.
    - Programs.v: the system, token, associated-token and loader programs as the node runs
      them: the role and the privileges of every account, and the call that is executed.
    - Node.v: builders, compiler, signer and RPC client composed, against a node that is
      specified from the formats.
    - Fixtures.v: the test vectors of the repository, evaluated in the model.

    ** What the theorems show

    - Compilation: a compiled message grants exactly the privileges that were asked for
      ([compile_privileges]), resolves to the original instructions
      ([compile_resolves]), lists every key once with the payer first ([compile_keys]),
      in a canonical order that depends only on keys and privileges
      ([compile_canonical]), and compilation fails exactly when a count overflows its
      byte ([compile_total]); all for every map iteration order and sort algorithm. The
      compiler equals a reference definition ([compile_reference]); its messages are well
      formed ([compile_typed]) and decompile to what was compiled
      ([decompile_compile]).
    - Composition: the node accepts what [SendTransaction] posts for compiled and signed
      builder calls and executes exactly these calls, every argument and every account in
      its role, and the caller gets its answer ([send_calls]).
    - Binary formats: messages and transactions can be read back and are
      self-delimiting; the system, token and loader programs decode from each
      instruction what the builder's call means, and the builders ask for exactly the
      privileges these calls need; [ExtendBytesMaxLen] is the exact payload limit.
    - Signing: under the laws of the Bitcoin libraries, signing always succeeds and the
      signature verifies; a transaction is built exactly when every required key has a
      signer, with one verifying signature per required key in order.
    - Derived addresses: the greatest bump that works; with keys of 33 or 65 bytes, which
      is what [btcec.ParsePubKey] accepts, the first attempt always does.
    - JSON and RPC: the forms read back; the outcome of a lookup on every branch; no two
      calls post the same bytes.
    - WebSocket: in every interleaving the channels stay within capacity, no response
      channel is sent to twice or closed twice, [readLoop] never blocks except on the
      connection, the tear-down ends and leaves nobody waiting, events reach the
      subscriptions of their topic, and responses reach their callers if calls do not
      overlap ([ws_correlation]); a waiting call is never forgotten ([ws_waiting]). What
      is written is what the callers asked for, and the node reads exactly that from the
      wire ([ws_wire_requests]), the frame of an event becomes the value its accessor returns
      ([ws_event_payload]), and other texts are skipped ([ws_frames]). Every execution is one of an abstract broker ([ws_refines_broker]), whose
      guarantee is in-order delivery without duplicates, and without losses while the
      buffer has room ([ws_delivery]). Two executions show what does not hold: an event
      dispatched while [Unsubscribe] completes is a send on a closed channel, which
      panics ([ws_no_panic] shows that nothing else does), and two overlapping calls can
      receive each other's response.

    ** Modelling decisions

    A Go integer is a [Z] with its conversions written out ([uint32], [byte_of], ...), or
    a [byte]; theorems about encodings take the range of the type as a hypothesis. A
    slice is a list, and an [option] of one where nil matters: in [Bytes] and in the
    parameters of RPC calls, but not in the slices of a message or a transaction, which
    the compiler and the signer always make non-nil. A value of type [any] in an event
    filter is what encoding/json makes of it, a document or an error. A function returning an
    error returns a [result]; a panic is a state of the WebSocket model and is ruled out
    by construction elsewhere (nil private keys are not values of [PrivateKey]). Only the
    parser of JSON texts has fuel (JsonText.v); the bump search recurses on the bump, and
    the number of steps of the WebSocket tear-down is a theorem.

    ** Not modelled

    The random generator behind [NewPrivateKey]; the texts of JSON syntax errors, and the
    reuse of old elements when a key that holds a slice or an array is repeated in a JSON
    object; which of several errors in one document comes first when one of them is that of
    a [Bytes] field (the model reports the first, encoding/json that one: whether decoding
    succeeds is the same); net/http and gorilla/websocket beyond the outcomes they can have, the tests
    and the live test harness. *)
From stdpp Require Export prelude gmap strings list sorting pretty countable relations.
From Stdlib Require Export Strings.Byte.

Global Open Scope Z_scope.
Global Generalizable All Variables.

(** ** Hint databases and tactics *)

Create HintDb arch.
Create Rewrite HintDb arch.
Create Rewrite HintDb wire.

(** [split_ands] splits a conjunction into its conjuncts, at any depth. *)
Ltac split_ands := repeat match goal with |- _ ∧ _ => split end.

(** ** Bytes *)

(** A Go [byte] or [uint8] is one of the 256 values of [byte]; [byte_val] is its
    number and [byte_of] Go's conversion [uint8(n)], which keeps the low 8 bits. *)
Definition byte_val (b : byte) : Z := Z.of_N (Byte.to_N b).
Definition byte_of (n : Z) : byte :=
  default Byte.x00 (Byte.of_N (Z.to_N (n mod 2 ^ 8))).

#[global] Instance byte_eq_dec : EqDecision byte := Byte.byte_eq_dec.

#[global] Program Instance byte_countable : Countable byte :=
  inj_countable Byte.to_N Byte.of_N _.
Next Obligation. intros b. apply Byte.of_to_N. Qed.

#[global] Instance byte_inhabited : Inhabited byte := populate Byte.x00.

Lemma byte_val_range b : 0 ≤ byte_val b < 2 ^ 8.
Proof. unfold byte_val. pose proof (Byte.to_N_bounded b). lia. Qed.

Lemma byte_of_val b : byte_of (byte_val b) = b.
Proof.
  unfold byte_of. rewrite Z.mod_small by apply byte_val_range.
  unfold byte_val. by rewrite N2Z.id, Byte.of_to_N.
Qed.

Lemma byte_val_of n : byte_val (byte_of n) = n mod 2 ^ 8.
Proof.
  unfold byte_of, byte_val. pose proof (Z.mod_pos_bound n (2 ^ 8)) as Hn.
  destruct (Byte.of_N _) as [b|] eqn:Hb; simpl.
  - apply Byte.to_of_N in Hb. lia.
  - apply Byte.of_N_None_iff in Hb. lia.
Qed.

#[global] Instance byte_val_inj : Inj (=) (=) byte_val.
Proof. intros a b H. by rewrite <- (byte_of_val a), H, byte_of_val. Qed.

(** Byte strings written as lists of numbers, the way Go literals are. *)
Definition bytes_lit (l : list Z) : list byte := map byte_of l.

Lemma length_bytes_lit l : length (bytes_lit l) = length l.
Proof. apply length_map. Qed.

(** The bytes of a Go string, [[]byte(s)]. *)
Lemma length_list_byte_of_string s : length (String.list_byte_of_string s) = String.length s.
Proof. induction s as [|c s IH]; simpl; [done|]. f_equal. apply IH. Qed.

(** ** Lists *)

Section list_lemmas.
Context {A : Type}.
Implicit Types (l k : list A).

(** Cutting an appended list back at the seam. *)
Lemma take_app_exact l k n : length l = n → take n (l ++ k) = l.
Proof. intros <-. rewrite take_app_length'; done. Qed.

Lemma app_inj_length l1 l2 k1 k2 :
  length l1 = length l2 → l1 ++ k1 = l2 ++ k2 → l1 = l2 ∧ k1 = k2.
Proof. intros Hlen Heq. by apply app_inj_1. Qed.

Lemma existsb_ext (f g : A → bool) l : (∀ x, f x = g x) → existsb f l = existsb g l.
Proof. intros Hfg. induction l as [|x l IH]; simpl; [done|]. by rewrite Hfg, IH. Qed.

Lemma existsb_false (f : A → bool) l : (∀ x, f x = false) → existsb f l = false.
Proof. intros Hf. induction l as [|x l IH]; simpl; [done|]. by rewrite Hf. Qed.

Lemma existsb_fmap {B} (f : B → bool) (g : A → B) l : existsb f (g <$> l) = existsb (f ∘ g) l.
Proof. induction l as [|x l IH]; [done|]. rewrite fmap_cons. simpl. by rewrite IH. Qed.

(** A loop that appends one element per iteration. *)
Lemma foldl_snoc {B} (f : A → B) (acc : list B) l :
  foldl (λ acc x, acc ++ [f x]) acc l = acc ++ (f <$> l).
Proof.
  revert acc. induction l as [|x l IH]; intros acc; simpl; [by rewrite app_nil_r|].
  by rewrite IH, <- app_assoc.
Qed.
End list_lemmas.

#[export] Hint Rewrite @length_app @length_nil @length_cons @length_fmap @length_map
  length_bytes_lit @length_replicate : arch.

(** ** Machine integers *)

(** Go's conversions to the unsigned types, written out. *)
Definition uint8 (n : Z) : Z := n mod 2 ^ 8.
Definition uint32 (n : Z) : Z := n mod 2 ^ 32.
Definition uint64 (n : Z) : Z := n mod 2 ^ 64.

(** The ranges of the unsigned types, as decidable predicates. *)
Definition is_u8 (n : Z) : Prop := 0 ≤ n < 2 ^ 8.
Definition is_u32 (n : Z) : Prop := 0 ≤ n < 2 ^ 32.
Definition is_u64 (n : Z) : Prop := 0 ≤ n < 2 ^ 64.

#[global] Instance is_u8_dec n : Decision (is_u8 n).
Proof. unfold is_u8. apply _. Defined.
#[global] Instance is_u32_dec n : Decision (is_u32 n).
Proof. unfold is_u32. apply _. Defined.
#[global] Instance is_u64_dec n : Decision (is_u64 n).
Proof. unfold is_u64. apply _. Defined.

Lemma uint32_small n : is_u32 n → uint32 n = n.
Proof. intros. by apply Z.mod_small. Qed.

Lemma uint64_small n : is_u64 n → uint64 n = n.
Proof. intros. by apply Z.mod_small. Qed.

Lemma byte_val_u8 b : is_u8 (byte_val b).
Proof. apply byte_val_range. Qed.

Lemma byte_val_of_small n : is_u8 n → byte_val (byte_of n) = n.
Proof. intros. rewrite byte_val_of. by apply Z.mod_small. Qed.

#[export] Hint Resolve byte_val_u8 : arch.

(** *** Little-endian encodings *)

(** [le_bytes n v] is the [n]-byte little-endian encoding of [v]: each step
    appends [byte(v)] and shifts [v] right by 8, as encoding/binary does. *)
Fixpoint le_bytes (n : nat) (v : Z) : list byte :=
  match n with
  | O => []
  | S n => byte_of v :: le_bytes n (Z.shiftr v 8)
  end.

Fixpoint le_val (bs : list byte) : Z :=
  match bs with
  | [] => 0
  | b :: bs => byte_val b + Z.shiftl (le_val bs) 8
  end.

Lemma length_le_bytes n v : length (le_bytes n v) = n.
Proof. revert v. induction n as [|n IH]; intros v; simpl; auto. Qed.

(** Decoding recovers the value modulo the width. *)
Lemma le_val_bytes n v : le_val (le_bytes n v) = v mod 2 ^ (8 * Z.of_nat n).
Proof.
  revert v. induction n as [|n IH]; intros v; simpl le_bytes; simpl le_val.
  { by rewrite Z.mod_1_r. }
  rewrite IH, byte_val_of, Z.shiftl_mul_pow2, Z.shiftr_div_pow2 by lia.
  replace (8 * Z.of_nat (S n)) with (8 + 8 * Z.of_nat n) by lia.
  rewrite Z.pow_add_r, Z.rem_mul_r by lia. lia.
Qed.

Lemma le_val_bytes_small n v :
  0 ≤ v < 2 ^ (8 * Z.of_nat n) → le_val (le_bytes n v) = v.
Proof. intros. rewrite le_val_bytes. by apply Z.mod_small. Qed.

#[export] Hint Rewrite length_le_bytes : arch.
#[global] Opaque le_bytes.

(** [len] normalises the lengths of the byte strings in the goal and calls [lia]. *)
Ltac len := autorewrite with arch in *; simpl in *; try lia.
