(* ===== verification/GoLib.v ===== *)
(** * The parts of the Go language and its standard library the SDK uses.

    Errors and results, fixed-size byte arrays with [copy], [encoding/hex],
    [bytes.Compare], and the two places where the Go runtime leaves a choice
    open: the iteration order of a map and the algorithm of [sort.Slice]. Both
    choices are fields of the class [GoRuntime], so a theorem that holds for
    every [GoRuntime] holds whatever the runtime does. *)
From S2P Require Import Prelude.

(** ** Errors *)

(** The [error] values the SDK returns. [ErrorString] is [fmt.Errorf] without
    [%w], with its formatted text, and [ErrorFormat] the same with its format and its
    arguments, where the format quotes an argument; [ErrorWrap] is [fmt.Errorf("prefix: %w", err)];
    [HexInvalidByte] and [HexErrLength] are the errors of [encoding/hex];
    [JsonTypeError] is the [UnmarshalTypeError] of [encoding/json] (what was found,
    which Go type was expected) and [JsonSyntaxError] its [*SyntaxError], whose text is
    not modelled; [RPCErr] is a [*RPCError]; [ForeignErr] is an error of
    a third-party package. *)
Inductive error :=
| ErrorString (text : string)
| ErrorFormat (format : string) (args : list string)
| ErrorWrap (prefix : string) (inner : error)
| HexInvalidByte (b : byte)
| HexErrLength
| JsonSyntaxError
| JsonTypeError (value type : string)
| RPCErr (code : Z) (message : string)
| ForeignErr (text : string).

#[global] Instance error_eq_dec : EqDecision error.
Proof. solve_decision. Defined.

(** A Go function returning [(T, error)]: [Ok] when the error is nil. *)
Inductive result (A : Type) :=
| Ok (a : A)
| Err (e : error).
Arguments Ok {A} a.
Arguments Err {A} e.

#[global] Instance result_ret : MRet result := @Ok.
#[global] Instance result_bind : MBind result := λ A B k m,
  match m with Ok a => k a | Err e => Err e end.
#[global] Instance result_fmap : FMap result := λ A B f m,
  match m with Ok a => Ok (f a) | Err e => Err e end.

Definition is_ok {A} (r : result A) : Prop := ∃ a, r = Ok a.

(** [if err != nil { return fmt.Errorf("prefix: %w", err) }] *)
Definition wrap_err {A} (prefix : string) (r : result A) : result A :=
  match r with Ok a => Ok a | Err e => Err (ErrorWrap prefix e) end.

Lemma bind_Ok {A B} (m : result A) (k : A → result B) b :
  m ≫= k = Ok b ↔ ∃ a, m = Ok a ∧ k a = Ok b.
Proof.
  destruct m as [a|e]; simpl; [|split; [done|intros (?&?&?); done]].
  split; [eauto|by intros (? & [= <-] & ?)].
Qed.

Lemma wrap_err_Ok {A} p (m : result A) a : wrap_err p m = Ok a ↔ m = Ok a.
Proof. by destruct m. Qed.

(** [mapM] over a list succeeds when every element does. *)
Lemma mapM_Ok_Forall2 {A B} (f : A → result B) l k :
  mapM f l = Ok k ↔ Forall2 (λ x y, f x = Ok y) l k.
Proof.
  revert k. induction l as [|x l IH]; intros k; simpl.
  - split; [intros [= <-]; constructor | by inversion 1].
  - rewrite bind_Ok. setoid_rewrite bind_Ok. setoid_rewrite IH. split.
    + intros (y & Hy & ys & Hys & [= <-]). by constructor.
    + inversion 1; subst. eauto 10.
Qed.

(** ** Fixed-size byte arrays *)

(** [[n]byte]: a byte string of length [n]. The proof of the length is a boolean
    equation, so two arrays with the same bytes are equal. *)
Record array (n : nat) := Array {
  array_list : list byte;
  array_ok : Is_true (Nat.eqb (length array_list) n);
}.
Arguments Array {n} array_list array_ok.
Arguments array_list {n} a.
Coercion array_list : array >-> list.

Lemma length_array {n} (a : array n) : length a = n.
Proof. apply Nat.eqb_eq, Is_true_true, array_ok. Qed.

Lemma array_eq {n} (a b : array n) : array_list a = array_list b → a = b.
Proof.
  destruct a as [la Ha], b as [lb Hb]. simpl. intros ->. f_equal. apply proof_irrel.
Qed.

#[global] Instance array_list_inj {n} : Inj (=) (=) (@array_list n).
Proof. intros a b. apply array_eq. Qed.

#[global] Instance array_eq_dec {n} : EqDecision (array n).
Proof.
  refine (λ a b, cast_if (decide (array_list a = array_list b))); [by apply array_eq|congruence].
Defined.

(** A boolean that holds has a canonical proof, so that arrays built from
    concrete bytes evaluate to closed normal forms. *)
Definition canonical_true (b : bool) : Is_true b → Is_true b :=
  match b with true => λ _, I | false => λ H, H end.

Lemma copy_length_ok {n} (dst : array n) (src : list byte) :
  Is_true (Nat.eqb (length (take n src ++ drop (length src) dst)) n).
Proof.
  apply Is_true_true, Nat.eqb_eq. rewrite length_app, length_take, length_drop, length_array. lia.
Qed.

(** [copy(dst[:], src)]: the first [min(n, len(src))] bytes are overwritten. *)
Definition copy {n} (dst : array n) (src : list byte) : array n :=
  Array (take n src ++ drop (length src) dst) (canonical_true _ (copy_length_ok dst src)).

Lemma zero_length_ok n : Is_true (Nat.eqb (length (replicate n Byte.x00)) n).
Proof. apply Is_true_true, Nat.eqb_eq, length_replicate. Qed.

(** [var a [n]byte]: the zero value. *)
Definition zero_array (n : nat) : array n :=
  Array (replicate n Byte.x00) (canonical_true _ (zero_length_ok n)).

(** [var a [n]byte; copy(a[:], src)]: the bytes, cut or zero-padded to [n]. *)
Definition array_of (n : nat) (src : list byte) : array n := copy (zero_array n) src.

(** Copying as many bytes as the array holds replaces the array. *)
Lemma copy_exact {n} (dst : array n) src : length src = n → array_list (copy dst src) = src.
Proof.
  intros H. simpl. rewrite take_ge by lia.
  rewrite drop_ge by (rewrite length_array; lia). apply app_nil_r.
Qed.

Lemma array_of_exact n src : length src = n → array_list (array_of n src) = src.
Proof. apply copy_exact. Qed.

Lemma array_of_array {n} (a : array n) : array_of n a = a.
Proof. apply array_eq, array_of_exact, length_array. Qed.

#[global] Program Instance array_countable {n} : Countable (array n) :=
  inj_countable array_list (λ l, Some (array_of n l)) _.
Next Obligation. intros n a. simpl. by rewrite array_of_array. Qed.

#[export] Hint Rewrite @length_array : arch.
#[export] Hint Resolve length_array : arch.

(** ** encoding/hex *)

Module hex.
(** The digit table ["0123456789abcdef"] and its inverse, which also accepts
    the upper-case digits. *)
Definition digit (n : Z) : byte := byte_of (if n <? 10 then 48 + n else 87 + n).

Definition value (c : byte) : option Z :=
  let v := byte_val c in
  if (48 <=? v) && (v <=? 57) then Some (v - 48)
  else if (97 <=? v) && (v <=? 102) then Some (v - 87)
  else if (65 <=? v) && (v <=? 70) then Some (v - 55)
  else None.

Definition encode_byte (b : byte) : list byte :=
  [digit (Z.shiftr (byte_val b) 4); digit (Z.land (byte_val b) 15)].

Definition Encode (src : list byte) : list byte := src ≫= encode_byte.

Definition EncodeToString (src : list byte) : string :=
  String.string_of_list_byte (Encode src).

(** [hex.Decode]: pairs of digits from the left; an invalid digit is reported
    before an odd length. *)
Fixpoint Decode (src : list byte) : result (list byte) :=
  match src with
  | [] => Ok []
  | [p] => match value p with None => Err (HexInvalidByte p) | Some _ => Err HexErrLength end
  | p :: q :: src =>
      match value p with
      | None => Err (HexInvalidByte p)
      | Some a =>
          match value q with
          | None => Err (HexInvalidByte q)
          | Some b =>
              out ← Decode src; Ok (byte_of (Z.lor (Z.shiftl a 4) b) :: out)
          end
      end
  end.

Definition DecodeString (s : string) : result (list byte) :=
  Decode (String.list_byte_of_string s).

Lemma length_Encode src : length (Encode src) = (2 * length src)%nat.
Proof.
  unfold Encode. induction src as [|b src IH]; [done|].
  rewrite bind_cons, length_app, IH. simpl. lia.
Qed.

(** Decoding inverts the two digits of every byte. *)
Lemma Decode_encode_byte b rest :
  Decode (encode_byte b ++ rest) = out ← Decode rest; Ok (b :: out).
Proof. destruct b; reflexivity. Qed.

Lemma Decode_Encode src : Decode (Encode src) = Ok src.
Proof.
  unfold Encode. induction src as [|b src IH]; [done|].
  rewrite bind_cons, Decode_encode_byte, IH. done.
Qed.

Lemma DecodeString_EncodeToString src : DecodeString (EncodeToString src) = Ok src.
Proof.
  unfold DecodeString, EncodeToString.
  by rewrite String.list_byte_of_string_of_list_byte, Decode_Encode.
Qed.

(** The output is an exact decoding of pairs of digits: half as long as its input. *)
Lemma Decode_length src out : Decode src = Ok out → length src = (2 * length out)%nat.
Proof.
  revert out. induction src as [src IH] using (induction_ltof1 _ length); intros out.
  destruct src as [|p [|q src]]; simpl.
  - by intros [= <-].
  - by destruct (value p).
  - destruct (value p); [|done]. destruct (value q); [|done].
    rewrite bind_Ok. intros (out' & Hout & [= <-]).
    apply IH in Hout; [simpl; lia | unfold ltof; simpl; lia].
Qed.

(** ASCII lower-casing, to state which strings [Decode] accepts. *)
Definition lower (c : byte) : byte :=
  let v := byte_val c in
  if (65 <=? v) && (v <=? 90) then byte_of (v + 32) else c.

Lemma value_lower c : value (lower c) = value c.
Proof. destruct c; reflexivity. Qed.

Definition nibbles : list Z := [0;1;2;3;4;5;6;7;8;9;10;11;12;13;14;15].

Lemma value_Some c v : value c = Some v → digit v = lower c ∧ In v nibbles.
Proof.
  intros Hc. destruct c; vm_compute in Hc; inversion Hc; subst; (split; [reflexivity|]);
    vm_compute; tauto.
Qed.

(** Two digits are the encoding of the byte they denote, but for their case. *)
Lemma value_digits p q a b :
  value p = Some a → value q = Some b →
  encode_byte (byte_of (Z.lor (Z.shiftl a 4) b)) = [lower p; lower q].
Proof.
  intros [<- Ha]%value_Some [<- Hb]%value_Some. clear p q. simpl in Ha, Hb.
  repeat destruct Ha as [<-|Ha]; repeat destruct Hb as [<-|Hb]; done.
Qed.

(** [Decode] accepts exactly the strings that are, up to the case of their
    digits, the encoding of some bytes, and returns those bytes. *)
Lemma Decode_iff src out : Decode src = Ok out ↔ lower <$> src = Encode out.
Proof.
  revert out. induction src as [src IH] using (induction_ltof1 _ length); intros out.
  destruct src as [|p [|q src]].
  - simpl. split; [by intros [= <-]|]. by destruct out.
  - split; [simpl; by destruct (value p)|]. intros H%(f_equal length). revert H.
    rewrite length_Encode. simpl. lia.
  - assert (ltof _ length src (p :: q :: src)) as Hlt by (unfold ltof; simpl; lia).
    simpl Decode. rewrite !fmap_cons. split.
    + destruct (value p) eqn:Hp; [|done]. destruct (value q) eqn:Hq; [|done].
      rewrite bind_Ok. intros (out' & Hout & [= <-]). apply IH in Hout; [|done].
      unfold Encode in *. rewrite bind_cons, <- Hout, (value_digits p q) by done. done.
    + destruct out as [|b out]; [done|]. unfold Encode. rewrite bind_cons. simpl.
      intros [= Hp Hq Hsrc]. apply IH in Hsrc; [|done].
      rewrite <- (value_lower p), <- (value_lower q), Hp, Hq, Hsrc.
      clear. by destruct b.
Qed.
End hex.

(** ** bytes.Compare *)

Module bytes.
Fixpoint Compare (a b : list byte) : comparison :=
  match a, b with
  | [], [] => Eq
  | [], _ => Lt
  | _, [] => Gt
  | x :: a, y :: b =>
      match byte_val x ?= byte_val y with Eq => Compare a b | c => c end
  end.

Lemma Compare_refl a : Compare a a = Eq.
Proof. induction a as [|x a IH]; simpl; [done|]. by rewrite Z.compare_refl. Qed.

Lemma Compare_eq a b : Compare a b = Eq ↔ a = b.
Proof.
  split; [|intros ->; apply Compare_refl].
  revert b. induction a as [|x a IH]; intros [|y b]; simpl; try done.
  destruct (byte_val x ?= byte_val y) eqn:E; try done.
  apply Z.compare_eq, (inj byte_val) in E as ->. intros H%IH. by subst.
Qed.

Lemma Compare_antisym a b : Compare b a = CompOpp (Compare a b).
Proof.
  revert b. induction a as [|x a IH]; intros [|y b]; simpl; try done.
  rewrite (Z.compare_antisym (byte_val x) (byte_val y)).
  destruct (byte_val x ?= byte_val y); simpl; auto.
Qed.

Lemma Compare_lt_trans a b c : Compare a b = Lt → Compare b c = Lt → Compare a c = Lt.
Proof.
  revert b c. induction a as [|x a IH]; intros [|y b] [|z c]; simpl; try done.
  destruct (Z.compare_spec (byte_val x) (byte_val y)) as [Hxy|Hxy|Hxy]; try done;
    destruct (Z.compare_spec (byte_val y) (byte_val z)) as [Hyz|Hyz|Hyz]; try done;
    destruct (Z.compare_spec (byte_val x) (byte_val z)) as [Hxz|Hxz|Hxz]; try lia; eauto.
Qed.
End bytes.

(** ** The choices the Go runtime makes *)

(** [less] is a strict weak order whose incomparable elements are equal: what
    [sort.Slice] needs to have one result. *)
Record strict_order {A} (less : A → A → bool) : Prop := {
  less_irrefl x : less x x = false;
  less_trans x y z : less x y = true → less y z = true → less x z = true;
  less_total x y : less x y = false → less y x = false → x = y;
}.

(** [for k := range m] visits every key of [m] once, in an unspecified order;
    [sort.Slice] rearranges a slice so that no element is less than an earlier one. *)
Class GoRuntime := {
  go_range : ∀ {K} `{Countable K} {V}, gmap K V → list K;
  go_range_perm : ∀ `{Countable K} {V} (m : gmap K V), go_range m ≡ₚ (map_to_list m).*1;
  sort_Slice : ∀ {A}, (A → A → bool) → list A → list A;
  sort_Slice_perm : ∀ {A} (less : A → A → bool) l, sort_Slice less l ≡ₚ l;
  sort_Slice_sorted : ∀ {A} (less : A → A → bool) l,
    strict_order less → StronglySorted (λ x y, less y x = false) (sort_Slice less l);
}.

Section runtime.
Context {RT : GoRuntime}.

Lemma elem_of_go_range `{Countable K} {V} (m : gmap K V) k : k ∈ go_range m ↔ is_Some (m !! k).
Proof.
  rewrite go_range_perm, list_elem_of_fmap. split.
  - intros ([k' v] & -> & Hkv%elem_of_map_to_list). eauto.
  - intros [v Hv]. exists (k, v). by rewrite elem_of_map_to_list.
Qed.

Lemma NoDup_go_range `{Countable K} {V} (m : gmap K V) : NoDup (go_range m).
Proof. rewrite go_range_perm. apply NoDup_fst_map_to_list. Qed.
End runtime.

(** The result of sorting does not depend on the algorithm nor on the initial order. *)
Lemma sort_Slice_unique (R1 R2 : GoRuntime) {A} (less : A → A → bool) l1 l2 :
  strict_order less → l1 ≡ₚ l2 →
  @sort_Slice R1 A less l1 = @sort_Slice R2 A less l2.
Proof.
  intros Hless Hperm.
  apply (StronglySorted_unique_strong (λ x y, less y x = false)).
  - intros x y _ _ Hxy Hyx. by apply (less_total _ Hless).
  - by apply sort_Slice_sorted.
  - by apply sort_Slice_sorted.
  - by rewrite !sort_Slice_perm.
Qed.

(** The order of [bytes.Compare(a, b) < 0] on byte arrays. *)
Definition array_less {n} (a b : array n) : bool :=
  bool_decide (bytes.Compare a b = Lt).

Lemma array_less_strict n : strict_order (@array_less n).
Proof.
  unfold array_less. split.
  - intros x. by rewrite bytes.Compare_refl.
  - intros x y z. rewrite !bool_decide_eq_true. apply bytes.Compare_lt_trans.
  - intros x y. rewrite !bool_decide_eq_false. intros Hxy Hyx.
    apply array_eq, bytes.Compare_eq. rewrite bytes.Compare_antisym in Hyx.
    by destruct (bytes.Compare x y).
Qed.

(** A runtime to compute with: keys in [gmap] order, merge sort. *)
Definition sorted_rel {A} (less : A → A → bool) (x y : A) : Prop := less y x = false.

#[global] Instance sorted_rel_dec {A} (less : A → A → bool) x y : Decision (sorted_rel less x y).
Proof. unfold sorted_rel. apply _. Defined.

Lemma merge_sort_sorted_rel {A} (less : A → A → bool) l :
  strict_order less → StronglySorted (sorted_rel less) (merge_sort (sorted_rel less) l).
Proof.
  intros Hless. unfold sorted_rel.
  assert (Transitive (sorted_rel less)) as Htrans.
  { intros x y z Hxy Hyz. unfold sorted_rel in *.
    destruct (less z x) eqn:Hzx; [|done].
    destruct (less x y) eqn:Hx; [by rewrite (less_trans _ Hless _ _ _ Hzx Hx) in Hyz|].
    rewrite (less_total _ Hless _ _ Hx Hxy) in Hzx. congruence. }
  assert (Total (sorted_rel less)) as Htotal.
  { intros x y. unfold sorted_rel. destruct (less y x) eqn:E; [|auto].
    destruct (less x y) eqn:E'; [|auto].
    pose proof (less_trans _ Hless _ _ _ E E'). by rewrite (less_irrefl _ Hless) in *. }
  apply StronglySorted_merge_sort; apply _.
Qed.

#[global] Program Instance default_runtime : GoRuntime := {|
  go_range K _ _ V m := (map_to_list m).*1;
  sort_Slice A less l := merge_sort (sorted_rel less) l;
|}.
Next Obligation. done. Qed.
Next Obligation. intros A less l. apply merge_sort_Permutation. Qed.
Next Obligation. intros A less l Hless. by apply merge_sort_sorted_rel. Qed.
