(* ===== verification/Sha256.v ===== *)
(** * crypto/sha256: SHA-256 as specified by FIPS 180-4.

    The hash of the Go standard library, executable on byte strings, so that the
    fixtures of the SDK's tests can be recomputed by evaluation. A word is a [Z]
    in [0, 2^32); every addition wraps at 32 bits. The file ends with the
    standard's test vectors. *)
From S2P Require Import Prelude GoLib.

Module sha256.
Definition add32 (x y : Z) : Z := (x + y) mod 2 ^ 32.

Definition rotr (n x : Z) : Z :=
  Z.lor (Z.shiftr x n) (Z.shiftl x (32 - n) mod 2 ^ 32).

Definition Ch (x y z : Z) : Z := Z.lxor (Z.land x y) (Z.land (Z.lxor x (2 ^ 32 - 1)) z).
Definition Maj (x y z : Z) : Z :=
  Z.lxor (Z.lxor (Z.land x y) (Z.land x z)) (Z.land y z).
Definition Sigma0 (x : Z) : Z := Z.lxor (Z.lxor (rotr 2 x) (rotr 13 x)) (rotr 22 x).
Definition Sigma1 (x : Z) : Z := Z.lxor (Z.lxor (rotr 6 x) (rotr 11 x)) (rotr 25 x).
Definition sigma0 (x : Z) : Z := Z.lxor (Z.lxor (rotr 7 x) (rotr 18 x)) (Z.shiftr x 3).
Definition sigma1 (x : Z) : Z := Z.lxor (Z.lxor (rotr 17 x) (rotr 19 x)) (Z.shiftr x 10).

(** The round constants are the first 32 bits of the fractional parts of the cube
    roots of the first 64 primes, the initial hash value those of the square roots of
    the first eight (FIPS 180-4, 4.2.2 and 5.3.3), computed here from that definition. *)
Fixpoint divides_any (n : Z) (ps : list Z) : bool :=
  match ps with
  | [] => false
  | p :: ps => (n mod p =? 0) || divides_any n ps
  end.

(** The primes among [n, n+1, ..., n+fuel-1], given those below [n]. *)
Fixpoint sieve (fuel : nat) (n : Z) (ps : list Z) : list Z :=
  match fuel with
  | O => ps
  | S fuel => sieve fuel (n + 1) (if divides_any n ps then ps else ps ++ [n])
  end.

(** The greatest [r + d], [0 <= d < 2^bits], whose cube is at most [n]. *)
Fixpoint cbrt_from (bits : nat) (n r : Z) : Z :=
  match bits with
  | O => r
  | S bits =>
      let r' := r + 2 ^ Z.of_nat bits in
      cbrt_from bits n (if r' * r' * r' <=? n then r' else r)
  end.

(** 311 is the 64th prime; a cube root of it is below 2^3, so with 32 fractional
    bits it has at most 35 bits. *)
Definition primes : list Z := sieve 310 2 [].

Definition K : list Z :=
  Eval vm_compute in (λ p, cbrt_from 35 (p * 2 ^ 96) 0 mod 2 ^ 32) <$> primes.

Definition H0 : list Z :=
  Eval vm_compute in (λ p, Z.sqrt (p * 2 ^ 64) mod 2 ^ 32) <$> take 8 primes.

Example K_length : length K = 64%nat ∧ last K = Some 0xc67178f2.
Proof. vm_compute. done. Qed.

(** Big-endian words. *)
Definition be_word (bs : list byte) : Z :=
  fold_left (λ acc b, Z.lor (Z.shiftl acc 8) (byte_val b)) bs 0.

Definition be_bytes (n : nat) (v : Z) : list byte := rev (le_bytes n v).

(** One round: [w] is the window of the next sixteen schedule words. *)
Definition round (k : Z) (w s : list Z) : list Z * list Z :=
  match s with
  | [a; b; c; d; e; f; g; h] =>
      let w0 := w !!! 0%nat in
      let t1 := add32 (add32 (add32 (add32 h (Sigma1 e)) (Ch e f g)) k) w0 in
      let t2 := add32 (Sigma0 a) (Maj a b c) in
      let w16 := add32 (add32 (add32 (sigma1 (w !!! 14%nat)) (w !!! 9%nat))
                          (sigma0 (w !!! 1%nat))) w0 in
      (tail w ++ [w16], [add32 t1 t2; a; b; c; add32 d t1; e; f; g])
  | _ => (w, s)
  end.

Fixpoint rounds (ks w s : list Z) : list Z :=
  match ks with
  | [] => s
  | k :: ks => let '(w, s) := round k w s in rounds ks w s
  end.

(** The compression function on one 64-byte block. *)
Definition block_words (block : list byte) : list Z :=
  be_word <$> [take 4 block; take 4 (drop 4 block); take 4 (drop 8 block);
    take 4 (drop 12 block); take 4 (drop 16 block); take 4 (drop 20 block);
    take 4 (drop 24 block); take 4 (drop 28 block); take 4 (drop 32 block);
    take 4 (drop 36 block); take 4 (drop 40 block); take 4 (drop 44 block);
    take 4 (drop 48 block); take 4 (drop 52 block); take 4 (drop 56 block);
    take 4 (drop 60 block)].

Definition compress (s : list Z) (block : list byte) : list Z :=
  zip_with add32 s (rounds K (block_words block) s).

(** Padding to a whole number of 64-byte blocks: 0x80, zeros, the bit length. *)
Definition pad (msg : list byte) : list byte :=
  let n := Z.of_nat (length msg) in
  msg ++ [byte_of 0x80] ++ replicate (Z.to_nat ((55 - n) mod 64)) Byte.x00
      ++ be_bytes 8 (8 * n).

Fixpoint blocks (fuel : nat) (s : list Z) (bs : list byte) : list Z :=
  match fuel, bs with
  | S fuel, _ :: _ => blocks fuel (compress s (take 64 bs)) (drop 64 bs)
  | _, _ => s
  end.

(** [sha256.Sum256]: the digest is a [[32]byte]. *)
Definition Sum256 (msg : list byte) : array 32 :=
  let p := pad msg in
  array_of 32 (blocks (length p / 64) H0 p ≫= be_bytes 4).

Lemma length_Sum256 msg : length (Sum256 msg) = 32%nat.
Proof. apply length_array. Qed.

(** A hasher ([sha256.New], [Write], [Sum(nil)]) holds the bytes written so far. *)
Definition New : list byte := [].
Definition Write (h p : list byte) : list byte := h ++ p.
Definition Sum (h : list byte) : array 32 := Sum256 h.
End sha256.

#[global] Opaque sha256.Sum256.

(** ** FIPS 180-4 test vectors *)

Definition ascii_bytes (s : string) : list byte := String.list_byte_of_string s.

Example sha256_empty :
  hex.EncodeToString (sha256.Sum256 []) =
  "e3b0c44298fc1c149afbf4c8996fb92427ae41e4649b934ca495991b7852b855".
Proof. vm_compute. reflexivity. Qed.

Example sha256_abc :
  hex.EncodeToString (sha256.Sum256 (ascii_bytes "abc")) =
  "ba7816bf8f01cfea414140de5dae2223b00361a396177a9cb410ff61f20015ad".
Proof. vm_compute. reflexivity. Qed.

Example sha256_two_blocks :
  hex.EncodeToString
    (sha256.Sum256 (ascii_bytes "abcdbcdecdefdefgefghfghighijhijkijkljklmklmnlmnomnopnopq")) =
  "248d6a61d20638b8e5c026930c3e6039a33ce45964ff2167f6ecedd419db06c1".
Proof. vm_compute. reflexivity. Qed.
