(* ===== verification/Wire.v ===== *)
(** * The Arch binary wire format: encoders, and a decoder interface.

    The encoders are those of [encoding/binary] and of the helpers at the top of
    src/system.go. The SDK only writes this format; the class [Wire] states what
    a reader of it (the node) needs, a decoder that inverts the encoder whatever
    follows, and every serialized type of the SDK gets an instance. *)
From S2P Require Import Prelude GoLib.

(** ** Encoders *)

(** [binary.LittleEndian.AppendUint32] and [AppendUint64]. *)
Definition AppendUint32 (buf : list byte) (v : Z) : list byte := buf ++ le_bytes 4 v.
Definition AppendUint64 (buf : list byte) (v : Z) : list byte := buf ++ le_bytes 8 v.

(** The length of a Go slice or string as an [int]. *)
Definition zlen {A} (l : list A) : Z := Z.of_nat (length l).

(** ** Parsers *)

Definition parser (A : Type) : Type := list byte → option (A * list byte).

#[global] Instance parser_ret : MRet parser := λ A a bs, Some (a, bs).
#[global] Instance parser_bind : MBind parser := λ A B k p bs,
  match p bs with Some (a, rest) => k a rest | None => None end.

Definition get_fail {A} : parser A := λ _, None.

Definition get_bytes (n : nat) : parser (list byte) := λ bs,
  if decide (n ≤ length bs)%nat then Some (take n bs, drop n bs) else None.

Definition get_u8 : parser byte := λ bs,
  match bs with b :: bs => Some (b, bs) | [] => None end.

Definition get_u32 : parser Z := bs ← get_bytes 4; mret (le_val bs).
Definition get_u64 : parser Z := bs ← get_bytes 8; mret (le_val bs).

Definition get_array (n : nat) : parser (array n) := bs ← get_bytes n; mret (array_of n bs).

Fixpoint get_many {A} (p : parser A) (n : nat) : parser (list A) :=
  match n with
  | O => mret []
  | S n => x ← p; xs ← get_many p n; mret (x :: xs)
  end.

(** A whole input parses when nothing is left. *)
Definition parse_all {A} (p : parser A) (bs : list byte) : option A :=
  match p bs with Some (a, []) => Some a | _ => None end.

(** *** What the parsers do in front of an encoding *)

Section parser_lemmas.
Context {B : Type}.

Lemma bind_get_bytes n (k : list byte → parser B) bs rest :
  length bs = n → (get_bytes n ≫= k) (bs ++ rest) = k bs rest.
Proof.
  intros <-. unfold mbind, parser_bind, get_bytes.
  rewrite decide_True by len. by rewrite take_app_length, drop_app_length.
Qed.

Lemma bind_get_u8 (k : byte → parser B) b rest : (get_u8 ≫= k) (b :: rest) = k b rest.
Proof. done. Qed.

Lemma bind_get_u32 (k : Z → parser B) v rest :
  is_u32 v → (get_u32 ≫= k) (le_bytes 4 v ++ rest) = k v rest.
Proof.
  intros Hv. unfold get_u32.
  transitivity ((get_bytes 4 ≫= λ bs, k (le_val bs)) (le_bytes 4 v ++ rest)); [|].
  { unfold mbind, parser_bind. by destruct (get_bytes 4 _) as [[]|]. }
  rewrite bind_get_bytes by len. by rewrite le_val_bytes_small.
Qed.

Lemma bind_get_u64 (k : Z → parser B) v rest :
  is_u64 v → (get_u64 ≫= k) (le_bytes 8 v ++ rest) = k v rest.
Proof.
  intros Hv. unfold get_u64.
  transitivity ((get_bytes 8 ≫= λ bs, k (le_val bs)) (le_bytes 8 v ++ rest)); [|].
  { unfold mbind, parser_bind. by destruct (get_bytes 8 _) as [[]|]. }
  rewrite bind_get_bytes by len. by rewrite le_val_bytes_small.
Qed.

Lemma bind_get_array {n} (k : array n → parser B) (a : array n) rest :
  (get_array n ≫= k) (array_list a ++ rest) = k a rest.
Proof.
  unfold get_array.
  transitivity ((get_bytes n ≫= λ bs, k (array_of n bs)) (array_list a ++ rest)); [|].
  { unfold mbind, parser_bind. by destruct (get_bytes n _) as [[]|]. }
  rewrite bind_get_bytes by len. by rewrite array_of_array.
Qed.
End parser_lemmas.

#[export] Hint Rewrite @bind_get_u8 @bind_get_array : wire.
#[export] Hint Rewrite @bind_get_u32 @bind_get_u64 @bind_get_bytes
  using (first [assumption | (unfold is_u32, is_u64; lia) | by len]) : wire.

Lemma parse_all_app {A} (p : parser A) bs a : p (bs ++ []) = Some (a, []) → parse_all p bs = Some a.
Proof. unfold parse_all. rewrite app_nil_r. by intros ->. Qed.

(** [run_parser] runs a parser on an encoding: it associates the appends to the
    right and executes the parser's first step, as long as there is one. *)
Ltac run_parser :=
  repeat (progress (unfold AppendUint32, AppendUint64; rewrite <- ?app_assoc;
                    cbn [app]; autorewrite with wire; cbn beta iota)).

(** ** The decoder interface *)

(** [get] reads back what [put] wrote, whatever follows, for the values in
    [wf] (those whose lengths and integers fit their fields). *)
Class Wire (A : Type) := {
  wf : A → Prop;
  put : A → list byte;
  get : parser A;
  get_put a rest : wf a → get (put a ++ rest) = Some (a, rest);
}.
Arguments wf {A _} a : simpl never.
Arguments put {A _} a : simpl never.
Arguments get {A _} : simpl never.

Section wire.
Context `{Wire A}.

Lemma bind_get {B} (k : A → parser B) a rest : wf a → (get ≫= k) (put a ++ rest) = k a rest.
Proof. intros Ha. unfold mbind, parser_bind. by rewrite get_put. Qed.

(** A decoder makes the encoder injective and its outputs self-delimiting. *)
Lemma put_app_inj a b r1 r2 : wf a → wf b → put a ++ r1 = put b ++ r2 → a = b ∧ r1 = r2.
Proof.
  intros Ha Hb Heq. pose proof (get_put a r1 Ha) as H1.
  rewrite Heq, get_put in H1 by done. by simplify_eq.
Qed.

Lemma put_inj a b : wf a → wf b → put a = put b → a = b.
Proof. intros Ha Hb Heq. apply (put_app_inj a b [] []); [done..|by rewrite Heq]. Qed.

Lemma parse_put a : wf a → parse_all get (put a) = Some a.
Proof.
  intros Ha. unfold parse_all. rewrite <- (app_nil_r (put a)), get_put; done.
Qed.

(** A sequence of encodings, whose length is known from elsewhere. *)
Lemma get_many_put l rest :
  Forall wf l → get_many get (length l) ((l ≫= put) ++ rest) = Some (l, rest).
Proof.
  induction 1 as [|x l Hx Hl IH]; [done|].
  rewrite bind_cons, <- app_assoc. simpl get_many. rewrite bind_get by done.
  unfold mbind at 1, parser_bind. by rewrite IH.
Qed.

Lemma bind_get_many {B} (k : list A → parser B) l rest :
  Forall wf l → (get_many get (length l) ≫= k) ((l ≫= put) ++ rest) = k l rest.
Proof. intros Hl. unfold mbind at 1, parser_bind. by rewrite get_many_put. Qed.
End wire.

(** Bytes and byte arrays of a fixed size. *)
#[global] Program Instance array_wire n : Wire (array n) := {|
  wf a := True;
  put a := array_list a;
  get := get_array n;
|}.
Next Obligation.
  intros n a rest _. unfold get_array, mbind, parser_bind.
  pose proof (bind_get_bytes n (λ bs, mret (array_of n bs)) a rest (length_array a)) as Hb.
  unfold mbind, parser_bind in Hb. rewrite Hb. by rewrite array_of_array.
Qed.
