(* ===== verification/Pubkey.v ===== *)
(** * Keys, hashes and constants: src/pubkey.go and src/constants.go.

    [Pubkey] and [Hash] are 32-byte arrays with a hexadecimal text form; the
    program ids are the byte literals of constants.go. Theorems: the text form is
    a bijection with the 64-digit hexadecimal strings up to case, the errors of
    the parsers, and the agreement of every program id with its base58 name. *)
From S2P Require Import Prelude GoLib.

(** ** Pubkey and Hash *)

Definition Pubkey : Type := array 32.
Definition Hash : Type := array 32.

#[global] Instance Pubkey_eq_dec : EqDecision Pubkey := array_eq_dec.
#[global] Instance Pubkey_countable : Countable Pubkey := array_countable.
#[global] Instance Hash_eq_dec : EqDecision Hash := array_eq_dec.

(** [fmt.Errorf("<what> must be <want> bytes, got %d", n)] *)
Definition length_error (what want : string) (n : nat) : error :=
  ErrorString (what +:+ " must be " +:+ want +:+ " bytes, got " +:+ pretty n).

Definition PubkeyFromHex (s : string) : result Pubkey :=
  b ← wrap_err "invalid pubkey hex" (hex.DecodeString s);
  if decide (length b ≠ 32%nat) then Err (length_error "pubkey" "32" (length b))
  else Ok (copy (zero_array 32) b).

Definition Pubkey_String (p : Pubkey) : string := hex.EncodeToString p.

Definition HashFromHex (s : string) : result Hash :=
  b ← wrap_err "invalid hash hex" (hex.DecodeString s);
  if decide (length b ≠ 32%nat) then Err (length_error "hash" "32" (length b))
  else Ok (copy (zero_array 32) b).

Definition Hash_String (h : Hash) : string := hex.EncodeToString h.

(** ** Constants *)

Definition RuntimeTxSizeLimit : Z := 1232.
Definition RuntimeTxVersion : Z := 0.
Definition MaxTxBatchSize : Z := 100.
Definition MaxSigners : Z := 16.
Definition MaxTransactionsPerBlock : Z := 1024.

(** A [Pubkey{...}] literal: the listed bytes, then zeros. *)
Definition pubkey_lit (l : list Z) : Pubkey := array_of 32 (bytes_lit l).

Definition SystemProgramID : Pubkey := zero_array 32.

Definition TokenProgramID : Pubkey := pubkey_lit [
  6; 221; 246; 225; 185; 234; 132; 65; 44; 16; 184; 223; 2; 28; 16; 15;
  200; 135; 25; 7; 195; 9; 195; 53; 53; 222; 32; 156; 52; 23; 99; 191].

Definition AssociatedTokenProgramID : Pubkey := pubkey_lit [
  140; 151; 35; 17; 132; 146; 123; 119; 181; 241; 128; 17; 143; 204; 104; 52;
  20; 183; 124; 82; 30; 90; 119; 8; 28; 247; 29; 95; 96; 106; 83; 132].

Definition BpfLoaderProgramID : Pubkey := pubkey_lit [
  2; 197; 178; 216; 231; 45; 42; 178; 55; 139; 51; 119; 73; 71; 125; 120;
  122; 208; 19; 239; 94; 121; 232; 49; 230; 137; 68; 140; 0; 0; 0; 0].

Definition VoteProgramID : Pubkey := pubkey_lit [
  7; 97; 72; 37; 227; 237; 86; 6; 249; 190; 178; 214; 177; 8; 63; 226;
  34; 198; 130; 48; 216; 183; 167; 155; 11; 12; 86; 34; 0; 0; 0; 0].

Definition StakeProgramID : Pubkey := pubkey_lit [
  6; 161; 216; 23; 183; 136; 220; 118; 238; 58; 149; 122; 111; 233; 45; 126;
  42; 165; 35; 109; 10; 154; 58; 130; 3; 20; 197; 133; 0; 0; 0; 0].

Definition ComputeBudgetProgramID : Pubkey := pubkey_lit [
  3; 6; 70; 111; 229; 33; 23; 50; 255; 236; 173; 186; 114; 195; 155; 231;
  188; 140; 229; 187; 197; 247; 18; 107; 44; 67; 155; 58; 64; 0; 0; 0].

Definition NativeLoaderProgramID : Pubkey := pubkey_lit [
  5; 135; 132; 191; 20; 139; 164; 40; 47; 176; 18; 87; 72; 136; 169; 241;
  83; 160; 125; 173; 247; 101; 192; 69; 92; 154; 151; 3; 128; 0; 0; 0].

(** ** Base58, the notation the comments of constants.go name the programs in *)

Module base58.
Definition alphabet : list byte :=
  String.list_byte_of_string "123456789ABCDEFGHJKLMNPQRSTUVWXYZabcdefghijkmnopqrstuvwxyz".

Definition digit (c : byte) : option Z :=
  (λ p, Z.of_nat p.1) <$> list_find (λ d, d = c) alphabet.

Definition number (s : string) : option Z :=
  foldl (λ acc c, a ← acc; d ← digit c; Some (58 * a + d)) (Some 0)
    (String.list_byte_of_string s).

(** The 32-byte big-endian key a base58 string denotes. *)
Definition to_key (s : string) : option Pubkey :=
  (λ n, array_of 32 (rev (le_bytes 32 n))) <$> number s.
End base58.

(** ** Properties *)

Lemma from_hex_iff (b : list byte) (s : string) :
  hex.DecodeString s = Ok b ↔ hex.lower <$> String.list_byte_of_string s = hex.Encode b.
Proof. apply hex.Decode_iff. Qed.

(** The body the two parsers share. *)
Lemma parse_array_iff n (m : result (list byte)) (e : list byte → error) (a : array n) :
  (b ← m; if decide (length b ≠ n) then Err (e b) else Ok (copy (zero_array n) b)) = Ok a
  ↔ m = Ok (array_list a).
Proof.
  rewrite bind_Ok. split.
  - intros (b & -> & Hb). case_decide as Hlen; [done|].
    injection Hb as <-. by rewrite copy_exact.
  - intros ->. exists (array_list a). split; [done|].
    rewrite decide_False by (rewrite length_array; auto).
    f_equal. apply array_of_array.
Qed.

Lemma PubkeyFromHex_Ok s (k : Pubkey) :
  PubkeyFromHex s = Ok k ↔ hex.DecodeString s = Ok (array_list k).
Proof. etransitivity; [apply (parse_array_iff 32)|apply wrap_err_Ok]. Qed.

Lemma HashFromHex_Ok s (k : Hash) :
  HashFromHex s = Ok k ↔ hex.DecodeString s = Ok (array_list k).
Proof. etransitivity; [apply (parse_array_iff 32)|apply wrap_err_Ok]. Qed.

(** [PubkeyFromHex] and [HashFromHex] accept exactly the strings that equal,
    up to the case of their digits, the [String] form of a key (hash), and return
    that key; in particular parsing inverts printing and every accepted string has
    64 hexadecimal digits. *)
Lemma FromHex_iff (s : string) (k : array 32) :
  let prints := hex.lower <$> String.list_byte_of_string s = String.list_byte_of_string (Pubkey_String k) in
  (PubkeyFromHex s = Ok k ↔ prints) ∧ (HashFromHex s = Ok k ↔ prints) ∧
  PubkeyFromHex (Pubkey_String k) = Ok k ∧ HashFromHex (Hash_String k) = Ok k ∧
  length (hex.Encode k) = 64%nat.
Proof.
  intros prints. rewrite !PubkeyFromHex_Ok, !HashFromHex_Ok.
  assert (hex.DecodeString s = Ok (array_list k) ↔ prints) as Hparse.
  { rewrite from_hex_iff. unfold prints, Pubkey_String, hex.EncodeToString.
    by rewrite String.list_byte_of_string_of_list_byte. }
  split_ands; [done|done|apply hex.DecodeString_EncodeToString..|].
  by rewrite hex.length_Encode, length_array.
Qed.

(** Every program id of constants.go is the key its base58 name denotes. *)
Lemma program_ids_base58 :
  base58.to_key "11111111111111111111111111111111" = Some SystemProgramID ∧
  base58.to_key "TokenT4em53UrV4gSvZ3nCS2mZeHaqTLapwt6iZt6Mk" = Some TokenProgramID ∧
  base58.to_key "ATok9pxLsNzM5zJJ3UQpXBrMriHpZiY5Yio3GKYU4we3" = Some AssociatedTokenProgramID ∧
  base58.to_key "BpfLoader1111111111111111111111111111111111" = Some BpfLoaderProgramID ∧
  base58.to_key "VoteProgram11111111111111111111111111111111" = Some VoteProgramID ∧
  base58.to_key "StakeProgram1111111111111111111111111111111" = Some StakeProgramID ∧
  base58.to_key "ComputeBudget111111111111111111111111111111" = Some ComputeBudgetProgramID ∧
  base58.to_key "NativeLoader1111111111111111111111111111111" = Some NativeLoaderProgramID.
Proof. split_ands; vm_compute; reflexivity. Qed.
