(* ===== verification/Message.v ===== *)
(** * Instructions and messages: src/message.go.

    The uncompiled [Instruction], the compiled [SanitizedInstruction] and
    [SanitizedMessage], their binary serialization and the signing digest. The
    serialization gets [Wire] instances (a reader that inverts it), from which its
    injectivity follows; the digest is tied to SHA-256 and to the fixture of
    src/message_test.go. *)
From S2P Require Import Prelude GoLib Sha256 Wire Pubkey.

#[global] Instance Pubkey_wire : Wire Pubkey := array_wire 32.

(** Reading keys and hashes. *)
Definition get_pubkey : parser Pubkey := get_array 32.
Definition get_hash : parser Hash := get_array 32.

Lemma bind_get_pubkey {B} (k : Pubkey → parser B) (p : Pubkey) rest :
  (get_pubkey ≫= k) (array_list p ++ rest) = k p rest.
Proof. apply (bind_get_array k p rest). Qed.

Lemma bind_get_hash {B} (k : Hash → parser B) (h : Hash) rest :
  (get_hash ≫= k) (array_list h ++ rest) = k h rest.
Proof. apply (bind_get_array k h rest). Qed.

#[export] Hint Rewrite @bind_get_pubkey @bind_get_hash : wire.

(** ** Data *)

Record AccountMeta := MkAccountMeta {
  am_Pubkey : Pubkey;
  am_IsSigner : bool;
  am_IsWritable : bool;
}.

Record Instruction := MkInstruction {
  ix_ProgramID : Pubkey;
  ix_Accounts : list AccountMeta;
  ix_Data : list byte;
}.

Record MessageHeader := MkMessageHeader {
  NumRequiredSignatures : byte;
  NumReadonlySignedAccounts : byte;
  NumReadonlyUnsignedAccounts : byte;
}.

Record SanitizedInstruction := MkSanitizedInstruction {
  si_ProgramIDIndex : byte;
  si_Accounts : list byte;
  si_Data : list byte;
}.

Record SanitizedMessage := MkSanitizedMessage {
  m_Header : MessageHeader;
  m_AccountKeys : list Pubkey;
  m_RecentBlockhash : Hash;
  m_Instructions : list SanitizedInstruction;
}.

#[global] Instance AccountMeta_eq_dec : EqDecision AccountMeta.
Proof. solve_decision. Defined.
#[global] Instance Instruction_eq_dec : EqDecision Instruction.
Proof. solve_decision. Defined.
#[global] Instance MessageHeader_eq_dec : EqDecision MessageHeader.
Proof. solve_decision. Defined.
#[global] Instance SanitizedInstruction_eq_dec : EqDecision SanitizedInstruction.
Proof. solve_decision. Defined.
#[global] Instance SanitizedMessage_eq_dec : EqDecision SanitizedMessage.
Proof. solve_decision. Defined.

(** ** Serialization *)

(** [SanitizedInstruction.Serialize]: the buffer as it grows. *)
Definition SanitizedInstruction_Serialize (si : SanitizedInstruction) : list byte :=
  let buf := [si_ProgramIDIndex si] in
  let buf := AppendUint32 buf (uint32 (zlen (si_Accounts si))) in
  let buf := buf ++ si_Accounts si in
  let buf := AppendUint32 buf (uint32 (zlen (si_Data si))) in
  buf ++ si_Data si.

(** [SanitizedMessage.Serialize]; the two loops append one item at a time. *)
Definition SanitizedMessage_Serialize (m : SanitizedMessage) : list byte :=
  let h := m_Header m in
  let buf := [] ++ [NumRequiredSignatures h; NumReadonlySignedAccounts h;
                    NumReadonlyUnsignedAccounts h] in
  let buf := AppendUint32 buf (uint32 (zlen (m_AccountKeys m))) in
  let buf := foldl (λ buf (key : Pubkey), buf ++ array_list key) buf (m_AccountKeys m) in
  let buf := buf ++ array_list (m_RecentBlockhash m) in
  let buf := AppendUint32 buf (uint32 (zlen (m_Instructions m))) in
  foldl (λ buf ix, buf ++ SanitizedInstruction_Serialize ix) buf (m_Instructions m).

(** [SanitizedMessage.Hash]: hex(sha256(hex(sha256(serialize)))), as ASCII bytes. *)
Definition SanitizedMessage_Hash (m : SanitizedMessage) : list byte :=
  let first := sha256.Sum256 (SanitizedMessage_Serialize m) in
  let firstHex := String.list_byte_of_string (hex.EncodeToString first) in
  let second := sha256.Sum256 firstHex in
  String.list_byte_of_string (hex.EncodeToString second).

(** ** The reader of the format *)

Lemma foldl_append {A} (f : A → list byte) buf l :
  foldl (λ buf x, buf ++ f x) buf l = buf ++ (l ≫= f).
Proof.
  revert buf. induction l as [|x l IH]; intros buf; simpl; [by rewrite app_nil_r|].
  by rewrite IH, <- app_assoc.
Qed.

(** The serialized form without the buffer passing. *)
Lemma SanitizedInstruction_Serialize_eq si :
  SanitizedInstruction_Serialize si =
  si_ProgramIDIndex si :: le_bytes 4 (uint32 (zlen (si_Accounts si))) ++ si_Accounts si ++
  le_bytes 4 (uint32 (zlen (si_Data si))) ++ si_Data si.
Proof. unfold SanitizedInstruction_Serialize, AppendUint32. by rewrite <- !app_assoc. Qed.

Lemma SanitizedMessage_Serialize_eq m :
  SanitizedMessage_Serialize m =
  NumRequiredSignatures (m_Header m) :: NumReadonlySignedAccounts (m_Header m) ::
  NumReadonlyUnsignedAccounts (m_Header m) ::
  le_bytes 4 (uint32 (zlen (m_AccountKeys m))) ++
  (m_AccountKeys m ≫= put) ++ array_list (m_RecentBlockhash m) ++
  le_bytes 4 (uint32 (zlen (m_Instructions m))) ++
  (m_Instructions m ≫= SanitizedInstruction_Serialize).
Proof.
  unfold SanitizedMessage_Serialize, AppendUint32. rewrite !foldl_append, <- !app_assoc. done.
Qed.

#[global] Opaque SanitizedInstruction_Serialize SanitizedMessage_Serialize.

(** What the format can carry: counts and lengths below 2^32. *)
Definition instruction_fits (si : SanitizedInstruction) : Prop :=
  is_u32 (zlen (si_Accounts si)) ∧ is_u32 (zlen (si_Data si)).
Definition message_fits (m : SanitizedMessage) : Prop :=
  is_u32 (zlen (m_AccountKeys m)) ∧ is_u32 (zlen (m_Instructions m)) ∧
  Forall instruction_fits (m_Instructions m).

#[global] Instance instruction_fits_dec si : Decision (instruction_fits si).
Proof. unfold instruction_fits. apply _. Defined.
#[global] Instance message_fits_dec m : Decision (message_fits m).
Proof. unfold message_fits. apply _. Defined.

Definition get_instruction : parser SanitizedInstruction :=
  idx ← get_u8;
  n ← get_u32; accounts ← get_bytes (Z.to_nat n);
  k ← get_u32; data ← get_bytes (Z.to_nat k);
  mret (MkSanitizedInstruction idx accounts data).

Lemma zlen_to_nat {A} (l : list A) : Z.to_nat (zlen l) = length l.
Proof. apply Nat2Z.id. Qed.

Lemma get_instruction_Serialize si rest :
  instruction_fits si → get_instruction (SanitizedInstruction_Serialize si ++ rest) = Some (si, rest).
Proof.
  destruct si as [idx acc data]. intros [Hacc Hdata]. simpl in *.
  rewrite SanitizedInstruction_Serialize_eq. simpl. rewrite !uint32_small by done.
  unfold get_instruction. rewrite <- !app_assoc.
  rewrite bind_get_u8, bind_get_u32, zlen_to_nat, bind_get_bytes by done.
  by rewrite bind_get_u32, zlen_to_nat, bind_get_bytes by done.
Qed.

#[global] Instance instruction_wire : Wire SanitizedInstruction := {|
  wf := instruction_fits;
  put := SanitizedInstruction_Serialize;
  get := get_instruction;
  get_put := get_instruction_Serialize;
|}.

Definition get_message : parser SanitizedMessage :=
  a ← get_u8; b ← get_u8; c ← get_u8;
  n ← get_u32; keys ← get_many get (Z.to_nat n);
  hash ← get_hash;
  k ← get_u32; ixs ← get_many get (Z.to_nat k);
  mret (MkSanitizedMessage (MkMessageHeader a b c) keys hash ixs).

Lemma get_message_Serialize m rest :
  message_fits m → get_message (SanitizedMessage_Serialize m ++ rest) = Some (m, rest).
Proof.
  destruct m as [[a b c] keys hash ixs]. intros (Hkeys & Hixs & Hfit). simpl in *.
  rewrite SanitizedMessage_Serialize_eq. simpl. rewrite !uint32_small by done.
  unfold get_message. rewrite <- !app_assoc. rewrite !bind_get_u8, bind_get_u32, zlen_to_nat by done.
  rewrite bind_get_many by (by apply Forall_true).
  rewrite bind_get_hash, bind_get_u32, zlen_to_nat by done.
  change (ixs ≫= SanitizedInstruction_Serialize) with (ixs ≫= put).
  by rewrite bind_get_many.
Qed.

#[global] Instance message_wire : Wire SanitizedMessage := {|
  wf := message_fits;
  put := SanitizedMessage_Serialize;
  get := get_message;
  get_put := get_message_Serialize;
|}.

(** ** Sizes *)

Definition instruction_size (si : SanitizedInstruction) : nat :=
  9 + length (si_Accounts si) + length (si_Data si).

Lemma length_bind_sum {A} (f : A → list byte) (size : A → nat) (l : list A) :
  (∀ x, length (f x) = size x) → length (l ≫= f) = sum_list_with size l.
Proof.
  intros Hf. induction l as [|x l IH]; [done|].
  rewrite bind_cons, length_app, Hf, IH. done.
Qed.

Lemma sum_list_with_const {A} (c : nat) (l : list A) :
  sum_list_with (λ _, c) l = (c * length l)%nat.
Proof. induction l as [|x l IH]; simpl; lia. Qed.

Lemma length_instruction si : length (SanitizedInstruction_Serialize si) = instruction_size si.
Proof. rewrite SanitizedInstruction_Serialize_eq. unfold instruction_size. len. Qed.

Lemma length_message m :
  length (SanitizedMessage_Serialize m) =
  (43 + 32 * length (m_AccountKeys m) + sum_list_with instruction_size (m_Instructions m))%nat.
Proof.
  rewrite SanitizedMessage_Serialize_eq. simpl. autorewrite with arch.
  rewrite (length_bind_sum _ (λ _, 32%nat)) by apply length_array.
  rewrite sum_list_with_const.
  rewrite (length_bind_sum _ instruction_size) by apply length_instruction. lia.
Qed.

(** ** Properties *)

(** C24: the message format can be read back: for a message whose counts and
    lengths are below 2^32, a decoder recovers the message and leaves exactly what
    follows, so the serialization is injective and self-delimiting. *)
Theorem SanitizedMessage_roundtrip m m' rest rest' :
  message_fits m → message_fits m' →
  get_message (SanitizedMessage_Serialize m ++ rest) = Some (m, rest) ∧
  parse_all get_message (SanitizedMessage_Serialize m) = Some m ∧
  (SanitizedMessage_Serialize m ++ rest = SanitizedMessage_Serialize m' ++ rest' ↔
   m = m' ∧ rest = rest').
Proof.
  intros Hm Hm'. split_ands.
  - by apply get_message_Serialize.
  - exact (parse_put m Hm).
  - split; [exact (put_app_inj m m' rest rest' Hm Hm')|by intros [-> ->]].
Qed.

(** The serialized size of a message: 43 bytes, 32 per account key and, per
    instruction, 9 bytes plus its account indices and its data. *)
Lemma SanitizedMessage_size m :
  zlen (SanitizedMessage_Serialize m) =
  43 + 32 * zlen (m_AccountKeys m) +
  Z.of_nat (sum_list_with (λ si, 9 + length (si_Accounts si) + length (si_Data si))%nat
    (m_Instructions m)).
Proof.
  unfold zlen. rewrite length_message. unfold instruction_size. lia.
Qed.

(** The digest both transactions and messages use: SHA-256 of the hexadecimal
    text of a SHA-256, in hexadecimal. *)
Definition double_hash (bs : list byte) : list byte :=
  hex.Encode (sha256.Sum256 (hex.Encode (sha256.Sum256 bs))).

Lemma EncodeToString_bytes bs :
  String.list_byte_of_string (hex.EncodeToString bs) = hex.Encode bs.
Proof. apply String.list_byte_of_string_of_list_byte. Qed.

Lemma length_double_hash bs : length (double_hash bs) = 64%nat.
Proof. unfold double_hash. by rewrite hex.length_Encode, length_array. Qed.

(** The signing digest of a message is 64 bytes, all lower-case hexadecimal
    digits, namely the text of the second hash of the double hash over the
    serialized message; decoding it as hexadecimal gives that second hash. *)
Lemma SanitizedMessage_Hash_spec m :
  SanitizedMessage_Hash m = double_hash (SanitizedMessage_Serialize m) ∧
  length (SanitizedMessage_Hash m) = 64%nat ∧
  hex.lower <$> SanitizedMessage_Hash m = SanitizedMessage_Hash m ∧
  hex.Decode (SanitizedMessage_Hash m) =
    Ok (array_list (sha256.Sum256 (hex.Encode (sha256.Sum256 (SanitizedMessage_Serialize m))))).
Proof.
  assert (SanitizedMessage_Hash m = double_hash (SanitizedMessage_Serialize m)) as ->.
  { unfold SanitizedMessage_Hash. by rewrite !EncodeToString_bytes. }
  split_ands; [done|apply length_double_hash| |apply hex.Decode_Encode].
  apply hex.Decode_iff, hex.Decode_Encode.
Qed.

(** ** The fixture of src/message_test.go *)

Definition fixtureMessage : SanitizedMessage := {|
  m_Header := MkMessageHeader (byte_of 1) (byte_of 0) (byte_of 1);
  m_AccountKeys := [pubkey_lit (seqZ 1 32); SystemProgramID];
  m_RecentBlockhash := pubkey_lit (replicate 32 0xAA);
  m_Instructions := [
    MkSanitizedInstruction (byte_of 1) (bytes_lit [0]) (bytes_lit [1; 2; 3]);
    MkSanitizedInstruction (byte_of 1) (bytes_lit [0; 1])
      (bytes_lit [250; 251; 252; 253; 254; 255; 250; 251; 252; 253])];
|}.

(** The serialized text and digest that the TypeScript SDK produces. *)
Example fixture_serialized :
  hex.EncodeToString (SanitizedMessage_Serialize fixtureMessage) =
  "010001020000000102030405060708090a0b0c0d0e0f101112131415161718191a1b1c1d1e1f200000000000000000000000000000000000000000000000000000000000000000aaaaaaaaaaaaaaaaaaaaaaaaaaaaaaaaaaaaaaaaaaaaaaaaaaaaaaaaaaaaaaaa0200000001010000000003000000010203010200000000010a000000fafbfcfdfefffafbfcfd".
Proof. vm_compute. reflexivity. Qed.

Example fixture_hash :
  String.string_of_list_byte (SanitizedMessage_Hash fixtureMessage) =
  "920c8cf815dda297d7fcd85d79a7b0856c96b488ed2eb11171f17d4ccee7b795".
Proof. vm_compute. reflexivity. Qed.

Lemma SanitizedMessage_roundtrip_witness :
  parse_all get_message (SanitizedMessage_Serialize fixtureMessage) = Some fixtureMessage.
Proof.
  assert (message_fits fixtureMessage) as Hfit by (apply (bool_decide_unpack _); vm_compute; exact I).
  exact (proj1 (proj2 (SanitizedMessage_roundtrip fixtureMessage fixtureMessage [] [] Hfit Hfit))).
Defined.
