(* ===== verification/Compile.v ===== *)
(** * Message compilation: src/compile.go.

    [NewSanitizedMessage] merges the privileges of every account an instruction
    list mentions, orders the keys in four groups and replaces keys by indices.
    The model follows the function block by block; the two places where the Go
    runtime has a choice (map iteration, sort algorithm) go through [GoRuntime].
    The specification is written from the node's side: which privileges were
    requested, and which ones a header and an index grant. *)
From S2P Require Import Prelude GoLib Wire Pubkey Message.

(** ** The program *)

Record compiledKeyMeta := Meta {
  isSigner : bool;
  isWritable : bool;
  isInvoked : bool;
}.

(** [&compiledKeyMeta{}] *)
Definition zeroMeta : compiledKeyMeta := Meta false false false.

(** [getMeta]: the entry of [key], created when missing. The pointer it returns is
    the entry itself, so a write through it is an update of the map. *)
Definition getMeta (m : gmap Pubkey compiledKeyMeta) (key : Pubkey) :
    compiledKeyMeta * gmap Pubkey compiledKeyMeta :=
  match m !! key with
  | Some x => (x, m)
  | None => (zeroMeta, <[key := zeroMeta]> m)
  end.

Definition updateMeta (f : compiledKeyMeta → compiledKeyMeta) (key : Pubkey)
    (m : gmap Pubkey compiledKeyMeta) : gmap Pubkey compiledKeyMeta :=
  let '(x, m) := getMeta m key in <[key := f x]> m.

Definition setInvoked (x : compiledKeyMeta) : compiledKeyMeta :=
  Meta (isSigner x) (isWritable x) true.

(** [m.isSigner = m.isSigner || a.IsSigner; m.isWritable = m.isWritable || a.IsWritable] *)
Definition mergeAccount (a : AccountMeta) (x : compiledKeyMeta) : compiledKeyMeta :=
  Meta (isSigner x || am_IsSigner a) (isWritable x || am_IsWritable a) (isInvoked x).

Definition setPayer (x : compiledKeyMeta) : compiledKeyMeta := Meta true true (isInvoked x).

Definition collectInstruction (m : gmap Pubkey compiledKeyMeta) (ix : Instruction) :
    gmap Pubkey compiledKeyMeta :=
  foldl (λ m a, updateMeta (mergeAccount a) (am_Pubkey a) m)
    (updateMeta setInvoked (ix_ProgramID ix) m) (ix_Accounts ix).

Definition collectKeys (instructions : list Instruction) (payer : option Pubkey) :
    gmap Pubkey compiledKeyMeta :=
  let m := foldl collectInstruction ∅ instructions in
  match payer with
  | Some p => updateMeta setPayer p m
  | None => m
  end.

(** The keys other than the payer, sorted by [bytes.Compare]. *)
Definition drainSorted {RT : GoRuntime} (m : gmap Pubkey compiledKeyMeta)
    (payer : option Pubkey) : list Pubkey :=
  sort_Slice array_less (filter (λ key, payer ≠ Some key) (go_range m)).

Record keyGroups := Groups {
  writableSigners : list Pubkey;
  readonlySigners : list Pubkey;
  writableNonSigners : list Pubkey;
  readonlyNonSigners : list Pubkey;
}.

(** One step of the loop over the sorted keys: the [switch] on the flags. *)
Definition classify (m : gmap Pubkey compiledKeyMeta) (g : keyGroups) (key : Pubkey) : keyGroups :=
  let 'Groups ws rs wn rn := g in
  let x := default zeroMeta (m !! key) in
  match isSigner x, isWritable x with
  | true, true => Groups (ws ++ [key]) rs wn rn
  | true, false => Groups ws (rs ++ [key]) wn rn
  | false, true => Groups ws rs (wn ++ [key]) rn
  | false, false => Groups ws rs wn (rn ++ [key])
  end.

Definition groupKeys {RT : GoRuntime} (m : gmap Pubkey compiledKeyMeta)
    (payer : option Pubkey) : keyGroups :=
  foldl (classify m) (Groups (option_list payer) [] [] []) (drainSorted m payer).

Definition overflowError : error := ErrorString "account index overflowed during compilation".

Definition unknownKeyError (key : Pubkey) : error :=
  ErrorString ("encountered unknown account key " +:+ Pubkey_String key
               +:+ " during instruction compilation").

(** The guard before the counts are narrowed to [uint8]. *)
Definition overflows (g : keyGroups) : bool :=
  let signersLen := zlen (writableSigners g) + zlen (readonlySigners g) in
  let totalKeys := signersLen + zlen (writableNonSigners g) + zlen (readonlyNonSigners g) in
  (255 <? signersLen) || (255 <? zlen (readonlySigners g))
  || (255 <? zlen (readonlyNonSigners g)) || (256 <? totalKeys).

Definition accountKeysOf (g : keyGroups) : list Pubkey :=
  writableSigners g ++ readonlySigners g ++ writableNonSigners g ++ readonlyNonSigners g.

(** [for i, key := range accountKeys { keyIndex[key] = uint8(i) }] *)
Definition buildKeyIndex (keys : list Pubkey) : gmap Pubkey byte :=
  foldl (λ idx ik, <[ik.2 := byte_of (Z.of_nat ik.1)]> idx) ∅ (imap pair keys).

Definition lookupKey (keyIndex : gmap Pubkey byte) (key : Pubkey) : result byte :=
  match keyIndex !! key with
  | Some i => Ok i
  | None => Err (unknownKeyError key)
  end.

Definition compileInstruction (keyIndex : gmap Pubkey byte) (ix : Instruction) :
    result SanitizedInstruction :=
  programIdx ← lookupKey keyIndex (ix_ProgramID ix);
  accounts ← mapM (λ a, lookupKey keyIndex (am_Pubkey a)) (ix_Accounts ix);
  Ok (MkSanitizedInstruction programIdx accounts (ix_Data ix)).

Definition NewSanitizedMessage {RT : GoRuntime} (instructions : list Instruction)
    (payer : option Pubkey) (recentBlockhash : Hash) : result SanitizedMessage :=
  let g := groupKeys (collectKeys instructions payer) payer in
  if overflows g then Err overflowError
  else
    let accountKeys := accountKeysOf g in
    compiled ← mapM (compileInstruction (buildKeyIndex accountKeys)) instructions;
    Ok {|
      m_Header := {|
        NumRequiredSignatures := byte_of (zlen (writableSigners g) + zlen (readonlySigners g));
        NumReadonlySignedAccounts := byte_of (zlen (readonlySigners g));
        NumReadonlyUnsignedAccounts := byte_of (zlen (readonlyNonSigners g));
      |};
      m_AccountKeys := accountKeys;
      m_RecentBlockhash := recentBlockhash;
      m_Instructions := compiled;
    |}.

(** ** The specification *)

(** What the instructions and the payer ask for, per key. *)
Definition mentioned (ixs : list Instruction) (payer : option Pubkey) : list Pubkey :=
  (ixs ≫= λ ix, ix_ProgramID ix :: (am_Pubkey <$> ix_Accounts ix)) ++ option_list payer.

Definition requested (flag : AccountMeta → bool) (ixs : list Instruction)
    (payer : option Pubkey) (key : Pubkey) : bool :=
  existsb (λ ix, existsb (λ a, bool_decide (am_Pubkey a = key) && flag a) (ix_Accounts ix)) ixs
  || bool_decide (payer = Some key).

Definition invoked (ixs : list Instruction) (key : Pubkey) : bool :=
  existsb (λ ix, bool_decide (ix_ProgramID ix = key)) ixs.

Definition asksSigner := requested am_IsSigner.
Definition asksWritable := requested am_IsWritable.

(** What a header grants the account at index [i], as the node reads it: the first
    [NumRequiredSignatures] accounts sign, and the last accounts of the signed and
    of the unsigned part are read-only. *)
Definition grantsSigner (m : SanitizedMessage) (i : nat) : bool :=
  Z.of_nat i <? byte_val (NumRequiredSignatures (m_Header m)).

Definition grantsWritable (m : SanitizedMessage) (i : nat) : bool :=
  let h := m_Header m in
  let signed := byte_val (NumRequiredSignatures h) in
  if grantsSigner m i
  then Z.of_nat i <? signed - byte_val (NumReadonlySignedAccounts h)
  else Z.of_nat i <? zlen (m_AccountKeys m) - byte_val (NumReadonlyUnsignedAccounts h).

(** Following an index back to its key. *)
Definition resolve (m : SanitizedMessage) (i : byte) : option Pubkey :=
  m_AccountKeys m !! Z.to_nat (byte_val i).

(** ** Collecting *)

(** Every write to the map is a contribution of flags to one key. *)
Definition orMeta (y x : compiledKeyMeta) : compiledKeyMeta :=
  Meta (isSigner x || isSigner y) (isWritable x || isWritable y) (isInvoked x || isInvoked y).

Definition contributions (ix : Instruction) : list (Pubkey * compiledKeyMeta) :=
  (ix_ProgramID ix, Meta false false true) ::
  ((λ a, (am_Pubkey a, Meta (am_IsSigner a) (am_IsWritable a) false)) <$> ix_Accounts ix).

Definition allContributions (ixs : list Instruction) (payer : option Pubkey) :
    list (Pubkey * compiledKeyMeta) :=
  (ixs ≫= contributions) ++ ((λ p, (p, Meta true true false)) <$> option_list payer).

Definition contribute (m : gmap Pubkey compiledKeyMeta) (c : Pubkey * compiledKeyMeta) :
    gmap Pubkey compiledKeyMeta := updateMeta (orMeta c.2) c.1 m.

Definition anyFlag (flag : compiledKeyMeta → bool) (cs : list (Pubkey * compiledKeyMeta))
    (key : Pubkey) : bool :=
  existsb (λ c, bool_decide (c.1 = key) && flag c.2) cs.

Lemma updateMeta_insert f key m :
  updateMeta f key m = <[key := f (default zeroMeta (m !! key))]> m.
Proof.
  unfold updateMeta, getMeta. destruct (m !! key); simpl; [done|]. apply insert_insert_eq.
Qed.

Lemma updateMeta_ext f g key m : (∀ x, f x = g x) → updateMeta f key m = updateMeta g key m.
Proof. intros H. by rewrite !updateMeta_insert, H. Qed.

Lemma collectInstruction_contributions ix m :
  collectInstruction m ix = foldl contribute m (contributions ix).
Proof.
  unfold collectInstruction, contributions. simpl.
  replace (updateMeta setInvoked (ix_ProgramID ix) m)
    with (contribute m (ix_ProgramID ix, Meta false false true)).
  2:{ apply updateMeta_ext. intros []. unfold orMeta, setInvoked. simpl.
      by rewrite !orb_false_r, orb_true_r. }
  generalize (contribute m (ix_ProgramID ix, Meta false false true)) as m'.
  induction (ix_Accounts ix) as [|a l IH]; intros m'; simpl; [done|].
  rewrite <- IH. f_equal. apply updateMeta_ext. intros [].
  unfold orMeta, mergeAccount. simpl. by rewrite orb_false_r.
Qed.

Lemma collectKeys_contributions ixs payer :
  collectKeys ixs payer = foldl contribute ∅ (allContributions ixs payer).
Proof.
  unfold collectKeys, allContributions. rewrite foldl_app.
  assert (∀ m, foldl collectInstruction m ixs = foldl contribute m (ixs ≫= contributions)) as ->.
  { induction ixs as [|ix ixs IH]; intros m; [done|].
    rewrite bind_cons, foldl_app. simpl. by rewrite IH, collectInstruction_contributions. }
  destruct payer as [p|]; simpl; [|done]. apply updateMeta_ext. intros [].
  unfold orMeta, setPayer. simpl. by rewrite !orb_true_r, orb_false_r.
Qed.

(** The collected map, key by key. *)
Lemma foldl_contribute_lookup cs m key :
  foldl contribute m cs !! key =
  if bool_decide (key ∈ cs.*1) then
    let x := default zeroMeta (m !! key) in
    Some (Meta (isSigner x || anyFlag isSigner cs key)
            (isWritable x || anyFlag isWritable cs key)
            (isInvoked x || anyFlag isInvoked cs key))
  else m !! key.
Proof.
  revert m. induction cs as [|[k y] cs IH]; intros m; simpl; [done|].
  rewrite IH. unfold contribute. simpl. rewrite updateMeta_insert.
  destruct (decide (k = key)) as [->|Hne].
  - rewrite lookup_insert_eq, !(bool_decide_eq_true_2 (key = key)) by done. simpl.
    rewrite (bool_decide_eq_true_2 (key ∈ key :: _)) by left.
    case_bool_decide as Hin; simpl; [by rewrite !orb_assoc|].
    assert (∀ flag, anyFlag flag cs key = false) as Hnone.
    { intros flag. apply not_true_is_false. intros ([k' y'] & Hc & Hk)%existsb_exists.
      apply andb_true_iff in Hk as [Hk%bool_decide_eq_true _]. simpl in Hk. subst k'.
      apply Hin. apply (list_elem_of_fmap_2 fst _ (key, y')). by apply list_elem_of_In. }
    unfold orMeta. by rewrite !Hnone, !orb_false_r.
  - rewrite lookup_insert_ne, !(bool_decide_eq_false_2 (k = key)) by done. simpl.
    case_bool_decide as Hin; case_bool_decide as Hin'; try done.
    + destruct Hin'. by right.
    + apply elem_of_cons in Hin' as [->|?]; done.
Qed.

Lemma allContributions_fst ixs payer : (allContributions ixs payer).*1 = mentioned ixs payer.
Proof.
  unfold allContributions, mentioned. rewrite fmap_app. f_equal; [|by destruct payer].
  induction ixs as [|ix ixs IH]; [done|]. rewrite !bind_cons, fmap_app, IH. f_equal.
  simpl. f_equal. rewrite <- list_fmap_compose. by apply list_fmap_ext.
Qed.

Lemma anyFlag_app flag cs ds key :
  anyFlag flag (cs ++ ds) key = anyFlag flag cs key || anyFlag flag ds key.
Proof. apply existsb_app. Qed.

Lemma anyFlag_accounts (flag : compiledKeyMeta → bool) (aflag : AccountMeta → bool) ixs key :
  flag (Meta false false true) = false →
  (∀ a, flag (Meta (am_IsSigner a) (am_IsWritable a) false) = aflag a) →
  anyFlag flag (ixs ≫= contributions) key =
  existsb (λ ix, existsb (λ a, bool_decide (am_Pubkey a = key) && aflag a) (ix_Accounts ix)) ixs.
Proof.
  intros Hinv Ha. induction ixs as [|ix ixs IH]; [done|].
  rewrite bind_cons, anyFlag_app, IH. simpl. f_equal.
  unfold anyFlag, contributions. simpl. rewrite Hinv, andb_false_r. simpl.
  rewrite existsb_fmap. apply existsb_ext. intros a. simpl. by rewrite Ha.
Qed.

Lemma anyFlag_invoked ixs key :
  anyFlag isInvoked (ixs ≫= contributions) key = invoked ixs key.
Proof.
  induction ixs as [|ix ixs IH]; [done|].
  rewrite bind_cons, anyFlag_app, IH. simpl. f_equal.
  unfold anyFlag, contributions. simpl. rewrite andb_true_r.
  rewrite existsb_fmap, existsb_false, orb_false_r; [done|].
  intros a. apply andb_false_r.
Qed.

(** The collected map holds exactly the mentioned keys, with the privileges asked for. *)
Lemma collectKeys_lookup ixs payer key :
  collectKeys ixs payer !! key =
  if bool_decide (key ∈ mentioned ixs payer)
  then Some (Meta (asksSigner ixs payer key) (asksWritable ixs payer key) (invoked ixs key))
  else None.
Proof.
  rewrite collectKeys_contributions, foldl_contribute_lookup, allContributions_fst, lookup_empty.
  case_bool_decide as Hin; [|done]. simpl. unfold allContributions.
  rewrite !anyFlag_app, (anyFlag_accounts isSigner am_IsSigner),
    (anyFlag_accounts isWritable am_IsWritable), anyFlag_invoked by done.
  unfold asksSigner, asksWritable, requested. f_equal.
  destruct payer as [p|]; simpl; rewrite ?andb_true_r, ?andb_false_r, ?orb_false_r; [|done].
  by rewrite (bool_decide_ext (Some p = Some key) (p = key)) by naive_solver.
Qed.

(** ** Grouping *)

Inductive group := WS | RS | WN | RN.

#[global] Instance group_eq_dec : EqDecision group.
Proof. solve_decision. Defined.

Definition flagsGroup (signer writable : bool) : group :=
  match signer, writable with
  | true, true => WS | true, false => RS | false, true => WN | false, false => RN
  end.

(** The group the requested privileges put a key in. *)
Definition keyGroup (ixs : list Instruction) (payer : option Pubkey) (key : Pubkey) : group :=
  flagsGroup (asksSigner ixs payer key) (asksWritable ixs payer key).

Definition segment (gr : group) (g : keyGroups) : list Pubkey :=
  match gr with
  | WS => writableSigners g | RS => readonlySigners g
  | WN => writableNonSigners g | RN => readonlyNonSigners g
  end.

(** Strictly ascending lists, determined by their elements. *)
Definition key_lt (a b : Pubkey) : Prop := array_less a b = true.

Definition ascending (P : Pubkey → Prop) (l : list Pubkey) : Prop :=
  StronglySorted key_lt l ∧ ∀ k, k ∈ l ↔ P k.

Lemma key_lt_irrefl k : ¬ key_lt k k.
Proof. unfold key_lt. by rewrite (less_irrefl _ (array_less_strict 32)). Qed.

Lemma key_lt_asym a b : key_lt a b → ¬ key_lt b a.
Proof.
  intros Hab Hba. apply (key_lt_irrefl a).
  exact (less_trans _ (array_less_strict 32) _ _ _ Hab Hba).
Qed.

Lemma ascending_NoDup l : StronglySorted key_lt l → NoDup l.
Proof.
  induction 1 as [|x l Hl IH Hx]; constructor; [|done].
  intros Hin. rewrite Forall_forall in Hx. by apply (key_lt_irrefl x), Hx.
Qed.

Lemma ascending_unique P l k : ascending P l → ascending P k → l = k.
Proof.
  intros [Hl Pl] [Hk Pk]. apply (StronglySorted_unique_strong key_lt); [|done|done|].
  - intros x y _ _ Hxy Hyx. by apply key_lt_asym in Hxy.
  - apply NoDup_Permutation; [by apply ascending_NoDup..|].
    intros x. by rewrite Pl, Pk.
Qed.

Lemma ascending_ext P Q l : (∀ k, P k ↔ Q k) → ascending P l → ascending Q l.
Proof. intros HPQ [Hs Hl]. split; [done|]. intros k. by rewrite Hl. Qed.

Lemma StronglySorted_filter (R : relation Pubkey) (Q : Pubkey → Prop) `{∀ k, Decision (Q k)} l :
  StronglySorted R l → StronglySorted R (filter Q l).
Proof.
  induction 1 as [|x l Hl IH Hx]; [constructor|].
  rewrite filter_cons. case_decide; [|done]. constructor; [done|].
  rewrite Forall_forall in Hx. apply Forall_forall. intros y [_ Hy]%list_elem_of_filter. by apply Hx.
Qed.

Lemma ascending_filter P Q `{∀ k, Decision (Q k)} l :
  ascending P l → ascending (λ k, P k ∧ Q k) (filter Q l).
Proof.
  intros [Hs Hl]. split; [by apply StronglySorted_filter|].
  intros k. rewrite list_elem_of_filter, Hl. tauto.
Qed.

(** Sorting distinct keys makes them strictly ascending. *)
Lemma sorted_ascending (l : list Pubkey) :
  StronglySorted (λ x y, array_less y x = false) l → NoDup l → StronglySorted key_lt l.
Proof.
  induction 1 as [|x l Hl IH Hx]; intros Hnd; [constructor|].
  apply NoDup_cons in Hnd as [Hxl Hnd]. constructor; [by apply IH|].
  rewrite Forall_forall in Hx. apply Forall_forall. intros y Hy.
  unfold key_lt. destruct (array_less x y) eqn:Hxy; [done|].
  destruct Hxl. by rewrite (less_total _ (array_less_strict 32) x y Hxy (Hx y Hy)).
Qed.

Section layout.
Context {RT : GoRuntime}.
Implicit Types (ixs : list Instruction) (payer : option Pubkey).

(** The keys other than the payer, as the specification sees them. *)
Definition otherKey ixs payer (k : Pubkey) : Prop := k ∈ mentioned ixs payer ∧ payer ≠ Some k.

Lemma drainSorted_ascending ixs payer :
  ascending (otherKey ixs payer) (drainSorted (collectKeys ixs payer) payer).
Proof.
  set (m := collectKeys ixs payer). split.
  - apply sorted_ascending; [apply sort_Slice_sorted, array_less_strict|].
    unfold drainSorted. rewrite sort_Slice_perm. apply NoDup_filter, NoDup_go_range.
  - intros k. unfold drainSorted. rewrite sort_Slice_perm, list_elem_of_filter, elem_of_go_range.
    unfold m, otherKey. rewrite collectKeys_lookup. case_bool_decide as Hk.
    + split; [intros [? _]; done|intros [? ?]; by eauto].
    + split; [intros [_ [x Hx]]; done|intros [? ?]; done].
Qed.

Lemma asks_mentioned flag ixs payer k : requested flag ixs payer k = true → k ∈ mentioned ixs payer.
Proof.
  unfold requested, mentioned. rewrite elem_of_app, orb_true_iff. intros [H|H].
  - left. apply existsb_exists in H as (ix & Hix & H). apply existsb_exists in H as (a & Ha & H).
    apply andb_true_iff in H as [H%bool_decide_eq_true _].
    apply list_elem_of_bind. exists ix. split; [|by apply list_elem_of_In].
    right. apply list_elem_of_fmap. exists a. split; [done|]. by apply list_elem_of_In.
  - right. apply bool_decide_eq_true in H as ->. by left.
Qed.

(** The flags the [switch] sees are the requested ones. *)
Lemma collected_group ixs payer k :
  let x := default zeroMeta (collectKeys ixs payer !! k) in
  flagsGroup (isSigner x) (isWritable x) = keyGroup ixs payer k.
Proof.
  simpl. rewrite collectKeys_lookup. case_bool_decide as Hk; [done|]. unfold keyGroup.
  destruct (asksSigner ixs payer k) eqn:Hs; [by apply asks_mentioned in Hs|].
  destruct (asksWritable ixs payer k) eqn:Hw; [by apply asks_mentioned in Hw|]. done.
Qed.

Lemma foldl_classify ixs payer g keys :
  foldl (classify (collectKeys ixs payer)) g keys =
  Groups (writableSigners g ++ filter (λ k, keyGroup ixs payer k = WS) keys)
    (readonlySigners g ++ filter (λ k, keyGroup ixs payer k = RS) keys)
    (writableNonSigners g ++ filter (λ k, keyGroup ixs payer k = WN) keys)
    (readonlyNonSigners g ++ filter (λ k, keyGroup ixs payer k = RN) keys).
Proof.
  revert g. induction keys as [|k keys IH]; intros [ws rs wn rn].
  { simpl. by rewrite !app_nil_r. }
  simpl foldl. rewrite IH, !filter_cons. pose proof (collected_group ixs payer k) as Hk. simpl in Hk.
  unfold classify. rewrite <- !Hk.
  destruct (isSigner _), (isWritable _); simpl;
    repeat (rewrite decide_True by done || rewrite decide_False by done);
    rewrite <- !app_assoc; done.
Qed.

(** The abstract result: the payer, then the other keys, each group ascending. *)
Record layout ixs payer (g : keyGroups) : Prop := {
  layout_signers : ∃ ws, writableSigners g = option_list payer ++ ws ∧
    ascending (λ k, otherKey ixs payer k ∧ keyGroup ixs payer k = WS) ws;
  layout_other gr : gr ≠ WS →
    ascending (λ k, otherKey ixs payer k ∧ keyGroup ixs payer k = gr) (segment gr g);
}.

Lemma groupKeys_layout ixs payer : layout ixs payer (groupKeys (collectKeys ixs payer) payer).
Proof.
  unfold groupKeys. rewrite foldl_classify. simpl.
  pose proof (drainSorted_ascending ixs payer) as Hs. split; simpl.
  - eexists. split; [done|]. by apply ascending_filter.
  - intros [] Hgr; [done|..]; by apply ascending_filter.
Qed.

Lemma layout_unique ixs payer g g' : layout ixs payer g → layout ixs payer g' → g = g'.
Proof.
  intros [(ws & Hws & Hasc) Ho] [(ws' & Hws' & Hasc') Ho'].
  rewrite (ascending_unique _ _ _ Hasc Hasc') in Hws. rewrite <- Hws' in Hws.
  pose proof (ascending_unique _ _ _ (Ho RS ltac:(done)) (Ho' RS ltac:(done))) as Hr.
  pose proof (ascending_unique _ _ _ (Ho WN ltac:(done)) (Ho' WN ltac:(done))) as Hw.
  pose proof (ascending_unique _ _ _ (Ho RN ltac:(done)) (Ho' RN ltac:(done))) as Hn.
  destruct g, g'; simpl in *. congruence.
Qed.

(** The payer asks for both privileges. *)
Lemma payer_group ixs p : keyGroup ixs (Some p) p = WS.
Proof.
  unfold keyGroup, asksSigner, asksWritable, requested.
  by rewrite bool_decide_eq_true_2, !orb_true_r.
Qed.

Lemma payer_mentioned ixs p : p ∈ mentioned ixs (Some p).
Proof. unfold mentioned. rewrite elem_of_app. right. by left. Qed.

Lemma layout_elem ixs payer g gr k :
  layout ixs payer g → k ∈ segment gr g ↔ k ∈ mentioned ixs payer ∧ keyGroup ixs payer k = gr.
Proof.
  intros [(ws & Hws & Hasc) Ho]. destruct (decide (gr = WS)) as [->|Hgr].
  - simpl. rewrite Hws, elem_of_app. destruct Hasc as [_ ->]. unfold otherKey.
    destruct payer as [p|]; simpl.
    + rewrite list_elem_of_singleton. split.
      * intros [->|[[? _] ?]]; [split; [apply payer_mentioned|apply payer_group]|done].
      * intros [? ?]. destruct (decide (k = p)) as [->|]; [by left|right].
        split_and!; [done| |done]. congruence.
    + rewrite elem_of_nil. intuition congruence.
  - destruct (Ho gr Hgr) as [_ ->]. unfold otherKey. split; [tauto|].
    intros [? Hk]. split_and!; [done| |done]. intros ->. by rewrite payer_group in Hk.
Qed.

Lemma layout_NoDup_segment ixs payer g gr : layout ixs payer g → NoDup (segment gr g).
Proof.
  intros [(ws & Hws & Hasc) Ho]. destruct (decide (gr = WS)) as [->|Hgr].
  - simpl. rewrite Hws. apply NoDup_app. split_and!.
    + destruct payer; simpl; [apply NoDup_singleton|constructor].
    + intros k Hk. destruct Hasc as [_ ->]. intros [[_ Hne] _]. destruct payer as [p|]; simpl in Hk.
      * apply list_elem_of_singleton in Hk as ->. done.
      * by apply elem_of_nil in Hk.
    + by apply ascending_NoDup, Hasc.
  - by apply ascending_NoDup, (Ho gr Hgr).
Qed.

Lemma accountKeysOf_elem ixs payer g k :
  layout ixs payer g → k ∈ accountKeysOf g ↔ k ∈ mentioned ixs payer.
Proof.
  intros Hl. unfold accountKeysOf. rewrite !elem_of_app.
  pose proof (λ gr, layout_elem ixs payer g gr k Hl) as He.
  rewrite (He WS : _ ∈ writableSigners g ↔ _), (He RS : _ ∈ readonlySigners g ↔ _),
    (He WN : _ ∈ writableNonSigners g ↔ _), (He RN : _ ∈ readonlyNonSigners g ↔ _).
  split; [tauto|]. destruct (keyGroup ixs payer k); intuition.
Qed.

Lemma accountKeysOf_NoDup ixs payer g : layout ixs payer g → NoDup (accountKeysOf g).
Proof.
  intros Hl. unfold accountKeysOf.
  pose proof (λ gr, layout_NoDup_segment ixs payer g gr Hl) as Hnd.
  pose proof (λ gr k, proj1 (layout_elem ixs payer g gr k Hl)) as He.
  apply NoDup_app. split_and!; [apply (Hnd WS)| |].
  { intros k [_ Hk]%(He WS). rewrite !elem_of_app.
    intros [[_ ?]%(He RS)|[[_ ?]%(He WN)|[_ ?]%(He RN)]]; congruence. }
  apply NoDup_app. split_and!; [apply (Hnd RS)| |].
  { intros k [_ Hk]%(He RS). rewrite !elem_of_app.
    intros [[_ ?]%(He WN)|[_ ?]%(He RN)]; congruence. }
  apply NoDup_app. split_and!; [apply (Hnd WN)| |apply (Hnd RN)].
  intros k [_ Hk]%(He WN) [_ ?]%(He RN). congruence.
Qed.
End layout.

(** ** Indices *)

Lemma foldl_index_notin (l : list (nat * Pubkey)) (idx : gmap Pubkey byte) key :
  key ∉ l.*2 →
  foldl (λ idx ik, <[ik.2 := byte_of (Z.of_nat ik.1)]> idx) idx l !! key = idx !! key.
Proof.
  revert idx. induction l as [|[i k] l IH]; intros idx Hk; simpl; [done|].
  rewrite fmap_cons, not_elem_of_cons in Hk. destruct Hk as [Hne Hk].
  rewrite IH by done. by apply lookup_insert_ne.
Qed.

Lemma foldl_index_in (l : list (nat * Pubkey)) (idx : gmap Pubkey byte) i key :
  NoDup l.*2 → (i, key) ∈ l →
  foldl (λ idx ik, <[ik.2 := byte_of (Z.of_nat ik.1)]> idx) idx l !! key =
  Some (byte_of (Z.of_nat i)).
Proof.
  revert idx. induction l as [|[j k] l IH]; intros idx Hnd Hin; [by apply elem_of_nil in Hin|].
  rewrite fmap_cons in Hnd. apply NoDup_cons in Hnd as [Hk Hnd].
  apply elem_of_cons in Hin as [[= -> ->]|Hin]; simpl; [|by apply IH].
  rewrite foldl_index_notin by done. apply lookup_insert_eq.
Qed.

Lemma imap_pair_snd (keys : list Pubkey) : (imap pair keys).*2 = keys.
Proof.
  apply list_eq. intros i. rewrite list_lookup_fmap, list_lookup_imap.
  by destruct (keys !! i).
Qed.

Lemma buildKeyIndex_lookup keys i key :
  NoDup keys → keys !! i = Some key →
  buildKeyIndex keys !! key = Some (byte_of (Z.of_nat i)).
Proof.
  intros Hnd Hi. apply foldl_index_in; [by rewrite imap_pair_snd|].
  apply list_elem_of_lookup. exists i. by rewrite list_lookup_imap, Hi.
Qed.

(** Every key of the list gets an index that leads back to it, when the list has at
    most 256 keys. *)
Lemma lookupKey_resolves keys key :
  NoDup keys → (length keys ≤ 256)%nat → key ∈ keys →
  ∃ i, lookupKey (buildKeyIndex keys) key = Ok i ∧ keys !! Z.to_nat (byte_val i) = Some key.
Proof.
  intros Hnd Hlen [i Hi]%list_elem_of_lookup. exists (byte_of (Z.of_nat i)).
  unfold lookupKey. rewrite (buildKeyIndex_lookup keys i) by done. split; [done|].
  apply lookup_lt_Some in Hi as Hlt. rewrite byte_val_of_small; [by rewrite Nat2Z.id|].
  unfold is_u8. lia.
Qed.

Definition resolves (keys : list Pubkey) (ix : Instruction) (si : SanitizedInstruction) : Prop :=
  keys !! Z.to_nat (byte_val (si_ProgramIDIndex si)) = Some (ix_ProgramID ix) ∧
  Forall2 (λ a i, keys !! Z.to_nat (byte_val i) = Some (am_Pubkey a))
    (ix_Accounts ix) (si_Accounts si) ∧
  si_Data si = ix_Data ix.

Lemma compileInstruction_resolves keys ix :
  NoDup keys → (length keys ≤ 256)%nat → ix_ProgramID ix ∈ keys →
  Forall (λ a, am_Pubkey a ∈ keys) (ix_Accounts ix) →
  ∃ si, compileInstruction (buildKeyIndex keys) ix = Ok si ∧ resolves keys ix si.
Proof.
  intros Hnd Hlen Hp Ha.
  destruct (lookupKey_resolves keys (ix_ProgramID ix)) as (p & Hpi & Hpk); [done..|].
  assert (∃ idxs, mapM (λ a, lookupKey (buildKeyIndex keys) (am_Pubkey a)) (ix_Accounts ix) = Ok idxs ∧
    Forall2 (λ a i, keys !! Z.to_nat (byte_val i) = Some (am_Pubkey a)) (ix_Accounts ix) idxs)
    as (idxs & His & Hres).
  { induction Ha as [|a l Hal Hl (idxs & His & Hres)]; [by exists []|].
    destruct (lookupKey_resolves keys (am_Pubkey a)) as (i & Hi & Hk); [done..|].
    exists (i :: idxs). simpl. rewrite Hi. simpl. rewrite His. split; [done|]. by constructor. }
  exists (MkSanitizedInstruction p idxs (ix_Data ix)). unfold compileInstruction.
  rewrite Hpi. simpl. rewrite His. done.
Qed.

(** The four segments of a message's key list and the header that counts them. *)
Lemma overflows_false g :
  overflows g = false ↔
  zlen (writableSigners g) + zlen (readonlySigners g) ≤ 255 ∧
  zlen (readonlyNonSigners g) ≤ 255 ∧ zlen (accountKeysOf g) ≤ 256.
Proof.
  unfold overflows, accountKeysOf, zlen. rewrite !orb_false_iff, !Z.ltb_ge, !length_app. lia.
Qed.

Section compiled.
Context {RT : GoRuntime}.
Implicit Types (ixs : list Instruction) (payer : option Pubkey).

Definition groupsOf ixs payer : keyGroups := groupKeys (collectKeys ixs payer) payer.

Definition headerOf (g : keyGroups) : MessageHeader := {|
  NumRequiredSignatures := byte_of (zlen (writableSigners g) + zlen (readonlySigners g));
  NumReadonlySignedAccounts := byte_of (zlen (readonlySigners g));
  NumReadonlyUnsignedAccounts := byte_of (zlen (readonlyNonSigners g));
|}.

(** When the counts fit, compilation cannot fail: every key has an index. *)
Lemma NewSanitizedMessage_total ixs payer bh :
  overflows (groupsOf ixs payer) = false →
  ∃ compiled, NewSanitizedMessage ixs payer bh =
    Ok (MkSanitizedMessage (headerOf (groupsOf ixs payer)) (accountKeysOf (groupsOf ixs payer))
          bh compiled) ∧
    Forall2 (resolves (accountKeysOf (groupsOf ixs payer))) ixs compiled.
Proof.
  intros Hov. unfold NewSanitizedMessage. fold (groupsOf ixs payer). rewrite Hov.
  pose proof (groupKeys_layout ixs payer) as Hl. fold (groupsOf ixs payer) in Hl.
  apply overflows_false in Hov as (_ & _ & Hlen).
  set (keys := accountKeysOf (groupsOf ixs payer)) in *.
  assert (∀ k, k ∈ mentioned ixs payer → k ∈ keys) as Hin
    by (intros k; by apply accountKeysOf_elem).
  assert (NoDup keys) as Hnd by (by eapply accountKeysOf_NoDup).
  assert (∃ cs, mapM (compileInstruction (buildKeyIndex keys)) ixs = Ok cs ∧
    Forall2 (resolves keys) ixs cs) as (cs & Hcs & Hres).
  2:{ exists cs. rewrite Hcs. done. }
  assert (Forall (λ ix, ix_ProgramID ix ∈ keys ∧
    Forall (λ a, am_Pubkey a ∈ keys) (ix_Accounts ix)) ixs) as Hall.
  { apply Forall_forall. intros ix Hix.
    assert (∀ k, k ∈ ix_ProgramID ix :: (am_Pubkey <$> ix_Accounts ix) → k ∈ keys) as Hk.
    { intros k Hk. apply Hin. apply elem_of_app. left. apply list_elem_of_bind. eauto. }
    split; [apply Hk; by left|]. apply Forall_forall. intros a Ha. apply Hk. right.
    by apply list_elem_of_fmap_2. }
  clear Hin Hl. clearbody keys. induction Hall as [|ix l [Hp Ha] _ (cs & Hcs & Hres)]; [by exists []|].
  destruct (compileInstruction_resolves keys ix) as (si & Hsi & Hr);
    [done|unfold zlen in Hlen; lia|done|done|].
  exists (si :: cs). simpl. rewrite Hsi. simpl. rewrite Hcs. split; [done|]. by constructor.
Qed.

Lemma NewSanitizedMessage_Ok_inv ixs payer bh m :
  NewSanitizedMessage ixs payer bh = Ok m →
  overflows (groupsOf ixs payer) = false ∧
  m_Header m = headerOf (groupsOf ixs payer) ∧
  m_AccountKeys m = accountKeysOf (groupsOf ixs payer) ∧
  m_RecentBlockhash m = bh ∧
  Forall2 (resolves (m_AccountKeys m)) ixs (m_Instructions m).
Proof.
  intros Hm. destruct (overflows (groupsOf ixs payer)) eqn:Hov.
  { unfold NewSanitizedMessage in Hm. fold (groupsOf ixs payer) in Hm. by rewrite Hov in Hm. }
  destruct (NewSanitizedMessage_total ixs payer bh Hov) as (cs & Heq & Hres).
  rewrite Heq in Hm. injection Hm as <-. done.
Qed.

(** The counts of the header, read back as numbers. *)
Lemma headerOf_counts g :
  overflows g = false →
  byte_val (NumRequiredSignatures (headerOf g)) =
    zlen (writableSigners g) + zlen (readonlySigners g) ∧
  byte_val (NumReadonlySignedAccounts (headerOf g)) = zlen (readonlySigners g) ∧
  byte_val (NumReadonlyUnsignedAccounts (headerOf g)) = zlen (readonlyNonSigners g).
Proof.
  intros (H1 & H2 & H3)%overflows_false. unfold headerOf, zlen in *. simpl.
  rewrite !byte_val_of_small; [done|unfold is_u8; lia..].
Qed.

Lemma segment_flags ixs payer g gr k :
  layout ixs payer g → k ∈ segment gr g →
  gr = flagsGroup (asksSigner ixs payer k) (asksWritable ixs payer k).
Proof. intros Hl Hk. by apply (layout_elem _ _ _ _ _ Hl) in Hk as [_ <-]. Qed.

(** The index of a key tells its segment. *)
Lemma accountKeysOf_lookup g i k :
  accountKeysOf g !! i = Some k →
  let ws := length (writableSigners g) in let rs := length (readonlySigners g) in
  let wn := length (writableNonSigners g) in let rn := length (readonlyNonSigners g) in
  (k ∈ segment WS g ∧ i < ws)%nat ∨ (k ∈ segment RS g ∧ ws ≤ i < ws + rs)%nat ∨
  (k ∈ segment WN g ∧ ws + rs ≤ i < ws + rs + wn)%nat ∨
  (k ∈ segment RN g ∧ ws + rs + wn ≤ i < ws + rs + wn + rn)%nat.
Proof.
  unfold accountKeysOf. simpl. rewrite !lookup_app_Some.
  intros [H|[? [H|[? [H|[? H]]]]]]; pose proof (lookup_lt_Some _ _ _ H);
    apply list_elem_of_lookup_2 in H; simpl; intuition lia.
Qed.

(** Reading the header gives back the requested privileges. *)
Lemma NewSanitizedMessage_privileges ixs payer bh m i k :
  NewSanitizedMessage ixs payer bh = Ok m → m_AccountKeys m !! i = Some k →
  grantsSigner m i = asksSigner ixs payer k ∧ grantsWritable m i = asksWritable ixs payer k.
Proof.
  intros (Hov & Hh & Hk & _)%NewSanitizedMessage_Ok_inv Hi. rewrite Hk in Hi.
  pose proof (groupKeys_layout ixs payer) as Hl.
  pose proof (headerOf_counts _ Hov) as (H1 & H2 & H3).
  pose proof (accountKeysOf_lookup _ _ _ Hi) as Hseg.
  unfold grantsWritable, grantsSigner. rewrite Hh, Hk, H1, H2, H3. clear Hh Hk H1 H2 H3 Hov.
  unfold accountKeysOf, zlen, groupsOf in *. rewrite !length_app. cbv zeta in Hseg.
  destruct Hseg as [[Hm Hr]|[[Hm Hr]|[[Hm Hr]|[Hm Hr]]]];
    apply (segment_flags _ _ _ _ _ Hl) in Hm;
    destruct (asksSigner ixs payer k), (asksWritable ixs payer k); try done; clear Hm;
    (split; [|case_match]); rewrite ?Z.ltb_lt, ?Z.ltb_ge in *; lia.
Qed.

(** A short instruction list always compiles. *)
Lemma NewSanitizedMessage_few ixs payer bh :
  (length (mentioned ixs payer) ≤ 255)%nat →
  ∃ m, NewSanitizedMessage ixs payer bh = Ok m.
Proof.
  intros Hlen. pose proof (groupKeys_layout ixs payer) as Hl. fold (groupsOf ixs payer) in Hl.
  assert (length (accountKeysOf (groupsOf ixs payer)) ≤ 255)%nat as Hk.
  { etransitivity; [|exact Hlen]. apply submseteq_length, NoDup_submseteq.
    - by eapply accountKeysOf_NoDup.
    - intros k. by apply accountKeysOf_elem. }
  destruct (NewSanitizedMessage_total ixs payer bh) as (cs & Heq & _); [|eauto].
  apply overflows_false. unfold accountKeysOf, zlen in *. rewrite !length_app in *. lia.
Qed.
End compiled.

(** ** Properties *)

(** The instruction list of TestNewSanitizedMessageSortsKeysWithinGroups, used by
    the witnesses. *)
Definition testKey (n : Z) : Pubkey := pubkey_lit [n].

Definition testInstruction : Instruction := {|
  ix_ProgramID := testKey 150;
  ix_Accounts := [
    MkAccountMeta (testKey 5) true true; MkAccountMeta (testKey 2) true true;
    MkAccountMeta (testKey 80) false true; MkAccountMeta (testKey 70) false true;
    MkAccountMeta (testKey 40) true false];
  ix_Data := bytes_lit [1];
|}.

Definition testHash : Hash := zero_array 32.

Definition testMessage : SanitizedMessage := {|
  m_Header := MkMessageHeader (byte_of 4) (byte_of 1) (byte_of 1);
  m_AccountKeys := testKey <$> [200; 2; 5; 40; 70; 80; 150];
  m_RecentBlockhash := testHash;
  m_Instructions := [MkSanitizedInstruction (byte_of 6) (bytes_lit [2; 1; 5; 4; 3]) (bytes_lit [1])];
|}.

Example compile_test :
  NewSanitizedMessage [testInstruction] (Some (testKey 200)) testHash = Ok testMessage.
Proof. vm_compute. reflexivity. Qed.

(** C2: a compiled message grants every account exactly the privileges the
    instructions and the payer ask for: reading the header the way the node does,
    the account at index [i] signs (is writable) iff some instruction lists its key
    as a signer (as writable) or it is the payer. *)
Theorem compile_privileges `{RT : GoRuntime} ixs payer bh m i k :
  NewSanitizedMessage ixs payer bh = Ok m → m_AccountKeys m !! i = Some k →
  grantsSigner m i = asksSigner ixs payer k ∧ grantsWritable m i = asksWritable ixs payer k.
Proof. apply NewSanitizedMessage_privileges. Qed.

Lemma compile_privileges_witness :
  grantsSigner testMessage 3 = true ∧ grantsWritable testMessage 3 = false.
Proof.
  exact (compile_privileges [testInstruction] (Some (testKey 200)) testHash testMessage 3
    (testKey 40) eq_refl eq_refl).
Defined.

(** A compiled message lists every mentioned key (program ids, accounts,
    payer) exactly once and nothing else, at most 256 of them, with the payer, when
    there is one, at index 0 and required to sign; the header's counts fit the list. *)
Lemma compile_keys `{RT : GoRuntime} ixs payer bh m :
  NewSanitizedMessage ixs payer bh = Ok m →
  NoDup (m_AccountKeys m) ∧ (∀ k, k ∈ m_AccountKeys m ↔ k ∈ mentioned ixs payer) ∧
  zlen (m_AccountKeys m) ≤ 256 ∧
  (∀ p, payer = Some p → m_AccountKeys m !! 0%nat = Some p ∧ grantsSigner m 0 = true) ∧
  byte_val (NumReadonlySignedAccounts (m_Header m)) ≤
    byte_val (NumRequiredSignatures (m_Header m)) ∧
  byte_val (NumRequiredSignatures (m_Header m)) +
    byte_val (NumReadonlyUnsignedAccounts (m_Header m)) ≤ zlen (m_AccountKeys m).
Proof.
  intros (Hov & Hh & Hk & _)%NewSanitizedMessage_Ok_inv.
  pose proof (groupKeys_layout ixs payer) as Hl. fold (groupsOf ixs payer) in Hl.
  pose proof (headerOf_counts _ Hov) as (H1 & H2 & H3).
  unfold grantsSigner. rewrite Hh, Hk, H1, H2, H3. split_ands.
  - by eapply accountKeysOf_NoDup.
  - intros k. by apply accountKeysOf_elem.
  - by apply overflows_false.
  - intros p ->. destruct (layout_signers _ _ _ Hl) as (ws & Hws & _).
    unfold accountKeysOf. rewrite Hws. simpl. split; [done|].
    apply Z.ltb_lt. unfold zlen. simpl. lia.
  - unfold zlen. lia.
  - unfold accountKeysOf, zlen. rewrite !length_app. lia.
Qed.

Lemma compile_keys_witness : NoDup (m_AccountKeys testMessage).
Proof.
  exact (proj1 (compile_keys [testInstruction] (Some (testKey 200)) testHash testMessage eq_refl)).
Defined.

(** A compiled message is the instruction list with keys replaced by
    indices: there is one compiled instruction per instruction, in order; following
    its program index and its account indices through the key list gives the
    original program id and account keys, in order; data and blockhash are kept. *)
Lemma compile_resolves `{RT : GoRuntime} ixs payer bh m :
  NewSanitizedMessage ixs payer bh = Ok m →
  m_RecentBlockhash m = bh ∧
  Forall2 (λ ix si,
    resolve m (si_ProgramIDIndex si) = Some (ix_ProgramID ix) ∧
    resolve m <$> si_Accounts si = Some ∘ am_Pubkey <$> ix_Accounts ix ∧
    si_Data si = ix_Data ix) ixs (m_Instructions m).
Proof.
  intros (_ & _ & _ & Hbh & Hres)%NewSanitizedMessage_Ok_inv. split; [done|].
  eapply Forall2_impl; [exact Hres|]. intros ix si (Hp & Ha & Hd). split_and!; [done| |done].
  induction Ha as [|a i l k Hai _ IH]; [done|]. rewrite !fmap_cons, IH. by f_equal.
Qed.

Lemma compile_resolves_witness : m_RecentBlockhash testMessage = testHash.
Proof.
  exact (proj1 (compile_resolves [testInstruction] (Some (testKey 200)) testHash testMessage eq_refl)).
Defined.

(** How many distinct mentioned keys fall in a class. *)
Definition countKeys (P : Pubkey → bool) (ixs : list Instruction) (payer : option Pubkey) : Z :=
  zlen (filter (λ k, P k = true) (remove_dups (mentioned ixs payer))).

Lemma countKeys_segments `{RT : GoRuntime} P ixs payer l :
  NoDup l → (∀ k, k ∈ l ↔ k ∈ mentioned ixs payer ∧ P k = true) →
  zlen l = countKeys P ixs payer.
Proof.
  intros Hnd Hl. unfold countKeys, zlen. f_equal. apply Permutation_length, NoDup_Permutation;
    [done|apply NoDup_filter, NoDup_remove_dups|].
  intros k. rewrite Hl, list_elem_of_filter, elem_of_remove_dups. tauto.
Qed.

Lemma groupsOf_counts `{RT : GoRuntime} ixs payer :
  let g := groupsOf ixs payer in
  zlen (writableSigners g) + zlen (readonlySigners g) = countKeys (asksSigner ixs payer) ixs payer ∧
  zlen (readonlyNonSigners g) =
    countKeys (λ k, negb (asksSigner ixs payer k || asksWritable ixs payer k)) ixs payer ∧
  zlen (accountKeysOf g) = countKeys (λ _, true) ixs payer.
Proof.
  intros g. pose proof (groupKeys_layout ixs payer : layout ixs payer g) as Hl.
  pose proof (accountKeysOf_NoDup _ _ _ Hl) as Hnd.
  pose proof (λ gr k, layout_elem ixs payer g gr k Hl) as He. unfold keyGroup in He. split_ands.
  - rewrite <- (countKeys_segments _ ixs payer (writableSigners g ++ readonlySigners g)).
    + unfold zlen. rewrite length_app. lia.
    + unfold accountKeysOf in Hnd. rewrite app_assoc in Hnd. by apply NoDup_app in Hnd as [? _].
    + intros k. rewrite elem_of_app. pose proof (He WS k) as HW. pose proof (He RS k) as HR.
      simpl in HW, HR. rewrite HW, HR.
      destruct (asksSigner ixs payer k), (asksWritable ixs payer k); simpl; intuition congruence.
  - apply countKeys_segments; [exact (layout_NoDup_segment ixs payer g RN Hl)|].
    intros k. pose proof (He RN k) as HN. simpl in HN. rewrite HN.
    destruct (asksSigner ixs payer k), (asksWritable ixs payer k); simpl; intuition congruence.
  - apply countKeys_segments; [done|]. intros k. rewrite accountKeysOf_elem by done. tauto.
Qed.

(** C23: compilation fails only by overflow, and exactly when more than 255
    distinct keys must sign, more than 255 are read-only non-signers, or there are
    more than 256 keys; otherwise it returns a message. The error for an unknown key
    is never returned. *)
Theorem compile_total `{RT : GoRuntime} ixs payer bh :
  if decide (countKeys (asksSigner ixs payer) ixs payer ≤ 255 ∧
             countKeys (λ k, negb (asksSigner ixs payer k || asksWritable ixs payer k))
               ixs payer ≤ 255 ∧
             countKeys (λ _, true) ixs payer ≤ 256)
  then is_ok (NewSanitizedMessage ixs payer bh)
  else NewSanitizedMessage ixs payer bh = Err overflowError.
Proof.
  destruct (groupsOf_counts ixs payer) as (<- & <- & <-). case_decide as H.
  - apply overflows_false in H.
    destruct (NewSanitizedMessage_total ixs payer bh H) as (cs & Heq & _). eexists. exact Heq.
  - rewrite <- overflows_false, not_false_iff_true in H.
    unfold NewSanitizedMessage. fold (groupsOf ixs payer). by rewrite H.
Qed.

(** Whatever the runtime chooses, the result is the same. *)
Lemma NewSanitizedMessage_runtime (R1 R2 : GoRuntime) ixs payer bh :
  @NewSanitizedMessage R1 ixs payer bh = @NewSanitizedMessage R2 ixs payer bh.
Proof.
  unfold NewSanitizedMessage.
  pose proof (@groupKeys_layout R1 ixs payer) as H1.
  pose proof (@groupKeys_layout R2 ixs payer) as H2.
  by rewrite (layout_unique _ _ _ _ H1 H2).
Qed.

(** Compilation is deterministic: neither the iteration order of the Go map
    nor the algorithm of [sort.Slice] can change the result. *)
Lemma compile_deterministic (R1 R2 : GoRuntime) ixs payer bh :
  @NewSanitizedMessage R1 ixs payer bh = @NewSanitizedMessage R2 ixs payer bh.
Proof. apply NewSanitizedMessage_runtime. Qed.

(** The key list is the canonical one: the payer, then the other keys asked
    to sign and write, to sign only, to write only, and neither, each group in
    strictly ascending byte order; this layout is unique, so the key list and header
    depend only on which keys are mentioned with which privileges, not on the order
    of the instructions or of their accounts. *)
Lemma compile_canonical (R1 R2 : GoRuntime) ixs1 ixs2 payer bh1 bh2 m1 m2 :
  @NewSanitizedMessage R1 ixs1 payer bh1 = Ok m1 →
  @NewSanitizedMessage R2 ixs2 payer bh2 = Ok m2 →
  (∀ k, k ∈ mentioned ixs1 payer ↔ k ∈ mentioned ixs2 payer) →
  (∀ k, asksSigner ixs1 payer k = asksSigner ixs2 payer k ∧
        asksWritable ixs1 payer k = asksWritable ixs2 payer k) →
  (∃ g, layout ixs1 payer g ∧ m_AccountKeys m1 = accountKeysOf g ∧
    byte_val (NumRequiredSignatures (m_Header m1)) =
      zlen (writableSigners g) + zlen (readonlySigners g) ∧
    byte_val (NumReadonlySignedAccounts (m_Header m1)) = zlen (readonlySigners g) ∧
    byte_val (NumReadonlyUnsignedAccounts (m_Header m1)) = zlen (readonlyNonSigners g)) ∧
  m_AccountKeys m1 = m_AccountKeys m2 ∧ m_Header m1 = m_Header m2.
Proof.
  intros (Hov1 & Hh1 & Hk1 & _)%NewSanitizedMessage_Ok_inv
    (Hov2 & Hh2 & Hk2 & _)%NewSanitizedMessage_Ok_inv Hmen Hasks.
  pose proof (@groupKeys_layout R1 ixs1 payer) as Hl1. fold (@groupsOf R1 ixs1 payer) in Hl1.
  pose proof (@groupKeys_layout R2 ixs2 payer) as Hl2. fold (@groupsOf R2 ixs2 payer) in Hl2.
  assert (layout ixs1 payer (@groupsOf R2 ixs2 payer)) as Hl2'.
  { assert (∀ k, keyGroup ixs2 payer k = keyGroup ixs1 payer k) as Hgr.
    { intros k. unfold keyGroup. by destruct (Hasks k) as [-> ->]. }
    destruct Hl2 as [(ws & Hws & Hasc) Ho]. split.
    - exists ws. split; [done|]. eapply ascending_ext; [|exact Hasc].
      intros k. unfold otherKey. by rewrite Hgr, Hmen.
    - intros gr Hne. eapply ascending_ext; [|exact (Ho gr Hne)].
      intros k. unfold otherKey. by rewrite Hgr, Hmen. }
  rewrite Hh1, Hk1, Hh2, Hk2. split.
  - eexists. split_and!; [exact Hl1|done|by apply headerOf_counts..].
  - by rewrite (layout_unique _ _ _ _ Hl1 Hl2').
Qed.

Definition testInstruction2 : Instruction :=
  MkInstruction (testKey 1) [MkAccountMeta (testKey 5) false false] [].

Definition testCompile (ixs : list Instruction) : SanitizedMessage :=
  match NewSanitizedMessage ixs (Some (testKey 200)) testHash with
  | Ok m => m
  | Err _ => testMessage
  end.

(** Two instructions in either order compile to the same key list and header. *)
Lemma compile_canonical_witness :
  m_AccountKeys (testCompile [testInstruction; testInstruction2]) =
  m_AccountKeys (testCompile [testInstruction2; testInstruction]).
Proof.
  refine (proj1 (proj2 (compile_canonical default_runtime default_runtime
    [testInstruction; testInstruction2] [testInstruction2; testInstruction]
    (Some (testKey 200)) testHash testHash
    (testCompile [testInstruction; testInstruction2])
    (testCompile [testInstruction2; testInstruction]) eq_refl eq_refl _ _))).
  - intros k. unfold mentioned. rewrite !bind_cons, !elem_of_app. tauto.
  - intros k. unfold asksSigner, asksWritable, requested. simpl.
    rewrite !orb_false_r, !andb_false_r, !orb_false_r. done.
Defined.
