(* ===== verification/System.v ===== *)
(** * System program instructions: src/system.go.

    The eleven builders and their byte helpers, as written. The specification is
    the node's side: the enum [SystemInstruction] and a decoder for it, and which
    keys each call needs as signers and as writable accounts. *)
From S2P Require Import Prelude GoLib Wire Pubkey Message Compile.

(** ** Byte helpers *)

Definition sysCreateAccount : Z := 0.
Definition sysCreateAccountWithAnchor : Z := 1.
Definition sysAssign : Z := 2.
Definition sysAnchor : Z := 3.
Definition sysSignInput : Z := 4.
Definition sysTransfer : Z := 5.
Definition sysAllocate : Z := 6.
Definition sysCreateAccountWithSeed : Z := 7.
Definition sysAllocateWithSeed : Z := 8.
Definition sysAssignWithSeed : Z := 9.
Definition sysTransferWithSeed : Z := 10.

Definition appendU32 (buf : list byte) (v : Z) : list byte := AppendUint32 buf v.
Definition appendU64 (buf : list byte) (v : Z) : list byte := AppendUint64 buf v.

Definition appendString (buf : list byte) (s : string) : list byte :=
  let bs := String.list_byte_of_string s in
  appendU64 buf (uint64 (zlen bs)) ++ bs.

Definition decodeTxid (txid : string) : result (list byte) :=
  b ← wrap_err "invalid txid hex" (hex.DecodeString txid);
  if decide (length b ≠ 32%nat) then Err (length_error "txid" "32" (length b)) else Ok b.

(** ** Builders *)

Definition CreateAccount (from to : Pubkey) (lamports space : Z) (owner : Pubkey) : Instruction :=
  let data := appendU32 [] sysCreateAccount in
  let data := appendU64 data lamports in
  let data := appendU64 data space in
  let data := data ++ array_list owner in
  {| ix_ProgramID := SystemProgramID;
     ix_Accounts := [MkAccountMeta from true true; MkAccountMeta to true true];
     ix_Data := data |}.

Definition CreateAccountWithAnchor (from to : Pubkey) (lamports space : Z) (owner : Pubkey)
    (txid : string) (vout : Z) : result Instruction :=
  txidBytes ← decodeTxid txid;
  let data := appendU32 [] sysCreateAccountWithAnchor in
  let data := appendU64 data lamports in
  let data := appendU64 data space in
  let data := data ++ array_list owner in
  let data := data ++ txidBytes in
  let data := appendU32 data vout in
  Ok {| ix_ProgramID := SystemProgramID;
        ix_Accounts := [MkAccountMeta from true true; MkAccountMeta to true true];
        ix_Data := data |}.

Definition Assign (pubkey owner : Pubkey) : Instruction :=
  let data := appendU32 [] sysAssign in
  let data := data ++ array_list owner in
  {| ix_ProgramID := SystemProgramID;
     ix_Accounts := [MkAccountMeta pubkey true true];
     ix_Data := data |}.

Definition Anchor (pubkey : Pubkey) (txid : string) (vout : Z) : result Instruction :=
  txidBytes ← decodeTxid txid;
  let data := appendU32 [] sysAnchor in
  let data := data ++ txidBytes in
  let data := appendU32 data vout in
  Ok {| ix_ProgramID := SystemProgramID;
        ix_Accounts := [MkAccountMeta pubkey true true];
        ix_Data := data |}.

Definition SignInput (index : Z) (signer : Pubkey) : Instruction :=
  let data := appendU32 [] sysSignInput in
  let data := appendU32 data index in
  {| ix_ProgramID := SystemProgramID;
     ix_Accounts := [MkAccountMeta signer true true];
     ix_Data := data |}.

Definition Transfer (from to : Pubkey) (lamports : Z) : Instruction :=
  let data := appendU32 [] sysTransfer in
  let data := appendU64 data lamports in
  {| ix_ProgramID := SystemProgramID;
     ix_Accounts := [MkAccountMeta from true true; MkAccountMeta to false true];
     ix_Data := data |}.

Definition Allocate (pubkey : Pubkey) (space : Z) : Instruction :=
  let data := appendU32 [] sysAllocate in
  let data := appendU64 data space in
  {| ix_ProgramID := SystemProgramID;
     ix_Accounts := [MkAccountMeta pubkey true true];
     ix_Data := data |}.

Definition CreateAccountWithSeed (from to base : Pubkey) (seed : string) (lamports space : Z)
    (owner : Pubkey) : Instruction :=
  let data := appendU32 [] sysCreateAccountWithSeed in
  let data := data ++ array_list base in
  let data := appendString data seed in
  let data := appendU64 data lamports in
  let data := appendU64 data space in
  let data := data ++ array_list owner in
  let accounts := [MkAccountMeta from true true; MkAccountMeta to false true] in
  let accounts := if decide (base ≠ from)
    then accounts ++ [MkAccountMeta base true false] else accounts in
  {| ix_ProgramID := SystemProgramID; ix_Accounts := accounts; ix_Data := data |}.

Definition AllocateWithSeed (address base : Pubkey) (seed : string) (space : Z)
    (owner : Pubkey) : Instruction :=
  let data := appendU32 [] sysAllocateWithSeed in
  let data := data ++ array_list base in
  let data := appendString data seed in
  let data := appendU64 data space in
  let data := data ++ array_list owner in
  {| ix_ProgramID := SystemProgramID;
     ix_Accounts := [MkAccountMeta address false true; MkAccountMeta base true false];
     ix_Data := data |}.

Definition AssignWithSeed (address base : Pubkey) (seed : string) (owner : Pubkey) : Instruction :=
  let data := appendU32 [] sysAssignWithSeed in
  let data := data ++ array_list base in
  let data := appendString data seed in
  let data := data ++ array_list owner in
  {| ix_ProgramID := SystemProgramID;
     ix_Accounts := [MkAccountMeta address false true; MkAccountMeta base true false];
     ix_Data := data |}.

Definition TransferWithSeed (from fromBase : Pubkey) (fromSeed : string) (fromOwner to : Pubkey)
    (lamports : Z) : Instruction :=
  let data := appendU32 [] sysTransferWithSeed in
  let data := appendU64 data lamports in
  let data := appendString data fromSeed in
  let data := data ++ array_list fromOwner in
  {| ix_ProgramID := SystemProgramID;
     ix_Accounts := [MkAccountMeta from false true; MkAccountMeta fromBase true false;
                     MkAccountMeta to false true];
     ix_Data := data |}.

(** ** The node's side *)

(** The instruction enum of the system program; strings are byte strings. *)
Inductive SystemInstruction :=
| SysCreateAccount (lamports space : Z) (owner : Pubkey)
| SysCreateAccountWithAnchor (lamports space : Z) (owner : Pubkey) (txid : Hash) (vout : Z)
| SysAssign (owner : Pubkey)
| SysAnchor (txid : Hash) (vout : Z)
| SysSignInput (index : Z)
| SysTransfer (lamports : Z)
| SysAllocate (space : Z)
| SysCreateAccountWithSeed (base : Pubkey) (seed : list byte) (lamports space : Z) (owner : Pubkey)
| SysAllocateWithSeed (base : Pubkey) (seed : list byte) (space : Z) (owner : Pubkey)
| SysAssignWithSeed (base : Pubkey) (seed : list byte) (owner : Pubkey)
| SysTransferWithSeed (lamports : Z) (from_seed : list byte) (from_owner : Pubkey).

(** A u64-length-prefixed byte string. *)
Definition get_string : parser (list byte) := n ← get_u64; get_bytes (Z.to_nat n).

Definition get_system : parser SystemInstruction :=
  tag ← get_u32;
  match tag with
  | 0 => l ← get_u64; s ← get_u64; o ← get_pubkey; mret (SysCreateAccount l s o)
  | 1 => l ← get_u64; s ← get_u64; o ← get_pubkey; t ← get_hash; v ← get_u32;
         mret (SysCreateAccountWithAnchor l s o t v)
  | 2 => o ← get_pubkey; mret (SysAssign o)
  | 3 => t ← get_hash; v ← get_u32; mret (SysAnchor t v)
  | 4 => i ← get_u32; mret (SysSignInput i)
  | 5 => l ← get_u64; mret (SysTransfer l)
  | 6 => s ← get_u64; mret (SysAllocate s)
  | 7 => b ← get_pubkey; sd ← get_string; l ← get_u64; s ← get_u64; o ← get_pubkey;
         mret (SysCreateAccountWithSeed b sd l s o)
  | 8 => b ← get_pubkey; sd ← get_string; s ← get_u64; o ← get_pubkey;
         mret (SysAllocateWithSeed b sd s o)
  | 9 => b ← get_pubkey; sd ← get_string; o ← get_pubkey; mret (SysAssignWithSeed b sd o)
  | 10 => l ← get_u64; sd ← get_string; o ← get_pubkey; mret (SysTransferWithSeed l sd o)
  | _ => get_fail
  end.

(** A call of one of the builders. *)
Inductive SystemCall :=
| CallCreateAccount (from to : Pubkey) (lamports space : Z) (owner : Pubkey)
| CallCreateAccountWithAnchor (from to : Pubkey) (lamports space : Z) (owner : Pubkey)
    (txid : string) (vout : Z)
| CallAssign (pubkey owner : Pubkey)
| CallAnchor (pubkey : Pubkey) (txid : string) (vout : Z)
| CallSignInput (index : Z) (signer : Pubkey)
| CallTransfer (from to : Pubkey) (lamports : Z)
| CallAllocate (pubkey : Pubkey) (space : Z)
| CallCreateAccountWithSeed (from to base : Pubkey) (seed : string) (lamports space : Z) (owner : Pubkey)
| CallAllocateWithSeed (address base : Pubkey) (seed : string) (space : Z) (owner : Pubkey)
| CallAssignWithSeed (address base : Pubkey) (seed : string) (owner : Pubkey)
| CallTransferWithSeed (from fromBase : Pubkey) (fromSeed : string) (fromOwner to : Pubkey) (lamports : Z).

Definition build_system (c : SystemCall) : result Instruction :=
  match c with
  | CallCreateAccount f t l s o => Ok (CreateAccount f t l s o)
  | CallCreateAccountWithAnchor f t l s o tx v => CreateAccountWithAnchor f t l s o tx v
  | CallAssign p o => Ok (Assign p o)
  | CallAnchor p tx v => Anchor p tx v
  | CallSignInput i s => Ok (SignInput i s)
  | CallTransfer f t l => Ok (Transfer f t l)
  | CallAllocate p s => Ok (Allocate p s)
  | CallCreateAccountWithSeed f t b sd l s o => Ok (CreateAccountWithSeed f t b sd l s o)
  | CallAllocateWithSeed a b sd s o => Ok (AllocateWithSeed a b sd s o)
  | CallAssignWithSeed a b sd o => Ok (AssignWithSeed a b sd o)
  | CallTransferWithSeed f b sd fo t l => Ok (TransferWithSeed f b sd fo t l)
  end.

(** The instruction a call means; a txid is a hash in hexadecimal. *)
Definition parse_txid (txid : string) : option Hash :=
  match hex.DecodeString txid with
  | Ok b => if decide (length b = 32%nat) then Some (array_of 32 b) else None
  | Err _ => None
  end.

Definition sbytes (s : string) : list byte := String.list_byte_of_string s.

Definition meaning (c : SystemCall) : option SystemInstruction :=
  match c with
  | CallCreateAccount _ _ l s o => Some (SysCreateAccount l s o)
  | CallCreateAccountWithAnchor _ _ l s o tx v =>
      t ← parse_txid tx; Some (SysCreateAccountWithAnchor l s o t v)
  | CallAssign _ o => Some (SysAssign o)
  | CallAnchor _ tx v => t ← parse_txid tx; Some (SysAnchor t v)
  | CallSignInput i _ => Some (SysSignInput i)
  | CallTransfer _ _ l => Some (SysTransfer l)
  | CallAllocate _ s => Some (SysAllocate s)
  | CallCreateAccountWithSeed _ _ b sd l s o => Some (SysCreateAccountWithSeed b (sbytes sd) l s o)
  | CallAllocateWithSeed _ b sd s o => Some (SysAllocateWithSeed b (sbytes sd) s o)
  | CallAssignWithSeed _ b sd o => Some (SysAssignWithSeed b (sbytes sd) o)
  | CallTransferWithSeed _ _ sd fo _ l => Some (SysTransferWithSeed l (sbytes sd) fo)
  end.

(** The arguments are values of the Go types. *)
Definition call_fits (c : SystemCall) : Prop :=
  match c with
  | CallCreateAccount _ _ l s _ => is_u64 l ∧ is_u64 s
  | CallCreateAccountWithAnchor _ _ l s _ _ v => is_u64 l ∧ is_u64 s ∧ is_u32 v
  | CallAssign _ _ => True
  | CallAnchor _ _ v => is_u32 v
  | CallSignInput i _ => is_u32 i
  | CallTransfer _ _ l => is_u64 l
  | CallAllocate _ s => is_u64 s
  | CallCreateAccountWithSeed _ _ _ sd l s _ => is_u64 (zlen (sbytes sd)) ∧ is_u64 l ∧ is_u64 s
  | CallAllocateWithSeed _ _ sd s _ => is_u64 (zlen (sbytes sd)) ∧ is_u64 s
  | CallAssignWithSeed _ _ sd _ => is_u64 (zlen (sbytes sd))
  | CallTransferWithSeed _ _ sd _ _ l => is_u64 (zlen (sbytes sd)) ∧ is_u64 l
  end.

(** Whose signature a call needs, and which accounts it writes. *)
Definition authorities (c : SystemCall) : list Pubkey :=
  match c with
  | CallCreateAccount f t _ _ _ | CallCreateAccountWithAnchor f t _ _ _ _ _ => [f; t]
  | CallAssign p _ | CallAnchor p _ _ | CallSignInput _ p | CallAllocate p _ => [p]
  | CallTransfer f _ _ => [f]
  | CallCreateAccountWithSeed f _ b _ _ _ _ => [f; b]
  | CallAllocateWithSeed _ b _ _ _ | CallAssignWithSeed _ b _ _
  | CallTransferWithSeed _ b _ _ _ _ => [b]
  end.

Definition written (c : SystemCall) : list Pubkey :=
  match c with
  | CallCreateAccount f t _ _ _ | CallCreateAccountWithAnchor f t _ _ _ _ _ => [f; t]
  | CallAssign p _ | CallAnchor p _ _ | CallSignInput _ p | CallAllocate p _ => [p]
  | CallTransfer f t _ => [f; t]
  | CallCreateAccountWithSeed f t _ _ _ _ _ => [f; t]
  | CallAllocateWithSeed a _ _ _ _ | CallAssignWithSeed a _ _ _ => [a]
  | CallTransferWithSeed f _ _ _ t _ => [f; t]
  end.

(** ** Lemmas *)

Lemma decodeTxid_Ok txid b :
  decodeTxid txid = Ok b ↔ ∃ h : Hash, parse_txid txid = Some h ∧ b = array_list h.
Proof.
  unfold decodeTxid, parse_txid. destruct (hex.DecodeString txid) as [b'|e]; simpl.
  2:{ split; [done|intros (? & [=] & _)]. }
  destruct (decide (length b' = 32%nat)) as [H|H].
  - rewrite decide_False by auto. split.
    + intros [= <-]. eexists. split; [done|]. by rewrite array_of_exact.
    + intros (h & [= <-] & ->). by rewrite array_of_exact.
  - rewrite decide_True by done. split; [done|intros (? & [=] & _)].
Qed.

Lemma bind_get_string {B} (k : list byte → parser B) s rest :
  is_u64 (zlen (sbytes s)) →
  (get_string ≫= k) (le_bytes 8 (zlen (sbytes s)) ++ sbytes s ++ rest) = k (sbytes s) rest.
Proof.
  intros Hs. unfold get_string.
  transitivity ((get_u64 ≫= λ n, get_bytes (Z.to_nat n) ≫= k)
    (le_bytes 8 (zlen (sbytes s)) ++ sbytes s ++ rest)).
  { unfold mbind, parser_bind. by destruct (get_u64 _) as [[]|]. }
  rewrite bind_get_u64, bind_get_bytes by (done || apply zlen_to_nat || (symmetry; apply zlen_to_nat)).
  done.
Qed.

#[export] Hint Rewrite @bind_get_string using assumption : wire.

(** Runs [get_system] on the data of a builder. *)
Ltac decode_system :=
  apply parse_all_app; unfold appendString, appendU32, appendU64, sysCreateAccount,
    sysCreateAccountWithAnchor, sysAssign, sysAnchor, sysSignInput, sysTransfer, sysAllocate,
    sysCreateAccountWithSeed, sysAllocateWithSeed, sysAssignWithSeed, sysTransferWithSeed;
  repeat match goal with
  | |- context [String.list_byte_of_string ?s] =>
      change (String.list_byte_of_string s) with (sbytes s)
  end;
  rewrite ?uint64_small by assumption; unfold get_system; run_parser; reflexivity.

(** What a builder returns decodes to the instruction its call means. *)
Lemma build_system_decodes c i :
  call_fits c → meaning c = Some i →
  ∃ ix, build_system c = Ok ix ∧ ix_ProgramID ix = SystemProgramID ∧
        parse_all get_system (ix_Data ix) = Some i.
Proof.
  intros Hfit Hi.
  destruct c; simpl in *; try (injection Hi as <-); destruct_and?;
    try (eexists; split; [reflexivity|]; split; [reflexivity|]; simpl; decode_system).
  all: apply bind_Some in Hi as (t & Ht & [= <-]).
  all: assert (decodeTxid txid = Ok (array_list t)) as Htx by (apply decodeTxid_Ok; eauto).
  all: unfold CreateAccountWithAnchor, Anchor; rewrite Htx.
  all: eexists; split; [reflexivity|]; split; [reflexivity|]; simpl; decode_system.
Qed.

(** ** Properties *)

(** C26: the node decodes what a builder encodes: for arguments in the range of
    their Go types, a builder whose call is meaningful (the txid, if any, is 64
    hexadecimal digits) returns an instruction of the system program whose data
    decodes, to the last byte, to the instruction the call means. *)
Theorem system_decodes c i :
  call_fits c → meaning c = Some i →
  ∃ ix, build_system c = Ok ix ∧ ix_ProgramID ix = SystemProgramID ∧
        parse_all get_system (ix_Data ix) = Some i.
Proof. apply build_system_decodes. Qed.

Lemma system_decodes_witness :
  ∃ ix, build_system (CallAnchor (testKey 3)
          "920c8cf815dda297d7fcd85d79a7b0856c96b488ed2eb11171f17d4ccee7b795" 7) = Ok ix ∧
        ix_ProgramID ix = SystemProgramID ∧
        parse_all get_system (ix_Data ix) =
        (λ t, SysAnchor t 7) <$> parse_txid "920c8cf815dda297d7fcd85d79a7b0856c96b488ed2eb11171f17d4ccee7b795".
Proof.
  apply (system_decodes (CallAnchor (testKey 3)
    "920c8cf815dda297d7fcd85d79a7b0856c96b488ed2eb11171f17d4ccee7b795" 7)); [|reflexivity].
  simpl. unfold is_u32. lia.
Defined.

Lemma decodeTxid_Err txid e :
  decodeTxid txid = Err e ↔ parse_txid txid = None ∧
  match hex.DecodeString txid with
  | Err h => e = ErrorWrap "invalid txid hex" h
  | Ok b => e = length_error "txid" "32" (length b)
  end.
Proof.
  unfold decodeTxid, parse_txid.
  destruct (hex.DecodeString txid) as [b|h]; simpl; [|intuition congruence].
  destruct (decide (length b = 32%nat)) as [H|H].
  - rewrite decide_False by auto. intuition congruence.
  - rewrite decide_True by done. intuition congruence.
Qed.

(** The txid argument of a call that has one. *)
Definition call_txid (c : SystemCall) : option string :=
  match c with
  | CallCreateAccountWithAnchor _ _ _ _ _ t _ | CallAnchor _ t _ => Some t
  | _ => None
  end.

(** A builder fails exactly when its call names a transaction that is not 64
    hexadecimal digits; the error is the one of [decodeTxid], which reports a bad
    digit or an odd length before a wrong length. *)
Lemma system_errors c e :
  build_system c = Err e ↔
  meaning c = None ∧ ∃ txid, call_txid c = Some txid ∧
    match hex.DecodeString txid with
    | Err h => e = ErrorWrap "invalid txid hex" h
    | Ok b => e = length_error "txid" "32" (length b)
    end.
Proof.
  destruct c; simpl; try (split; [done|intros [? _]; done]);
    unfold CreateAccountWithAnchor, Anchor; pose proof (decodeTxid_Err txid e) as Htx.
  all: destruct (decodeTxid txid) as [b|e'] eqn:Hd; simpl; split.
  all: try (intros [= <-]; apply proj1 in Htx; destruct (Htx eq_refl) as [-> ?]; eauto).
  all: try done.
  all: intros (Hm & t & [= <-] & He).
  all: try (apply decodeTxid_Ok in Hd as (h & Hh & _); by rewrite Hh in Hm).
  all: destruct (parse_txid txid); [done|].
  all: assert (Err (A:=list byte) e' = Err e) as [= ->] by (apply Htx; done).
  all: done.
Qed.

(** The flags a built instruction asks for. *)
Lemma system_asks c ix k :
  build_system c = Ok ix →
  asksSigner [ix] None k = bool_decide (k ∈ authorities c) ∧
  asksWritable [ix] None k = bool_decide (k ∈ written c).
Proof.
  intros Hix. destruct c; simpl in Hix.
  all: try (apply bind_Ok in Hix as (b & _ & Hix)).
  all: injection Hix as <-; unfold asksSigner, asksWritable, requested; simpl.
  all: try (case_decide; simpl).
  all: split; apply eq_true_iff_eq;
    rewrite ?orb_true_iff, ?andb_true_iff, ?bool_decide_eq_true, ?elem_of_cons, ?elem_of_nil;
    intuition congruence.
Qed.

Lemma requested_payer flag ixs p k :
  requested flag ixs (Some p) k = requested flag ixs None k || bool_decide (p = k).
Proof.
  unfold requested. rewrite orb_false_r. f_equal. apply bool_decide_ext. split; congruence.
Qed.

(** Compiling one system call with a fee payer always succeeds, and the
    message requires the signatures of the payer and of the call's authorities, and
    only those, and makes writable the payer and the accounts the call writes, and
    only those. *)
Lemma system_call_compiles `{RT : GoRuntime} c ix payer bh :
  build_system c = Ok ix →
  ∃ m, NewSanitizedMessage [ix] (Some payer) bh = Ok m ∧
    ∀ i k, m_AccountKeys m !! i = Some k →
      grantsSigner m i = bool_decide (k ∈ payer :: authorities c) ∧
      grantsWritable m i = bool_decide (k ∈ payer :: written c).
Proof.
  intros Hix.
  destruct (NewSanitizedMessage_few [ix] (Some payer) bh) as [m Hm].
  { unfold mentioned. rewrite bind_cons, !length_app. simpl. rewrite length_fmap.
    destruct c; simpl in Hix; try (apply bind_Ok in Hix as (b & _ & Hix));
      injection Hix as <-; simpl; try case_decide; simpl; lia. }
  exists m. split; [done|]. intros i k Hk.
  destruct (NewSanitizedMessage_privileges _ _ _ _ _ _ Hm Hk) as [-> ->].
  destruct (system_asks c ix k Hix) as [Hs Hw].
  unfold asksSigner, asksWritable in *. rewrite !requested_payer, Hs, Hw.
  split; apply eq_true_iff_eq; rewrite orb_true_iff, !bool_decide_eq_true, elem_of_cons;
    intuition congruence.
Qed.

Lemma system_call_compiles_witness :
  ∃ m, NewSanitizedMessage
         [CreateAccountWithSeed (testKey 1) (testKey 2) (testKey 1) "seed" 5 6 (testKey 9)]
         (Some (testKey 7)) testHash = Ok m ∧
    ∀ i k, m_AccountKeys m !! i = Some k →
      grantsSigner m i = bool_decide (k ∈ [testKey 7; testKey 1; testKey 1]) ∧
      grantsWritable m i = bool_decide (k ∈ [testKey 7; testKey 1; testKey 2]).
Proof.
  exact (system_call_compiles
    (CallCreateAccountWithSeed (testKey 1) (testKey 2) (testKey 1) "seed" 5 6 (testKey 9))
    _ (testKey 7) testHash eq_refl).
Defined.
