(* ===== verification/Token.v ===== *)
(** * APL token and associated-token instructions: src/token.go.

    The builders as written, including the in-place patches of the discriminant by
    the [2], [3], [Checked] and [Thaw] variants. The specification is the token
    program's instruction enum with a decoder, and which keys each call makes
    signers and writable accounts. *)
From S2P Require Import Prelude GoLib Wire Pubkey Message Compile System.

(** ** Discriminants and helpers *)

Definition tokInitializeMint : byte := byte_of 0.
Definition tokInitializeAccount : byte := byte_of 1.
Definition tokInitializeMultisig : byte := byte_of 2.
Definition tokTransfer : byte := byte_of 3.
Definition tokApprove : byte := byte_of 4.
Definition tokRevoke : byte := byte_of 5.
Definition tokSetAuthority : byte := byte_of 6.
Definition tokMintTo : byte := byte_of 7.
Definition tokBurn : byte := byte_of 8.
Definition tokCloseAccount : byte := byte_of 9.
Definition tokFreezeAccount : byte := byte_of 10.
Definition tokThawAccount : byte := byte_of 11.
Definition tokTransferChecked : byte := byte_of 12.
Definition tokApproveChecked : byte := byte_of 13.
Definition tokMintToChecked : byte := byte_of 14.
Definition tokBurnChecked : byte := byte_of 15.
Definition tokInitializeAccount2 : byte := byte_of 16.
Definition tokSyncNative : byte := byte_of 17.
Definition tokInitializeAccount3 : byte := byte_of 18.
Definition tokInitializeMint2 : byte := byte_of 19.

(** [AuthorityType uint8] and its named values. *)
Definition AuthorityType : Type := byte.
Definition AuthorityMintTokens : AuthorityType := byte_of 0.
Definition AuthorityFreezeAccount : AuthorityType := byte_of 1.
Definition AuthorityAccountOwner : AuthorityType := byte_of 2.
Definition AuthorityCloseAccount : AuthorityType := byte_of 3.

Definition appendOptionalPubkey (data : list byte) (key : option Pubkey) : list byte :=
  match key with
  | None => data ++ [byte_of 0]
  | Some key => let data := data ++ [byte_of 1] in data ++ array_list key
  end.

(** Composite literals [{Pubkey: p}], [{Pubkey: p, IsWritable: true}] and
    [{Pubkey: p, IsSigner: true}]: the other fields are false. *)
Definition readonlyMeta (p : Pubkey) : AccountMeta := MkAccountMeta p false false.
Definition writableMeta (p : Pubkey) : AccountMeta := MkAccountMeta p false true.
Definition signerMeta (p : Pubkey) : AccountMeta := MkAccountMeta p true false.

Definition authorityAccounts (accounts : list AccountMeta) (authority : Pubkey)
    (multisigSigners : list Pubkey) : list AccountMeta :=
  let accounts := accounts ++
    [MkAccountMeta authority (bool_decide (length multisigSigners = 0%nat)) false] in
  foldl (λ accounts signer, accounts ++ [signerMeta signer]) accounts multisigSigners.

(** [ix.Data[0] = b] *)
Definition setDiscriminant (b : byte) (ix : Instruction) : Instruction :=
  MkInstruction (ix_ProgramID ix) (ix_Accounts ix) (<[0%nat := b]> (ix_Data ix)).

(** [ix.Data = append(ix.Data, b)] *)
Definition appendData (b : byte) (ix : Instruction) : Instruction :=
  MkInstruction (ix_ProgramID ix) (ix_Accounts ix) (ix_Data ix ++ [b]).

(** ** Builders *)

Definition TokenInitializeMint (mint mintAuthority : Pubkey) (freezeAuthority : option Pubkey)
    (decimals : byte) : Instruction :=
  let data := [tokInitializeMint; decimals] in
  let data := data ++ array_list mintAuthority in
  let data := appendOptionalPubkey data freezeAuthority in
  MkInstruction TokenProgramID [writableMeta mint] data.

Definition TokenInitializeMint2 (mint mintAuthority : Pubkey) (freezeAuthority : option Pubkey)
    (decimals : byte) : Instruction :=
  setDiscriminant tokInitializeMint2 (TokenInitializeMint mint mintAuthority freezeAuthority decimals).

Definition TokenInitializeAccount (account mint owner : Pubkey) : Instruction :=
  MkInstruction TokenProgramID [writableMeta account; readonlyMeta mint; readonlyMeta owner]
    [tokInitializeAccount].

Definition TokenInitializeAccount2 (account mint owner : Pubkey) : Instruction :=
  let data := [tokInitializeAccount2] in
  let data := data ++ array_list owner in
  MkInstruction TokenProgramID [writableMeta account; readonlyMeta mint] data.

Definition TokenInitializeAccount3 (account mint owner : Pubkey) : Instruction :=
  setDiscriminant tokInitializeAccount3 (TokenInitializeAccount2 account mint owner).

Definition TokenInitializeMultisig (multisig : Pubkey) (signers : list Pubkey) (m : byte) : Instruction :=
  let accounts := foldl (λ accounts signer, accounts ++ [readonlyMeta signer])
    [writableMeta multisig] signers in
  MkInstruction TokenProgramID accounts [tokInitializeMultisig; m].

Definition TokenTransfer (source destination authority : Pubkey) (multisigSigners : list Pubkey)
    (amount : Z) : Instruction :=
  let data := AppendUint64 [tokTransfer] amount in
  let accounts := [writableMeta source; writableMeta destination] in
  MkInstruction TokenProgramID (authorityAccounts accounts authority multisigSigners) data.

Definition TokenTransferChecked (source mint destination authority : Pubkey)
    (multisigSigners : list Pubkey) (amount : Z) (decimals : byte) : Instruction :=
  let data := AppendUint64 [tokTransferChecked] amount in
  let data := data ++ [decimals] in
  let accounts := [writableMeta source; readonlyMeta mint; writableMeta destination] in
  MkInstruction TokenProgramID (authorityAccounts accounts authority multisigSigners) data.

Definition TokenApprove (source delegate owner : Pubkey) (multisigSigners : list Pubkey)
    (amount : Z) : Instruction :=
  let data := AppendUint64 [tokApprove] amount in
  let accounts := [writableMeta source; readonlyMeta delegate] in
  MkInstruction TokenProgramID (authorityAccounts accounts owner multisigSigners) data.

Definition TokenApproveChecked (source mint delegate owner : Pubkey) (multisigSigners : list Pubkey)
    (amount : Z) (decimals : byte) : Instruction :=
  let data := AppendUint64 [tokApproveChecked] amount in
  let data := data ++ [decimals] in
  let accounts := [writableMeta source; readonlyMeta mint; readonlyMeta delegate] in
  MkInstruction TokenProgramID (authorityAccounts accounts owner multisigSigners) data.

Definition TokenRevoke (source owner : Pubkey) (multisigSigners : list Pubkey) : Instruction :=
  let accounts := [writableMeta source] in
  MkInstruction TokenProgramID (authorityAccounts accounts owner multisigSigners) [tokRevoke].

Definition TokenSetAuthority (owned : Pubkey) (newAuthority : option Pubkey)
    (authorityType : AuthorityType) (currentAuthority : Pubkey)
    (multisigSigners : list Pubkey) : Instruction :=
  let data := [tokSetAuthority; authorityType] in
  let data := appendOptionalPubkey data newAuthority in
  let accounts := [writableMeta owned] in
  MkInstruction TokenProgramID (authorityAccounts accounts currentAuthority multisigSigners) data.

Definition TokenMintTo (mint account mintAuthority : Pubkey) (multisigSigners : list Pubkey)
    (amount : Z) : Instruction :=
  let data := AppendUint64 [tokMintTo] amount in
  let accounts := [writableMeta mint; writableMeta account] in
  MkInstruction TokenProgramID (authorityAccounts accounts mintAuthority multisigSigners) data.

Definition TokenMintToChecked (mint account mintAuthority : Pubkey) (multisigSigners : list Pubkey)
    (amount : Z) (decimals : byte) : Instruction :=
  let ix := TokenMintTo mint account mintAuthority multisigSigners amount in
  let ix := setDiscriminant tokMintToChecked ix in
  appendData decimals ix.

Definition TokenBurn (account mint authority : Pubkey) (multisigSigners : list Pubkey)
    (amount : Z) : Instruction :=
  let data := AppendUint64 [tokBurn] amount in
  let accounts := [writableMeta account; writableMeta mint] in
  MkInstruction TokenProgramID (authorityAccounts accounts authority multisigSigners) data.

Definition TokenBurnChecked (account mint authority : Pubkey) (multisigSigners : list Pubkey)
    (amount : Z) (decimals : byte) : Instruction :=
  let ix := TokenBurn account mint authority multisigSigners amount in
  let ix := setDiscriminant tokBurnChecked ix in
  appendData decimals ix.

Definition TokenCloseAccount (account destination owner : Pubkey) (multisigSigners : list Pubkey) :
    Instruction :=
  let accounts := [writableMeta account; writableMeta destination] in
  MkInstruction TokenProgramID (authorityAccounts accounts owner multisigSigners) [tokCloseAccount].

Definition TokenFreezeAccount (account mint freezeAuthority : Pubkey)
    (multisigSigners : list Pubkey) : Instruction :=
  let accounts := [writableMeta account; readonlyMeta mint] in
  MkInstruction TokenProgramID (authorityAccounts accounts freezeAuthority multisigSigners)
    [tokFreezeAccount].

Definition TokenThawAccount (account mint freezeAuthority : Pubkey)
    (multisigSigners : list Pubkey) : Instruction :=
  setDiscriminant tokThawAccount (TokenFreezeAccount account mint freezeAuthority multisigSigners).

Definition TokenSyncNative (account : Pubkey) : Instruction :=
  MkInstruction TokenProgramID [writableMeta account] [tokSyncNative].

Definition CreateAssociatedTokenAccount (funder associatedTokenAccount wallet mint : Pubkey) :
    Instruction :=
  {| ix_ProgramID := AssociatedTokenProgramID;
     ix_Accounts := [MkAccountMeta funder true true; writableMeta associatedTokenAccount;
       readonlyMeta wallet; readonlyMeta mint; readonlyMeta SystemProgramID;
       readonlyMeta TokenProgramID];
     ix_Data := [] |}.

Definition CreateAssociatedTokenAccountWithAnchor
    (funder associatedTokenAccount wallet mint : Pubkey) (txid : string) (vout : Z) :
    result Instruction :=
  txidBytes ← decodeTxid txid;
  let ix := CreateAssociatedTokenAccount funder associatedTokenAccount wallet mint in
  let data := [] ++ txidBytes in
  Ok (MkInstruction (ix_ProgramID ix) (ix_Accounts ix) (AppendUint32 data vout)).

(** ** The token program's side *)

Inductive TokenInstruction :=
| TokInitializeMint (decimals : byte) (mint_authority : Pubkey) (freeze_authority : option Pubkey)
| TokInitializeAccount
| TokInitializeMultisig (m : byte)
| TokTransfer (amount : Z)
| TokApprove (amount : Z)
| TokRevoke
| TokSetAuthority (authority_type : byte) (new_authority : option Pubkey)
| TokMintTo (amount : Z)
| TokBurn (amount : Z)
| TokCloseAccount
| TokFreezeAccount
| TokThawAccount
| TokTransferChecked (amount : Z) (decimals : byte)
| TokApproveChecked (amount : Z) (decimals : byte)
| TokMintToChecked (amount : Z) (decimals : byte)
| TokBurnChecked (amount : Z) (decimals : byte)
| TokInitializeAccount2 (owner : Pubkey)
| TokSyncNative
| TokInitializeAccount3 (owner : Pubkey)
| TokInitializeMint2 (decimals : byte) (mint_authority : Pubkey) (freeze_authority : option Pubkey).

(** [Option<Pubkey>]: a tag byte, then the key. *)
Definition get_optional_pubkey : parser (option Pubkey) :=
  tag ← get_u8;
  match byte_val tag with
  | 0 => mret None
  | 1 => p ← get_pubkey; mret (Some p)
  | _ => get_fail
  end.

Definition get_token : parser TokenInstruction :=
  tag ← get_u8;
  match byte_val tag with
  | 0 => d ← get_u8; a ← get_pubkey; f ← get_optional_pubkey; mret (TokInitializeMint d a f)
  | 1 => mret TokInitializeAccount
  | 2 => m ← get_u8; mret (TokInitializeMultisig m)
  | 3 => a ← get_u64; mret (TokTransfer a)
  | 4 => a ← get_u64; mret (TokApprove a)
  | 5 => mret TokRevoke
  | 6 => t ← get_u8; n ← get_optional_pubkey; mret (TokSetAuthority t n)
  | 7 => a ← get_u64; mret (TokMintTo a)
  | 8 => a ← get_u64; mret (TokBurn a)
  | 9 => mret TokCloseAccount
  | 10 => mret TokFreezeAccount
  | 11 => mret TokThawAccount
  | 12 => a ← get_u64; d ← get_u8; mret (TokTransferChecked a d)
  | 13 => a ← get_u64; d ← get_u8; mret (TokApproveChecked a d)
  | 14 => a ← get_u64; d ← get_u8; mret (TokMintToChecked a d)
  | 15 => a ← get_u64; d ← get_u8; mret (TokBurnChecked a d)
  | 16 => o ← get_pubkey; mret (TokInitializeAccount2 o)
  | 17 => mret TokSyncNative
  | 18 => o ← get_pubkey; mret (TokInitializeAccount3 o)
  | 19 => d ← get_u8; a ← get_pubkey; f ← get_optional_pubkey; mret (TokInitializeMint2 d a f)
  | _ => get_fail
  end.

(** A call of one of the token builders. *)
Inductive TokenCall :=
| CallInitializeMint (mint mintAuthority : Pubkey) (freeze : option Pubkey) (decimals : byte)
| CallInitializeMint2 (mint mintAuthority : Pubkey) (freeze : option Pubkey) (decimals : byte)
| CallInitializeAccount (account mint owner : Pubkey)
| CallInitializeAccount2 (account mint owner : Pubkey)
| CallInitializeAccount3 (account mint owner : Pubkey)
| CallInitializeMultisig (multisig : Pubkey) (signers : list Pubkey) (m : byte)
| CallTokenTransfer (source destination authority : Pubkey) (multi : list Pubkey) (amount : Z)
| CallTransferChecked (source mint destination authority : Pubkey) (multi : list Pubkey)
    (amount : Z) (decimals : byte)
| CallApprove (source delegate owner : Pubkey) (multi : list Pubkey) (amount : Z)
| CallApproveChecked (source mint delegate owner : Pubkey) (multi : list Pubkey)
    (amount : Z) (decimals : byte)
| CallRevoke (source owner : Pubkey) (multi : list Pubkey)
| CallSetAuthority (owned : Pubkey) (new : option Pubkey) (type : AuthorityType)
    (current : Pubkey) (multi : list Pubkey)
| CallMintTo (mint account authority : Pubkey) (multi : list Pubkey) (amount : Z)
| CallMintToChecked (mint account authority : Pubkey) (multi : list Pubkey) (amount : Z) (decimals : byte)
| CallBurn (account mint authority : Pubkey) (multi : list Pubkey) (amount : Z)
| CallBurnChecked (account mint authority : Pubkey) (multi : list Pubkey) (amount : Z) (decimals : byte)
| CallCloseAccount (account destination owner : Pubkey) (multi : list Pubkey)
| CallFreezeAccount (account mint authority : Pubkey) (multi : list Pubkey)
| CallThawAccount (account mint authority : Pubkey) (multi : list Pubkey)
| CallSyncNative (account : Pubkey).

Definition build_token (c : TokenCall) : Instruction :=
  match c with
  | CallInitializeMint m a f d => TokenInitializeMint m a f d
  | CallInitializeMint2 m a f d => TokenInitializeMint2 m a f d
  | CallInitializeAccount a m o => TokenInitializeAccount a m o
  | CallInitializeAccount2 a m o => TokenInitializeAccount2 a m o
  | CallInitializeAccount3 a m o => TokenInitializeAccount3 a m o
  | CallInitializeMultisig m s n => TokenInitializeMultisig m s n
  | CallTokenTransfer s d a ms n => TokenTransfer s d a ms n
  | CallTransferChecked s m d a ms n k => TokenTransferChecked s m d a ms n k
  | CallApprove s d o ms n => TokenApprove s d o ms n
  | CallApproveChecked s m d o ms n k => TokenApproveChecked s m d o ms n k
  | CallRevoke s o ms => TokenRevoke s o ms
  | CallSetAuthority o n t c ms => TokenSetAuthority o n t c ms
  | CallMintTo m a au ms n => TokenMintTo m a au ms n
  | CallMintToChecked m a au ms n k => TokenMintToChecked m a au ms n k
  | CallBurn a m au ms n => TokenBurn a m au ms n
  | CallBurnChecked a m au ms n k => TokenBurnChecked a m au ms n k
  | CallCloseAccount a d o ms => TokenCloseAccount a d o ms
  | CallFreezeAccount a m f ms => TokenFreezeAccount a m f ms
  | CallThawAccount a m f ms => TokenThawAccount a m f ms
  | CallSyncNative a => TokenSyncNative a
  end.

Definition token_meaning (c : TokenCall) : TokenInstruction :=
  match c with
  | CallInitializeMint _ a f d => TokInitializeMint d a f
  | CallInitializeMint2 _ a f d => TokInitializeMint2 d a f
  | CallInitializeAccount _ _ _ => TokInitializeAccount
  | CallInitializeAccount2 _ _ o => TokInitializeAccount2 o
  | CallInitializeAccount3 _ _ o => TokInitializeAccount3 o
  | CallInitializeMultisig _ _ n => TokInitializeMultisig n
  | CallTokenTransfer _ _ _ _ n => TokTransfer n
  | CallTransferChecked _ _ _ _ _ n k => TokTransferChecked n k
  | CallApprove _ _ _ _ n => TokApprove n
  | CallApproveChecked _ _ _ _ _ n k => TokApproveChecked n k
  | CallRevoke _ _ _ => TokRevoke
  | CallSetAuthority _ n t _ _ => TokSetAuthority t n
  | CallMintTo _ _ _ _ n => TokMintTo n
  | CallMintToChecked _ _ _ _ n k => TokMintToChecked n k
  | CallBurn _ _ _ _ n => TokBurn n
  | CallBurnChecked _ _ _ _ n k => TokBurnChecked n k
  | CallCloseAccount _ _ _ _ => TokCloseAccount
  | CallFreezeAccount _ _ _ _ => TokFreezeAccount
  | CallThawAccount _ _ _ _ => TokThawAccount
  | CallSyncNative _ => TokSyncNative
  end.

(** The amount, when there is one, is a [uint64]. *)
Definition token_fits (c : TokenCall) : Prop :=
  match c with
  | CallTokenTransfer _ _ _ _ n | CallTransferChecked _ _ _ _ _ n _
  | CallApprove _ _ _ _ n | CallApproveChecked _ _ _ _ _ n _
  | CallMintTo _ _ _ _ n | CallMintToChecked _ _ _ _ n _
  | CallBurn _ _ _ _ n | CallBurnChecked _ _ _ _ n _ => is_u64 n
  | _ => True
  end.

(** The authority of a call and its multisig signers. *)
Definition token_authority (c : TokenCall) : option (Pubkey * list Pubkey) :=
  match c with
  | CallInitializeMint _ _ _ _ | CallInitializeMint2 _ _ _ _ | CallInitializeAccount _ _ _
  | CallInitializeAccount2 _ _ _ | CallInitializeAccount3 _ _ _ | CallInitializeMultisig _ _ _
  | CallSyncNative _ => None
  | CallTokenTransfer _ _ a ms _ | CallTransferChecked _ _ _ a ms _ _ | CallApprove _ _ a ms _
  | CallApproveChecked _ _ _ a ms _ _ | CallRevoke _ a ms | CallSetAuthority _ _ _ a ms
  | CallMintTo _ _ a ms _ | CallMintToChecked _ _ a ms _ _ | CallBurn _ _ a ms _
  | CallBurnChecked _ _ a ms _ _ | CallCloseAccount _ _ a ms | CallFreezeAccount _ _ a ms
  | CallThawAccount _ _ a ms => Some (a, ms)
  end.

(** A single key signs for itself, a multisig through its signers. *)
Definition token_signers (c : TokenCall) : list Pubkey :=
  match token_authority c with
  | None => []
  | Some (a, []) => [a]
  | Some (_, ms) => ms
  end.

Definition token_written (c : TokenCall) : list Pubkey :=
  match c with
  | CallInitializeMint x _ _ _ | CallInitializeMint2 x _ _ _ | CallInitializeAccount x _ _
  | CallInitializeAccount2 x _ _ | CallInitializeAccount3 x _ _ | CallInitializeMultisig x _ _
  | CallApprove x _ _ _ _ | CallApproveChecked x _ _ _ _ _ _ | CallRevoke x _ _
  | CallSetAuthority x _ _ _ _ | CallFreezeAccount x _ _ _ | CallThawAccount x _ _ _
  | CallSyncNative x => [x]
  | CallTokenTransfer x y _ _ _ | CallTransferChecked x _ y _ _ _ _ | CallMintTo x y _ _ _
  | CallMintToChecked x y _ _ _ _ | CallBurn x y _ _ _ | CallBurnChecked x y _ _ _ _
  | CallCloseAccount x y _ _ => [x; y]
  end.

(** ** Lemmas *)

Lemma appendOptionalPubkey_app data key :
  appendOptionalPubkey data key = data ++ appendOptionalPubkey [] key.
Proof. destruct key; simpl; by rewrite <- ?app_assoc. Qed.

Lemma bind_get_optional_pubkey {B} (k : option Pubkey → parser B) key rest :
  (get_optional_pubkey ≫= k) (appendOptionalPubkey [] key ++ rest) = k key rest.
Proof.
  unfold get_optional_pubkey. destruct key as [p|]; [|done].
  transitivity ((get_pubkey ≫= λ p, k (Some p)) (array_list p ++ rest)).
  - unfold mbind, parser_bind. simpl. by destruct (get_pubkey _) as [[]|].
  - exact (bind_get_pubkey (λ p, k (Some p)) p rest).
Qed.

#[export] Hint Rewrite @bind_get_optional_pubkey : wire.

Lemma authorityAccounts_eq accounts authority ms :
  authorityAccounts accounts authority ms =
  accounts ++ MkAccountMeta authority (bool_decide (length ms = 0%nat)) false ::
  (signerMeta <$> ms).
Proof.
  unfold authorityAccounts. by rewrite foldl_snoc, <- app_assoc.
Qed.

(** What an authority and its signers ask for. *)
Lemma authority_asks flag ix accounts authority ms k :
  ix_Accounts ix = authorityAccounts accounts authority ms →
  requested flag [ix] None k =
  existsb (λ a, bool_decide (am_Pubkey a = k) && flag a) accounts
  || (bool_decide (authority = k) &&
      flag (MkAccountMeta authority (bool_decide (length ms = 0%nat)) false))
  || existsb (λ s, bool_decide (s = k) && flag (signerMeta s)) ms.
Proof.
  intros Hix. unfold requested. simpl.
  rewrite Hix, authorityAccounts_eq, !orb_false_r, existsb_app. simpl.
  rewrite existsb_fmap, orb_assoc. done.
Qed.

(** Runs [get_token] on the data of a builder. *)
Ltac decode_token :=
  apply parse_all_app; unfold get_token; run_parser;
  match goal with
  | |- context [byte_val ?b] =>
      let v := eval vm_compute in (byte_val b) in change (byte_val b) with v
  end;
  cbn beta iota; run_parser; reflexivity.

(** What a builder returns decodes to the instruction its call means. *)
Lemma build_token_decodes c :
  token_fits c →
  ix_ProgramID (build_token c) = TokenProgramID ∧
  parse_all get_token (ix_Data (build_token c)) = Some (token_meaning c).
Proof.
  intros Hfit. split; [by destruct c|].
  destruct c; simpl in *; unfold AppendUint64; simpl;
    rewrite ?(appendOptionalPubkey_app (_ :: _)); simpl; decode_token.
Qed.

(** ** Properties *)

(** C27: the token program decodes what a builder encodes: every builder returns an
    instruction of the token program whose data decodes, to the last byte, to the
    instruction the call means; this covers the variants that patch another
    builder's discriminant in place. *)
Theorem token_decodes c :
  token_fits c →
  ix_ProgramID (build_token c) = TokenProgramID ∧
  parse_all get_token (ix_Data (build_token c)) = Some (token_meaning c).
Proof. apply build_token_decodes. Qed.

Lemma token_decodes_witness :
  parse_all get_token (ix_Data (TokenMintToChecked (testKey 1) (testKey 2) (testKey 3) [] 1000 (byte_of 6)))
  = Some (TokMintToChecked 1000 (byte_of 6)).
Proof.
  refine (proj2 (token_decodes
    (CallMintToChecked (testKey 1) (testKey 2) (testKey 3) [] 1000 (byte_of 6)) _)).
  simpl. unfold is_u64. lia.
Defined.

Lemma existsb_eq_elem (ms : list Pubkey) k :
  existsb (λ s, bool_decide (s = k) && true) ms = bool_decide (k ∈ ms).
Proof.
  apply eq_true_iff_eq. rewrite existsb_exists, bool_decide_eq_true. split.
  - intros (s & Hs & H). rewrite andb_true_r in H. apply bool_decide_eq_true in H as <-.
    by apply list_elem_of_In.
  - intros Hk. exists k. rewrite andb_true_r, bool_decide_eq_true_2 by done.
    split; [by apply list_elem_of_In|done].
Qed.

(** The flags of a call with an authority, from those of its own accounts. *)
Lemma authority_asks_signer ix accounts authority ms k :
  ix_Accounts ix = authorityAccounts accounts authority ms →
  Forall (λ a, am_IsSigner a = false) accounts →
  asksSigner [ix] None k =
  bool_decide (k ∈ match ms with [] => [authority] | _ => ms end).
Proof.
  intros Hix Hacc. unfold asksSigner. rewrite (authority_asks _ _ _ _ _ _ Hix). simpl am_IsSigner.
  replace (existsb _ accounts) with false.
  2:{ symmetry. clear Hix. induction Hacc as [|a l Ha _ IH]; [done|]. simpl. by rewrite Ha, andb_false_r. }
  rewrite existsb_eq_elem. destruct ms as [|s ms]; simpl.
  - rewrite andb_true_r, orb_false_r. apply bool_decide_ext. rewrite list_elem_of_singleton.
    split; congruence.
  - by rewrite andb_false_r.
Qed.

Lemma authority_asks_writable ix accounts authority ms k :
  ix_Accounts ix = authorityAccounts accounts authority ms →
  asksWritable [ix] None k = asksWritable [MkInstruction TokenProgramID accounts []] None k.
Proof.
  intros Hix. unfold asksWritable. rewrite (authority_asks _ _ _ _ _ _ Hix). simpl. rewrite !andb_false_r.
  rewrite (existsb_false _ ms) by (intros; apply andb_false_r). unfold requested. simpl.
  by rewrite !orb_false_r.
Qed.

(** C33: the privileges of token calls: with no multisig signers the authority
    signs; with multisig signers they all sign and the authority does not (unless it
    is one of them); calls without an authority ask for no signature; and exactly
    the accounts the program modifies are writable. *)
Theorem token_privileges c k :
  asksSigner [build_token c] None k = bool_decide (k ∈ token_signers c) ∧
  asksWritable [build_token c] None k = bool_decide (k ∈ token_written c).
Proof.
  split.
  - destruct c; unfold token_signers; simpl token_authority; simpl build_token;
      try (erewrite authority_asks_signer; [|reflexivity|repeat constructor]; by destruct multi);
      unfold asksSigner, requested; simpl; rewrite ?andb_false_r; try done.
    rewrite foldl_snoc, existsb_app, existsb_fmap. simpl.
    rewrite andb_false_r, existsb_false; [done|]. intros s. apply andb_false_r.
  - destruct c; simpl build_token; try (erewrite authority_asks_writable by reflexivity);
      unfold asksWritable, requested; simpl;
      rewrite ?foldl_snoc, ?existsb_app, ?existsb_fmap; simpl;
      rewrite ?(existsb_false _ signers) by (intros; apply andb_false_r);
      apply eq_true_iff_eq;
      rewrite ?orb_true_iff, ?andb_true_iff, ?bool_decide_eq_true, ?elem_of_cons, ?elem_of_nil;
      intuition congruence.
Qed.

(** The data of the anchored associated-token instruction: a txid and an output index. *)
Definition get_anchor : parser (Hash * Z) := t ← get_hash; v ← get_u32; mret (t, v).

(** Creating an associated token account asks only the funder to sign and
    makes only the funder and the new account writable; the anchored variant fails
    exactly on a txid that is not 64 hexadecimal digits, and otherwise only adds
    data: the transaction hash and the output index. *)
Lemma associated_token_calls funder ata wallet mint txid vout k :
  is_u32 vout →
  let ix := CreateAssociatedTokenAccount funder ata wallet mint in
  asksSigner [ix] None k = bool_decide (k = funder) ∧
  asksWritable [ix] None k = bool_decide (k = funder ∨ k = ata) ∧
  ix_ProgramID ix = AssociatedTokenProgramID ∧ ix_Data ix = [] ∧
  match parse_txid txid with
  | None => ∃ e, CreateAssociatedTokenAccountWithAnchor funder ata wallet mint txid vout = Err e
  | Some h => ∃ ix', CreateAssociatedTokenAccountWithAnchor funder ata wallet mint txid vout = Ok ix' ∧
      ix_ProgramID ix' = ix_ProgramID ix ∧ ix_Accounts ix' = ix_Accounts ix ∧
      parse_all get_anchor (ix_Data ix') = Some (h, vout)
  end.
Proof.
  intros Hv ix. split_ands; try done.
  1,2: unfold asksSigner, asksWritable, requested; simpl; apply eq_true_iff_eq;
    rewrite ?orb_true_iff, ?andb_true_iff, ?bool_decide_eq_true; intuition congruence.
  unfold CreateAssociatedTokenAccountWithAnchor. destruct (parse_txid txid) as [h|] eqn:Hh.
  - assert (decodeTxid txid = Ok (array_list h)) as -> by (apply decodeTxid_Ok; eauto).
    eexists. split; [reflexivity|]. split_ands; [done|done|]. simpl.
    apply parse_all_app. unfold get_anchor. run_parser. reflexivity.
  - destruct (decodeTxid txid) as [b|e] eqn:Hd; [|by eexists].
    apply decodeTxid_Ok in Hd as (h & Hh' & _). congruence.
Qed.

Lemma associated_token_calls_witness :
  asksSigner [CreateAssociatedTokenAccount (testKey 1) (testKey 2) (testKey 3) (testKey 4)] None
    (testKey 1) = true.
Proof.
  refine (proj1 (associated_token_calls (testKey 1) (testKey 2) (testKey 3) (testKey 4) "00"
    7 (testKey 1) _)).
  unfold is_u32. lia.
Defined.
