(* ===== verification/Pda.v ===== *)
(** * Program-derived addresses: src/pda.go.

    The one foreign call, [btcec.ParsePubKey] behind [isOnCurve], is a parameter:
    whether it accepts a byte string as a public key. Its documented behaviour is
    that a serialized secp256k1 key has 33 or 65 bytes and anything else is refused;
    theorems that need it take that as the hypothesis [parse_lengths]. *)
From S2P Require Import Prelude GoLib Sha256 Wire Pubkey Message Compile.

Definition MaxSeeds : nat := 16.
Definition MaxSeedLen : nat := 32.

Section pda.
Context (ParsePubKey : list byte → bool).

Definition isOnCurve (candidate : list byte) : bool := ParsePubKey candidate.

(** The first seed longer than the limit, with its index. *)
Fixpoint checkSeeds (i : nat) (seeds : list (list byte)) : result () :=
  match seeds with
  | [] => Ok ()
  | seed :: seeds =>
      if decide (MaxSeedLen < length seed)%nat
      then Err (ErrorString ("seed " +:+ pretty i +:+ " too long: " +:+ pretty (length seed)
                             +:+ " > " +:+ pretty MaxSeedLen))
      else checkSeeds (S i) seeds
  end.

Definition tooManySeeds (n : nat) : error :=
  ErrorString ("too many seeds: " +:+ pretty n +:+ " > " +:+ pretty MaxSeeds).

Definition onCurveError : error := ErrorString "invalid seeds: address is on curve".

Definition CreateProgramAddress (seeds : list (list byte)) (programID : Pubkey) : result Pubkey :=
  if decide (MaxSeeds < length seeds)%nat then Err (tooManySeeds (length seeds))
  else
    _ ← checkSeeds 0 seeds;
    let h := foldl sha256.Write sha256.New seeds in
    let h := sha256.Write h programID in
    let digest := sha256.Sum h in
    if isOnCurve digest then Err onCurveError else Ok (copy (zero_array 32) digest).

Definition noBumpError : error :=
  ErrorString "unable to find a viable program address bump seed".

(** [for bump := 255; bump >= 1; bump--]: the fuel is the bump itself. *)
Fixpoint findBump (bump : nat) (seeds : list (list byte)) (programID : Pubkey) :
    result (Pubkey * byte) :=
  match bump with
  | O => Err noBumpError
  | S bump' =>
      let seedsWithBump := seeds ++ [[byte_of (Z.of_nat bump)]] in
      match CreateProgramAddress seedsWithBump programID with
      | Ok pda => Ok (pda, byte_of (Z.of_nat bump))
      | Err _ => findBump bump' seeds programID
      end
  end.

Definition FindProgramAddress (seeds : list (list byte)) (programID : Pubkey) :
    result (Pubkey * byte) := findBump 255 seeds programID.

Definition AssociatedTokenAddress (wallet mint : Pubkey) : result (Pubkey * byte) :=
  FindProgramAddress [array_list wallet; array_list TokenProgramID; array_list mint]
    AssociatedTokenProgramID.

(** ** Lemmas *)

Definition seeds_ok (seeds : list (list byte)) : Prop :=
  (length seeds ≤ MaxSeeds)%nat ∧ Forall (λ s, length s ≤ MaxSeedLen)%nat seeds.

Lemma checkSeeds_Ok i seeds :
  checkSeeds i seeds = Ok () ↔ Forall (λ s, length s ≤ MaxSeedLen)%nat seeds.
Proof.
  revert i. induction seeds as [|s seeds IH]; intros i; simpl.
  - split; [constructor|done].
  - rewrite Forall_cons. case_decide as H; [split; [done|lia]|]. rewrite IH. intuition lia.
Qed.

(** The digest of a derivation: one hash over the concatenated seeds and the program. *)
Definition pda_digest (seeds : list (list byte)) (programID : Pubkey) : Pubkey :=
  sha256.Sum256 (concat seeds ++ array_list programID).

Lemma foldl_Write h seeds : foldl sha256.Write h seeds = h ++ concat seeds.
Proof.
  revert h. induction seeds as [|s seeds IH]; intros h; simpl; [by rewrite app_nil_r|].
  rewrite IH. unfold sha256.Write. by rewrite <- app_assoc.
Qed.

Lemma CreateProgramAddress_eq seeds programID :
  seeds_ok seeds →
  CreateProgramAddress seeds programID =
  (if isOnCurve (pda_digest seeds programID) then Err onCurveError
   else Ok (pda_digest seeds programID)).
Proof.
  intros [Hn Hs]. unfold CreateProgramAddress. rewrite decide_False by lia.
  rewrite (proj2 (checkSeeds_Ok 0 seeds) Hs). simpl. rewrite foldl_Write.
  unfold sha256.Write, sha256.Sum, sha256.New. simpl.
  fold (pda_digest seeds programID). destruct (isOnCurve _); [done|].
  f_equal. apply array_of_array.
Qed.

Lemma CreateProgramAddress_Ok_seeds seeds programID pda :
  CreateProgramAddress seeds programID = Ok pda → seeds_ok seeds.
Proof.
  unfold CreateProgramAddress. case_decide as H; [done|].
  intros ([] & Hc & _)%bind_Ok. apply checkSeeds_Ok in Hc. split; [lia|done].
Qed.

(** The attempt of one bump. *)
Definition attempt (seeds : list (list byte)) (programID : Pubkey) (bump : Z) : result Pubkey :=
  CreateProgramAddress (seeds ++ [[byte_of bump]]) programID.

Lemma findBump_Ok n seeds programID pda b :
  (n ≤ 255)%nat →
  findBump n seeds programID = Ok (pda, b) ↔
  1 ≤ byte_val b ≤ Z.of_nat n ∧ attempt seeds programID (byte_val b) = Ok pda ∧
  ∀ c, byte_val b < c ≤ Z.of_nat n → ¬ is_ok (attempt seeds programID c).
Proof.
  induction n as [|n IH]; intros Hn.
  { simpl. split; [done|lia]. }
  assert (byte_val (byte_of (Z.of_nat (S n))) = Z.of_nat (S n)) as Hval.
  { apply byte_val_of_small. unfold is_u8. lia. }
  cbn [findBump]. fold (attempt seeds programID (Z.of_nat (S n))).
  destruct (attempt seeds programID (Z.of_nat (S n))) as [q|e] eqn:Hq.
  - split.
    + intros [= -> <-]. rewrite Hval. split_ands; [lia|lia|done|]. intros c Hc. lia.
    + intros (Hb & Hpda & Hmax). destruct (decide (byte_val b = Z.of_nat (S n))) as [Heq|Hne].
      * rewrite <- Hval in Heq. apply (inj byte_val) in Heq as ->.
        rewrite Hval, Hq in Hpda. by injection Hpda as ->.
      * destruct (Hmax (Z.of_nat (S n))); [lia|]. rewrite Hq. by eexists.
  - rewrite IH by lia. split.
    + intros (Hb & Hpda & Hmax). split_ands; [lia|lia|done|]. intros c Hc.
      destruct (decide (c = Z.of_nat (S n))) as [->|]; [|apply Hmax; lia].
      rewrite Hq. by intros [a [=]].
    + intros (Hb & Hpda & Hmax).
      assert (byte_val b ≠ Z.of_nat (S n)) by (intros Heq; rewrite Heq, Hq in Hpda; done).
      split_ands; [lia|lia|done|]. intros c Hc. apply Hmax. lia.
Qed.

Lemma findBump_Err n seeds programID e :
  findBump n seeds programID = Err e → e = noBumpError.
Proof.
  induction n as [|n IH]; simpl; [by intros [= <-]|].
  by destruct (CreateProgramAddress _ _).
Qed.

Lemma seeds_ok_bump seeds b :
  seeds_ok (seeds ++ [[b]]) ↔
  (length seeds < MaxSeeds)%nat ∧ Forall (λ s, length s ≤ MaxSeedLen)%nat seeds.
Proof.
  unfold seeds_ok. rewrite length_app, Forall_app, Forall_singleton. simpl.
  unfold MaxSeedLen. intuition lia.
Qed.
End pda.

(** The documented behaviour of [btcec.ParsePubKey]. *)
Definition parse_lengths (ParsePubKey : list byte → bool) : Prop :=
  ∀ b, ParsePubKey b = true → length b = 33%nat ∨ length b = 65%nat.

Lemma digest_off_curve ParsePubKey seeds programID :
  parse_lengths ParsePubKey → isOnCurve ParsePubKey (pda_digest seeds programID) = false.
Proof.
  intros Hp. unfold isOnCurve. apply not_true_is_false. intros H%Hp.
  unfold pda_digest in H. rewrite length_array in H. lia.
Qed.

(** ** Properties *)

(** C32: the branches of [CreateProgramAddress], whatever the curve test is: more
    than 16 seeds is an error; else a seed longer than 32 bytes is an error; else the
    result is the SHA-256 of the concatenated seeds and program id, refused when the
    curve test accepts it. *)
Theorem CreateProgramAddress_branches P seeds programID :
  let r := CreateProgramAddress P seeds programID in
  ((16 < length seeds)%nat → r = Err (tooManySeeds (length seeds))) ∧
  ((length seeds ≤ 16)%nat → Exists (λ s, 32 < length s)%nat seeds →
     ∃ i s, seeds !! i = Some s ∧ (32 < length s)%nat ∧
       Forall (λ s, length s ≤ 32)%nat (take i seeds) ∧
       r = Err (ErrorString ("seed " +:+ pretty i +:+ " too long: " +:+ pretty (length s) +:+ " > 32"))) ∧
  ((length seeds ≤ 16)%nat → Forall (λ s, length s ≤ 32)%nat seeds →
     r = if P (sha256.Sum256 (concat seeds ++ array_list programID)) then Err onCurveError
         else Ok (sha256.Sum256 (concat seeds ++ array_list programID))).
Proof.
  intros r. unfold r. split_ands.
  - intros H. unfold CreateProgramAddress. by rewrite decide_True.
  - intros Hn He. unfold CreateProgramAddress. rewrite decide_False by (unfold MaxSeeds; lia).
    assert (∀ n, ∃ i s, seeds !! i = Some s ∧ (32 < length s)%nat ∧
      Forall (λ s, length s ≤ 32)%nat (take i seeds) ∧
      checkSeeds n seeds = Err (ErrorString ("seed " +:+ pretty (n + i)%nat +:+ " too long: " +:+
        pretty (length s) +:+ " > " +:+ pretty MaxSeedLen))) as Hchk.
    { clear Hn. induction seeds as [|s seeds IH]; [by apply Exists_nil in He|]. intros n. simpl.
      case_decide as Hs.
      - exists 0%nat, s. split_ands; [done|done|constructor|]. by rewrite Nat.add_0_r.
      - apply Exists_cons in He as [?|He]; [unfold MaxSeedLen in Hs; lia|].
        destruct (IH He (S n)) as (i & s' & Hi & Hl & Ht & Hc). exists (S i), s'.
        split_ands; [done|done| |by rewrite Hc, Nat.add_succ_comm].
        simpl. constructor; [unfold MaxSeedLen in Hs; lia|done]. }
    destruct (Hchk 0%nat) as (i & s & Hi & Hl & Ht & Hc). exists i, s.
    split_ands; [done|done|done|]. rewrite Hc. done.
  - intros Hn Hs. rewrite CreateProgramAddress_eq by done. done.
Qed.

(** C30: [FindProgramAddress] returns the address of the greatest bump in 1..255
    whose derivation [CreateProgramAddress (seeds ++ [bump])] succeeds, and fails
    exactly when none of the 255 does; the loop always ends. *)
Theorem FindProgramAddress_greatest P seeds programID :
  (∀ pda b, FindProgramAddress P seeds programID = Ok (pda, b) ↔
     1 ≤ byte_val b ∧ CreateProgramAddress P (seeds ++ [[b]]) programID = Ok pda ∧
     ∀ c, byte_val b < byte_val c →
       ¬ is_ok (CreateProgramAddress P (seeds ++ [[c]]) programID)) ∧
  (∀ e, FindProgramAddress P seeds programID = Err e ↔
     e = noBumpError ∧
     ∀ c, 1 ≤ byte_val c → ¬ is_ok (CreateProgramAddress P (seeds ++ [[c]]) programID)).
Proof.
  assert (∀ pda b, FindProgramAddress P seeds programID = Ok (pda, b) ↔
     1 ≤ byte_val b ∧ CreateProgramAddress P (seeds ++ [[b]]) programID = Ok pda ∧
     ∀ c, byte_val b < byte_val c →
       ¬ is_ok (CreateProgramAddress P (seeds ++ [[c]]) programID)) as Hok.
  { intros pda b. unfold FindProgramAddress. rewrite findBump_Ok by lia. unfold attempt.
    rewrite byte_of_val. pose proof (byte_val_range b). split.
    - intros (Hb & Hp & Hm). split_ands; [lia|done|]. intros c Hc.
      rewrite <- (byte_of_val c). apply Hm. pose proof (byte_val_range c). lia.
    - intros (Hb & Hp & Hm). split_ands; [lia|lia|done|]. intros c Hc. apply Hm.
      rewrite byte_val_of_small by (unfold is_u8; lia). lia. }
  split; [done|]. intros e. destruct (FindProgramAddress P seeds programID) as [[pda b]|e'] eqn:Hf.
  - split; [done|]. intros [_ Hnone]. destruct (proj1 (Hok pda b) eq_refl) as (Hb & Hp & _).
    destruct (Hnone b Hb). by eexists.
  - apply findBump_Err in Hf as He'. subst e'. split.
    + intros [= <-]. split; [done|]. intros c Hc [q Hq].
      assert (∀ n, Z.of_nat n ≤ 255 → byte_val c ≤ Z.of_nat n →
        ∃ r, findBump P n seeds programID = Ok r) as Hex.
      { intros n. induction n as [|n IH]; intros Hn Hcn; [lia|].
        cbn [findBump]. destruct (CreateProgramAddress P (seeds ++ [[byte_of (Z.of_nat (S n))]]) programID)
          as [x|y] eqn:Hx; [by eexists|]. apply IH; [lia|].
        destruct (decide (byte_val c = Z.of_nat (S n))) as [Heq|]; [|lia].
        rewrite <- Heq, byte_of_val, Hq in Hx. done. }
      pose proof (byte_val_range c).
      destruct (Hex 255%nat) as [r Hr]; [lia|lia|]. unfold FindProgramAddress in Hf. congruence.
    + by intros [-> _].
Qed.

(** C31: given the documented lengths of serialized public keys, the curve test
    never refuses a 32-byte digest, so [FindProgramAddress] succeeds exactly with at
    most 15 seeds of at most 32 bytes, always at its first attempt: the bump is 255
    and the address is the SHA-256 of the seeds, the byte 255 and the program id. *)
Theorem FindProgramAddress_first_bump P seeds programID :
  parse_lengths P →
  FindProgramAddress P seeds programID =
  if decide ((length seeds ≤ 15)%nat ∧ Forall (λ s, length s ≤ 32)%nat seeds)
  then Ok (sha256.Sum256 (concat seeds ++ [byte_of 255] ++ array_list programID), byte_of 255)
  else Err noBumpError.
Proof.
  intros Hp. case_decide as Hs.
  - assert (seeds_ok (seeds ++ [[byte_of 255]])) as Hok
      by (apply seeds_ok_bump; unfold MaxSeeds; intuition lia).
    unfold FindProgramAddress. cbn [findBump]. change (Z.of_nat 255) with 255.
    rewrite CreateProgramAddress_eq, digest_off_curve by done.
    unfold pda_digest. rewrite concat_app, <- app_assoc. done.
  - unfold FindProgramAddress.
    assert (∀ n, findBump P n seeds programID = Err noBumpError) as Hfail; [|apply Hfail].
    intros n. induction n as [|n IH]; [done|]. cbn [findBump].
    destruct (CreateProgramAddress P _ programID) as [q|] eqn:Hq; [|done].
    apply CreateProgramAddress_Ok_seeds, seeds_ok_bump in Hq as [Hn Hl].
    destruct Hs. split; [unfold MaxSeeds in Hn; lia|done].
Qed.

(** The derivations of src/pda_test.go: the addresses computed by the Rust program. *)
Definition fixture_vault : Pubkey := pubkey_lit [
  0xdf; 0x5b; 0xd9; 0x32; 0xf5; 0xeb; 0x03; 0x76; 0xac; 0xdc; 0xba; 0x27; 0x1a; 0x84; 0x79; 0xf9;
  0xee; 0x38; 0xd8; 0xaf; 0x30; 0x8b; 0x60; 0xa1; 0xde; 0xd6; 0xdc; 0x66; 0x54; 0x4e; 0xcf; 0xe4].
Definition fixture_ata : Pubkey := pubkey_lit [
  0xfc; 0x6c; 0x1f; 0x3a; 0xbe; 0xcf; 0x0a; 0x47; 0x8a; 0xf7; 0xf9; 0x75; 0x95; 0xa5; 0x41; 0xf1;
  0xdb; 0xac; 0x28; 0x12; 0xc9; 0x80; 0xb3; 0xe8; 0xbb; 0x28; 0x04; 0x53; 0x89; 0x31; 0xa8; 0xa4].

(** A curve test with the documented lengths, which accepts what has one of them. *)
Definition lengthParse (b : list byte) : bool :=
  bool_decide (length b = 33%nat) || bool_decide (length b = 65%nat).

Lemma lengthParse_lengths : parse_lengths lengthParse.
Proof.
  intros b H. apply orb_true_iff in H. rewrite !bool_decide_eq_true in H. done.
Qed.

Lemma FindProgramAddress_first_bump_witness :
  FindProgramAddress lengthParse [ascii_bytes "vault"; bytes_lit [1; 2; 3]] TokenProgramID
  = Ok (fixture_vault, byte_of 255).
Proof.
  etransitivity; [apply (FindProgramAddress_first_bump lengthParse), lengthParse_lengths|].
  vm_compute. reflexivity.
Defined.

(** The derivation has no separators: two seed lists within the limits that
    concatenate to the same bytes derive the same address. *)
Lemma CreateProgramAddress_concat P seeds1 seeds2 programID :
  seeds_ok seeds1 → seeds_ok seeds2 → concat seeds1 = concat seeds2 →
  CreateProgramAddress P seeds1 programID = CreateProgramAddress P seeds2 programID.
Proof.
  intros H1 H2 Heq. rewrite !CreateProgramAddress_eq by done.
  unfold pda_digest. by rewrite Heq.
Qed.

Lemma CreateProgramAddress_concat_witness :
  CreateProgramAddress lengthParse [ascii_bytes "ab"; ascii_bytes "c"] TokenProgramID =
  CreateProgramAddress lengthParse [ascii_bytes "a"; ascii_bytes "bc"] TokenProgramID.
Proof.
  apply (CreateProgramAddress_concat lengthParse); [..|reflexivity];
    (split; [unfold MaxSeeds; simpl; lia|repeat constructor; unfold MaxSeedLen; simpl; lia]).
Defined.

(** The associated token address of the Rust fixture, for any curve test. *)
Example ata_fixture P :
  parse_lengths P →
  AssociatedTokenAddress P (pubkey_lit (replicate 32 7)) (pubkey_lit (replicate 32 9)) =
  Ok (fixture_ata, byte_of 255).
Proof.
  intros Hp. unfold AssociatedTokenAddress, FindProgramAddress. cbn [findBump].
  rewrite CreateProgramAddress_eq, digest_off_curve; [vm_compute; reflexivity|done|].
  apply seeds_ok_bump. split; [unfold MaxSeeds; simpl; lia|].
  repeat constructor; unfold MaxSeedLen; vm_compute; lia.
Qed.
