(* ===== verification/Btcd.v ===== *)
(** * The Bitcoin libraries the SDK calls, as an interface.

    btcec, schnorr, txscript, wire, chainhash and btcutil are not part of the
    repository. The class [Btcd] names the functions, types and constants of theirs
    that src/bip322.go, src/keys.go and src/transaction.go use; the class [BtcdLaws]
    states what those files rely on, each law a documented behaviour of one function.
    The instance [toy] at the end satisfies every law, with a "signature" anybody
    could forge: it shows that the laws are consistent and makes the definitions that
    use the interface executable. *)
From S2P Require Import Prelude GoLib Sha256 Wire Pubkey.

(** ** The transactions of package wire, by their public fields *)

Record OutPoint := { op_Hash : Hash; op_Index : Z }.
Record TxIn := {
  PreviousOutPoint : OutPoint; SignatureScript : list byte;
  Witness : list (list byte); Sequence : Z }.
Record TxOut := { Value : Z; PkScript : list byte }.
Record MsgTx := {
  mt_Version : Z; mt_TxIn : list TxIn; mt_TxOut : list TxOut; mt_LockTime : Z }.

(** [tx.TxIn[i].Witness = w]. *)
Definition setWitness (i : nat) (w : list (list byte)) (tx : MsgTx) : MsgTx :=
  {| mt_Version := mt_Version tx;
     mt_TxIn := alter (λ txin, {| PreviousOutPoint := PreviousOutPoint txin;
       SignatureScript := SignatureScript txin; Witness := w; Sequence := Sequence txin |})
       i (mt_TxIn tx);
     mt_TxOut := mt_TxOut tx; mt_LockTime := mt_LockTime tx |}.

(** ** The functions *)

Class Btcd := {
  (* btcec, schnorr *)
  PrivateKey : Type;
  PublicKey : Type;
  PubKey : PrivateKey → PublicKey;
  SerializePubKey : PublicKey → list byte;
  ParsePubKey : list byte → result PublicKey;
  (* txscript: keys and scripts *)
  ComputeTaprootKeyNoScript : PublicKey → PublicKey;
  ComputeTaprootOutputKey : PublicKey → list byte → PublicKey;
  PayToTaprootScript : PublicKey → result (list byte);
  TapLeafHash : list byte → Hash; (* NewBaseTapLeaf(script).TapHash() *)
  ScriptBuilder : Type;
  NewScriptBuilder : ScriptBuilder;
  AddOp : byte → ScriptBuilder → ScriptBuilder;
  AddData : list byte → ScriptBuilder → ScriptBuilder;
  Script : ScriptBuilder → result (list byte);
  OP_0 : byte;
  OP_FALSE : byte;
  OP_IF : byte;
  OP_ENDIF : byte;
  OP_RETURN : byte;
  OP_CHECKSIG : byte;
  (* chainhash, wire *)
  TaggedHash : list byte → list byte → Hash;
  TxHash : MsgTx → Hash;
  MaxPrevOutIndex : Z;
  NewMsgTx : Z → MsgTx;
  AddTxIn : TxIn → MsgTx → MsgTx;
  AddTxOut : TxOut → MsgTx → MsgTx;
  NewTxOut : Z → list byte → TxOut;
  (* txscript: signing and execution *)
  PrevOutputFetcher : Type;
  NewCannedPrevOutputFetcher : list byte → Z → PrevOutputFetcher;
  TxSigHashes : Type;
  NewTxSigHashes : MsgTx → PrevOutputFetcher → TxSigHashes;
  SigHashAll : byte;
  RawTxInTaprootSignature :
    MsgTx → TxSigHashes → nat → Z → list byte → list byte → byte → PrivateKey →
    result (list byte);
  Engine : Type;
  StandardVerifyFlags : Z;
  NewEngine :
    list byte → MsgTx → nat → Z → TxSigHashes → Z → PrevOutputFetcher → result Engine;
  Execute : Engine → result unit;
  (* btcutil, chaincfg *)
  Params : Type;
  Address : Type;
  NewAddressTaproot : list byte → Params → result Address;
  EncodeAddress : Address → string;
}.

(** The limit below which [ScriptBuilder] never fails, and the data lengths it
    pushes with a single length byte. *)
Definition MaxScriptSize : Z := 10000.

(** ** What the SDK relies on *)

Class BtcdLaws {B : Btcd} : Prop := {
  (** An x-only key is 32 bytes, and parses to a key with the same bytes (BIP-340). *)
  SerializePubKey_length pk : length (SerializePubKey pk) = 32%nat;
  ParsePubKey_Serialize pk :
    ∃ q, ParsePubKey (SerializePubKey pk) = Ok q ∧ SerializePubKey q = SerializePubKey pk;
  (** Every public key has a pay-to-taproot script. *)
  PayToTaprootScript_total pk : is_ok (PayToTaprootScript pk);
  (** The script builder appends an opcode as one byte and short data behind its
      length, up to the size limit. *)
  Script_new : Script NewScriptBuilder = Ok [];
  Script_AddOp b op bs :
    Script b = Ok bs → zlen bs + 1 ≤ MaxScriptSize → Script (AddOp op b) = Ok (bs ++ [op]);
  Script_AddData b d bs :
    Script b = Ok bs → 2 ≤ zlen d ≤ 75 → zlen bs + 1 + zlen d ≤ MaxScriptSize →
    Script (AddData d b) = Ok (bs ++ byte_of (zlen d) :: d);
  (** Transactions start empty and grow at the end. *)
  NewMsgTx_empty v :
    NewMsgTx v = {| mt_Version := v; mt_TxIn := []; mt_TxOut := []; mt_LockTime := 0 |};
  AddTxIn_app i tx :
    AddTxIn i tx = {| mt_Version := mt_Version tx; mt_TxIn := mt_TxIn tx ++ [i];
                      mt_TxOut := mt_TxOut tx; mt_LockTime := mt_LockTime tx |};
  AddTxOut_app o tx :
    AddTxOut o tx = {| mt_Version := mt_Version tx; mt_TxIn := mt_TxIn tx;
                       mt_TxOut := mt_TxOut tx ++ [o]; mt_LockTime := mt_LockTime tx |};
  NewTxOut_fields v s : NewTxOut v s = {| Value := v; PkScript := s |};
  (** Signing an existing input for an output of the key, tweaked with no script
      tree, succeeds; the sighash type [SigHashAll] is appended to the 64 bytes of
      the Schnorr signature (BIP-341). *)
  RawTxInTaprootSignature_total tx i amt q script priv :
    (i < length (mt_TxIn tx))%nat →
    SerializePubKey q = SerializePubKey (PubKey priv) →
    PayToTaprootScript (ComputeTaprootKeyNoScript q) = Ok script →
    ∃ s, length s = 64%nat ∧
      RawTxInTaprootSignature tx (NewTxSigHashes tx (NewCannedPrevOutputFetcher script amt))
        i amt script [] SigHashAll priv = Ok (s ++ [SigHashAll]);
  (** A raw signature of an input, put alone on that input's witness, makes the
      engine accept the spend. *)
  Execute_signed tx i amt q script priv raw :
    (i < length (mt_TxIn tx))%nat →
    SerializePubKey q = SerializePubKey (PubKey priv) →
    PayToTaprootScript (ComputeTaprootKeyNoScript q) = Ok script →
    RawTxInTaprootSignature tx (NewTxSigHashes tx (NewCannedPrevOutputFetcher script amt))
      i amt script [] SigHashAll priv = Ok raw →
    let fetcher := NewCannedPrevOutputFetcher script amt in
    let tx' := setWitness i [raw] tx in
    ∃ vm, NewEngine script tx' i StandardVerifyFlags (NewTxSigHashes tx' fetcher) amt fetcher
            = Ok vm ∧ Execute vm = Ok ();
}.
Arguments BtcdLaws B : clear implicits.

(** ** An instance of the laws *)

Module toy.
Definition builder : Type := result (list byte).

Definition addOp (op : byte) (b : builder) : builder := bs ← b; Ok (bs ++ [op]).
Definition addData (d : list byte) (b : builder) : builder :=
  bs ← b; Ok (bs ++ byte_of (zlen d) :: d).

(** BIP-340's tagged hash. *)
Definition taggedHash (tag msg : list byte) : Hash :=
  let t := sha256.Sum256 tag in sha256.Sum256 (array_list t ++ array_list t ++ msg).

(** What a signature commits to: the transaction without its witnesses. *)
Definition txinBytes (i : TxIn) : list byte :=
  array_list (op_Hash (PreviousOutPoint i)) ++ le_bytes 4 (op_Index (PreviousOutPoint i)) ++
  SignatureScript i ++ le_bytes 4 (Sequence i).
Definition txoutBytes (o : TxOut) : list byte := le_bytes 8 (Value o) ++ PkScript o.
Definition txBytes (tx : MsgTx) : list byte :=
  le_bytes 4 (mt_Version tx) ++ (mt_TxIn tx ≫= txinBytes) ++ (mt_TxOut tx ≫= txoutBytes) ++
  le_bytes 4 (mt_LockTime tx).
Definition txHash (tx : MsgTx) : Hash := sha256.Sum256 (txBytes tx).

(** The forgeable signature: a digest of the transaction and of the spent script,
    twice. *)
Definition signature (tx : MsgTx) (script : list byte) : list byte :=
  let d := sha256.Sum256 (txBytes tx ++ script) in array_list d ++ array_list d.

Record engine := { e_script : list byte; e_tx : MsgTx; e_input : nat }.

Definition execute (e : engine) : result unit :=
  match Witness <$> (mt_TxIn (e_tx e) !! e_input e) with
  | Some [w] =>
      if decide (w = signature (e_tx e) (e_script e) ++ [byte_of 1]) then Ok ()
      else Err (ForeignErr "invalid signature")
  | _ => Err (ForeignErr "invalid witness")
  end.

Lemma txBytes_setWitness i w tx : txBytes (setWitness i w tx) = txBytes tx.
Proof.
  unfold txBytes. simpl. do 2 f_equal.
  generalize (mt_TxIn tx). intros l. revert i.
  induction l as [|x l IH]; intros [|i]; [done..|].
  change (alter ?f (S i) (x :: l)) with (x :: alter f i l).
  rewrite !bind_cons. f_equal. apply IH.
Qed.

Lemma signature_setWitness i w tx script :
  signature (setWitness i w tx) script = signature tx script.
Proof. unfold signature. by rewrite txBytes_setWitness. Qed.

Definition btcd : Btcd := {|
  PrivateKey := array 32;
  PublicKey := array 32;
  PubKey k := k;
  SerializePubKey := array_list;
  ParsePubKey b := if decide (length b = 32%nat) then Ok (array_of 32 b)
                   else Err (ForeignErr "bad pubkey byte string size");
  ComputeTaprootKeyNoScript k := k;
  ComputeTaprootOutputKey k root := sha256.Sum256 (array_list k ++ root);
  PayToTaprootScript k := Ok (bytes_lit [0x51; 0x20] ++ array_list k);
  TapLeafHash s := taggedHash (ascii_bytes "TapLeaf") s;
  ScriptBuilder := builder;
  NewScriptBuilder := Ok [];
  AddOp := addOp;
  AddData := addData;
  Script b := b;
  OP_0 := byte_of 0x00;
  OP_FALSE := byte_of 0x00;
  OP_IF := byte_of 0x63;
  OP_ENDIF := byte_of 0x68;
  OP_RETURN := byte_of 0x6a;
  OP_CHECKSIG := byte_of 0xac;
  TaggedHash := taggedHash;
  TxHash := txHash;
  MaxPrevOutIndex := 2 ^ 32 - 1;
  NewMsgTx v := {| mt_Version := v; mt_TxIn := []; mt_TxOut := []; mt_LockTime := 0 |};
  AddTxIn i tx := {| mt_Version := mt_Version tx; mt_TxIn := mt_TxIn tx ++ [i];
                     mt_TxOut := mt_TxOut tx; mt_LockTime := mt_LockTime tx |};
  AddTxOut o tx := {| mt_Version := mt_Version tx; mt_TxIn := mt_TxIn tx;
                      mt_TxOut := mt_TxOut tx ++ [o]; mt_LockTime := mt_LockTime tx |};
  NewTxOut v s := {| Value := v; PkScript := s |};
  PrevOutputFetcher := unit;
  NewCannedPrevOutputFetcher _ _ := ();
  TxSigHashes := unit;
  NewTxSigHashes _ _ := ();
  SigHashAll := byte_of 1;
  RawTxInTaprootSignature tx _ _ _ script _ ht _ := Ok (signature tx script ++ [ht]);
  Engine := engine;
  StandardVerifyFlags := 0;
  NewEngine script tx i _ _ _ _ := Ok {| e_script := script; e_tx := tx; e_input := i |};
  Execute := execute;
  Params := string;
  Address := string * list byte;
  NewAddressTaproot k params := Ok (params, k);
  EncodeAddress a := (a.1 +:+ "1" +:+ hex.EncodeToString a.2)%string;
|}.

Lemma btcd_laws : BtcdLaws btcd.
Proof.
  split; simpl; try done.
  - intros pk. apply length_array.
  - intros pk. rewrite decide_True by apply length_array. eexists. split; [done|].
    by rewrite array_of_array.
  - by eexists.
  - intros b op bs -> _. done.
  - intros b d bs -> _ _. done.
  - intros tx i amt q script priv _ _ _. eexists. split; [|done].
    unfold signature. by rewrite length_app, !length_array.
  - intros tx i amt q script priv raw Hi _ _ [= <-]. eexists. split; [done|].
    unfold execute. cbn [e_tx e_input e_script].
    destruct (lookup_lt_is_Some_2 _ _ Hi) as [txin Htx].
    rewrite signature_setWitness. unfold setWitness. cbn [mt_TxIn].
    rewrite list_lookup_alter, Htx. rewrite decide_True by done. cbn. by case_decide.
Qed.
End toy.
