(* ===== verification/Keys.v ===== *)
(** * Account keys and Bitcoin addresses: src/keys.go.

    The operations over the interface [Btcd]. Theorems: which texts the network key
    parser accepts and what it returns, and the address of an account on every branch,
    with the script leaf it commits to written out byte by byte. *)
From S2P Require Import Prelude GoLib Sha256 Wire Pubkey Btcd.

Section keys.
Context {B : Btcd}.

(** [generated] is what the generator of btcec returns. *)
Definition NewPrivateKey (generated : result PrivateKey) : result PrivateKey := generated.

Definition XOnlyPubkey (priv : PrivateKey) : Pubkey :=
  copy (zero_array 32) (SerializePubKey (PubKey priv)).

Definition P2TRAddress (pubkey : Pubkey) (params : Params) : result string :=
  internalKey ← wrap_err "invalid x-only pubkey" (ParsePubKey (array_list pubkey));
  let taprootKey := ComputeTaprootKeyNoScript internalKey in
  addr ← NewAddressTaproot (SerializePubKey taprootKey) params;
  Ok (EncodeAddress addr).

Definition NetworkPubkeyFromHex (s : string) : result Pubkey :=
  b ← wrap_err "invalid network pubkey hex" (hex.DecodeString s);
  if decide (length b = 32%nat) then Ok (copy (zero_array 32) b)
  else if decide (length b = 33%nat) then Ok (copy (zero_array 32) (drop 1 b))
  else Err (length_error "network pubkey" "32 or 33" (length b)).

(** The script leaf of an account, as [AccountAddress] builds it. *)
Definition accountLeaf (networkPubkey accountPubkey : Pubkey) : result (list byte) :=
  Script (AddOp OP_ENDIF (AddData (array_list accountPubkey) (AddOp OP_IF (AddOp OP_FALSE
    (AddOp OP_CHECKSIG (AddData (array_list networkPubkey) NewScriptBuilder)))))).

Definition AccountAddress (networkPubkey accountPubkey : Pubkey) (params : Params)
    : result string :=
  internalKey ← wrap_err "invalid network pubkey" (ParsePubKey (array_list networkPubkey));
  script ← accountLeaf networkPubkey accountPubkey;
  let root := TapLeafHash script in
  let outputKey := ComputeTaprootOutputKey internalKey (array_list root) in
  addr ← NewAddressTaproot (SerializePubKey outputKey) params;
  Ok (EncodeAddress addr).

(** ** Lemmas *)

Context {L : BtcdLaws B}.

Lemma array_list_XOnlyPubkey priv : array_list (XOnlyPubkey priv) = SerializePubKey (PubKey priv).
Proof. apply copy_exact, SerializePubKey_length. Qed.

(** The key of a private key always parses, to a key with the same x-only form. *)
Lemma ParsePubKey_XOnlyPubkey priv :
  ∃ q, ParsePubKey (array_list (XOnlyPubkey priv)) = Ok q ∧
       SerializePubKey q = SerializePubKey (PubKey priv).
Proof. rewrite array_list_XOnlyPubkey. apply ParsePubKey_Serialize. Qed.

(** The script leaf: the network key checks the signature, the account key sits in a
    branch that is never taken. *)
Definition leaf_bytes (net acct : Pubkey) : list byte :=
  byte_of 32 :: array_list net ++ [OP_CHECKSIG; OP_FALSE; OP_IF] ++
  byte_of 32 :: array_list acct ++ [OP_ENDIF].

Lemma accountLeaf_eq net acct : accountLeaf net acct = Ok (leaf_bytes net acct).
Proof.
  unfold accountLeaf, leaf_bytes.
  assert (∀ k : Pubkey, zlen (array_list k) = 32) as Hk by (intros; unfold zlen; len).
  erewrite Script_AddOp; [| |].
  2:{ apply Script_AddData; [|rewrite Hk; lia|].
      - apply Script_AddOp; [apply Script_AddOp; [apply Script_AddOp; [apply Script_AddData|]|]|];
          first [apply Script_new|rewrite Hk; lia|unfold zlen, MaxScriptSize; len].
      - rewrite Hk. unfold zlen, MaxScriptSize. len. }
  - rewrite !Hk. simpl. by rewrite <- !app_assoc.
  - unfold zlen, MaxScriptSize. len.
Qed.

Lemma leaf_bytes_inj net1 net2 acct1 acct2 :
  leaf_bytes net1 acct1 = leaf_bytes net2 acct2 → net1 = net2 ∧ acct1 = acct2.
Proof.
  unfold leaf_bytes. intros [= H]. apply app_inj_length in H as [Hn [= H]]; [|by len].
  apply app_inj_length in H as [Ha _]; [|by len]. split; by apply array_eq.
Qed.
End keys.

(** The network key parser accepts exactly the hexadecimal text (in either case)
    of 32 bytes, which are the key, or of 33 bytes, whose first one, whatever it is,
    is dropped; any other length, and text that is not hexadecimal, has its error. *)
Lemma NetworkPubkeyFromHex_spec s :
  (∀ pk, NetworkPubkeyFromHex s = Ok pk ↔
     ∃ b, hex.lower <$> String.list_byte_of_string s = hex.Encode b ∧
          (b = array_list pk ∨ ∃ parity, b = parity :: array_list pk)) ∧
  (∀ e, hex.DecodeString s = Err e →
     NetworkPubkeyFromHex s = Err (ErrorWrap "invalid network pubkey hex" e)) ∧
  (∀ b, hex.DecodeString s = Ok b → length b ≠ 32%nat → length b ≠ 33%nat →
     NetworkPubkeyFromHex s = Err (length_error "network pubkey" "32 or 33" (length b))).
Proof.
  unfold NetworkPubkeyFromHex. split_ands.
  - intros pk. rewrite bind_Ok. setoid_rewrite wrap_err_Ok.
    setoid_rewrite hex.Decode_iff. apply exist_proper. intros b.
    apply and_iff_compat_l. case_decide as H32; [|case_decide as H33].
    + split.
      * intros [= <-]. left. by rewrite copy_exact.
      * intros [->|[p ->]]; [f_equal; apply array_eq, copy_exact; len|len].
    + destruct b as [|p b]; [simpl in *; lia|]. split.
      * intros [= <-]. right. exists p. simpl in H33. by rewrite copy_exact by (rewrite ?length_drop; simpl; lia).
      * intros [Hb|[p' [= -> ->]]]; [destruct H32; rewrite Hb; apply length_array|].
        f_equal. apply array_eq, copy_exact. simpl. len.
    + split; [done|]. intros [->|[p ->]]; len.
  - by intros e ->.
  - intros b -> H32 H33. simpl. by repeat case_decide.
Qed.

(** The address of an account. When the network key is a point, it encodes the
    taproot output of that key with the leaf
    [<network key> OP_CHECKSIG OP_FALSE OP_IF <account key> OP_ENDIF], 70 bytes in
    all; when it is not, the error says so. The leaf determines both keys, so no two
    accounts of a network share one. *)
Lemma AccountAddress_spec {B : Btcd} {L : BtcdLaws B} net acct params :
  AccountAddress net acct params =
    match ParsePubKey (array_list net) with
    | Err e => Err (ErrorWrap "invalid network pubkey" e)
    | Ok k =>
        EncodeAddress <$> NewAddressTaproot (SerializePubKey
          (ComputeTaprootOutputKey k (array_list (TapLeafHash (leaf_bytes net acct))))) params
    end ∧
  length (leaf_bytes net acct) = 70%nat ∧
  (∀ net' acct', leaf_bytes net acct = leaf_bytes net' acct' → net = net' ∧ acct = acct').
Proof.
  split_ands.
  - unfold AccountAddress. destruct (ParsePubKey (array_list net)) as [k|e]; [|done].
    cbn [wrap_err mbind result_bind]. by rewrite accountLeaf_eq.
  - unfold leaf_bytes. len.
  - intros net' acct'. apply leaf_bytes_inj.
Qed.

Lemma AccountAddress_spec_witness :
  length (@leaf_bytes toy.btcd (pubkey_lit [1]) (pubkey_lit [2])) = 70%nat ∧
  is_ok (@AccountAddress toy.btcd (pubkey_lit [1]) (pubkey_lit [2]) "bcrt").
Proof.
  destruct (@AccountAddress_spec toy.btcd toy.btcd_laws (pubkey_lit [1]) (pubkey_lit [2]) "bcrt")
    as (-> & Hlen & _).
  split; [apply Hlen|]. eexists. reflexivity.
Defined.
