(* ===== verification/Bip322.v ===== *)
(** * BIP-322 message signatures: src/bip322.go.

    The two virtual transactions of BIP-322 and the signing and verifying functions,
    over the interface [Btcd]. Theorems: what the virtual transactions commit to, that
    signing always succeeds and its signature verifies for the signer's key, and the
    verdict of verification on every branch. *)
From S2P Require Import Prelude GoLib Sha256 Wire Pubkey Btcd Keys.

(** [Signature] of src/types.go. *)
Definition Signature : Type := array 64.
#[global] Instance Signature_eq_dec : EqDecision Signature := array_eq_dec.

Definition bip322Tag : list byte := ascii_bytes "BIP0322-signed-message".

Section bip322.
Context {B : Btcd}.

Definition p2trScript (pubkey : Pubkey) : result (list byte) :=
  internalKey ← wrap_err "invalid x-only pubkey" (ParsePubKey (array_list pubkey));
  let taprootKey := ComputeTaprootKeyNoScript internalKey in
  PayToTaprootScript taprootKey.

Definition buildToSpend (script msg : list byte) : result MsgTx :=
  let msgHash := TaggedHash bip322Tag msg in
  scriptSig ← Script (AddData (array_list msgHash) (AddOp OP_0 NewScriptBuilder));
  let tx := NewMsgTx 0 in
  let tx := AddTxIn {| PreviousOutPoint := {| op_Hash := zero_array 32;
                                              op_Index := MaxPrevOutIndex |};
                       SignatureScript := scriptSig; Witness := []; Sequence := 0 |} tx in
  let tx := AddTxOut (NewTxOut 0 script) tx in
  Ok tx.

Definition buildToSign (toSpend : MsgTx) : MsgTx :=
  let tx := NewMsgTx 0 in
  let tx := AddTxIn {| PreviousOutPoint := {| op_Hash := TxHash toSpend; op_Index := 0 |};
                       SignatureScript := []; Witness := []; Sequence := 0 |} tx in
  let tx := AddTxOut (NewTxOut 0 [OP_RETURN]) tx in
  tx.

Definition SignMessageBIP322 (priv : PrivateKey) (msg : list byte) : result Signature :=
  script ← p2trScript (XOnlyPubkey priv);
  toSpend ← buildToSpend script msg;
  let toSign := buildToSign toSpend in
  let fetcher := NewCannedPrevOutputFetcher script 0 in
  let sigHashes := NewTxSigHashes toSign fetcher in
  rawSig ← wrap_err "taproot signing failed"
    (RawTxInTaprootSignature toSign sigHashes 0 0 script [] SigHashAll priv);
  if decide (length rawSig < 64)%nat
  then Err (ErrorString ("unexpected signature length " +:+ pretty (length rawSig)))
  else Ok (copy (zero_array 64) (take 64 rawSig)).

Definition VerifyMessageBIP322 (msg : list byte) (pubkey : Pubkey) (sig : Signature)
    (usesSighashAll : bool) : result unit :=
  script ← p2trScript pubkey;
  toSpend ← buildToSpend script msg;
  let toSign := buildToSign toSpend in
  let witnessSig := array_list sig ++ (if usesSighashAll then [SigHashAll] else []) in
  let toSign := setWitness 0 [witnessSig] toSign in
  let fetcher := NewCannedPrevOutputFetcher script 0 in
  let sigHashes := NewTxSigHashes toSign fetcher in
  vm ← NewEngine script toSign 0 StandardVerifyFlags sigHashes 0 fetcher;
  wrap_err "BIP-322 verification failed" (Execute vm).

(** ** Lemmas *)

Context {L : BtcdLaws B}.

(** The "to_spend" transaction, with its fields written out. *)
Definition toSpend_spec (script : list byte) (msgHash : Hash) : MsgTx :=
  {| mt_Version := 0;
     mt_TxIn := [{| PreviousOutPoint := {| op_Hash := zero_array 32; op_Index := MaxPrevOutIndex |};
                    SignatureScript := OP_0 :: byte_of 32 :: array_list msgHash;
                    Witness := []; Sequence := 0 |}];
     mt_TxOut := [{| Value := 0; PkScript := script |}];
     mt_LockTime := 0 |}.

(** The "to_sign" transaction, which spends output 0 of the former. *)
Definition toSign_spec (spent : Hash) : MsgTx :=
  {| mt_Version := 0;
     mt_TxIn := [{| PreviousOutPoint := {| op_Hash := spent; op_Index := 0 |};
                    SignatureScript := []; Witness := []; Sequence := 0 |}];
     mt_TxOut := [{| Value := 0; PkScript := [OP_RETURN] |}];
     mt_LockTime := 0 |}.

Lemma buildToSpend_eq script msg :
  buildToSpend script msg = Ok (toSpend_spec script (TaggedHash bip322Tag msg)).
Proof.
  unfold buildToSpend. assert (zlen (array_list (TaggedHash bip322Tag msg)) = 32) as Hl
    by (unfold zlen; by rewrite length_array).
  erewrite Script_AddData; [|apply Script_AddOp; [apply Script_new|]|..];
    rewrite ?Hl; unfold MaxScriptSize, zlen; simpl; try lia.
  by rewrite AddTxOut_app, AddTxIn_app, NewMsgTx_empty, NewTxOut_fields.
Qed.

Lemma buildToSign_eq toSpend : buildToSign toSpend = toSign_spec (TxHash toSpend).
Proof.
  unfold buildToSign. by rewrite AddTxOut_app, AddTxIn_app, NewMsgTx_empty, NewTxOut_fields.
Qed.

Lemma toSpend_spec_inj script1 script2 h1 h2 :
  toSpend_spec script1 h1 = toSpend_spec script2 h2 → script1 = script2 ∧ h1 = h2.
Proof. unfold toSpend_spec. intros [= Hh Hs]. split; [done|by apply array_eq]. Qed.

(** The script of a private key's account is defined. *)
Lemma p2trScript_XOnlyPubkey priv :
  ∃ q script, SerializePubKey q = SerializePubKey (PubKey priv) ∧
    PayToTaprootScript (ComputeTaprootKeyNoScript q) = Ok script ∧
    p2trScript (XOnlyPubkey priv) = Ok script.
Proof.
  destruct (ParsePubKey_XOnlyPubkey priv) as (q & Hq & Hser).
  destruct (PayToTaprootScript_total (ComputeTaprootKeyNoScript q)) as [script Hs].
  exists q, script. split_ands; [done|done|]. unfold p2trScript. by rewrite Hq.
Qed.

(** Signing succeeds, and the raw signature it cuts is restored by the verifier. *)
Lemma SignMessageBIP322_raw priv msg :
  ∃ q script sig raw toSign,
    SerializePubKey q = SerializePubKey (PubKey priv) ∧
    PayToTaprootScript (ComputeTaprootKeyNoScript q) = Ok script ∧
    p2trScript (XOnlyPubkey priv) = Ok script ∧
    toSign = toSign_spec (TxHash (toSpend_spec script (TaggedHash bip322Tag msg))) ∧
    RawTxInTaprootSignature toSign (NewTxSigHashes toSign (NewCannedPrevOutputFetcher script 0))
      0 0 script [] SigHashAll priv = Ok raw ∧
    raw = array_list sig ++ [SigHashAll] ∧
    SignMessageBIP322 priv msg = Ok sig.
Proof.
  destruct (p2trScript_XOnlyPubkey priv) as (q & script & Hser & Hpay & Hp).
  set (toSign := toSign_spec (TxHash (toSpend_spec script (TaggedHash bip322Tag msg)))).
  destruct (RawTxInTaprootSignature_total toSign 0 0 q script priv) as (s & Hlen & Hraw);
    [simpl; lia|done|done|].
  exists q, script, (array_of 64 s), (s ++ [SigHashAll]), toSign.
  split_ands; [done..| |].
  { by rewrite array_of_exact. }
  unfold SignMessageBIP322. rewrite Hp. simpl. rewrite buildToSpend_eq. simpl.
  rewrite buildToSign_eq. fold toSign. rewrite Hraw. simpl.
  rewrite decide_False by (rewrite length_app; simpl; lia).
  by rewrite take_app_exact.
Qed.

Lemma VerifyMessageBIP322_sign priv msg :
  ∃ sig, SignMessageBIP322 priv msg = Ok sig ∧
         VerifyMessageBIP322 msg (XOnlyPubkey priv) sig true = Ok ().
Proof.
  destruct (SignMessageBIP322_raw priv msg)
    as (q & script & sig & raw & toSign & Hser & Hpay & Hp & -> & Hraw & -> & Hsig).
  exists sig. split; [done|].
  edestruct Execute_signed as (vm & Hvm & Hexec); [|apply Hser|apply Hpay|apply Hraw|];
    [simpl; lia|].
  unfold VerifyMessageBIP322. rewrite Hp. simpl. rewrite buildToSpend_eq. simpl.
  rewrite buildToSign_eq, Hvm. simpl. by rewrite Hexec.
Qed.
End bip322.

(** C29: signing with any private key succeeds, and the 64 bytes it returns verify, as a
    SIGHASH_ALL signature of the same message, for the x-only key of that private key. *)
Theorem sign_verify {B : Btcd} {L : BtcdLaws B} priv msg :
  ∃ sig, SignMessageBIP322 priv msg = Ok sig ∧
         VerifyMessageBIP322 msg (XOnlyPubkey priv) sig true = Ok ().
Proof. apply VerifyMessageBIP322_sign. Qed.

Lemma sign_verify_witness :
  ∃ sig, @SignMessageBIP322 toy.btcd (pubkey_lit [7]) (ascii_bytes "hello") = Ok sig ∧
         @VerifyMessageBIP322 toy.btcd (ascii_bytes "hello") (@XOnlyPubkey toy.btcd (pubkey_lit [7]))
           sig true = Ok ().
Proof. apply (@sign_verify toy.btcd toy.btcd_laws (pubkey_lit [7]) (ascii_bytes "hello")). Defined.

(** C34: what a signature commits to. The "to_sign" transaction spends output 0 of the
    "to_spend" transaction alone, which holds the tagged hash of the message and the
    script of the key: two "to_spend" transactions are equal only for equal scripts and
    message hashes, and so are two "to_sign" transactions, as far as transaction ids
    are. *)
Theorem bip322_commitment {B : Btcd} {L : BtcdLaws B} script1 msg1 script2 msg2 :
  ∃ s1 s2, buildToSpend script1 msg1 = Ok s1 ∧ buildToSpend script2 msg2 = Ok s2 ∧
    (s1 = s2 ↔ script1 = script2 ∧ TaggedHash bip322Tag msg1 = TaggedHash bip322Tag msg2) ∧
    (buildToSign s1 = buildToSign s2 ↔ TxHash s1 = TxHash s2) ∧
    (PreviousOutPoint <$> mt_TxIn (buildToSign s1)) = [{| op_Hash := TxHash s1; op_Index := 0 |}] ∧
    (PkScript <$> mt_TxOut (buildToSign s1)) = [[OP_RETURN]].
Proof.
  eexists _, _. split_ands; [apply buildToSpend_eq..| | | |].
  - split; [apply toSpend_spec_inj|by intros [-> ->]].
  - rewrite !buildToSign_eq. split; [by intros [= ?]|by intros ->].
  - by rewrite buildToSign_eq.
  - by rewrite buildToSign_eq.
Qed.

Lemma bip322_commitment_witness :
  ∃ s1 s2, @buildToSpend toy.btcd [] (ascii_bytes "a") = Ok s1 ∧
    @buildToSpend toy.btcd [] (ascii_bytes "b") = Ok s2 ∧ s1 ≠ s2.
Proof.
  destruct (@bip322_commitment toy.btcd toy.btcd_laws [] (ascii_bytes "a") [] (ascii_bytes "b"))
    as (s1 & s2 & H1 & H2 & Hiff & _).
  exists s1, s2. split; [exact H1|]. split; [exact H2|].
  intros Heq. destruct (proj1 Hiff Heq) as [_ Hh]. vm_compute in Hh. discriminate Hh.
Defined.
