(* ===== verification/Transaction.v ===== *)
(** * Transactions: src/transaction.go and the envelope of src/types.go.

    [RuntimeTransaction], its binary form and id, signing by a set of private keys and
    the normalization of wallet signatures. Theorems: the format reads back, its size,
    the id, exactly when signing succeeds and that every signature it makes verifies
    for the account key at the same index, and what [AdjustSignature] accepts. *)
From S2P Require Import Prelude GoLib Sha256 Wire Pubkey Message Compile Btcd Keys Bip322.

Record RuntimeTransaction := MkRuntimeTransaction {
  tx_Version : Z;
  tx_Signatures : list Signature;
  tx_Message : SanitizedMessage;
}.

#[global] Instance RuntimeTransaction_eq_dec : EqDecision RuntimeTransaction.
Proof. solve_decision. Defined.

Definition RuntimeTransaction_Serialize (tx : RuntimeTransaction) : list byte :=
  let buf := [] in
  let buf := AppendUint32 buf (tx_Version tx) in
  let buf := buf ++ [byte_of (zlen (tx_Signatures tx))] in
  let buf := foldl (λ buf (sig : Signature), buf ++ array_list sig) buf (tx_Signatures tx) in
  buf ++ SanitizedMessage_Serialize (tx_Message tx).

Definition TxID (tx : RuntimeTransaction) : string :=
  let first := sha256.Sum256 (RuntimeTransaction_Serialize tx) in
  let firstHex := String.list_byte_of_string (hex.EncodeToString first) in
  let second := sha256.Sum256 firstHex in
  hex.EncodeToString second.

Definition AdjustSignature (sig : list byte) : result Signature :=
  let out := zero_array 64 in
  if decide (length sig = 64%nat) then Ok (copy out sig)
  else if decide (length sig = 66%nat) then Ok (copy out (drop 2 sig))
  else if decide (length sig = 67%nat) then Ok (copy out (take 64 (drop 2 sig)))
  else Err (ErrorString ("invalid signature length " +:+ pretty (length sig))).

Definition tooFewKeysError (required keys : nat) : error :=
  ErrorString ("message requires " +:+ pretty required +:+ " signatures but has only " +:+
               pretty keys +:+ " account keys").

Definition missingSignerError (key : Pubkey) : error :=
  ErrorString ("required signer " +:+ Pubkey_String key +:+ " not found").

Section sign.
Context {B : Btcd}.

(** The map [byPubkey]: a later signer replaces an earlier one with the same key. *)
Definition byPubkey (signers : list PrivateKey) : gmap Pubkey PrivateKey :=
  foldl (λ m signer, <[XOnlyPubkey signer := signer]> m) ∅ signers.

(** One round of the signing loop. *)
Definition signFor (signers : gmap Pubkey PrivateKey) (digest : list byte) (key : Pubkey)
    : result Signature :=
  match signers !! key with
  | None => Err (missingSignerError key)
  | Some signer => SignMessageBIP322 signer digest
  end.

Definition BuildAndSignTransaction (message : SanitizedMessage) (signers : list PrivateKey)
    : result RuntimeTransaction :=
  let digest := SanitizedMessage_Hash message in
  let numRequired := Z.to_nat (byte_val (NumRequiredSignatures (m_Header message))) in
  if decide (length (m_AccountKeys message) < numRequired)%nat
  then Err (tooFewKeysError numRequired (length (m_AccountKeys message)))
  else
    signatures ← mapM (signFor (byPubkey signers) digest)
                      (take numRequired (m_AccountKeys message));
    Ok {| tx_Version := RuntimeTxVersion; tx_Signatures := signatures; tx_Message := message |}.
End sign.

(** ** The reader of the format *)

Lemma RuntimeTransaction_Serialize_eq tx :
  RuntimeTransaction_Serialize tx =
  le_bytes 4 (tx_Version tx) ++ byte_of (zlen (tx_Signatures tx)) ::
  (tx_Signatures tx ≫= array_list) ++ SanitizedMessage_Serialize (tx_Message tx).
Proof.
  unfold RuntimeTransaction_Serialize, AppendUint32. by rewrite foldl_append, <- !app_assoc.
Qed.

(** What the format can carry: at most 255 signatures, and what the message can. *)
Definition transaction_fits (tx : RuntimeTransaction) : Prop :=
  is_u32 (tx_Version tx) ∧ zlen (tx_Signatures tx) ≤ 255 ∧ message_fits (tx_Message tx).

#[global] Instance transaction_fits_dec tx : Decision (transaction_fits tx).
Proof. unfold transaction_fits. apply _. Defined.

Definition get_transaction : parser RuntimeTransaction :=
  v ← get_u32; n ← get_u8;
  sigs ← get_many (A := Signature) (get_array 64) (Z.to_nat (byte_val n));
  m ← get_message;
  mret (MkRuntimeTransaction v sigs m).

Lemma get_transaction_Serialize tx rest :
  transaction_fits tx →
  get_transaction (RuntimeTransaction_Serialize tx ++ rest) = Some (tx, rest).
Proof.
  destruct tx as [v sigs m]. intros (Hv & Hn & Hm). simpl in *.
  rewrite RuntimeTransaction_Serialize_eq. simpl. unfold get_transaction.
  rewrite <- !app_assoc. simpl. rewrite <- app_assoc.
  rewrite bind_get_u32, bind_get_u8 by done.
  rewrite byte_val_of_small by (unfold is_u8, zlen in *; lia). rewrite zlen_to_nat.
  etransitivity; [exact (bind_get_many (H := array_wire 64) _ sigs _ (Forall_true _ _ (λ _, I)))|].
  unfold mbind, parser_bind. by rewrite get_message_Serialize.
Qed.

#[global] Instance transaction_wire : Wire RuntimeTransaction := {|
  wf := transaction_fits;
  put := RuntimeTransaction_Serialize;
  get := get_transaction;
  get_put := get_transaction_Serialize;
|}.

Lemma length_transaction tx :
  length (RuntimeTransaction_Serialize tx) =
  (5 + 64 * length (tx_Signatures tx) + length (SanitizedMessage_Serialize (tx_Message tx)))%nat.
Proof.
  rewrite RuntimeTransaction_Serialize_eq. autorewrite with arch.
  rewrite (length_bind_sum _ (λ _, 64%nat)) by apply length_array.
  rewrite sum_list_with_const. unfold Signature. lia.
Qed.

(** ** Signing *)

Section signing.
Context {B : Btcd}.

Lemma byPubkey_snoc signers p :
  byPubkey (signers ++ [p]) = <[XOnlyPubkey p := p]> (byPubkey signers).
Proof. unfold byPubkey. by rewrite foldl_app. Qed.

(** The map holds, under each key, a given signer with that key, if there is one. *)
Lemma byPubkey_lookup signers k :
  (∀ p, byPubkey signers !! k = Some p → p ∈ signers ∧ XOnlyPubkey p = k) ∧
  (byPubkey signers !! k = None ↔ k ∉ (XOnlyPubkey <$> signers)).
Proof.
  induction signers as [|p signers [IHs IHn]] using rev_ind.
  { split; [done|]. split; [by intros _ ?%elem_of_nil|done]. }
  rewrite byPubkey_snoc, fmap_app. split.
  - intros q. rewrite lookup_insert_Some. intros [[<- <-]|[_ Hq]].
    + split; [|done]. apply elem_of_app. right. by left.
    + apply IHs in Hq as [? ?]. split; [|done]. apply elem_of_app. by left.
  - change (XOnlyPubkey <$> [p]) with [XOnlyPubkey p].
    rewrite lookup_insert_None, IHn, elem_of_app, list_elem_of_singleton.
    intuition congruence.
Qed.

Lemma mapM_signFor_missing ks digest keys k :
  (ks : gmap Pubkey PrivateKey) !! k = None → Forall (λ k', is_ok (signFor ks digest k')) keys →
  ∀ rest, mapM (signFor ks digest) (keys ++ k :: rest) = Err (missingSignerError k).
Proof.
  intros Hk Hkeys rest.
  assert (signFor ks digest k = Err (missingSignerError k)) as Hm by (unfold signFor; by rewrite Hk).
  induction Hkeys as [|k' keys [s Hs] _ IH]; simpl.
  - by rewrite Hm.
  - by rewrite Hs; simpl; rewrite IH.
Qed.

Context {L : BtcdLaws B}.

Lemma signFor_verifies signers digest k :
  k ∈ (XOnlyPubkey <$> signers) →
  ∃ sig, signFor (byPubkey signers) digest k = Ok sig ∧
         VerifyMessageBIP322 digest k sig true = Ok ().
Proof.
  intros Hk. destruct (byPubkey_lookup signers k) as [Hs Hn]. unfold signFor.
  destruct (byPubkey signers !! k) as [p|]; [|by apply Hn in Hk].
  destruct (Hs p) as [_ <-]; [done|]. apply VerifyMessageBIP322_sign.
Qed.

Definition requiredKeys (m : SanitizedMessage) : list Pubkey :=
  take (Z.to_nat (byte_val (NumRequiredSignatures (m_Header m)))) (m_AccountKeys m).

Definition enoughKeys (m : SanitizedMessage) : Prop :=
  byte_val (NumRequiredSignatures (m_Header m)) ≤ zlen (m_AccountKeys m).

Lemma length_requiredKeys m :
  enoughKeys m →
  zlen (requiredKeys m) = byte_val (NumRequiredSignatures (m_Header m)).
Proof.
  unfold enoughKeys, requiredKeys, zlen. rewrite length_take.
  pose proof (byte_val_range (NumRequiredSignatures (m_Header m))). lia.
Qed.

Lemma BuildAndSign_Ok m signers :
  enoughKeys m → Forall (λ k, k ∈ (XOnlyPubkey <$> signers)) (requiredKeys m) →
  ∃ sigs, BuildAndSignTransaction m signers = Ok (MkRuntimeTransaction 0 sigs m) ∧
    Forall2 (λ k sig, VerifyMessageBIP322 (SanitizedMessage_Hash m) k sig true = Ok ())
      (requiredKeys m) sigs.
Proof.
  intros Hn Hall. unfold BuildAndSignTransaction.
  rewrite decide_False by (unfold enoughKeys, zlen in Hn; lia). fold (requiredKeys m).
  induction Hall as [|k ks Hk _ (sigs & Hsigs & Hver)]; [by exists []|].
  destruct (signFor_verifies signers (SanitizedMessage_Hash m) k Hk) as (sig & Hsig & Hv).
  apply bind_Ok in Hsigs as (sigs' & Hm & [= <-]).
  exists (sig :: sigs'). simpl. rewrite Hsig. simpl. rewrite Hm. split; [done|]. by constructor.
Qed.

Lemma BuildAndSign_missing m signers :
  enoughKeys m → ¬ Forall (λ k, k ∈ (XOnlyPubkey <$> signers)) (requiredKeys m) →
  ∃ pre k rest, requiredKeys m = pre ++ k :: rest ∧ (k ∉ (XOnlyPubkey <$> signers)) ∧
    Forall (λ k, k ∈ (XOnlyPubkey <$> signers)) pre ∧
    BuildAndSignTransaction m signers = Err (missingSignerError k).
Proof.
  intros Hn Hnot. unfold BuildAndSignTransaction.
  rewrite decide_False by (unfold enoughKeys, zlen in Hn; lia). fold (requiredKeys m).
  assert (∃ pre k rest, requiredKeys m = pre ++ k :: rest ∧ (k ∉ (XOnlyPubkey <$> signers)) ∧
    Forall (λ k, k ∈ (XOnlyPubkey <$> signers)) pre) as (pre & k & rest & Heq & Hk & Hpre).
  { induction (requiredKeys m) as [|k ks IH]; [by destruct Hnot|].
    destruct (decide (k ∈ (XOnlyPubkey <$> signers))) as [Hk|Hk].
    - destruct IH as (pre & k' & rest & -> & Hk' & Hpre); [intros ?; destruct Hnot; by constructor|].
      exists (k :: pre), k', rest. split_ands; [done|done|by constructor].
    - exists [], k, ks. done. }
  exists pre, k, rest. split_ands; [done..|].
  rewrite Heq, mapM_signFor_missing; [done| |].
  - by apply byPubkey_lookup.
  - eapply Forall_impl; [exact Hpre|]. intros k' Hk'.
    destruct (signFor_verifies signers (SanitizedMessage_Hash m) k' Hk') as (sig & Hsig & _).
    by eexists.
Qed.
End signing.

(** *** The signers of a compiled message *)

Section compiled_signers.
Context {RT : GoRuntime}.

Lemma compiled_enoughKeys ixs payer bh m :
  NewSanitizedMessage ixs payer bh = Ok m → enoughKeys m.
Proof.
  intros (Hov & Hh & Hk & _)%NewSanitizedMessage_Ok_inv.
  unfold enoughKeys. rewrite Hh, Hk. destruct (headerOf_counts _ Hov) as (-> & _).
  unfold accountKeysOf, zlen. rewrite !length_app. lia.
Qed.

(** The required keys are the mentioned keys that are asked to sign, once each. *)
Lemma requiredKeys_elem ixs payer bh m k :
  NewSanitizedMessage ixs payer bh = Ok m →
  k ∈ requiredKeys m ↔ k ∈ mentioned ixs payer ∧ asksSigner ixs payer k = true.
Proof.
  intros Hm. pose proof (NewSanitizedMessage_Ok_inv _ _ _ _ Hm) as (_ & _ & Hk & _).
  pose proof (groupKeys_layout ixs payer) as Hl. fold (groupsOf ixs payer) in Hl.
  rewrite <- (accountKeysOf_elem _ _ _ k Hl), <- Hk. unfold requiredKeys. split.
  - intros (i & Hi)%list_elem_of_lookup. apply lookup_take_Some in Hi as [Hi Hlt].
    split; [by eapply list_elem_of_lookup_2|].
    destruct (NewSanitizedMessage_privileges _ _ _ _ _ _ Hm Hi) as [<- _].
    unfold grantsSigner. apply Z.ltb_lt. lia.
  - intros [(i & Hi)%list_elem_of_lookup Hs].
    destruct (NewSanitizedMessage_privileges _ _ _ _ _ _ Hm Hi) as [Hg _].
    rewrite Hs in Hg. unfold grantsSigner in Hg. apply Z.ltb_lt in Hg.
    apply list_elem_of_lookup. exists i. rewrite lookup_take_lt; [done|lia].
Qed.

Lemma compiled_NoDup ixs payer bh m :
  NewSanitizedMessage ixs payer bh = Ok m → NoDup (m_AccountKeys m).
Proof.
  intros (_ & _ & -> & _)%NewSanitizedMessage_Ok_inv.
  pose proof (groupKeys_layout ixs payer) as Hl. by eapply accountKeysOf_NoDup.
Qed.

Lemma compiled_elem ixs payer bh m k :
  NewSanitizedMessage ixs payer bh = Ok m → k ∈ m_AccountKeys m ↔ k ∈ mentioned ixs payer.
Proof.
  intros (_ & _ & -> & _)%NewSanitizedMessage_Ok_inv.
  pose proof (groupKeys_layout ixs payer) as Hl. by apply accountKeysOf_elem.
Qed.

Lemma requiredKeys_NoDup ixs payer bh m :
  NewSanitizedMessage ixs payer bh = Ok m → NoDup (requiredKeys m).
Proof.
  intros Hm%compiled_NoDup. unfold requiredKeys.
  rewrite <- (take_drop (Z.to_nat (byte_val (NumRequiredSignatures (m_Header m)))) (m_AccountKeys m)) in Hm.
  by apply NoDup_app in Hm as [? _].
Qed.
End compiled_signers.

(** Which private keys signing a compiled message takes. *)
Lemma compiled_sign_iff {B : Btcd} {L : BtcdLaws B} {RT : GoRuntime} ixs payer bh m signers :
  NewSanitizedMessage ixs payer bh = Ok m →
  (is_ok (BuildAndSignTransaction m signers) ↔
   ∀ k, k ∈ mentioned ixs payer → asksSigner ixs payer k = true →
        k ∈ (XOnlyPubkey <$> signers)).
Proof.
  intros Hm. pose proof (compiled_enoughKeys _ _ _ _ Hm) as Hn.
  pose proof (λ k, requiredKeys_elem _ _ _ _ k Hm) as Hreq.
  transitivity (Forall (λ k, k ∈ (XOnlyPubkey <$> signers)) (requiredKeys m)).
  - destruct (decide (Forall (λ k, k ∈ (XOnlyPubkey <$> signers)) (requiredKeys m))) as [Ha|Ha].
    + split; [done|]. intros _. destruct (BuildAndSign_Ok m signers Hn Ha) as (sigs & Hr & _).
      by eexists.
    + split; [|done]. intros [tx Htx].
      destruct (BuildAndSign_missing m signers Hn Ha) as (pre & k & rest & _ & _ & _ & Hr).
      congruence.
  - rewrite Forall_forall. split.
    + intros H k Hmen Hs. apply H, Hreq. done.
    + intros H k [Hmen Hs]%Hreq. by apply H.
Qed.

(** ** Properties *)

(** C25: the transaction format can be read back: for a transaction with at most 255
    signatures and a message the format can carry, a decoder recovers the transaction
    and leaves exactly what follows, so two such transactions with the same bytes are
    equal. With more signatures the count byte is their number modulo 256. *)
Theorem RuntimeTransaction_roundtrip tx tx' rest rest' :
  transaction_fits tx → transaction_fits tx' →
  get_transaction (RuntimeTransaction_Serialize tx ++ rest) = Some (tx, rest) ∧
  (RuntimeTransaction_Serialize tx ++ rest = RuntimeTransaction_Serialize tx' ++ rest' ↔
   tx = tx' ∧ rest = rest') ∧
  (∀ sigs, RuntimeTransaction_Serialize (MkRuntimeTransaction 0 sigs (tx_Message tx)) !! 4%nat =
     Some (byte_of (zlen sigs mod 256))).
Proof.
  intros Htx Htx'. split_ands.
  - by apply get_transaction_Serialize.
  - split; [exact (put_app_inj tx tx' rest rest' Htx Htx')|by intros [-> ->]].
  - intros sigs. rewrite RuntimeTransaction_Serialize_eq, lookup_app_r by len.
    rewrite length_le_bytes. simpl. unfold byte_of. by rewrite Z.mod_mod by lia.
Qed.

Definition fixtureTransaction : RuntimeTransaction := {|
  tx_Version := RuntimeTxVersion;
  tx_Signatures := [array_of 64 (bytes_lit (seqZ 1 64))];
  tx_Message := fixtureMessage;
|}.

Lemma RuntimeTransaction_roundtrip_witness :
  get_transaction (RuntimeTransaction_Serialize fixtureTransaction ++ [])
  = Some (fixtureTransaction, []).
Proof.
  assert (transaction_fits fixtureTransaction) as Hfit
    by (apply (bool_decide_unpack _); vm_compute; exact I).
  exact (proj1 (RuntimeTransaction_roundtrip fixtureTransaction fixtureTransaction [] [] Hfit Hfit)).
Defined.

(** The id of a transaction is the text of the double hash of its bytes: 64
    lower-case hexadecimal digits, which [HashFromHex] reads back as the second hash. *)
Lemma TxID_spec tx :
  String.list_byte_of_string (TxID tx) = double_hash (RuntimeTransaction_Serialize tx) ∧
  String.length (TxID tx) = 64%nat ∧
  HashFromHex (TxID tx) =
    Ok (sha256.Sum256 (hex.Encode (sha256.Sum256 (RuntimeTransaction_Serialize tx)))) ∧
  (∀ h, HashFromHex (TxID tx) = Ok h → Hash_String h = TxID tx).
Proof.
  assert (String.list_byte_of_string (TxID tx) = double_hash (RuntimeTransaction_Serialize tx))
    as Htx by (unfold TxID; by rewrite !EncodeToString_bytes).
  assert (HashFromHex (TxID tx) =
    Ok (sha256.Sum256 (hex.Encode (sha256.Sum256 (RuntimeTransaction_Serialize tx))))) as Hh.
  { unfold HashFromHex, TxID. rewrite hex.DecodeString_EncodeToString. simpl.
    rewrite decide_False by (rewrite length_array; auto). rewrite EncodeToString_bytes.
    f_equal. apply array_eq, copy_exact, length_array. }
  split_ands; [done| |done|].
  - by rewrite <- length_list_byte_of_string, Htx, length_double_hash.
  - intros h. rewrite Hh. intros [= <-]. unfold Hash_String, TxID. by rewrite EncodeToString_bytes.
Qed.

(** C7: signing succeeds exactly when the message has as many keys as its header
    requires to sign and a private key was given for each of them; the transaction then
    carries version 0, the message, and one signature per required key, in the order of
    the keys, each of which verifies for its key over the message digest. Otherwise the
    error names the counts, or the first required key without a signer. *)
Theorem BuildAndSign_spec {B : Btcd} {L : BtcdLaws B} m signers :
  let r := BuildAndSignTransaction m signers in
  if decide (enoughKeys m) then
    if decide (Forall (λ k, k ∈ (XOnlyPubkey <$> signers)) (requiredKeys m)) then
      ∃ sigs, r = Ok (MkRuntimeTransaction 0 sigs m) ∧
        zlen sigs = byte_val (NumRequiredSignatures (m_Header m)) ∧
        Forall2 (λ k sig, VerifyMessageBIP322 (SanitizedMessage_Hash m) k sig true = Ok ())
          (requiredKeys m) sigs
    else ∃ pre k rest, requiredKeys m = pre ++ k :: rest ∧ (k ∉ (XOnlyPubkey <$> signers)) ∧
      Forall (λ k, k ∈ (XOnlyPubkey <$> signers)) pre ∧ r = Err (missingSignerError k)
  else r = Err (tooFewKeysError (Z.to_nat (byte_val (NumRequiredSignatures (m_Header m))))
                  (length (m_AccountKeys m))).
Proof.
  intros r. unfold r. case_decide as Hn; [case_decide as Hall|].
  - destruct (BuildAndSign_Ok m signers Hn Hall) as (sigs & Hr & Hv). exists sigs.
    split_ands; [done| |done]. rewrite <- (length_requiredKeys m) by done.
    unfold zlen. by rewrite (Forall2_length _ _ _ Hv).
  - by apply BuildAndSign_missing.
  - unfold BuildAndSignTransaction. rewrite decide_True; [done|].
    unfold enoughKeys, zlen in Hn. lia.
Qed.

(** C6: compiling and then signing. For a message compiled from instructions and a
    payer, signing succeeds exactly when a private key is given for every mentioned
    key that is asked to sign (the payer included): no other key is needed, and a
    compiled message never has too few keys. *)
Theorem compile_and_sign {B : Btcd} {L : BtcdLaws B} {RT : GoRuntime} ixs payer bh m signers :
  NewSanitizedMessage ixs payer bh = Ok m →
  (is_ok (BuildAndSignTransaction m signers) ↔
   ∀ k, k ∈ mentioned ixs payer → asksSigner ixs payer k = true →
        k ∈ (XOnlyPubkey <$> signers)).
Proof. apply compiled_sign_iff. Qed.

Definition toySigners : list (@PrivateKey toy.btcd) := testKey <$> [40; 2; 200; 5].

Lemma compile_and_sign_witness :
  is_ok (@BuildAndSignTransaction toy.btcd testMessage toySigners).
Proof.
  apply (@compile_and_sign toy.btcd toy.btcd_laws default_runtime [testInstruction]
    (Some (testKey 200)) testHash testMessage toySigners eq_refl).
  apply (proj1 (Forall_forall (λ k, asksSigner [testInstruction] (Some (testKey 200)) k = true →
    k ∈ (@XOnlyPubkey toy.btcd <$> toySigners)) _)).
  apply (bool_decide_unpack _). vm_compute. exact I.
Defined.

Lemma BuildAndSign_spec_witness :
  ∃ sigs, @BuildAndSignTransaction toy.btcd testMessage toySigners =
    Ok (MkRuntimeTransaction 0 sigs testMessage) ∧ zlen sigs = 4.
Proof.
  pose proof (@BuildAndSign_spec toy.btcd toy.btcd_laws testMessage toySigners) as H.
  cbv zeta in H. rewrite decide_True in H by (apply (bool_decide_unpack _); vm_compute; exact I).
  rewrite decide_True in H by (apply (bool_decide_unpack _); vm_compute; exact I).
  destruct H as (sigs & Hr & Hn & _). exists sigs. split; [exact Hr|exact Hn].
Defined.

(** [AdjustSignature] accepts exactly a 64-byte signature, that signature behind
    any two bytes, or that with any one byte more at the end, and returns the
    signature; every other length is refused, naming it. *)
Lemma AdjustSignature_spec bs :
  (∀ sig, AdjustSignature bs = Ok sig ↔
     bs = array_list sig ∨ (∃ n l, bs = n :: l :: array_list sig) ∨
     (∃ n l h, bs = n :: l :: array_list sig ++ [h])) ∧
  (length bs ≠ 64%nat → length bs ≠ 66%nat → length bs ≠ 67%nat →
   AdjustSignature bs = Err (ErrorString ("invalid signature length " +:+ pretty (length bs)))).
Proof.
  unfold AdjustSignature. split; [|intros; by rewrite !decide_False].
  intros sig. split.
  - case_decide as H64; [intros [= <-]; left; by rewrite copy_exact|].
    case_decide as H66.
    { destruct bs as [|n [|l bs]]; [done..|]. intros [= <-]. right. left. exists n, l.
      simpl in H66. rewrite copy_exact; [done|]. simpl. rewrite ?drop_0. lia. }
    case_decide as H67; [|done]. destruct bs as [|n [|l bs]]; [done..|].
    assert (∃ s h, bs = s ++ [h] ∧ length s = 64%nat) as (s & h & -> & Hs).
    { destruct bs as [|h s] using rev_ind; [done|]. exists s, h. split; [done|].
      simpl in H67. rewrite length_app in H67. simpl in H67. lia. }
    intros [= <-]. right. right. exists n, l, h.
    rewrite copy_exact; simpl drop; rewrite ?drop_0, take_app_exact; done.
  - intros [->|[(n & l & ->)|(n & l & h & ->)]].
    + rewrite decide_True by apply length_array. f_equal. apply array_eq, copy_exact, length_array.
    + rewrite decide_False, decide_True by (simpl; rewrite length_array; lia).
      f_equal. apply array_eq, copy_exact, length_array.
    + rewrite !decide_False, decide_True by (simpl; rewrite length_app, length_array; simpl; lia).
      f_equal. apply array_eq. simpl drop. rewrite ?drop_0.
      rewrite take_app_exact by apply length_array. apply copy_exact, length_array.
Qed.
