(* ===== verification/Decompile.v ===== *)
(** * Reading a compiled message back.

    The node's side of src/compile.go: following the indices of a message and reading
    its header gives instructions again. Theorems: the compiler equals a reference
    definition without maps, loops or machine bytes; a compiled message is well formed,
    which is what a reader needs; and reading it gives the instructions that were
    compiled, with every account carrying the privileges its key has in the whole
    transaction. *)
From S2P Require Import Prelude GoLib Sha256 Wire Pubkey Message Compile Btcd Keys Bip322 Transaction.

(** ** The reference compiler *)

(** Where a key stands in a list. *)
Definition position (keys : list Pubkey) (k : Pubkey) : nat :=
  default 0%nat (fst <$> list_find (k =.) keys).

Definition index (keys : list Pubkey) (k : Pubkey) : byte := byte_of (Z.of_nat (position keys k)).

(** The distinct mentioned keys but the payer, ascending. *)
Definition others (ixs : list Instruction) (payer : option Pubkey) : list Pubkey :=
  merge_sort (sorted_rel array_less)
    (filter (λ k, payer ≠ Some k) (remove_dups (mentioned ixs payer))).

Definition inGroup (ixs : list Instruction) (payer : option Pubkey) (gr : group) : list Pubkey :=
  filter (λ k, keyGroup ixs payer k = gr) (others ixs payer).

(** The message the documentation of [NewSanitizedMessage] describes: the payer, then
    the other keys by group; indices are positions. *)
Definition referenceMessage (ixs : list Instruction) (payer : option Pubkey) (bh : Hash) :
    SanitizedMessage :=
  let signers := option_list payer ++ inGroup ixs payer WS ++ inGroup ixs payer RS in
  let keys := signers ++ inGroup ixs payer WN ++ inGroup ixs payer RN in
  {| m_Header := MkMessageHeader (byte_of (zlen signers)) (byte_of (zlen (inGroup ixs payer RS)))
                   (byte_of (zlen (inGroup ixs payer RN)));
     m_AccountKeys := keys;
     m_RecentBlockhash := bh;
     m_Instructions :=
       (λ ix, MkSanitizedInstruction (index keys (ix_ProgramID ix))
                (index keys ∘ am_Pubkey <$> ix_Accounts ix) (ix_Data ix)) <$> ixs |}.

Definition reference (ixs : list Instruction) (payer : option Pubkey) (bh : Hash) :
    result SanitizedMessage :=
  if decide (zlen (option_list payer ++ inGroup ixs payer WS ++ inGroup ixs payer RS) ≤ 255 ∧
             zlen (inGroup ixs payer RN) ≤ 255 ∧
             zlen (m_AccountKeys (referenceMessage ixs payer bh)) ≤ 256)
  then Ok (referenceMessage ixs payer bh) else Err overflowError.

(** ** Reading *)

(** An account of an instruction, as the node sees it: its key, and the privileges
    the header grants to its index. *)
Definition readAccount (m : SanitizedMessage) (i : byte) : option AccountMeta :=
  k ← resolve m i;
  Some (MkAccountMeta k (grantsSigner m (Z.to_nat (byte_val i)))
          (grantsWritable m (Z.to_nat (byte_val i)))).

Definition readInstruction (m : SanitizedMessage) (si : SanitizedInstruction) : option Instruction :=
  p ← resolve m (si_ProgramIDIndex si);
  accounts ← mapM (readAccount m) (si_Accounts si);
  Some (MkInstruction p accounts (si_Data si)).

Definition decompile (m : SanitizedMessage) : option (list Instruction) :=
  mapM (readInstruction m) (m_Instructions m).

(** An instruction list in which every account has the privileges its key is granted by
    the transaction. *)
Definition raiseAccount (ixs : list Instruction) (payer : option Pubkey) (a : AccountMeta) : AccountMeta :=
  MkAccountMeta (am_Pubkey a) (asksSigner ixs payer (am_Pubkey a)) (asksWritable ixs payer (am_Pubkey a)).

Definition raise (ixs : list Instruction) (payer : option Pubkey) : list Instruction :=
  (λ ix, MkInstruction (ix_ProgramID ix) (raiseAccount ixs payer <$> ix_Accounts ix) (ix_Data ix)) <$> ixs.

(** A message a reader can follow: distinct keys, at most 256, header counts that fit
    them, and indices in range. *)
Definition well_formed (m : SanitizedMessage) : Prop :=
  NoDup (m_AccountKeys m) ∧ zlen (m_AccountKeys m) ≤ 256 ∧
  byte_val (NumReadonlySignedAccounts (m_Header m)) ≤ byte_val (NumRequiredSignatures (m_Header m)) ∧
  byte_val (NumRequiredSignatures (m_Header m)) +
    byte_val (NumReadonlyUnsignedAccounts (m_Header m)) ≤ zlen (m_AccountKeys m) ∧
  Forall (λ si, Forall (λ i, byte_val i < zlen (m_AccountKeys m))
                  (si_ProgramIDIndex si :: si_Accounts si)) (m_Instructions m).

#[global] Instance well_formed_dec m : Decision (well_formed m).
Proof. unfold well_formed. apply _. Defined.

(** ** Lemmas *)

Lemma position_lookup keys i k : NoDup keys → keys !! i = Some k → position keys k = i.
Proof.
  intros Hnd Hi. unfold position.
  destruct (list_find_elem_of (k =.) keys k) as [[j x] Hf]; [by eapply list_elem_of_lookup_2|done|].
  rewrite Hf. simpl. apply list_find_Some in Hf as (Hj & -> & _).
  by eapply NoDup_lookup.
Qed.

(** The only instruction with in-range indices that lead to the keys of [ix]. *)
Lemma resolves_index keys ix si :
  NoDup keys → resolves keys ix si →
  si = MkSanitizedInstruction (index keys (ix_ProgramID ix))
         (index keys ∘ am_Pubkey <$> ix_Accounts ix) (ix_Data ix).
Proof.
  intros Hnd (Hp & Ha & Hd). destruct si as [p accs data]. simpl in *.
  assert (∀ i k, keys !! Z.to_nat (byte_val i) = Some k → i = index keys k) as Hi.
  { intros i k Hk. unfold index. rewrite (position_lookup _ _ _ Hnd Hk).
    pose proof (byte_val_range i). rewrite Z2Nat.id by lia. symmetry. apply byte_of_val. }
  f_equal; [by apply Hi| |done]. clear Hp Hd. induction Ha as [|a i l l' Hai _ IH]; [done|].
  rewrite fmap_cons, <- IH. f_equal. by apply Hi.
Qed.

Section decompile.
Context {RT : GoRuntime}.
Implicit Types (ixs : list Instruction) (payer : option Pubkey).

Lemma others_ascending ixs payer : ascending (otherKey ixs payer) (others ixs payer).
Proof.
  unfold others. split.
  - apply sorted_ascending.
    + apply (@sort_Slice_sorted default_runtime), array_less_strict.
    + rewrite merge_sort_Permutation. apply NoDup_filter, NoDup_remove_dups.
  - intros k. rewrite merge_sort_Permutation, list_elem_of_filter, elem_of_remove_dups.
    unfold otherKey. tauto.
Qed.

(** The groups the compiler builds are the reference ones. *)
Lemma groupsOf_reference ixs payer :
  groupsOf ixs payer =
  Groups (option_list payer ++ inGroup ixs payer WS) (inGroup ixs payer RS)
    (inGroup ixs payer WN) (inGroup ixs payer RN).
Proof.
  apply (layout_unique ixs payer); [apply groupKeys_layout|].
  assert (∀ gr, ascending (λ k, otherKey ixs payer k ∧ keyGroup ixs payer k = gr)
    (inGroup ixs payer gr)) as Hasc by (intros gr; apply ascending_filter, others_ascending).
  split; simpl.
  - eexists. split; [done|apply Hasc].
  - intros [] Hne; [done|apply Hasc..].
Qed.

Lemma accountKeys_reference ixs payer bh :
  accountKeysOf (groupsOf ixs payer) = m_AccountKeys (referenceMessage ixs payer bh).
Proof. rewrite groupsOf_reference. unfold accountKeysOf. simpl. by rewrite <- !app_assoc. Qed.

Lemma Forall2_fmap_eq {A B} (f : A → B) l k : Forall2 (λ x y, y = f x) l k → k = f <$> l.
Proof. induction 1 as [|x y l k -> _ IH]; [done|]. by rewrite fmap_cons, <- IH. Qed.

Lemma NewSanitizedMessage_reference ixs payer bh :
  NewSanitizedMessage ixs payer bh = reference ixs payer bh.
Proof.
  pose proof (accountKeys_reference ixs payer bh) as Hkeys.
  assert (overflows (groupsOf ixs payer) = false ↔
    zlen (option_list payer ++ inGroup ixs payer WS ++ inGroup ixs payer RS) ≤ 255 ∧
    zlen (inGroup ixs payer RN) ≤ 255 ∧
    zlen (m_AccountKeys (referenceMessage ixs payer bh)) ≤ 256) as Hov.
  { rewrite overflows_false, Hkeys, groupsOf_reference. cbn [writableSigners readonlySigners readonlyNonSigners].
    unfold zlen. rewrite !length_app. lia. }
  unfold reference. case_decide as Hd.
  - apply Hov in Hd. destruct (NewSanitizedMessage_total ixs payer bh Hd) as (cs & -> & Hres).
    f_equal. rewrite Hkeys in *. unfold referenceMessage. f_equal.
    + rewrite groupsOf_reference. unfold headerOf. cbn [writableSigners readonlySigners readonlyNonSigners].
      f_equal. f_equal. unfold zlen. rewrite !length_app. lia.
    + apply Forall2_fmap_eq. eapply Forall2_impl; [exact Hres|]. intros ix si Hr.
      apply resolves_index; [|exact Hr].
      change (NoDup (m_AccountKeys (referenceMessage ixs payer bh))). rewrite <- Hkeys.
      eapply accountKeysOf_NoDup, groupKeys_layout.
  - rewrite <- Hov, not_false_iff_true in Hd. unfold NewSanitizedMessage. fold (groupsOf ixs payer).
    by rewrite Hd.
Qed.

(** *** Well-formedness *)

Lemma resolve_range m i k : resolve m i = Some k → byte_val i < zlen (m_AccountKeys m).
Proof.
  unfold resolve, zlen. intros Hi%lookup_lt_Some. pose proof (byte_val_range i). lia.
Qed.

Lemma compiled_well_formed ixs payer bh m :
  NewSanitizedMessage ixs payer bh = Ok m → well_formed m.
Proof.
  intros Hm. pose proof (compiled_NoDup _ _ _ _ Hm) as Hnd.
  apply NewSanitizedMessage_Ok_inv in Hm as (Hov & Hh & Hk & _ & Hres).
  pose proof (headerOf_counts _ Hov) as (H1 & H2 & H3). unfold well_formed.
  rewrite Hh, H1, H2, H3. split_ands; [done| | | |].
  - rewrite Hk. by apply overflows_false.
  - unfold zlen. lia.
  - rewrite Hk. unfold accountKeysOf, zlen. rewrite !length_app. lia.
  - clear -Hres. induction Hres as [|ix si l l' (Hp & Ha & _) _ IH]; constructor; [|done].
    constructor; [by eapply resolve_range|].
    induction Ha as [|a i k k' Hi _ IHa]; constructor; [by eapply resolve_range|done].
Qed.

Lemma readAccount_Some m i :
  byte_val i < zlen (m_AccountKeys m) → is_Some (readAccount m i).
Proof.
  intros Hi. unfold readAccount, resolve.
  destruct (lookup_lt_is_Some_2 (m_AccountKeys m) (Z.to_nat (byte_val i))) as [k ->];
    [|by eexists]. unfold zlen in Hi. pose proof (byte_val_range i). lia.
Qed.

(** A well-formed message can be read. *)
Lemma decompile_Some m : well_formed m → is_Some (decompile m).
Proof.
  intros (_ & _ & _ & _ & Hall). apply mapM_is_Some. eapply Forall_impl; [exact Hall|].
  intros si Hsi. change (is_Some (readInstruction m si)).
  apply Forall_cons in Hsi as [Hp Ha]. unfold readInstruction.
  destruct (readAccount_Some m _ Hp) as [a Hr]. unfold readAccount in Hr.
  apply bind_Some in Hr as (k & -> & _). simpl.
  destruct (mapM_is_Some_2 (readAccount m) (si_Accounts si)) as [accs ->]; [|by eexists].
  eapply Forall_impl; [exact Ha|]. intros i. apply readAccount_Some.
Qed.

(** *** Reading what was compiled *)

Lemma readAccount_compiled ixs payer bh m i a :
  NewSanitizedMessage ixs payer bh = Ok m → resolve m i = Some (am_Pubkey a) →
  readAccount m i = Some (raiseAccount ixs payer a).
Proof.
  intros Hm Hi. unfold readAccount. rewrite Hi. simpl.
  by destruct (NewSanitizedMessage_privileges _ _ _ _ _ _ Hm Hi) as [-> ->].
Qed.

Lemma decompile_compiled ixs payer bh m :
  NewSanitizedMessage ixs payer bh = Ok m → decompile m = Some (raise ixs payer).
Proof.
  intros Hm. pose proof (NewSanitizedMessage_Ok_inv _ _ _ _ Hm) as (_ & _ & _ & _ & Hres).
  pose proof (λ i a, readAccount_compiled ixs payer bh m i a Hm) as Hread.
  unfold decompile, raise. revert Hread. generalize (raiseAccount ixs payer) as f. intros f Hread.
  apply mapM_Some. clear Hm. induction Hres as [|ix si l l' (Hp & Ha & Hd) _ IH]; [constructor|].
  rewrite fmap_cons. constructor; [|exact IH]. unfold readInstruction, resolve. rewrite Hp. simpl.
  assert (mapM (readAccount m) (si_Accounts si) = Some (f <$> ix_Accounts ix)) as ->;
    [|simpl; by rewrite Hd].
  apply mapM_Some. clear -Hread Ha. induction Ha as [|a i k k' Hi _ IH]; [constructor|].
  rewrite fmap_cons. constructor; [by apply Hread|exact IH].
Qed.

(** *** Compiling what was read *)

Lemma raise_accounts ixs payer ix :
  am_Pubkey <$> (raiseAccount ixs payer <$> ix_Accounts ix) = am_Pubkey <$> ix_Accounts ix.
Proof. rewrite <- list_fmap_compose. by apply list_fmap_ext. Qed.

Lemma raise_mentioned ixs payer : mentioned (raise ixs payer) payer = mentioned ixs payer.
Proof.
  unfold mentioned. f_equal. unfold raise.
  assert (∀ ix, am_Pubkey <$> (raiseAccount ixs payer <$> ix_Accounts ix) = am_Pubkey <$> ix_Accounts ix)
    as Hf by apply raise_accounts.
  revert Hf. generalize (raiseAccount ixs payer) as f. intros f Hf.
  induction ixs as [|ix ixs IH]; [done|]. rewrite fmap_cons, !bind_cons, IH. simpl. by rewrite Hf.
Qed.

(** What an instruction list asks for a key, account by account. *)
Lemma requested_true flag ixs payer k :
  requested flag ixs payer k = true ↔
  (∃ ix a, ix ∈ ixs ∧ a ∈ ix_Accounts ix ∧ am_Pubkey a = k ∧ flag a = true) ∨ payer = Some k.
Proof.
  unfold requested. rewrite orb_true_iff, bool_decide_eq_true, existsb_exists. split.
  - intros [(ix & Hix & (a & Ha & [Hk Hf]%andb_true_iff)%existsb_exists)|?]; [left|by right].
    apply bool_decide_eq_true in Hk. exists ix, a. by rewrite !list_elem_of_In.
  - intros [(ix & a & Hix & Ha & Hk & Hf)|?]; [left|by right]. exists ix.
    split; [by apply list_elem_of_In|]. apply existsb_exists. exists a.
    rewrite <- list_elem_of_In, Hf, bool_decide_eq_true_2 by done. done.
Qed.

Lemma raise_requested flag ixs payer :
  (∀ a, flag (raiseAccount ixs payer a) = requested flag ixs payer (am_Pubkey a)) →
  ∀ k, requested flag (raise ixs payer) payer k = requested flag ixs payer k.
Proof.
  intros Hf k. apply eq_true_iff_eq. rewrite requested_true. split.
  - intros [(ix & a & Hix & Ha & Hk & Ht)|Hp]; [|apply requested_true; by right].
    apply list_elem_of_fmap in Hix as (ix0 & -> & Hix). simpl in Ha.
    apply list_elem_of_fmap in Ha as (a0 & -> & Ha). rewrite Hf in Ht. simpl in Hk. by subst k.
  - intros Hr. pose proof Hr as [(ix & a & Hix & Ha & Hk & Ht)|Hp]%requested_true; [left|by right].
    eexists _, (raiseAccount ixs payer a). split_ands.
    + by apply list_elem_of_fmap_2.
    + by apply list_elem_of_fmap_2.
    + done.
    + rewrite Hf. by rewrite Hk.
Qed.

Lemma raise_group ixs payer k : keyGroup (raise ixs payer) payer k = keyGroup ixs payer k.
Proof. unfold keyGroup, asksSigner, asksWritable. by rewrite !raise_requested. Qed.

Lemma raise_inGroup ixs payer gr : inGroup (raise ixs payer) payer gr = inGroup ixs payer gr.
Proof.
  unfold inGroup, others. rewrite raise_mentioned. apply list_filter_iff. intros k. by rewrite raise_group.
Qed.

(** Compiling what was read gives the same result. *)
Lemma reference_raise ixs payer bh : reference (raise ixs payer) payer bh = reference ixs payer bh.
Proof.
  assert (referenceMessage (raise ixs payer) payer bh = referenceMessage ixs payer bh) as Hm.
  { unfold referenceMessage. rewrite !raise_inGroup. f_equal. unfold raise.
    rewrite <- list_fmap_compose. apply list_fmap_ext. intros _ ix _. simpl. f_equal.
    rewrite <- list_fmap_compose. by apply list_fmap_ext. }
  unfold reference. by rewrite Hm, !raise_inGroup.
Qed.

(** *** What the wire carries *)

(** The lists of an instruction have fewer than 2^32 elements. *)
Definition instruction_small (ix : Instruction) : Prop :=
  is_u32 (zlen (ix_Accounts ix)) ∧ is_u32 (zlen (ix_Data ix)).

Lemma compiled_fits ixs payer bh m :
  NewSanitizedMessage ixs payer bh = Ok m → is_u32 (zlen ixs) → Forall instruction_small ixs →
  message_fits m.
Proof.
  intros Hm Hn Hsmall. pose proof (compiled_well_formed _ _ _ _ Hm) as (_ & Hlen & _).
  apply NewSanitizedMessage_Ok_inv in Hm as (_ & _ & _ & _ & Hres). unfold message_fits. split_ands.
  - unfold is_u32, zlen in *. lia.
  - unfold zlen in *. by rewrite <- (Forall2_length _ _ _ Hres).
  - clear Hn Hlen. induction Hres as [|ix si l l' (_ & Ha & Hd) _ IH]; [constructor|].
    apply Forall_cons in Hsmall as [[H1 H2] Hsmall]. constructor; [|by apply IH].
    unfold instruction_fits, zlen in *. rewrite <- (Forall2_length _ _ _ Ha), Hd. done.
Qed.
End decompile.

Lemma signed_fits {B : Btcd} m signers tx :
  message_fits m → BuildAndSignTransaction m signers = Ok tx →
  transaction_fits tx ∧ tx_Message tx = m ∧
  zlen (tx_Signatures tx) = byte_val (NumRequiredSignatures (m_Header m)).
Proof.
  intros Hfit Htx. unfold BuildAndSignTransaction in Htx. case_decide as Hlen; [done|].
  apply bind_Ok in Htx as (sigs & Hsigs & [= <-]). simpl.
  pose proof (byte_val_range (NumRequiredSignatures (m_Header m))).
  assert (zlen sigs = byte_val (NumRequiredSignatures (m_Header m))) as Hn.
  { unfold zlen. apply mapM_Ok_Forall2, Forall2_length in Hsigs.
    rewrite length_take in Hsigs. lia. }
  unfold transaction_fits. split_ands; simpl; [done|lia|done..].
Qed.

(** ** Properties *)

(** C3: the compiler equals the reference definition. Whatever order the Go map is
    iterated in and whatever algorithm sorts, the map of key flags, the four
    appended groups and the map of indices compute the payer followed by the distinct
    mentioned keys of each group in ascending order, positions as indices and group
    sizes as the header, or the overflow error when one of the three sizes is too
    large. *)
Theorem compile_reference {RT : GoRuntime} ixs payer bh :
  NewSanitizedMessage ixs payer bh = reference ixs payer bh.
Proof. apply NewSanitizedMessage_reference. Qed.

(** C5: what the compiler and the signer return is well typed. A compiled message is
    well formed (distinct keys, header counts that fit them, every index in range), so
    it can be read; if the instruction lists are shorter than 2^32 its counts and
    lengths fit their wire fields, and so does a transaction signed over it, which has
    exactly the signatures the header announces. *)
Theorem compile_typed {RT : GoRuntime} {B : Btcd} ixs payer bh m :
  NewSanitizedMessage ixs payer bh = Ok m →
  well_formed m ∧ is_Some (decompile m) ∧
  (is_u32 (zlen ixs) → Forall instruction_small ixs →
   message_fits m ∧
   ∀ signers tx, BuildAndSignTransaction m signers = Ok tx →
     transaction_fits tx ∧ tx_Message tx = m ∧
     zlen (tx_Signatures tx) = byte_val (NumRequiredSignatures (m_Header m))).
Proof.
  intros Hm. pose proof (compiled_well_formed _ _ _ _ Hm) as Hwf. split_ands; [done| |].
  - by apply decompile_Some.
  - intros Hn Hsmall. pose proof (compiled_fits _ _ _ _ Hm Hn Hsmall) as Hfit. split; [done|].
    intros signers tx. by apply signed_fits.
Qed.

Lemma compile_typed_witness : well_formed testMessage ∧ is_Some (decompile testMessage).
Proof.
  destruct (@compile_typed default_runtime toy.btcd [testInstruction] (Some (testKey 200)) testHash
    testMessage eq_refl) as (Hwf & Hd & _).
  exact (conj Hwf Hd).
Defined.

(** C4: a compiled message can be decompiled. Following its indices and reading its
    header gives back the instruction list, every account with the privileges its key
    is asked for anywhere in the transaction; that list compiles to the same message,
    and a list compiles to this message exactly when it agrees with it up to these
    privileges. *)
Theorem decompile_compile {RT : GoRuntime} ixs payer bh m :
  NewSanitizedMessage ixs payer bh = Ok m →
  decompile m = Some (raise ixs payer) ∧
  NewSanitizedMessage (raise ixs payer) payer bh = Ok m ∧
  ∀ ixs', NewSanitizedMessage ixs' payer bh = Ok m ↔ raise ixs' payer = raise ixs payer.
Proof.
  intros Hm. pose proof (decompile_compiled _ _ _ _ Hm) as Hd.
  assert (∀ l, NewSanitizedMessage (raise l payer) payer bh = NewSanitizedMessage l payer bh) as Hr
    by (intros l; rewrite !NewSanitizedMessage_reference; apply reference_raise).
  split_ands; [done|by rewrite Hr|]. intros ixs'. split.
  - intros Hm'%decompile_compiled. congruence.
  - intros Heq. by rewrite <- Hr, Heq, Hr.
Qed.

Lemma decompile_compile_witness :
  decompile (testCompile [testInstruction; testInstruction2]) =
  Some (raise [testInstruction; testInstruction2] (Some (testKey 200))).
Proof.
  exact (proj1 (decompile_compile [testInstruction; testInstruction2] (Some (testKey 200)) testHash
    (testCompile [testInstruction; testInstruction2]) eq_refl)).
Defined.

(** The second instruction lists a key read-only that the first one signs and writes
    with; the node sees both privileges in both. *)
Example raise_test :
  raise [testInstruction; testInstruction2] (Some (testKey 200)) =
  [testInstruction; MkInstruction (testKey 1) [MkAccountMeta (testKey 5) true true] []].
Proof. vm_compute. reflexivity. Qed.
