(* ===== verification/Loader.v ===== *)
(** * BPF loader instructions: src/loader.go.

    The six builders and [ExtendBytesMaxLen]. Theorems: the loader decodes what they
    encode, the privileges they ask for, and that [ExtendBytesMaxLen] is the exact
    bound: a signed transaction with one [LoaderWrite] fits the size limit precisely
    when its payload is no longer than it. *)
From S2P Require Import Prelude GoLib Sha256 Wire Pubkey Message Compile System Btcd Keys Bip322 Transaction.

Definition loaderWrite : Z := 0.
Definition loaderTruncate : Z := 1.
Definition loaderDeploy : Z := 2.
Definition loaderRetract : Z := 3.
Definition loaderTransferAuthority : Z := 4.
Definition loaderFinalize : Z := 5.

Definition LoaderWrite (programAccount authority : Pubkey) (offset : Z) (bytes : list byte)
    : Instruction :=
  let data := appendU32 [] loaderWrite in
  let data := appendU32 data offset in
  let data := appendU64 data (uint64 (zlen bytes)) in
  let data := data ++ bytes in
  {| ix_ProgramID := BpfLoaderProgramID;
     ix_Accounts := [MkAccountMeta programAccount false true; MkAccountMeta authority true false];
     ix_Data := data |}.

Definition LoaderTruncate (programAccount authority : Pubkey) (newSize : Z) : Instruction :=
  let data := appendU32 [] loaderTruncate in
  let data := appendU32 data newSize in
  {| ix_ProgramID := BpfLoaderProgramID;
     ix_Accounts := [MkAccountMeta programAccount true true; MkAccountMeta authority true false];
     ix_Data := data |}.

Definition LoaderDeploy (programAccount authority : Pubkey) : Instruction :=
  {| ix_ProgramID := BpfLoaderProgramID;
     ix_Accounts := [MkAccountMeta programAccount false true; MkAccountMeta authority true false];
     ix_Data := appendU32 [] loaderDeploy |}.

Definition LoaderRetract (programAccount authority : Pubkey) : Instruction :=
  {| ix_ProgramID := BpfLoaderProgramID;
     ix_Accounts := [MkAccountMeta programAccount false true; MkAccountMeta authority true false];
     ix_Data := appendU32 [] loaderRetract |}.

Definition LoaderTransferAuthority (programAccount currentAuthority newAuthority : Pubkey)
    : Instruction :=
  {| ix_ProgramID := BpfLoaderProgramID;
     ix_Accounts := [MkAccountMeta programAccount true true;
                     MkAccountMeta currentAuthority true false;
                     MkAccountMeta newAuthority true false];
     ix_Data := appendU32 [] loaderTransferAuthority |}.

Definition LoaderFinalize (programAccount authority nextVersion : Pubkey) : Instruction :=
  {| ix_ProgramID := BpfLoaderProgramID;
     ix_Accounts := [MkAccountMeta programAccount true true; MkAccountMeta authority true false;
                     MkAccountMeta nextVersion false false];
     ix_Data := appendU32 [] loaderFinalize |}.

(** The keys 0x01... and 0x02... that the loop of [ExtendBytesMaxLen] fills in. *)
Definition filledKey (n : Z) : Pubkey := pubkey_lit (replicate 32 n).

Definition ExtendBytesMaxLen {RT : GoRuntime} : result Z :=
  let program := filledKey 1 in
  let authority := filledKey 2 in
  message ← NewSanitizedMessage [LoaderWrite program authority 0 []] None (zero_array 32);
  let tx := {| tx_Version := RuntimeTxVersion; tx_Signatures := [zero_array 64];
               tx_Message := message |} in
  Ok (RuntimeTxSizeLimit - zlen (RuntimeTransaction_Serialize tx)).

(** ** The loader's side *)

Inductive LoaderInstruction :=
| LdWrite (offset : Z) (bytes : list byte)
| LdTruncate (new_size : Z)
| LdDeploy
| LdRetract
| LdTransferAuthority
| LdFinalize.

Definition get_loader : parser LoaderInstruction :=
  tag ← get_u32;
  match tag with
  | 0 => off ← get_u32; n ← get_u64; bs ← get_bytes (Z.to_nat n); mret (LdWrite off bs)
  | 1 => n ← get_u32; mret (LdTruncate n)
  | 2 => mret LdDeploy
  | 3 => mret LdRetract
  | 4 => mret LdTransferAuthority
  | 5 => mret LdFinalize
  | _ => get_fail
  end.

(** A call of one of the builders. *)
Inductive LoaderCall :=
| CallWrite (program authority : Pubkey) (offset : Z) (bytes : list byte)
| CallTruncate (program authority : Pubkey) (newSize : Z)
| CallDeploy (program authority : Pubkey)
| CallRetract (program authority : Pubkey)
| CallTransferAuthority (program current new : Pubkey)
| CallFinalize (program authority next : Pubkey).

Definition build_loader (c : LoaderCall) : Instruction :=
  match c with
  | CallWrite p a o bs => LoaderWrite p a o bs
  | CallTruncate p a n => LoaderTruncate p a n
  | CallDeploy p a => LoaderDeploy p a
  | CallRetract p a => LoaderRetract p a
  | CallTransferAuthority p c n => LoaderTransferAuthority p c n
  | CallFinalize p a n => LoaderFinalize p a n
  end.

Definition loader_meaning (c : LoaderCall) : LoaderInstruction :=
  match c with
  | CallWrite _ _ o bs => LdWrite o bs
  | CallTruncate _ _ n => LdTruncate n
  | CallDeploy _ _ => LdDeploy
  | CallRetract _ _ => LdRetract
  | CallTransferAuthority _ _ _ => LdTransferAuthority
  | CallFinalize _ _ _ => LdFinalize
  end.

Definition loader_fits (c : LoaderCall) : Prop :=
  match c with
  | CallWrite _ _ o bs => is_u32 o ∧ is_u64 (zlen bs)
  | CallTruncate _ _ n => is_u32 n
  | _ => True
  end.

(** Whose signatures a call needs: the authority, the new one when it changes, and
    the program account itself when its size or its authority changes. *)
Definition loader_signers (c : LoaderCall) : list Pubkey :=
  match c with
  | CallWrite _ a _ _ | CallDeploy _ a | CallRetract _ a => [a]
  | CallTruncate p a _ | CallFinalize p a _ => [p; a]
  | CallTransferAuthority p c n => [p; c; n]
  end.

Definition loader_program (c : LoaderCall) : Pubkey :=
  match c with
  | CallWrite p _ _ _ | CallTruncate p _ _ | CallDeploy p _ | CallRetract p _
  | CallTransferAuthority p _ _ | CallFinalize p _ _ => p
  end.

(** ** Lemmas *)

Lemma loader_asks c k :
  asksSigner [build_loader c] None k = bool_decide (k ∈ loader_signers c) ∧
  asksWritable [build_loader c] None k = bool_decide (k = loader_program c).
Proof.
  destruct c; unfold asksSigner, asksWritable, requested; simpl; split; apply eq_true_iff_eq;
    rewrite ?orb_true_iff, ?andb_true_iff, ?bool_decide_eq_true, ?elem_of_cons, ?elem_of_nil;
    intuition congruence.
Qed.

Lemma length_LoaderWrite program authority off bytes :
  length (ix_Data (LoaderWrite program authority off bytes)) = (16 + length bytes)%nat.
Proof. simpl. unfold appendU32, appendU64, AppendUint32, AppendUint64. len. Qed.

(** A list with the same elements as a list without duplicates has its length. *)
Lemma NoDup_same_length {A} (l k : list A) :
  NoDup l → NoDup k → (∀ x, x ∈ l ↔ x ∈ k) → length l = length k.
Proof. intros Hl Hk Heq. by apply Permutation_length, NoDup_Permutation. Qed.

(** A compiled message with one instruction: its size from its numbers of keys. *)
Lemma compiled_one_size {RT : GoRuntime} ix payer bh m :
  NewSanitizedMessage [ix] payer bh = Ok m →
  length (SanitizedMessage_Serialize m) =
  (52 + 32 * length (m_AccountKeys m) + length (ix_Accounts ix) + length (ix_Data ix))%nat.
Proof.
  intros (_ & _ & _ & _ & Hres)%NewSanitizedMessage_Ok_inv. rewrite length_message.
  apply Forall2_cons_inv_l in Hres as (si & sis & (_ & Hacc & Hdata) & Hnil & ->).
  apply Forall2_nil_inv_l in Hnil as ->. simpl. unfold instruction_size.
  rewrite Hdata, (Forall2_length _ _ _ Hacc). lia.
Qed.

(** The transaction of one [LoaderWrite] by its authority has three keys and one
    signature, so its size is the payload's plus 235. *)
Lemma LoaderWrite_signed_size {B : Btcd} {L : BtcdLaws B} {RT : GoRuntime}
    priv program payer off bytes bh :
  let authority := XOnlyPubkey priv in
  program ≠ authority → program ≠ BpfLoaderProgramID → authority ≠ BpfLoaderProgramID →
  payer = None ∨ payer = Some authority →
  ∃ m tx, NewSanitizedMessage [LoaderWrite program authority off bytes] payer bh = Ok m ∧
    BuildAndSignTransaction m [priv] = Ok tx ∧
    zlen (RuntimeTransaction_Serialize tx) = 235 + zlen bytes.
Proof.
  intros authority Hpa Hpl Hal Hpayer. set (ix := LoaderWrite program authority off bytes).
  destruct (NewSanitizedMessage_few [ix] payer bh) as [m Hm].
  { destruct Hpayer as [-> | ->]; simpl; lia. }
  assert (∀ k, k ∈ mentioned [ix] payer ↔ k ∈ [BpfLoaderProgramID; program; authority]) as Hmen.
  { intros k. unfold mentioned. rewrite elem_of_app. simpl.
    destruct Hpayer as [-> | ->]; simpl; rewrite !elem_of_cons, elem_of_nil; tauto. }
  assert (∀ k, asksSigner [ix] payer k = bool_decide (k = authority)) as Hask.
  { intros k. unfold asksSigner, requested. simpl.
    destruct Hpayer as [-> | ->]; simpl; apply eq_true_iff_eq;
      rewrite ?orb_true_iff, ?andb_true_iff, ?bool_decide_eq_true; intuition congruence. }
  assert (length (m_AccountKeys m) = 3%nat) as Hkeys.
  { rewrite (NoDup_same_length _ [BpfLoaderProgramID; program; authority]); [done| | |].
    - by eapply compiled_NoDup.
    - rewrite !NoDup_cons, !elem_of_cons, !elem_of_nil.
      split_ands; [intuition congruence..|apply NoDup_nil_2].
    - intros k. rewrite (compiled_elem _ _ _ _ _ Hm). apply Hmen. }
  assert (∀ k, k ∈ requiredKeys m ↔ k ∈ [authority]) as Hreq.
  { intros k. rewrite (requiredKeys_elem _ _ _ _ _ Hm), Hmen, Hask, bool_decide_eq_true.
    rewrite !elem_of_cons, elem_of_nil. tauto. }
  assert (Forall (λ k, k ∈ (XOnlyPubkey <$> [priv])) (requiredKeys m)) as Hall.
  { apply Forall_forall. intros k Hk. by apply Hreq in Hk. }
  destruct (BuildAndSign_Ok m [priv] (compiled_enoughKeys _ _ _ _ Hm) Hall) as (sigs & Htx & Hv).
  eexists m, _. split_ands; [done|exact Htx|].
  unfold zlen. rewrite length_transaction. simpl tx_Signatures. simpl tx_Message.
  rewrite (compiled_one_size _ _ _ _ Hm), Hkeys. unfold ix. rewrite length_LoaderWrite.
  rewrite <- (Forall2_length _ _ _ Hv), (NoDup_same_length _ [authority]); [simpl; lia| |..].
  - by eapply requiredKeys_NoDup.
  - apply NoDup_singleton.
  - done.
Qed.

Lemma ExtendBytesMaxLen_eq {RT : GoRuntime} : ExtendBytesMaxLen = Ok 997.
Proof.
  unfold ExtendBytesMaxLen. rewrite (NewSanitizedMessage_runtime RT default_runtime).
  vm_compute. reflexivity.
Qed.

(** What a builder returns decodes to the instruction its call means. *)
Lemma build_loader_decodes c :
  loader_fits c →
  ix_ProgramID (build_loader c) = BpfLoaderProgramID ∧
  parse_all get_loader (ix_Data (build_loader c)) = Some (loader_meaning c) ∧
  (∀ k, asksSigner [build_loader c] None k = bool_decide (k ∈ loader_signers c)) ∧
  (∀ k, asksWritable [build_loader c] None k = bool_decide (k = loader_program c)).
Proof.
  intros Hfit. split_ands; [by destruct c| |apply loader_asks..].
  destruct c; simpl in *; destruct_and?; rewrite ?uint64_small by assumption;
    unfold appendU32, appendU64, loaderWrite, loaderTruncate, loaderDeploy, loaderRetract,
      loaderTransferAuthority, loaderFinalize;
    apply parse_all_app; unfold get_loader; run_parser; try reflexivity.
  rewrite bind_get_bytes by (by rewrite zlen_to_nat). reflexivity.
Qed.

(** ** Properties *)

(** C28: the loader decodes what a builder encodes: for arguments in the range of
    their Go types the data decodes, to the last byte, to the instruction the call
    means; every call writes only its program account and asks exactly the authorities
    involved to sign. *)
Theorem loader_decodes c :
  loader_fits c →
  ix_ProgramID (build_loader c) = BpfLoaderProgramID ∧
  parse_all get_loader (ix_Data (build_loader c)) = Some (loader_meaning c) ∧
  (∀ k, asksSigner [build_loader c] None k = bool_decide (k ∈ loader_signers c)) ∧
  (∀ k, asksWritable [build_loader c] None k = bool_decide (k = loader_program c)).
Proof. apply build_loader_decodes. Qed.

Lemma loader_decodes_witness :
  parse_all get_loader (ix_Data (LoaderWrite (testKey 1) (testKey 2) 300 (bytes_lit [1; 2; 3])))
  = Some (LdWrite 300 (bytes_lit [1; 2; 3])).
Proof.
  refine (proj1 (proj2 (loader_decodes (CallWrite (testKey 1) (testKey 2) 300 (bytes_lit [1; 2; 3])) _))).
  simpl. split; [unfold is_u32; lia|unfold is_u64; vm_compute; split; congruence].
Defined.

(** C8: [ExtendBytesMaxLen] is the exact limit. It returns 997, and for every program
    and authority (distinct from each other and from the loader), offset, payload and
    blockhash, compiling one [LoaderWrite], without a payer or with the authority as
    the payer, and signing it with the authority's key gives a transaction that fits
    [RuntimeTxSizeLimit] exactly when the payload has at most that many bytes. *)
Theorem ExtendBytesMaxLen_exact {B : Btcd} {L : BtcdLaws B} {RT : GoRuntime}
    priv program payer off bytes bh :
  program ≠ XOnlyPubkey priv → program ≠ BpfLoaderProgramID →
  XOnlyPubkey priv ≠ BpfLoaderProgramID →
  payer = None ∨ payer = Some (XOnlyPubkey priv) →
  ∃ maxLen m tx, ExtendBytesMaxLen = Ok maxLen ∧ maxLen = 997 ∧
    NewSanitizedMessage [LoaderWrite program (XOnlyPubkey priv) off bytes] payer bh = Ok m ∧
    BuildAndSignTransaction m [priv] = Ok tx ∧
    (zlen (RuntimeTransaction_Serialize tx) ≤ RuntimeTxSizeLimit ↔ zlen bytes ≤ maxLen).
Proof.
  intros Hpa Hpl Hal Hpayer.
  destruct (LoaderWrite_signed_size priv program payer off bytes bh Hpa Hpl Hal Hpayer)
    as (m & tx & Hm & Htx & Hsize).
  exists 997, m, tx. split_ands; [apply ExtendBytesMaxLen_eq|done|done|done|].
  rewrite Hsize. unfold RuntimeTxSizeLimit. lia.
Qed.

Lemma ExtendBytesMaxLen_exact_witness :
  ∃ maxLen m tx, ExtendBytesMaxLen = Ok maxLen ∧ maxLen = 997 ∧
    NewSanitizedMessage [LoaderWrite (testKey 1) (testKey 2) 0 (bytes_lit [1; 2])] None testHash = Ok m ∧
    @BuildAndSignTransaction toy.btcd m [testKey 2] = Ok tx ∧
    (zlen (RuntimeTransaction_Serialize tx) ≤ RuntimeTxSizeLimit ↔ zlen (bytes_lit [1; 2]) ≤ maxLen).
Proof.
  assert (@XOnlyPubkey toy.btcd (testKey 2) = testKey 2) as Hx by (vm_compute; reflexivity).
  pose proof (@ExtendBytesMaxLen_exact toy.btcd toy.btcd_laws default_runtime
    (testKey 2) (testKey 1) None 0 (bytes_lit [1; 2]) testHash) as H.
  rewrite Hx in H. apply H; [..|left; reflexivity];
    apply (bool_decide_unpack _); vm_compute; exact I.
Defined.
