(* ===== verification/Programs.v ===== *)
(** * What the programs execute: data and accounts.

    The decoders of System.v, Token.v and Loader.v read the data of an instruction. A
    program also gets a list of accounts, whose meaning is their position. Here each
    program gives every position its role and the privileges it demands, and returns the
    call it was asked for, accounts included: the specification the builders are held
    to. The names of roles and their order are those of the node's programs, which the
    comments and tests of src/system.go, src/token.go and src/loader.go cite. Lemmas:
    what a builder returns is executed as the call that was made, and still is when
    accounts have more privileges than they need. *)
From S2P Require Import Prelude GoLib Wire Pubkey Message Compile System Token Decompile Btcd Keys Bip322 Transaction Loader.

(** ** Accounts *)

(** An account in a position that demands that it signs, or is writable. *)
Definition demand (s w : bool) (a : AccountMeta) : option Pubkey :=
  if implb s (am_IsSigner a) && implb w (am_IsWritable a) then Some (am_Pubkey a) else None.

Definition signer_writable : AccountMeta → option Pubkey := demand true true.
Definition signer : AccountMeta → option Pubkey := demand true false.
Definition writable : AccountMeta → option Pubkey := demand false true.
Definition any_account : AccountMeta → option Pubkey := demand false false.

(** The last accounts of a token instruction: an authority that signs, or a multisig
    account and the signers that act for it. *)
Definition authority (accounts : list AccountMeta) : option (Pubkey * list Pubkey) :=
  match accounts with
  | [] => None
  | [a] => k ← signer a; Some (k, [])
  | a :: signers => k ← any_account a; ks ← mapM signer signers; Some (k, ks)
  end.

(** ** The programs *)

Definition seed_string (seed : list byte) : string := String.string_of_list_byte seed.

Definition system_execute (i : SystemInstruction) (accounts : list AccountMeta) : option SystemCall :=
  match i, accounts with
  | SysCreateAccount lamports space owner, [from; to] =>
      f ← signer_writable from; t ← signer_writable to;
      Some (CallCreateAccount f t lamports space owner)
  | SysCreateAccountWithAnchor lamports space owner txid vout, [from; to] =>
      f ← signer_writable from; t ← signer_writable to;
      Some (CallCreateAccountWithAnchor f t lamports space owner (Hash_String txid) vout)
  | SysAssign owner, [account] => a ← signer_writable account; Some (CallAssign a owner)
  | SysAnchor txid vout, [account] =>
      a ← signer_writable account; Some (CallAnchor a (Hash_String txid) vout)
  | SysSignInput index, [account] => a ← signer_writable account; Some (CallSignInput index a)
  | SysTransfer lamports, [from; to] =>
      f ← signer_writable from; t ← writable to; Some (CallTransfer f t lamports)
  | SysAllocate space, [account] => a ← signer_writable account; Some (CallAllocate a space)
  (* The base is an account of its own unless it is the funding account. *)
  | SysCreateAccountWithSeed base seed lamports space owner, from :: to :: rest =>
      f ← signer_writable from; t ← writable to;
      b ← match rest with [] => Some f | [b] => signer b | _ => None end;
      if decide (b = base)
      then Some (CallCreateAccountWithSeed f t b (seed_string seed) lamports space owner) else None
  | SysAllocateWithSeed base seed space owner, [address; b] =>
      a ← writable address; b ← signer b;
      if decide (b = base) then Some (CallAllocateWithSeed a b (seed_string seed) space owner) else None
  | SysAssignWithSeed base seed owner, [address; b] =>
      a ← writable address; b ← signer b;
      if decide (b = base) then Some (CallAssignWithSeed a b (seed_string seed) owner) else None
  | SysTransferWithSeed lamports from_seed from_owner, [from; base; to] =>
      f ← writable from; b ← signer base; t ← writable to;
      Some (CallTransferWithSeed f b (seed_string from_seed) from_owner t lamports)
  | _, _ => None
  end.

Definition token_execute (i : TokenInstruction) (accounts : list AccountMeta) : option TokenCall :=
  match i, accounts with
  | TokInitializeMint d a f, [mint] => m ← writable mint; Some (CallInitializeMint m a f d)
  | TokInitializeMint2 d a f, [mint] => m ← writable mint; Some (CallInitializeMint2 m a f d)
  | TokInitializeAccount, [account; mint; owner] =>
      a ← writable account; m ← any_account mint; o ← any_account owner;
      Some (CallInitializeAccount a m o)
  | TokInitializeAccount2 owner, [account; mint] =>
      a ← writable account; m ← any_account mint; Some (CallInitializeAccount2 a m owner)
  | TokInitializeAccount3 owner, [account; mint] =>
      a ← writable account; m ← any_account mint; Some (CallInitializeAccount3 a m owner)
  | TokInitializeMultisig n, multisig :: signers =>
      m ← writable multisig; ks ← mapM any_account signers; Some (CallInitializeMultisig m ks n)
  | TokTransfer n, source :: destination :: rest =>
      s ← writable source; d ← writable destination; '(a, ks) ← authority rest;
      Some (CallTokenTransfer s d a ks n)
  | TokTransferChecked n k, source :: mint :: destination :: rest =>
      s ← writable source; m ← any_account mint; d ← writable destination; '(a, ks) ← authority rest;
      Some (CallTransferChecked s m d a ks n k)
  | TokApprove n, source :: delegate :: rest =>
      s ← writable source; d ← any_account delegate; '(o, ks) ← authority rest;
      Some (CallApprove s d o ks n)
  | TokApproveChecked n k, source :: mint :: delegate :: rest =>
      s ← writable source; m ← any_account mint; d ← any_account delegate; '(o, ks) ← authority rest;
      Some (CallApproveChecked s m d o ks n k)
  | TokRevoke, source :: rest =>
      s ← writable source; '(o, ks) ← authority rest; Some (CallRevoke s o ks)
  | TokSetAuthority t new, owned :: rest =>
      o ← writable owned; '(c, ks) ← authority rest; Some (CallSetAuthority o new t c ks)
  | TokMintTo n, mint :: account :: rest =>
      m ← writable mint; a ← writable account; '(u, ks) ← authority rest; Some (CallMintTo m a u ks n)
  | TokMintToChecked n k, mint :: account :: rest =>
      m ← writable mint; a ← writable account; '(u, ks) ← authority rest;
      Some (CallMintToChecked m a u ks n k)
  | TokBurn n, account :: mint :: rest =>
      a ← writable account; m ← writable mint; '(u, ks) ← authority rest; Some (CallBurn a m u ks n)
  | TokBurnChecked n k, account :: mint :: rest =>
      a ← writable account; m ← writable mint; '(u, ks) ← authority rest;
      Some (CallBurnChecked a m u ks n k)
  | TokCloseAccount, account :: destination :: rest =>
      a ← writable account; d ← writable destination; '(o, ks) ← authority rest;
      Some (CallCloseAccount a d o ks)
  | TokFreezeAccount, account :: mint :: rest =>
      a ← writable account; m ← any_account mint; '(u, ks) ← authority rest;
      Some (CallFreezeAccount a m u ks)
  | TokThawAccount, account :: mint :: rest =>
      a ← writable account; m ← any_account mint; '(u, ks) ← authority rest;
      Some (CallThawAccount a m u ks)
  | TokSyncNative, [account] => a ← writable account; Some (CallSyncNative a)
  | _, _ => None
  end.

Definition loader_execute (i : LoaderInstruction) (accounts : list AccountMeta) : option LoaderCall :=
  match i, accounts with
  | LdWrite offset bytes, [program; auth] =>
      p ← writable program; a ← signer auth; Some (CallWrite p a offset bytes)
  | LdTruncate size, [program; auth] =>
      p ← signer_writable program; a ← signer auth; Some (CallTruncate p a size)
  | LdDeploy, [program; auth] => p ← writable program; a ← signer auth; Some (CallDeploy p a)
  | LdRetract, [program; auth] => p ← writable program; a ← signer auth; Some (CallRetract p a)
  | LdTransferAuthority, [program; current; new] =>
      p ← signer_writable program; c ← signer current; n ← signer new;
      Some (CallTransferAuthority p c n)
  | LdFinalize, [program; auth; next] =>
      p ← signer_writable program; a ← signer auth; n ← any_account next; Some (CallFinalize p a n)
  | _, _ => None
  end.

(** The associated-token program: no data, or the utxo that anchors the account; the
    last two accounts are the programs it calls. *)
Inductive AssociatedCall :=
| CallAssociated (funder associated wallet mint : Pubkey)
| CallAssociatedWithAnchor (funder associated wallet mint : Pubkey) (txid : string) (vout : Z).

Definition get_anchor : parser (Hash * Z) := t ← get_hash; v ← get_u32; mret (t, v).

Definition associated_execute (data : list byte) (accounts : list AccountMeta) : option AssociatedCall :=
  match accounts with
  | [funder; associated; wallet; mint; system; token] =>
      f ← signer_writable funder; a ← writable associated; w ← any_account wallet; m ← any_account mint;
      s ← any_account system; t ← any_account token;
      if decide (s = SystemProgramID ∧ t = TokenProgramID) then
        match data with
        | [] => Some (CallAssociated f a w m)
        | _ => '(txid, vout) ← parse_all get_anchor data;
               Some (CallAssociatedWithAnchor f a w m (Hash_String txid) vout)
        end
      else None
  | _ => None
  end.

Definition build_associated (c : AssociatedCall) : result Instruction :=
  match c with
  | CallAssociated f a w m => Ok (CreateAssociatedTokenAccount f a w m)
  | CallAssociatedWithAnchor f a w m t v => CreateAssociatedTokenAccountWithAnchor f a w m t v
  end.

Definition associated_fits (c : AssociatedCall) : Prop :=
  match c with CallAssociated _ _ _ _ => True | CallAssociatedWithAnchor _ _ _ _ _ v => is_u32 v end.

(** ** Calls, as the programs name them *)

(** A txid is a hash, in hexadecimal of either case: a program sees the lower-case one.
    A call without a hash for a txid means nothing. *)
Definition lower_txid (txid : string) : option string := Hash_String <$> parse_txid txid.

Definition system_request (c : SystemCall) : option SystemCall :=
  match c with
  | CallCreateAccountWithAnchor f t l s o txid v =>
      txid ← lower_txid txid; Some (CallCreateAccountWithAnchor f t l s o txid v)
  | CallAnchor p txid v => txid ← lower_txid txid; Some (CallAnchor p txid v)
  | _ => Some c
  end.

Definition associated_request (c : AssociatedCall) : option AssociatedCall :=
  match c with
  | CallAssociated _ _ _ _ => Some c
  | CallAssociatedWithAnchor f a w m txid v =>
      txid ← lower_txid txid; Some (CallAssociatedWithAnchor f a w m txid v)
  end.

(** ** Executing what was built *)

Lemma seed_string_bytes s : seed_string (sbytes s) = s.
Proof. apply String.string_of_list_byte_of_string. Qed.

Lemma system_executed c op :
  call_fits c → system_request c = Some op →
  ∃ ix i, build_system c = Ok ix ∧ ix_ProgramID ix = SystemProgramID ∧
    parse_all get_system (ix_Data ix) = Some i ∧ system_execute i (ix_Accounts ix) = Some op.
Proof.
  intros Hfit Hop.
  assert (∃ i, meaning c = Some i) as [i Hi].
  { destruct c; simpl in *; try (by eexists); unfold lower_txid in Hop;
      destruct (parse_txid txid); try done; by eexists. }
  destruct (build_system_decodes c i Hfit Hi) as (ix & Hb & Hp & Hd). exists ix, i.
  split_ands; [done|done|done|]. clear Hp Hd Hfit.
  destruct c; simpl in Hi, Hop, Hb; try (injection Hi as <-; injection Hop as <-; injection Hb as <-);
    try (cbn; rewrite ?seed_string_bytes, ?decide_True by done; done).
  - unfold lower_txid in Hop. destruct (parse_txid txid) as [h|]; [|done]. simpl in Hi, Hop.
    injection Hi as <-. injection Hop as <-. apply bind_Ok in Hb as (b & _ & [= <-]). done.
  - unfold lower_txid in Hop. destruct (parse_txid txid) as [h|]; [|done]. simpl in Hi, Hop.
    injection Hi as <-. injection Hop as <-. apply bind_Ok in Hb as (b & _ & [= <-]). done.
  - cbn. destruct (decide (base = from)) as [->|Hbase];
      [rewrite decide_False by tauto|rewrite decide_True by done];
      cbn; by rewrite seed_string_bytes, decide_True.
Qed.

Lemma mapM_signerMeta ms : mapM signer (signerMeta <$> ms) = Some ms.
Proof. apply mapM_Some, Forall2_fmap_l, Forall_Forall2_diag, Forall_true. done. Qed.

Lemma mapM_readonlyMeta ms : mapM any_account (readonlyMeta <$> ms) = Some ms.
Proof. apply mapM_Some, Forall2_fmap_l, Forall_Forall2_diag, Forall_true. done. Qed.

(** The accounts of a single key or of a multisig are read as such. *)
Lemma authority_built a ms :
  authority (MkAccountMeta a (bool_decide (length ms = 0%nat)) false :: (signerMeta <$> ms)) = Some (a, ms).
Proof.
  destruct ms as [|s ms]; [done|]. unfold authority. rewrite fmap_cons.
  change (any_account _) with (Some a). cbn [mbind option_bind].
  change (signerMeta s :: (signerMeta <$> ms)) with (signerMeta <$> s :: ms). by rewrite mapM_signerMeta.
Qed.

Lemma token_executed c :
  token_fits c →
  ix_ProgramID (build_token c) = TokenProgramID ∧ ∃ i,
  parse_all get_token (ix_Data (build_token c)) = Some i ∧
  token_execute i (ix_Accounts (build_token c)) = Some c.
Proof.
  intros Hfit. destruct (build_token_decodes c Hfit) as [Hp Hd]. split; [done|].
  eexists. split; [exact Hd|]. clear.
  destruct c; try reflexivity; cbn [build_token token_meaning ix_Accounts TokenTransfer TokenTransferChecked
    TokenApprove TokenApproveChecked TokenRevoke TokenSetAuthority TokenMintTo TokenMintToChecked TokenBurn
    TokenBurnChecked TokenCloseAccount TokenFreezeAccount TokenThawAccount setDiscriminant appendData];
    try (rewrite authorityAccounts_eq; cbn -[authority]; by rewrite authority_built).
  cbn -[foldl]. rewrite foldl_snoc. cbn. by rewrite mapM_readonlyMeta.
Qed.

Lemma loader_executed c :
  loader_fits c →
  ix_ProgramID (build_loader c) = BpfLoaderProgramID ∧ ∃ i,
  parse_all get_loader (ix_Data (build_loader c)) = Some i ∧
  loader_execute i (ix_Accounts (build_loader c)) = Some c.
Proof.
  intros Hfit. destruct (build_loader_decodes c Hfit) as (Hp & Hd & _). split; [done|].
  eexists. split; [exact Hd|]. by destruct c.
Qed.

Lemma associated_executed c op :
  associated_fits c → associated_request c = Some op →
  ∃ ix, build_associated c = Ok ix ∧ ix_ProgramID ix = AssociatedTokenProgramID ∧
    associated_execute (ix_Data ix) (ix_Accounts ix) = Some op.
Proof.
  intros Hfit Hop. destruct c as [f a w m|f a w m txid v]; simpl in *; [by injection Hop as <-; eexists|].
  unfold lower_txid in Hop. destruct (parse_txid txid) as [h|] eqn:Ht; [|done]. injection Hop as <-.
  unfold CreateAssociatedTokenAccountWithAnchor.
  assert (decodeTxid txid = Ok (array_list h)) as -> by (apply decodeTxid_Ok; eauto).
  eexists. split; [reflexivity|]. split; [reflexivity|]. cbn -[decide parse_all AppendUint32].
  rewrite decide_True by done.
  assert (parse_all get_anchor (AppendUint32 (array_list h) v) = Some (h, v)) as Hparse.
  { apply parse_all_app. unfold get_anchor. run_parser. reflexivity. }
  destruct (AppendUint32 (array_list h) v) as [|b bs] eqn:Happ; [|by rewrite Hparse].
  apply (f_equal length) in Happ. unfold AppendUint32 in Happ. rewrite length_app, length_array in Happ. done.
Qed.

(** ** More privileges than needed *)

(** A result that, if there is one, is also the result of [y]. *)
Definition at_most {A} (x y : option A) : Prop := ∀ a, x = Some a → y = Some a.

Lemma at_most_refl {A} (x : option A) : at_most x x.
Proof. by intros a. Qed.

Lemma at_most_None {A} (y : option A) : at_most None y.
Proof. by intros a. Qed.

Lemma at_most_bind {A B} (x y : option A) (f g : A → option B) :
  at_most x y → (∀ a, at_most (f a) (g a)) → at_most (x ≫= f) (y ≫= g).
Proof.
  intros Hxy Hfg b (a & Ha & Hb)%bind_Some. rewrite (Hxy _ Ha). by apply Hfg.
Qed.

(** [b] is the account [a] with at least its privileges. *)
Definition grants (a b : AccountMeta) : Prop :=
  am_Pubkey b = am_Pubkey a ∧ (am_IsSigner a = true → am_IsSigner b = true) ∧
  (am_IsWritable a = true → am_IsWritable b = true).

Lemma at_most_demand s w a b : grants a b → at_most (demand s w a) (demand s w b).
Proof.
  intros (Hk & Hs & Hw) k. unfold demand. rewrite Hk.
  destruct (am_IsSigner a), (am_IsWritable a), s, w; simpl; try done; intros [= <-];
    rewrite ?Hs, ?Hw by done; simpl; rewrite ?implb_true_r; done.
Qed.

Lemma at_most_mapM s w l k : Forall2 grants l k → at_most (mapM (demand s w) l) (mapM (demand s w) k).
Proof.
  induction 1 as [|a b l k Hab _ IH]; [apply at_most_refl|]. simpl.
  apply at_most_bind; [by apply at_most_demand|]. intros x.
  apply at_most_bind; [done|]. intros xs. apply at_most_refl.
Qed.

Lemma at_most_authority l k : Forall2 grants l k → at_most (authority l) (authority k).
Proof.
  intros [|a b l' k' Hab [|a' b' l'' k'' Hab' Hl]]; [apply at_most_refl|..]; unfold authority.
  - apply at_most_bind; [by apply at_most_demand|]. intros x. apply at_most_refl.
  - apply at_most_bind; [by apply at_most_demand|]. intros x.
    apply at_most_bind; [apply at_most_mapM; by constructor|]. intros xs. apply at_most_refl.
Qed.

(** Goes through the accounts of an instruction, position by position. *)
Ltac more_privileges :=
  repeat match goal with
  | |- at_most ?x ?x => apply at_most_refl
  | |- at_most None _ => apply at_most_None
  | H : Forall2 grants ?l _ |- at_most (match ?l with [] => _ | _ => _ end) _ => destruct H
  | |- at_most (_ ≫= _) (_ ≫= _) => apply at_most_bind; [|intros ?]
  | |- at_most (let '(_, _) := ?x in _) _ => destruct x
  | |- at_most (authority _) (authority _) => apply at_most_authority; assumption
  | |- at_most (mapM _ _) (mapM _ _) => apply at_most_mapM; assumption
  | |- at_most (if ?d then _ else _) (if ?d then _ else _) => destruct d
  | |- at_most (demand _ _ _) _ => apply at_most_demand; assumption
  | |- at_most (signer _) _ => apply at_most_demand; assumption
  | |- at_most (writable _) _ => apply at_most_demand; assumption
  | |- at_most (signer_writable _) _ => apply at_most_demand; assumption
  | |- at_most (any_account _) _ => apply at_most_demand; assumption
  end.

Lemma loader_more i l k : Forall2 grants l k → at_most (loader_execute i l) (loader_execute i k).
Proof. intros Hl. destruct i; cbn [system_execute token_execute loader_execute]; more_privileges. Qed.

Lemma associated_more data l k :
  Forall2 grants l k → at_most (associated_execute data l) (associated_execute data k).
Proof. intros Hl. unfold associated_execute. more_privileges. Qed.

Lemma system_more i l k : Forall2 grants l k → at_most (system_execute i l) (system_execute i k).
Proof. intros Hl. destruct i; cbn [system_execute token_execute loader_execute]; more_privileges. Qed.

Lemma token_more i l k : Forall2 grants l k → at_most (token_execute i l) (token_execute i k).
Proof. intros Hl. destruct i; cbn [system_execute token_execute loader_execute]; more_privileges. Qed.
