(* ===== verification/Json.v ===== *)
(** * JSON documents, and the byte types' JSON forms: src/bytes.go, src/types.go.

    A document is its syntax tree, as [encoding/json] reads and writes it; its text is
    in JsonText.v. [Bytes] has its own methods in src/bytes.go;
    [Pubkey], [Hash] and [Signature] are Go arrays, which the package writes as arrays of
    numbers and reads element by element. Lemmas: which documents both
    forms accept, with the errors for the others. *)
From S2P Require Import Prelude GoLib Wire Pubkey.

(** Integer literals are kept apart from the others, which are kept as they are written:
    those with a fraction or an exponent, which no Go integer type accepts, and [-0],
    which only the signed ones do. *)
#[warnings="-register-all"]
Inductive json :=
| JNull
| JBool (b : bool)
| JInt (n : Z)
| JFloat (literal : string)
| JString (s : string)
| JArray (l : list json)
| JObject (fields : list (string * json)).

#[global] Instance json_eq_dec : EqDecision json.
Proof.
  refine (fix go j1 j2 : Decision (j1 = j2) :=
    match j1, j2 with
    | JNull, JNull => left eq_refl
    | JBool b1, JBool b2 => cast_if (decide (b1 = b2))
    | JInt n1, JInt n2 => cast_if (decide (n1 = n2))
    | JFloat s1, JFloat s2 => cast_if (decide (s1 = s2))
    | JString s1, JString s2 => cast_if (decide (s1 = s2))
    | JArray l1, JArray l2 => cast_if (@list_eq_dec json go l1 l2)
    | JObject f1, JObject f2 =>
        cast_if (@list_eq_dec (string * json) (@prod_eq_dec string _ json go) f1 f2)
    | _, _ => right _
    end); congruence.
Defined.

(** How an [UnmarshalTypeError] names what it found. *)
Definition json_kind (j : json) : string :=
  match j with
  | JNull => "null"
  | JBool _ => "bool"
  | JInt n => ("number " +:+ pretty n)%string
  | JFloat s => ("number " +:+ s)%string
  | JString _ => "string"
  | JArray _ => "array"
  | JObject _ => "object"
  end.

(** ** Reading integers and slices of them *)

Definition minus_zero (literal : string) : bool := bool_decide (literal = "-0").

(** A value of an integer type with range [lo, hi): null leaves the zero value. *)
Definition decode_int (lo hi : Z) (type : string) (j : json) : result Z :=
  match j with
  | JNull => Ok 0
  | JInt n => if (lo <=? n) && (n <? hi) then Ok n else Err (JsonTypeError (json_kind j) type)
  | JFloat s => if (lo <? 0) && minus_zero s then Ok 0 else Err (JsonTypeError (json_kind j) type)
  | _ => Err (JsonTypeError (json_kind j) type)
  end.

(** Go's [int] is 64 bits wide. *)
Definition decode_go_int : json → result Z := decode_int (- 2 ^ 63) (2 ^ 63) "int".

(** [json.Unmarshal(data, &nums)] for [var nums []int]. *)
Definition decode_ints (j : json) : result (list Z) :=
  match j with
  | JNull => Ok []
  | JArray l => mapM decode_go_int l
  | _ => Err (JsonTypeError (json_kind j) "[]int")
  end.

(** ** Bytes *)

(** A Go slice: nil, or its elements. *)
Definition Bytes : Type := option (list byte).

Definition Bytes_MarshalJSON (b : Bytes) : json :=
  match b with
  | None => JArray []
  | Some bs => JArray ((λ v, JInt (byte_val v)) <$> bs)
  end.

Definition rangeError (i : nat) (v : Z) : error :=
  ErrorString ("byte array element " +:+ pretty i +:+ " out of range: " +:+ pretty v).

(** The loop of [UnmarshalJSON], from index [i]. *)
Fixpoint narrow (i : nat) (nums : list Z) : result (list byte) :=
  match nums with
  | [] => Ok []
  | v :: nums =>
      if (v <? 0) || (255 <? v) then Err (rangeError i v)
      else out ← narrow (S i) nums; Ok (byte_of v :: out)
  end.

Definition Bytes_UnmarshalJSON (data : json) : result Bytes :=
  nums ← decode_ints data;
  out ← narrow 0 nums;
  Ok (Some out).

(** ** Byte arrays *)

Definition array_MarshalJSON {n} (a : array n) : json :=
  JArray ((λ v, JInt (byte_val v)) <$> array_list a).

Definition decode_uint8 (j : json) : result byte :=
  byte_of <$> decode_int 0 (2 ^ 8) "uint8" j.

(** Reading into a zero array: missing elements stay zero, elements past the end are
    skipped whatever they are. *)
Definition array_UnmarshalJSON (n : nat) (data : json) : result (array n) :=
  match data with
  | JNull => Ok (zero_array n)
  | JArray l => bs ← mapM decode_uint8 (take n l); Ok (array_of n bs)
  | _ => Err (JsonTypeError (json_kind data) ("[" +:+ pretty n +:+ "]uint8"))
  end.

(** ** Account filters *)

Record DataContent := { dc_Offset : Z; dc_Bytes : Bytes }.
Record AccountFilter := { af_DataSize : option Z; af_DataContent : option DataContent }.

Definition DataSizeFilter (size : Z) : AccountFilter :=
  {| af_DataSize := Some size; af_DataContent := None |}.
Definition DataContentFilter (offset : Z) (b : Bytes) : AccountFilter :=
  {| af_DataSize := None; af_DataContent := Some {| dc_Offset := offset; dc_Bytes := b |} |}.

(** The struct tags: both fields are omitted when nil. *)
Definition AccountFilter_json (f : AccountFilter) : json :=
  JObject (
    match af_DataSize f with Some n => [("DataSize", JInt n)] | None => [] end ++
    match af_DataContent f with
    | Some d => [("DataContent", JObject [("offset", JInt (dc_Offset d));
                                          ("bytes", Bytes_MarshalJSON (dc_Bytes d))])]
    | None => []
    end).

(** ** Lemmas *)

(** What a number of a byte document may be. *)
Definition json_byte (j : json) : option byte :=
  match j with
  | JNull => Some (byte_of 0)
  | JInt n => if (0 <=? n) && (n <=? 255) then Some (byte_of n) else None
  | _ => None
  end.

(** An element of a [[]int] that is narrowed to a byte may be [-0] as well. *)
Definition json_int_byte (j : json) : option byte :=
  match j with
  | JFloat s => if minus_zero s then Some (byte_of 0) else None
  | _ => json_byte j
  end.

Lemma decode_uint8_Ok j b : decode_uint8 j = Ok b ↔ json_byte j = Some b.
Proof.
  unfold decode_uint8. destruct j; simpl; try (split; intros [= <-]; done).
  replace (n <? 2 ^ 8) with (n <=? 255) by lia.
  destruct ((0 <=? n) && (n <=? 255)); simpl; split; intros Hb; inversion Hb; done.
Qed.

Lemma json_byte_val b : json_byte (JInt (byte_val b)) = Some b.
Proof.
  simpl. pose proof (byte_val_range b).
  replace (0 <=? byte_val b) with true by lia. replace (byte_val b <=? 255) with true by lia.
  simpl. by rewrite byte_of_val.
Qed.

(** An element that is a byte is an int in range, and conversely. *)
Lemma json_byte_int j b :
  json_int_byte j = Some b ↔ ∃ v, decode_go_int j = Ok v ∧ 0 ≤ v ≤ 255 ∧ b = byte_of v.
Proof.
  unfold decode_go_int. destruct j; simpl; try (split; [done|intros (? & ? & _); done]).
  - split; [intros [= <-]; exists 0; split_and!; done || lia|intros (v & [= <-] & _ & ->); done].
  - destruct (decide (0 ≤ n ≤ 255)) as [Hn|Hn].
    + replace ((0 <=? n) && (n <=? 255)) with true by lia.
      replace ((- 2 ^ 63 <=? n) && (n <? 2 ^ 63)) with true by lia.
      split; [intros [= <-]; eauto|intros (v & [= <-] & _ & ->); done].
    + replace ((0 <=? n) && (n <=? 255)) with false by lia.
      split; [done|]. case_match; [intros (v & [= <-] & ? & _); lia|intros (v & ? & _); done].
  - destruct (minus_zero literal); [|split; [done|intros (? & ? & _); done]].
    split; [intros [= <-]; exists 0; split_and!; done || lia|intros (v & [= <-] & _ & ->); done].
Qed.

Lemma narrow_Ok i nums out :
  narrow i nums = Ok out ↔ Forall2 (λ v b, 0 ≤ v ≤ 255 ∧ b = byte_of v) nums out.
Proof.
  revert i out. induction nums as [|v nums IH]; intros i out; simpl.
  { split; [intros [= <-]; constructor|by intros ->%Forall2_nil_inv_l]. }
  destruct ((v <? 0) || (255 <? v)) eqn:Hv.
  - split; [done|]. intros (b & bs & [Hr _] & _ & ->)%Forall2_cons_inv_l. lia.
  - rewrite bind_Ok. setoid_rewrite IH. split.
    + intros (bs & Hbs & [= <-]). constructor; [split; [lia|done]|done].
    + intros (b & bs & [_ ->] & Hbs & ->)%Forall2_cons_inv_l. eauto.
Qed.

(** The first number out of range is reported, at its index. *)
Lemma narrow_Err pre v rest i :
  Forall (λ v, 0 ≤ v ≤ 255) pre → ¬ 0 ≤ v ≤ 255 →
  narrow i (pre ++ v :: rest) = Err (rangeError (i + length pre) v).
Proof.
  intros Hpre Hv. revert i. induction Hpre as [|w pre Hw _ IH]; intros i; simpl.
  - replace ((v <? 0) || (255 <? v)) with true by lia. by rewrite Nat.add_0_r.
  - replace ((w <? 0) || (255 <? w)) with false by lia.
    rewrite IH. simpl. by rewrite <- Nat.add_succ_comm.
Qed.

Lemma narrow_bytes i bs : narrow i (byte_val <$> bs) = Ok bs.
Proof.
  apply narrow_Ok. apply Forall2_fmap_l. apply Forall_Forall2_diag, Forall_true. intros b. simpl.
  pose proof (byte_val_range b). split; [lia|]. by rewrite byte_of_val.
Qed.

Lemma Forall2_ints_bytes l out :
  (∃ nums, Forall2 (λ j v, decode_go_int j = Ok v) l nums ∧
           Forall2 (λ v b, 0 ≤ v ≤ 255 ∧ b = byte_of v) nums out) ↔
  Forall2 (λ j b, json_int_byte j = Some b) l out.
Proof.
  split.
  - intros (nums & H1 & H2). revert out H2.
    induction H1 as [|j v l nums Hj _ IH]; intros out H2.
    + apply Forall2_nil_inv_l in H2 as ->. constructor.
    + apply Forall2_cons_inv_l in H2 as (b & bs & [Hv ->] & Hbs & ->).
      constructor; [apply json_byte_int; eauto|by apply IH].
  - induction 1 as [|j b l out Hj _ (nums & H1 & H2)]; [by exists []|].
    apply json_byte_int in Hj as (v & Hv & Hr & ->). exists (v :: nums). by split; constructor.
Qed.

(** ** Byte arrays read back *)

(** Byte arrays (keys, hashes, signatures) read back what they write. Reading
    accepts exactly null and the arrays whose first [n] elements are integers from 0 to
    255 or null: fewer elements are padded with zeros, and elements past the [n]th are
    ignored whatever they are, so a document of the wrong length is not refused. *)
Lemma array_json n :
  (∀ a : array n, array_UnmarshalJSON n (array_MarshalJSON a) = Ok a) ∧
  (∀ j a, array_UnmarshalJSON n j = Ok a ↔
     (j = JNull ∧ a = zero_array n) ∨
     ∃ l bs, j = JArray l ∧ Forall2 (λ e b, json_byte e = Some b) (take n l) bs ∧
             array_list a = bs ++ replicate (n - length bs) (byte_of 0)).
Proof.
  assert (∀ l bs, mapM decode_uint8 l = Ok bs ↔ Forall2 (λ e b, json_byte e = Some b) l bs) as Hm.
  { intros l bs. rewrite mapM_Ok_Forall2. split; (intros H; eapply Forall2_impl; [exact H|]);
      intros; by apply decode_uint8_Ok. }
  split.
  - intros a. unfold array_UnmarshalJSON, array_MarshalJSON.
    rewrite take_ge by (rewrite length_fmap, length_array; lia).
    assert (mapM decode_uint8 ((λ v, JInt (byte_val v)) <$> array_list a) = Ok (array_list a)) as ->.
    { apply Hm, Forall2_fmap_l, Forall_Forall2_diag, Forall_true. intros b. apply json_byte_val. }
    simpl. by rewrite array_of_array.
  - assert (∀ bs, (length bs ≤ n)%nat →
      array_list (array_of n bs) = bs ++ replicate (n - length bs) (byte_of 0)) as Hpad.
    { intros bs Hb. unfold array_of, copy, zero_array. cbn [array_list].
      rewrite take_ge, drop_replicate by lia. done. }
    intros j a. unfold array_UnmarshalJSON. destruct j; try (split; [done|]; intros [[? _]|(? & ? & ? & _)]; done).
    + split; [intros [= <-]; auto|]. intros [[_ ->]|(? & ? & ? & _)]; done.
    + rewrite bind_Ok. setoid_rewrite Hm. split.
      * intros (bs & Hbs & [= <-]). right. exists l, bs. split_ands; [done|done|].
        apply Hpad. apply Forall2_length in Hbs. rewrite length_take in Hbs. lia.
      * intros [[? _]|(l' & bs & [= <-] & Hbs & Ha)]; [done|]. exists bs. split; [done|].
        f_equal. apply array_eq. rewrite Ha. apply Hpad.
        apply Forall2_length in Hbs. rewrite length_take in Hbs. lia.
Qed.
