(* ===== verification/JsonText.v ===== *)
(** * The texts of JSON documents: what the SDK uses of encoding/json.

    [json_print] writes a document the way [json.Marshal] does (compact, with the
    characters it escapes), [json_parse] reads a text the way [json.Unmarshal] does
    before it fills a value: RFC 8259, invalid UTF-8 and unpaired surrogates replaced,
    nesting limited to 10000. The texts of syntax errors are not modelled. Lemmas: what
    is printed parses back, and the parser's fuel is enough for every text. Theorem: the
    texts of byte slices (src/bytes.go). *)
From Stdlib Require Import DecimalN DecimalPos.
From S2P Require Import Prelude GoLib Wire Json.

(** ** Strings *)

Definition in_range (lo hi : Z) (b : byte) : bool := (lo <=? byte_val b) && (byte_val b <=? hi).

(** The length of the UTF-8 encoding at the head of a text, 0 if there is none
    ([utf8.DecodeRune]). *)
Definition rune_width (bs : list byte) : nat :=
  match bs with
  | [] => 0
  | a :: t =>
      if in_range 0 0x7F a then 1
      else if in_range 0xC2 0xDF a then
        match t with b :: _ => if in_range 0x80 0xBF b then 2 else 0 | _ => 0 end
      else if in_range 0xE0 0xEF a then
        match t with
        | b :: c :: _ =>
            if in_range (if decide (a = xe0) then 0xA0 else 0x80)
                        (if decide (a = xed) then 0x9F else 0xBF) b && in_range 0x80 0xBF c
            then 3 else 0
        | _ => 0
        end
      else if in_range 0xF0 0xF4 a then
        match t with
        | b :: c :: d :: _ =>
            if in_range (if decide (a = xf0) then 0x90 else 0x80)
                        (if decide (a = xf4) then 0x8F else 0xBF) b
               && in_range 0x80 0xBF c && in_range 0x80 0xBF d
            then 4 else 0
        | _ => 0
        end
      else 0
  end%nat.

(** Writing one ASCII character of a string: quotes, backslashes and control characters
    are escaped, and so are the characters [<], [>] and [&]. *)
Definition escape_ascii (b : byte) : list byte :=
  if decide (b = x22) then [x5c; x22]
  else if decide (b = x5c) then [x5c; x5c]
  else if decide (b = x08) then [x5c; x62]
  else if decide (b = x0c) then [x5c; x66]
  else if decide (b = x0a) then [x5c; x6e]
  else if decide (b = x0d) then [x5c; x72]
  else if decide (b = x09) then [x5c; x74]
  else if (byte_val b <? 32) || bool_decide (b ∈ [x3c; x3e; x26])
  then [x5c; x75; x30; x30] ++ hex.encode_byte b
  else [b].

(** U+2028 and U+2029, which are escaped too, and what replaces a byte that is not part
    of a character. *)
Definition line_separator : list byte := [xe2; x80; xa8].
Definition paragraph_separator : list byte := [xe2; x80; xa9].
Definition replacement : list byte := [xef; xbf; xbd].

Definition escape_rune (r : list byte) : list byte :=
  match r with
  | [b] => escape_ascii b
  | _ =>
      if decide (r = line_separator) then [x5c; x75; x32; x30; x32; x38]
      else if decide (r = paragraph_separator) then [x5c; x75; x32; x30; x32; x39]
      else r
  end.

(** The content of a printed string; [skip] bytes belong to a character already
    written. *)
Fixpoint escape (skip : nat) (bs : list byte) : list byte :=
  match bs with
  | [] => []
  | b :: t =>
      match skip with
      | S skip => escape skip t
      | O =>
          match rune_width bs with
          | O => [x5c; x75; x66; x66; x66; x64] ++ escape 0 t
          | S w => escape_rune (take (S w) bs) ++ escape w t
          end
      end
  end.

Definition print_string (s : string) : list byte :=
  x22 :: escape 0 (String.list_byte_of_string s) ++ [x22].

(** Reading: four hexadecimal digits, and the code point of a character as UTF-8. *)
Definition hex4 (a b c d : byte) : option Z :=
  a ← hex.value a; b ← hex.value b; c ← hex.value c; d ← hex.value d;
  Some (((a * 16 + b) * 16 + c) * 16 + d).

Definition encode_rune (r : Z) : list byte :=
  if r <? 0x80 then [byte_of r]
  else if r <? 0x800 then [byte_of (0xC0 + r / 64); byte_of (0x80 + r mod 64)]
  else if r <? 0x10000
  then [byte_of (0xE0 + r / 4096); byte_of (0x80 + r / 64 mod 64); byte_of (0x80 + r mod 64)]
  else [byte_of (0xF0 + r / 262144); byte_of (0x80 + r / 4096 mod 64);
        byte_of (0x80 + r / 64 mod 64); byte_of (0x80 + r mod 64)].

Definition is_surrogate (r : Z) : bool := (0xD800 <=? r) && (r <? 0xE000).
Definition is_high_surrogate (r : Z) : bool := (0xD800 <=? r) && (r <? 0xDC00).
Definition is_low_surrogate (r : Z) : bool := (0xDC00 <=? r) && (r <? 0xE000).

Definition simple_escape (e : byte) : option byte :=
  match e with
  | x22 => Some x22 | x5c => Some x5c | x2f => Some x2f
  | x62 => Some x08 | x66 => Some x0c | x6e => Some x0a | x72 => Some x0d | x74 => Some x09
  | _ => None
  end.

Definition before (p : list byte) (r : option (list byte * list byte)) : option (list byte * list byte) :=
  '(s, rest) ← r; Some (p ++ s, rest).

(** The rest of a string, up to and with its closing quote; the next [copy] bytes belong
    to a character already recognized. *)
Fixpoint scan_string (copy : nat) (bs : list byte) : option (list byte * list byte) :=
  match bs with
  | [] => None
  | c :: t =>
      match copy with
      | S copy => before [c] (scan_string copy t)
      | O =>
          if decide (c = x22) then Some ([], t)
          else if decide (c = x5c) then
            match t with
            | [] => None
            | e :: t =>
                if decide (e = x75) then
                  match t with
                  | h1 :: h2 :: h3 :: h4 :: t =>
                      u ← hex4 h1 h2 h3 h4;
                      if is_surrogate u then
                        match t with
                        | s1 :: s2 :: l1 :: l2 :: l3 :: l4 :: t' =>
                            match (if decide (s1 = x5c ∧ s2 = x75) then hex4 l1 l2 l3 l4 else None) with
                            | Some v =>
                                if is_high_surrogate u && is_low_surrogate v
                                then before (encode_rune (0x10000 + (u - 0xD800) * 1024 + (v - 0xDC00)))
                                       (scan_string 0 t')
                                else before replacement (scan_string 0 t)
                            | None => before replacement (scan_string 0 t)
                            end
                        | _ => before replacement (scan_string 0 t)
                        end
                      else before (encode_rune u) (scan_string 0 t)
                  | _ => None
                  end
                else
                  match simple_escape e with
                  | Some b => before [b] (scan_string 0 t)
                  | None => None
                  end
            end
          else if byte_val c <? 32 then None
          else
            match rune_width bs with
            | O => before replacement (scan_string 0 t)
            | S w => before [c] (scan_string w t)
            end
      end
  end.

(** A text that is a sequence of UTF-8 encodings. *)
Fixpoint utf8_valid (skip : nat) (bs : list byte) : bool :=
  match bs with
  | [] => bool_decide (skip = 0%nat)
  | _ :: t =>
      match skip with
      | S skip => utf8_valid skip t
      | O => match rune_width bs with O => false | S w => utf8_valid w t end
      end
  end.

(** *** Printed strings read back *)

Definition is_rune (r : list byte) : Prop := rune_width r = length r ∧ r ≠ [].

(** A character is one of four shapes, and only its own bytes decide that it is one. *)
Lemma rune_width_take bs w : rune_width bs = S w → rune_width (take (S w) bs) = S w ∧ (S w ≤ length bs)%nat.
Proof.
  unfold rune_width. destruct bs as [|a t]; [done|].
  destruct (in_range 0 0x7F a) eqn:H1; [intros [= <-]; simpl; rewrite H1; split; [done|lia]|].
  destruct (in_range 0xC2 0xDF a) eqn:H2.
  { destruct t as [|b t]; [done|]. destruct (in_range _ _ b) eqn:Hb; [|done]. intros [= <-].
    simpl. rewrite H1, H2, Hb. split; [done|lia]. }
  destruct (in_range 0xE0 0xEF a) eqn:H3.
  { destruct t as [|b [|c t]]; [done..|]. destruct (_ && _) eqn:Hb; [|done]. intros [= <-].
    simpl. rewrite H1, H2, H3, Hb. split; [done|lia]. }
  destruct (in_range 0xF0 0xF4 a) eqn:H4; [|done].
  destruct t as [|b [|c [|d t]]]; [done..|]. destruct (_ && _) eqn:Hb; [|done]. intros [= <-].
  simpl. rewrite H1, H2, H3, H4, Hb. split; [done|lia].
Qed.

Lemma rune_width_app r t : is_rune r → rune_width (r ++ t) = length r.
Proof.
  intros [Hw Hne]. revert Hw. unfold rune_width. destruct r as [|a r]; [done|].
  cbn. destruct (in_range 0 0x7F a); [done|].
  destruct (in_range 0xC2 0xDF a); [by destruct r as [|b r]|].
  destruct (in_range 0xE0 0xEF a); [by destruct r as [|b [|c r]]|].
  destruct (in_range 0xF0 0xF4 a); [|done]. by destruct r as [|b [|c [|d r]]].
Qed.

Lemma escape_skip r t : escape (length r) (r ++ t) = escape 0 t.
Proof. induction r as [|b r IH]; [by destruct t|]. apply IH. Qed.

Lemma escape_app_rune r t : is_rune r → escape 0 (r ++ t) = escape_rune r ++ escape 0 t.
Proof.
  intros Hr. pose proof (rune_width_app r t Hr) as Hw. destruct Hr as [_ Hne].
  destruct r as [|b r]; [done|]. simpl app in *. cbn [escape]. rewrite Hw.
  cbn [length]. rewrite escape_skip.
  replace (take (S (length r)) (b :: r ++ t)) with (b :: r); [done|].
  simpl. by rewrite take_app_length.
Qed.

Lemma before_app p q r : before (p ++ q) r = before p (before q r).
Proof. destruct r as [[s rest]|]; simpl; [|done]. by rewrite <- app_assoc. Qed.

Lemma scan_copy r t : scan_string (length r) (r ++ t) = before r (scan_string 0 t).
Proof.
  induction r as [|b r IH].
  - cbn [length app]. by destruct (scan_string 0 t) as [[]|].
  - cbn [length app scan_string]. rewrite IH. by rewrite <- before_app.
Qed.

(** A printed character is read as itself. *)
Lemma scan_escape_rune r t : is_rune r → scan_string 0 (escape_rune r ++ t) = before r (scan_string 0 t).
Proof.
  intros Hr. pose proof (rune_width_app r t Hr) as Hw. destruct Hr as [Hr Hne].
  destruct r as [|a [|b r]]; [done| |].
  - clear Hw. destruct a; try discriminate Hr; reflexivity.
  - unfold escape_rune. case_decide as Hls; [rewrite Hls; reflexivity|].
    case_decide as Hps; [rewrite Hps; reflexivity|].
    assert (128 ≤ byte_val a) as Ha.
    { unfold rune_width in Hr. destruct (in_range 0 0x7F a) eqn:Hin; [done|].
      unfold in_range in Hin. pose proof (byte_val_range a). lia. }
    simpl app in *. cbn [scan_string].
    rewrite decide_False by (intros ->; vm_compute in Ha; done).
    rewrite decide_False by (intros ->; vm_compute in Ha; done).
    replace (byte_val a <? 32) with false by lia. rewrite Hw. cbn [length].
    change (b :: r ++ t) with ((b :: r) ++ t).
    change (S (length r)) with (length (b :: r)). rewrite scan_copy. by rewrite <- !before_app.
Qed.

Lemma scan_escape rs t :
  Forall is_rune rs → scan_string 0 (escape 0 (mjoin rs) ++ x22 :: t) = Some (mjoin rs, t).
Proof.
  induction 1 as [|r rs Hr _ IH]; [reflexivity|].
  simpl mjoin. rewrite escape_app_rune, <- app_assoc, scan_escape_rune, IH by done. reflexivity.
Qed.

Lemma utf8_valid_skip w bs : utf8_valid w bs = true → utf8_valid 0 (drop w bs) = true.
Proof.
  revert w. induction bs as [|b bs IH]; intros w; simpl.
  - intros ->%bool_decide_eq_true. done.
  - destruct w as [|w]; [done|]. apply IH.
Qed.

(** A valid text is a sequence of characters. *)
Lemma utf8_valid_runes bs : utf8_valid 0 bs = true → ∃ rs, bs = mjoin rs ∧ Forall is_rune rs.
Proof.
  induction bs as [bs IH] using (induction_ltof1 _ length). unfold ltof in IH.
  destruct bs as [|b t]; [by exists []|]. cbn [utf8_valid].
  destruct (rune_width (b :: t)) as [|w] eqn:Hw; [done|]. intros Hv%utf8_valid_skip.
  destruct (rune_width_take _ _ Hw) as [Htake Hlen]. simpl in Hlen.
  destruct (IH (drop w t)) as (rs & Hrs & Hall); [rewrite length_drop; simpl; lia|done|].
  exists (take (S w) (b :: t) :: rs). split.
  - simpl. by rewrite <- Hrs, take_drop.
  - constructor; [|done]. split; [|done]. rewrite Htake, length_take. simpl. lia.
Qed.

Definition printable_string (s : string) : bool := utf8_valid 0 (String.list_byte_of_string s).

Lemma scan_print_string s t :
  printable_string s = true →
  print_string s ++ t = x22 :: (escape 0 (String.list_byte_of_string s) ++ x22 :: t) ∧
  scan_string 0 (escape 0 (String.list_byte_of_string s) ++ x22 :: t) =
    Some (String.list_byte_of_string s, t).
Proof.
  intros (rs & Hrs & Hall)%utf8_valid_runes. split.
  - unfold print_string. simpl. by rewrite <- app_assoc.
  - rewrite Hrs. by apply scan_escape.
Qed.

(** ** Numbers *)

Definition digit_of (c : byte) : option (Decimal.uint → Decimal.uint) :=
  match c with
  | x30 => Some Decimal.D0 | x31 => Some Decimal.D1 | x32 => Some Decimal.D2
  | x33 => Some Decimal.D3 | x34 => Some Decimal.D4 | x35 => Some Decimal.D5
  | x36 => Some Decimal.D6 | x37 => Some Decimal.D7 | x38 => Some Decimal.D8
  | x39 => Some Decimal.D9 | _ => None
  end.

(** The digits at the head of a text. *)
Fixpoint digits (bs : list byte) : Decimal.uint * list byte :=
  match bs with
  | c :: t =>
      match digit_of c with
      | Some d => let '(u, r) := digits t in (d u, r)
      | None => (Decimal.Nil, bs)
      end
  | [] => (Decimal.Nil, [])
  end.

Fixpoint print_digits (u : Decimal.uint) : list byte :=
  match u with
  | Decimal.Nil => []
  | Decimal.D0 u => x30 :: print_digits u | Decimal.D1 u => x31 :: print_digits u
  | Decimal.D2 u => x32 :: print_digits u | Decimal.D3 u => x33 :: print_digits u
  | Decimal.D4 u => x34 :: print_digits u | Decimal.D5 u => x35 :: print_digits u
  | Decimal.D6 u => x36 :: print_digits u | Decimal.D7 u => x37 :: print_digits u
  | Decimal.D8 u => x38 :: print_digits u | Decimal.D9 u => x39 :: print_digits u
  end.

Definition print_int (n : Z) : list byte :=
  match n with
  | Zneg p => x2d :: print_digits (N.to_uint (Npos p))
  | _ => print_digits (N.to_uint (Z.to_N n))
  end.

(** An integer part: no digit is missing, and no zero leads. *)
Definition int_part (u : Decimal.uint) : bool :=
  match u with
  | Decimal.Nil => false
  | Decimal.D0 u => match u with Decimal.Nil => true | _ => false end
  | _ => true
  end.

Definition is_zero (u : Decimal.uint) : bool :=
  match u with Decimal.D0 u => match u with Decimal.Nil => true | _ => false end | _ => false end.

(** A fraction or an exponent: what follows it, and whether it is there. *)
Definition parse_frac (bs : list byte) : option (bool * list byte) :=
  match bs with
  | c :: t =>
      if decide (c = x2e) then
        match digits t with (Decimal.Nil, _) => None | (_, r) => Some (true, r) end
      else Some (false, bs)
  | [] => Some (false, [])
  end.

Definition skip_sign (bs : list byte) : list byte :=
  match bs with
  | c :: t => if decide (c = x2b ∨ c = x2d) then t else bs
  | [] => []
  end.

Definition parse_exp (bs : list byte) : option (bool * list byte) :=
  match bs with
  | c :: t =>
      if decide (c = x65 ∨ c = x45) then
        match digits (skip_sign t) with (Decimal.Nil, _) => None | (_, r) => Some (true, r) end
      else Some (false, bs)
  | [] => Some (false, [])
  end.

Definition minus_sign (bs : list byte) : bool * list byte :=
  match bs with
  | c :: t => if decide (c = x2d) then (true, t) else (false, bs)
  | [] => (false, [])
  end.

(** A number. One with a fraction or an exponent keeps its text, and so does [-0]. *)
Definition parse_number (bs : list byte) : option (json * list byte) :=
  let '(neg, t) := minus_sign bs in
  let '(u, r) := digits t in
  if int_part u then
    '(frac, r) ← parse_frac r;
    '(exp, r) ← parse_exp r;
    if frac || exp || (neg && is_zero u)
    then Some (JFloat (String.string_of_list_byte (take (length bs - length r) bs)), r)
    else Some (JInt (if neg then - Z.of_N (N.of_uint u) else Z.of_N (N.of_uint u)), r)
  else None.

(** What may follow a value in a document. *)
Definition delimited (bs : list byte) : Prop :=
  match bs with [] => True | c :: _ => c ∈ [x2c; x5d; x7d; x0a] end.

Lemma delimited_in c t : bool_decide (c ∈ [x2c; x5d; x7d; x0a]) = true → delimited (c :: t).
Proof. apply bool_decide_eq_true. Qed.

(** The cases of a delimiter. *)
Ltac destruct_delimited H :=
  repeat (apply elem_of_cons in H as [->|H]); [..|by apply not_elem_of_nil in H].

Lemma digits_print u t : delimited t → digits (print_digits u ++ t) = (u, t).
Proof.
  intros Ht. induction u as [|u IH|u IH|u IH|u IH|u IH|u IH|u IH|u IH|u IH|u IH];
    cbn [print_digits app digits digit_of]; try (by rewrite IH).
  destruct t as [|c t]; [done|]. by destruct_delimited Ht.
Qed.

Lemma digits_app bs u r t : digits bs = (u, r) → delimited t → digits (bs ++ t) = (u, r ++ t).
Proof.
  revert u r. induction bs as [|c bs IH]; intros u r; simpl.
  - intros [= <- <-] Ht. simpl. by apply (digits_print Decimal.Nil).
  - destruct (digit_of c); [|by intros [= <- <-] _].
    destruct (digits bs) as [u' r'] eqn:Hd. intros [= <- <-] Ht. by rewrite (IH _ _ eq_refl Ht).
Qed.

(** After the digits nothing of a number follows a delimiter. *)
Lemma parse_frac_delimited t : delimited t → parse_frac t = Some (false, t).
Proof. destruct t as [|c t]; [done|]. intros Ht. by destruct_delimited Ht. Qed.

Lemma parse_exp_delimited t : delimited t → parse_exp t = Some (false, t).
Proof. destruct t as [|c t]; [done|]. intros Ht. by destruct_delimited Ht. Qed.

Lemma parse_frac_app bs b r t : parse_frac bs = Some (b, r) → delimited t → parse_frac (bs ++ t) = Some (b, r ++ t).
Proof.
  intros Hf Ht. destruct bs as [|c bs]; [injection Hf as <- <-; by apply parse_frac_delimited|].
  simpl in *. case_decide; [|by injection Hf as <- <-].
  destruct (digits bs) as [u r'] eqn:Hd. rewrite (digits_app _ _ _ _ Hd Ht).
  by destruct u; simplify_eq.
Qed.

Lemma skip_sign_app bs t : bs ≠ [] → skip_sign (bs ++ t) = skip_sign bs ++ t.
Proof. destruct bs as [|c bs]; [done|]. intros _. simpl. by case_decide. Qed.

Lemma parse_exp_app bs b r t : parse_exp bs = Some (b, r) → delimited t → parse_exp (bs ++ t) = Some (b, r ++ t).
Proof.
  intros Hf Ht. destruct bs as [|c bs]; [injection Hf as <- <-; by apply parse_exp_delimited|].
  simpl in *. case_decide; [|by injection Hf as <- <-].
  destruct (decide (bs = [])) as [->|Hne]; [done|]. rewrite skip_sign_app by done.
  destruct (digits (skip_sign bs)) as [u r'] eqn:Hd. rewrite (digits_app _ _ _ _ Hd Ht).
  by destruct u; simplify_eq.
Qed.

(** Reading a number stops at a delimiter. *)
Lemma parse_number_app bs j t :
  parse_number bs = Some (j, []) → delimited t → parse_number (bs ++ t) = Some (j, t).
Proof.
  unfold parse_number. intros Hp Ht.
  assert (bs ≠ []) as Hne by (intros ->; done).
  assert (minus_sign (bs ++ t) = ((minus_sign bs).1, (minus_sign bs).2 ++ t)) as Hs.
  { destruct bs as [|c bs]; [done|]. simpl. by case_decide. }
  rewrite Hs. destruct (minus_sign bs) as [neg bs1]. simpl.
  destruct (digits bs1) as [u r1] eqn:Hd. rewrite (digits_app _ _ _ _ Hd Ht).
  destruct (int_part u); [|done].
  apply bind_Some in Hp as ([frac r2] & Hf & Hp). rewrite (parse_frac_app _ _ _ _ Hf Ht). simpl.
  apply bind_Some in Hp as ([ex r3] & He & Hp). rewrite (parse_exp_app _ _ _ _ He Ht). simpl.
  destruct (frac || ex || _).
  - injection Hp as <- ->. simpl.
    replace (take (length (bs ++ t) - length t) (bs ++ t)) with (take (length bs - 0) bs); [done|].
    rewrite length_app, Nat.sub_0_r, firstn_all.
    replace (length bs + length t - length t)%nat with (length bs) by lia. by rewrite take_app_length.
  - by injection Hp as <- ->.
Qed.

Lemma to_uint_int_part n : int_part (N.to_uint n) = true.
Proof.
  assert (Decimal.unorm (N.to_uint n) = N.to_uint n) as <-.
  { rewrite <- DecimalN.Unsigned.to_of. by rewrite DecimalN.Unsigned.of_to. }
  unfold Decimal.unorm. by induction (N.to_uint n).
Qed.

Lemma to_uint_is_zero n : is_zero (N.to_uint n) = true → n = 0%N.
Proof.
  intros Hz. rewrite <- (DecimalN.Unsigned.of_to n).
  destruct (N.to_uint n) as [|u| | | | | | | | |]; try done. by destruct u.
Qed.

(** A printed integer is read back. *)
Lemma parse_print_int n t : delimited t → parse_number (print_int n ++ t) = Some (JInt n, t).
Proof.
  intros Ht. unfold parse_number, print_int.
  assert (∀ m, minus_sign (print_digits (N.to_uint m) ++ t) = (false, print_digits (N.to_uint m) ++ t)) as Hpos.
  { intros m. pose proof (to_uint_int_part m). by destruct (N.to_uint m). }
  assert (∀ m, 0 ≤ m → (let '(neg, t0) := minus_sign (print_digits (N.to_uint (Z.to_N m)) ++ t) in
    let '(u, r) := digits t0 in
    if int_part u then
      '(frac, r) ← parse_frac r;
      '(exp, r) ← parse_exp r;
      if frac || exp || (neg && is_zero u)
      then Some (JFloat (String.string_of_list_byte
        (take (length (print_digits (N.to_uint (Z.to_N m)) ++ t) - length r)
           (print_digits (N.to_uint (Z.to_N m)) ++ t))), r)
      else Some (JInt (if neg then - Z.of_N (N.of_uint u) else Z.of_N (N.of_uint u)), r)
    else None) = Some (JInt m, t)) as Hm.
  { intros m Hm. rewrite Hpos, digits_print, to_uint_int_part by done.
    rewrite parse_frac_delimited by done. simpl. rewrite parse_exp_delimited by done. simpl.
    by rewrite DecimalN.Unsigned.of_to, Z2N.id. }
  destruct n as [|p|p]; [by apply (Hm 0)|by apply (Hm (Zpos p))|].
  cbn [app minus_sign]. rewrite decide_True by done.
  rewrite digits_print, to_uint_int_part by done.
  rewrite parse_frac_delimited by done. cbn [mbind option_bind]. rewrite parse_exp_delimited by done.
  cbn [mbind option_bind].
  destruct (is_zero (N.to_uint (Npos p))) eqn:Hz; [by apply to_uint_is_zero in Hz|].
  cbn [orb andb]. by rewrite DecimalN.Unsigned.of_to.
Qed.

(** ** Documents *)

Fixpoint separated (l : list (list byte)) : list byte :=
  match l with
  | [] => []
  | x :: l => match l with [] => x | _ => x ++ x2c :: separated l end
  end.

Definition text (s : string) : list byte := String.list_byte_of_string s.

Fixpoint json_print (j : json) : list byte :=
  match j with
  | JNull => text "null"
  | JBool b => if b then text "true" else text "false"
  | JInt n => print_int n
  | JFloat s => text s
  | JString s => print_string s
  | JArray l => x5b :: separated (map json_print l) ++ [x5d]
  | JObject fields =>
      x7b :: separated (map (λ kv, print_string kv.1 ++ x3a :: json_print kv.2) fields) ++ [x7d]
  end.

Definition is_space (c : byte) : bool := bool_decide (c ∈ [x20; x09; x0d; x0a]).

Fixpoint skip_spaces (bs : list byte) : list byte :=
  match bs with c :: t => if is_space c then skip_spaces t else bs | [] => [] end.

Definition maxDepth : Z := 10000.

(** What is left after a keyword. *)
Definition keyword (w : list byte) (j : json) (bs : list byte) : option (json * list byte) :=
  if decide (take (length w) bs = w) then Some (j, drop (length w) bs) else None.

(** A value; the elements of an array, up to and with its closing bracket; the members
    of an object likewise. [depth] is how many arrays and objects are open. *)
Fixpoint parse_value (fuel : nat) (depth : Z) (bs : list byte) : option (json * list byte) :=
  match fuel with
  | O => None
  | S fuel =>
      match skip_spaces bs with
      | [] => None
      | c :: t =>
          if decide (c = x22) then
            '(s, r) ← scan_string 0 t; Some (JString (String.string_of_list_byte s), r)
          else if decide (c = x5b) then
            if maxDepth <=? depth then None
            else match skip_spaces t with
                 | [] => None
                 | e :: r =>
                     if decide (e = x5d) then Some (JArray [], r)
                     else '(l, r) ← parse_elements fuel (depth + 1) t; Some (JArray l, r)
                 end
          else if decide (c = x7b) then
            if maxDepth <=? depth then None
            else match skip_spaces t with
                 | [] => None
                 | e :: r =>
                     if decide (e = x7d) then Some (JObject [], r)
                     else '(l, r) ← parse_members fuel (depth + 1) t; Some (JObject l, r)
                 end
          else if decide (c = x6e) then keyword (text "ull") JNull t
          else if decide (c = x74) then keyword (text "rue") (JBool true) t
          else if decide (c = x66) then keyword (text "alse") (JBool false) t
          else parse_number (c :: t)
      end
  end
with parse_elements (fuel : nat) (depth : Z) (bs : list byte) : option (list json * list byte) :=
  match fuel with
  | O => None
  | S fuel =>
      '(v, r) ← parse_value fuel depth bs;
      match skip_spaces r with
      | [] => None
      | c :: r =>
          if decide (c = x2c) then '(l, r) ← parse_elements fuel depth r; Some (v :: l, r)
          else if decide (c = x5d) then Some ([v], r) else None
      end
  end
with parse_members (fuel : nat) (depth : Z) (bs : list byte) : option (list (string * json) * list byte) :=
  match fuel with
  | O => None
  | S fuel =>
      match skip_spaces bs with
      | [] => None
      | c :: t =>
          if decide (c = x22) then
            '(k, r) ← scan_string 0 t;
            match skip_spaces r with
            | [] => None
            | c :: r =>
                if decide (c = x3a) then
                  '(v, r) ← parse_value fuel depth r;
                  match skip_spaces r with
                  | [] => None
                  | c :: r =>
                      if decide (c = x2c) then
                        '(l, r) ← parse_members fuel depth r;
                        Some ((String.string_of_list_byte k, v) :: l, r)
                      else if decide (c = x7d)
                      then Some ([(String.string_of_list_byte k, v)], r) else None
                  end
                else None
            end
          else None
      end
  end.

(** Enough for every text of this length. *)
Definition enough (bs : list byte) : nat := 2 * length bs + 1.

(** One value, and nothing but spaces after it. *)
Definition parse_text (bs : list byte) : option json :=
  '(j, r) ← parse_value (enough bs) 0 bs;
  match skip_spaces r with [] => Some j | _ => None end.

Definition json_parse (s : string) : result json :=
  match parse_text (text s) with Some j => Ok j | None => Err JsonSyntaxError end.

(** *** Printed documents read back *)

(** Induction over documents. *)
Section json_induction.
Variable P : json → Prop.
Hypothesis Hnull : P JNull.
Hypothesis Hbool : ∀ b, P (JBool b).
Hypothesis Hint : ∀ n, P (JInt n).
Hypothesis Hfloat : ∀ s, P (JFloat s).
Hypothesis Hstring : ∀ s, P (JString s).
Hypothesis Harray : ∀ l, Forall P l → P (JArray l).
Hypothesis Hobject : ∀ fs, Forall (λ kv, P kv.2) fs → P (JObject fs).

Fixpoint json_nested_ind (j : json) : P j :=
  match j with
  | JNull => Hnull
  | JBool b => Hbool b
  | JInt n => Hint n
  | JFloat s => Hfloat s
  | JString s => Hstring s
  | JArray l => Harray l
      ((fix go l : Forall P l :=
          match l with [] => Forall_nil_2 _ | j :: l => Forall_cons_2 _ _ _ (json_nested_ind j) (go l) end) l)
  | JObject fs => Hobject fs
      ((fix go fs : Forall (λ kv, P kv.2) fs :=
          match fs with
          | [] => Forall_nil_2 _
          | kv :: fs => Forall_cons_2 _ _ _ (json_nested_ind kv.2) (go fs)
          end) fs)
  end.
End json_induction.

(** A document of the kind Go writes: strings in UTF-8, and float literals that are
    numbers with a fraction or an exponent. *)
Fixpoint printable (j : json) : bool :=
  match j with
  | JFloat s => bool_decide (parse_number (text s) = Some (JFloat s, []))
  | JString s => printable_string s
  | JArray l => forallb printable l
  | JObject fields => forallb (λ kv, printable_string kv.1 && printable kv.2) fields
  | _ => true
  end.

Definition deepest (l : list Z) : Z := foldr Z.max 0 l.

Fixpoint json_depth (j : json) : Z :=
  match j with
  | JArray l => 1 + deepest (map json_depth l)
  | JObject fields => 1 + deepest (map (λ kv, json_depth kv.2) fields)
  | _ => 0
  end.

Definition starts_value (c : byte) : Prop := is_space c = false ∧ c ≠ x5d ∧ c ≠ x7d.

Lemma skip_spaces_value c t : starts_value c → skip_spaces (c :: t) = c :: t.
Proof. intros (Hs & _). simpl. by rewrite Hs. Qed.

(** Which characters a number starts with. *)
Lemma parse_number_head bs r : parse_number bs = Some r → ∃ c t, bs = c :: t ∧
  starts_value c ∧ c ≠ x22 ∧ c ≠ x5b ∧ c ≠ x7b ∧ c ≠ x6e ∧ c ≠ x74 ∧ c ≠ x66.
Proof.
  unfold parse_number. destruct bs as [|c t]; [done|]. intros Hp. exists c, t. split; [done|].
  destruct (decide (c = x2d)) as [->|Hne]; [by repeat split|]. simpl in Hp.
  rewrite decide_False in Hp by done. simpl in Hp.
  destruct (digit_of c) eqn:Hd; [|done]. destruct c; try discriminate Hd; by repeat split.
Qed.

Lemma print_int_head n : ∃ c t, print_int n = c :: t ∧
  starts_value c ∧ c ≠ x22 ∧ c ≠ x5b ∧ c ≠ x7b ∧ c ≠ x6e ∧ c ≠ x74 ∧ c ≠ x66.
Proof.
  eapply parse_number_head. pose proof (parse_print_int n [] I) as Hp. by rewrite app_nil_r in Hp.
Qed.

Lemma json_print_head j : printable j = true → ∃ c t, json_print j = c :: t ∧ starts_value c.
Proof.
  destruct j as [|[]|n|s|s|l|fs]; intros Hp; try (eexists _, _; split; [reflexivity|by repeat split]).
  - destruct (print_int_head n) as (c & t & Heq & Hc & _). eauto.
  - simpl in Hp. apply bool_decide_eq_true, parse_number_head in Hp as (c & t & Heq & Hc & _).
    eexists _, _. split; [exact Heq|done].
Qed.

Definition reads (j : json) : Prop := ∀ fuel d t,
  printable j = true → 0 ≤ d → d + json_depth j ≤ maxDepth → delimited t →
  (2 * length (json_print j) ≤ fuel)%nat → parse_value fuel d (json_print j ++ t) = Some (j, t).

(** A number is read by the last branch. *)
Lemma parse_value_number fuel d bs t j :
  bs ≠ [] → parse_number bs = Some (j, []) → delimited t → (2 * length bs ≤ fuel)%nat →
  parse_value fuel d (bs ++ t) = Some (j, t).
Proof.
  intros Hne Hp Ht Hf. destruct (parse_number_head _ _ Hp) as (c & r & -> & Hc & N1 & N2 & N3 & N4 & N5 & N6).
  destruct fuel as [|fuel]; [simpl in Hf; lia|]. cbn [parse_value app].
  rewrite skip_spaces_value by done. rewrite !decide_False by done.
  by apply (parse_number_app (c :: r)).
Qed.

Lemma separated_cons x y l : separated (x :: y :: l) = x ++ x2c :: separated (y :: l).
Proof. done. Qed.

Lemma parse_elements_print l fuel d t :
  l ≠ [] → Forall reads l → forallb printable l = true → 0 ≤ d →
  d + deepest (map json_depth l) ≤ maxDepth →
  (2 * length (separated (map json_print l)) + 1 ≤ fuel)%nat →
  parse_elements fuel d (separated (map json_print l) ++ x5d :: t) = Some (l, t).
Proof.
  revert fuel. induction l as [|j l IH]; intros fuel Hne Hr Hp Hd Hdepth Hf; [done|].
  apply Forall_cons in Hr as [Hj Hr]. simpl in Hp. apply andb_true_iff in Hp as [Hpj Hpl].
  simpl in Hdepth. destruct fuel as [|fuel]; [lia|]. cbn [parse_elements].
  destruct l as [|k l].
  - simpl in *. rewrite (Hj fuel d (x5d :: t)); [|done|done|lia|by apply delimited_in|lia]. done.
  - change (map json_print (j :: k :: l)) with (json_print j :: json_print k :: map json_print l) in *.
    rewrite separated_cons, <- app_assoc in *. rewrite length_app in Hf. cbn [length] in Hf.
    cbn [app]. rewrite (Hj fuel d); [|done|done|lia|by apply delimited_in|lia]. cbn [mbind option_bind skip_spaces].
    change (is_space x2c) with false. cbv iota. rewrite decide_True by done.
    change (json_print k :: map json_print l) with (map json_print (k :: l)) in *.
    rewrite (IH fuel); [done|done|done|done|done|lia|lia].
Qed.

Lemma parse_members_print fs fuel d t :
  fs ≠ [] → Forall (λ kv, reads kv.2) fs →
  forallb (λ kv, printable_string kv.1 && printable kv.2) fs = true → 0 ≤ d →
  d + deepest (map (λ kv, json_depth kv.2) fs) ≤ maxDepth →
  (2 * length (separated (map (λ kv, print_string kv.1 ++ x3a :: json_print kv.2) fs)) + 1 ≤ fuel)%nat →
  parse_members fuel d (separated (map (λ kv, print_string kv.1 ++ x3a :: json_print kv.2) fs) ++ x7d :: t)
  = Some (fs, t).
Proof.
  set (member := λ kv : string * json, print_string kv.1 ++ x3a :: json_print kv.2).
  assert (∀ k v fuel rest, reads v → printable_string k = true → printable v = true → 0 ≤ d →
    d + json_depth v ≤ maxDepth → delimited rest → (2 * length (member (k, v)) ≤ fuel)%nat →
    ∃ r, member (k, v) ++ rest = x22 :: r ∧
      scan_string 0 r = Some (text k, x3a :: json_print v ++ rest) ∧
      parse_value fuel d (json_print v ++ rest) = Some (v, rest)) as Hmember.
  { intros k v fuel' rest Hv Hk Hpv Hd Hdv Hrest Hf. unfold member in *. cbn [fst snd] in *.
    rewrite <- app_assoc. destruct (scan_print_string k ((x3a :: json_print v) ++ rest) Hk) as [Heq Hscan].
    rewrite Heq. eexists. split; [reflexivity|]. split; [exact Hscan|].
    apply Hv; [done|done|lia|done|]. rewrite length_app in Hf. simpl in Hf. lia. }
  revert fuel. induction fs as [|[k v] fs IH]; intros fuel Hne Hr Hp Hd Hdepth Hf; [done|].
  apply Forall_cons in Hr as [Hv Hr]. simpl in Hp. apply andb_true_iff in Hp as [Hpv Hps].
  apply andb_true_iff in Hpv as [Hpk Hpv]. simpl in Hdepth. destruct fuel as [|fuel]; [lia|].
  cbn [parse_members]. destruct fs as [|kv fs].
  - change (separated (map member [(k, v)])) with (member (k, v)) in *.
    destruct (Hmember k v fuel (x7d :: t)) as (r & Heq & Hscan & Hval);
      [done|done|done|done|simpl in *; lia|by apply delimited_in|lia|].
    rewrite Heq. cbn [skip_spaces]. change (is_space x22) with false. cbv iota.
    rewrite decide_True by done. rewrite Hscan. cbn [mbind option_bind skip_spaces].
    change (is_space x3a) with false. cbv iota. rewrite decide_True by done.
    rewrite Hval. cbn [mbind option_bind skip_spaces]. change (is_space x7d) with false. cbv iota.
    rewrite decide_False, decide_True by done. unfold text. by rewrite String.string_of_list_byte_of_string.
  - change (map member ((k, v) :: kv :: fs)) with (member (k, v) :: member kv :: map member fs) in *.
    rewrite separated_cons in *. rewrite length_app in Hf. cbn [length] in Hf.
    rewrite <- app_assoc. cbn [app].
    destruct (Hmember k v fuel (x2c :: separated (member kv :: map member fs) ++ x7d :: t))
      as (r & Heq & Hscan & Hval); [done|done|done|done|simpl in *; lia|by apply delimited_in|lia|].
    rewrite Heq. cbn [skip_spaces]. change (is_space x22) with false. cbv iota.
    rewrite decide_True by done. rewrite Hscan. cbn [mbind option_bind skip_spaces].
    change (is_space x3a) with false. cbv iota. rewrite decide_True by done.
    rewrite Hval. cbn [mbind option_bind skip_spaces]. change (is_space x2c) with false. cbv iota.
    rewrite decide_True by done.
    change (member kv :: map member fs) with (map member (kv :: fs)).
    rewrite (IH fuel); [|done|done|done|done|simpl in *; lia|simpl in *; lia].
    unfold text. by rewrite String.string_of_list_byte_of_string.
Qed.

Lemma deepest_nonneg l : 0 ≤ deepest l.
Proof. induction l; simpl; lia. Qed.

(** What an array or an object holds does not start with its closing bracket. *)
Lemma separated_head x l c t : x = c :: t → ∃ t', separated (x :: l) = c :: t'.
Proof. intros ->. destruct l; simpl; eauto. Qed.

Lemma reads_array l : Forall reads l → reads (JArray l).
Proof.
  intros Hr fuel d t Hp Hd Hdepth Ht Hf. destruct fuel as [|fuel]; [simpl in Hf; lia|].
  change (json_print (JArray l)) with (x5b :: separated (map json_print l) ++ [x5d]) in *.
  change (json_depth (JArray l)) with (1 + deepest (map json_depth l)) in Hdepth.
  pose proof (deepest_nonneg (map json_depth l)). cbn [length] in Hf. rewrite length_app in Hf.
  cbn [length] in Hf. cbn [app parse_value]. rewrite <- app_assoc. cbn [app].
  rewrite skip_spaces_value by by repeat split. rewrite decide_False, decide_True by done.
  replace (maxDepth <=? d) with false by lia.
  destruct l as [|j l]; [reflexivity|].
  assert (∃ c r, separated (map json_print (j :: l)) = c :: r ∧ starts_value c) as (c & r & Hsep & Hc).
  { simpl in Hp. apply andb_true_iff in Hp as [Hp _].
    destruct (json_print_head j Hp) as (c & r & Heq & Hc).
    destruct (separated_head _ (map json_print l) _ _ Heq) as [r' Hr']. by exists c, r'. }
  pose proof (parse_elements_print (j :: l) fuel (d + 1) t) as Helems. rewrite Hsep in *.
  cbn [app] in *. rewrite skip_spaces_value by done. rewrite decide_False by apply Hc.
  by rewrite Helems by (done || lia).
Qed.

Lemma reads_object fs : Forall (λ kv, reads kv.2) fs → reads (JObject fs).
Proof.
  intros Hr fuel d t Hp Hd Hdepth Ht Hf. destruct fuel as [|fuel]; [simpl in Hf; lia|].
  change (json_print (JObject fs))
    with (x7b :: separated (map (λ kv, print_string kv.1 ++ x3a :: json_print kv.2) fs) ++ [x7d]) in *.
  change (json_depth (JObject fs)) with (1 + deepest (map (λ kv, json_depth kv.2) fs)) in Hdepth.
  pose proof (deepest_nonneg (map (λ kv, json_depth kv.2) fs)). cbn [length] in Hf.
  rewrite length_app in Hf. cbn [length] in Hf. cbn [app parse_value]. rewrite <- app_assoc. cbn [app].
  rewrite skip_spaces_value by by repeat split.
  rewrite decide_False, decide_False, decide_True by done.
  replace (maxDepth <=? d) with false by lia.
  destruct fs as [|[k v] fs]; [reflexivity|].
  pose proof (parse_members_print ((k, v) :: fs) fuel (d + 1) t) as Hmembers.
  destruct (separated_head (print_string k ++ x3a :: json_print v)
    (map (λ kv, print_string kv.1 ++ x3a :: json_print kv.2) fs) _ _ eq_refl) as [r Hsep].
  cbn [map fst snd] in *. rewrite Hsep in *. cbn [app] in *.
  rewrite skip_spaces_value by by repeat split. rewrite decide_False by done.
  by rewrite Hmembers by (done || lia).
Qed.

(** A keyword is read whatever follows. *)
Lemma keyword_app w j t : keyword w j (w ++ t) = Some (j, t).
Proof. unfold keyword. rewrite take_app_length, drop_app_length. by rewrite decide_True. Qed.

Lemma reads_scalar j : (∀ l, j ≠ JArray l) → (∀ fs, j ≠ JObject fs) → reads j.
Proof.
  intros Ha Ho fuel d t Hp Hd Hdepth Ht Hf. destruct j as [|b|n|s|s|l|fs].
  - destruct fuel as [|fuel]; [simpl in Hf; lia|]. exact (keyword_app (text "ull") JNull t).
  - destruct fuel as [|fuel]; [destruct b; simpl in Hf; lia|].
    destruct b; [exact (keyword_app (text "rue") (JBool true) t)|].
    exact (keyword_app (text "alse") (JBool false) t).
  - destruct (print_int_head n) as (c & r & Heq & _). apply parse_value_number; [|..|done|done].
    + simpl. by rewrite Heq.
    + simpl. pose proof (parse_print_int n [] I) as H. by rewrite app_nil_r in H.
  - simpl in Hp. apply bool_decide_eq_true in Hp. apply parse_value_number; [|done|done|done].
    simpl. intros Heq. by rewrite Heq in Hp.
  - destruct (scan_print_string s t Hp) as [Heq Hscan]. destruct fuel as [|fuel]; [simpl in Hf; lia|].
    cbn [json_print]. rewrite Heq. cbn [parse_value]. rewrite skip_spaces_value by by repeat split.
    rewrite decide_True by done. rewrite Hscan. simpl.
    by rewrite String.string_of_list_byte_of_string.
  - by destruct (Ha l).
  - by destruct (Ho fs).
Qed.

Lemma reads_all j : reads j.
Proof.
  induction j as [| | | | |l Hl|fs Hfs] using json_nested_ind; try (by apply reads_scalar);
    [by apply reads_array|by apply reads_object].
Qed.

Definition json_text (j : json) : string := String.string_of_list_byte (json_print j).

(** Any printable document, nested at most [maxDepth] deep, reads back from its text. *)
Lemma json_parse_print j :
  printable j = true → json_depth j ≤ maxDepth → json_parse (json_text j) = Ok j.
Proof.
  intros Hp Hd. unfold json_parse, json_text, parse_text, text.
  rewrite String.list_byte_of_string_of_list_byte.
  pose proof (reads_all j (enough (json_print j)) 0 [] Hp) as Hr. rewrite app_nil_r in Hr.
  rewrite Hr; [done|lia|lia|done|]. unfold enough. lia.
Qed.

(** The same for one with a newline after it, as an encoder of the package writes it. *)
Lemma json_parse_print_line j :
  printable j = true → json_depth j ≤ maxDepth →
  json_parse (String.string_of_list_byte (json_print j ++ [x0a])) = Ok j.
Proof.
  intros Hp Hd. unfold json_parse, parse_text, text.
  rewrite String.list_byte_of_string_of_list_byte.
  pose proof (reads_all j (enough (json_print j ++ [x0a])) 0 [x0a] Hp) as Hr.
  rewrite Hr; [done|lia|lia|by apply delimited_in|]. unfold enough. rewrite length_app. lia.
Qed.

(** *** The parser's fuel *)

(** Reading consumes the text, so a text of length n needs no more than 2n + 1 steps. *)
Lemma before_rest p r s t : before p r = Some (s, t) → ∃ s', r = Some (s', t).
Proof. destruct r as [[s' t']|]; simpl; [|done]. intros [= _ <-]. by exists s'. Qed.

Lemma scan_string_rest n bs s r : scan_string n bs = Some (s, r) → (length r < length bs)%nat.
Proof.
  revert n s. induction bs as [bs IH] using (induction_ltof1 _ length). unfold ltof in IH. intros n s.
  assert (∀ p m bs', (length bs' < length bs)%nat → before p (scan_string m bs') = Some (s, r) →
    (length r < length bs)%nat) as Hnext.
  { intros p m bs' Hlt [s' Hs]%before_rest. pose proof (IH bs' Hlt m s' Hs). lia. }
  destruct bs as [|c t]; [done|]. cbn [scan_string].
  destruct n as [|n]; [|apply Hnext; simpl; lia].
  case_decide; [intros [= _ <-]; simpl; lia|].
  case_decide; [|case_match; [done|]; case_match; apply Hnext; simpl; lia].
  destruct t as [|e t]; [done|]. case_decide.
  - destruct t as [|h1 [|h2 [|h3 [|h4 t]]]]; try done.
    destruct (hex4 h1 h2 h3 h4) as [u|]; [|done]. cbn [mbind option_bind].
    destruct (is_surrogate u); [|apply Hnext; simpl; lia].
    destruct t as [|s1 [|s2 [|l1 [|l2 [|l3 [|l4 t]]]]]]; try (apply Hnext; simpl; lia).
    destruct (if decide _ then _ else _); [|apply Hnext; simpl; lia].
    case_match; apply Hnext; simpl; lia.
  - destruct (simple_escape e); [|done]. apply Hnext; simpl; lia.
Qed.

Lemma skip_spaces_rest bs : (length (skip_spaces bs) ≤ length bs)%nat.
Proof. induction bs as [|c bs IH]; simpl; [lia|]. destruct (is_space c); simpl; lia. Qed.

Lemma digits_rest bs u r : digits bs = (u, r) →
  (length r ≤ length bs)%nat ∧ (u ≠ Decimal.Nil → (length r < length bs)%nat).
Proof.
  revert u r. induction bs as [|c bs IH]; intros u r; simpl; [by intros [= <- <-]|].
  destruct (digit_of c); [|intros [= <- <-]; simpl; split; [lia|done]].
  destruct (digits bs) as [u' r'] eqn:Hd. intros [= _ <-].
  destruct (IH _ _ eq_refl). split; intros; lia.
Qed.

Lemma parse_frac_rest bs b r : parse_frac bs = Some (b, r) → (length r ≤ length bs)%nat.
Proof.
  destruct bs as [|c bs]; simpl; [by intros [= _ <-]|].
  case_decide; [|by intros [= _ <-]]. destruct (digits bs) as [u r'] eqn:Hd.
  apply digits_rest in Hd as [Hd _]. destruct u; intros; simplify_eq; lia.
Qed.

Lemma parse_exp_rest bs b r : parse_exp bs = Some (b, r) → (length r ≤ length bs)%nat.
Proof.
  destruct bs as [|c bs]; simpl; [by intros [= _ <-]|].
  case_decide; [|by intros [= _ <-]]. destruct (digits (skip_sign bs)) as [u r'] eqn:Hd.
  apply digits_rest in Hd as [Hd _].
  assert (length (skip_sign bs) ≤ length bs)%nat by (destruct bs; simpl; [lia|case_decide; simpl; lia]).
  destruct u; intros; simplify_eq; lia.
Qed.

Lemma parse_number_rest bs j r : parse_number bs = Some (j, r) → (length r < length bs)%nat.
Proof.
  unfold parse_number. destruct (minus_sign bs) as [neg t] eqn:Hs.
  assert (length t ≤ length bs)%nat as Ht.
  { destruct bs as [|c bs]; simpl in Hs; [by simplify_eq|]. case_decide; simplify_eq; simpl; lia. }
  destruct (digits t) as [u r1] eqn:Hd. apply digits_rest in Hd as [_ Hd].
  destruct (int_part u) eqn:Hu; [|done].
  specialize (Hd ltac:(by intros ->)).
  intros ([frac r2] & Hf%parse_frac_rest & ([ex r3] & He%parse_exp_rest & Hp)%bind_Some)%bind_Some.
  case_match; simplify_eq; lia.
Qed.

Lemma parse_rest fuel :
  (∀ d bs j r, parse_value fuel d bs = Some (j, r) → (length r < length bs)%nat) ∧
  (∀ d bs l r, parse_elements fuel d bs = Some (l, r) → (length r < length bs)%nat) ∧
  (∀ d bs l r, parse_members fuel d bs = Some (l, r) → (length r < length bs)%nat).
Proof.
  induction fuel as [|fuel (IHv & IHe & IHm)]; [by split_and!|]. split_and!; intros d bs j r;
    [cbn [parse_value]|cbn [parse_elements]|cbn [parse_members]].
  - pose proof (skip_spaces_rest bs) as Hbs. destruct (skip_spaces bs) as [|c t]; [done|].
    cbn [length] in Hbs. pose proof (skip_spaces_rest t) as Ht.
    assert (∀ w j', keyword w j' t = Some (j, r) → (length r < length bs)%nat) as Hk.
    { intros w j'. unfold keyword. case_decide; [|done]. intros [= _ <-]. rewrite length_drop. lia. }
    case_decide.
    { intros ([s r'] & Hs%scan_string_rest & [= _ <-])%bind_Some. lia. }
    case_decide; [destruct (maxDepth <=? d); [done|]|].
    { destruct (skip_spaces t) as [|e r']; [done|]. simpl in Ht.
      case_decide; [intros [= _ <-]; lia|].
      intros ([l r''] & Hl%IHe & [= _ <-])%bind_Some. lia. }
    case_decide; [destruct (maxDepth <=? d); [done|]|].
    { destruct (skip_spaces t) as [|e r']; [done|]. simpl in Ht.
      case_decide; [intros [= _ <-]; lia|].
      intros ([l r''] & Hl%IHm & [= _ <-])%bind_Some. lia. }
    repeat (case_decide; [apply Hk|]). intros Hn%parse_number_rest. simpl in Hn. lia.
  - intros ([v r1] & Hv%IHv & Hr)%bind_Some. revert Hr.
    pose proof (skip_spaces_rest r1) as H1. destruct (skip_spaces r1) as [|c r2]; [done|].
    simpl in H1. case_decide.
    + intros ([l r3] & Hl%IHe & [= _ <-])%bind_Some. lia.
    + case_decide; [|done]. intros [= _ <-]. lia.
  - pose proof (skip_spaces_rest bs) as Hbs. destruct (skip_spaces bs) as [|c t]; [done|].
    simpl in Hbs. case_decide; [|done].
    intros ([k r1] & Hs%scan_string_rest & Hr)%bind_Some. revert Hr.
    pose proof (skip_spaces_rest r1) as H1. destruct (skip_spaces r1) as [|c1 r2]; [done|].
    simpl in H1. case_decide; [|done].
    intros ([v r3] & Hv%IHv & Hr)%bind_Some. revert Hr.
    pose proof (skip_spaces_rest r3) as H3. destruct (skip_spaces r3) as [|c2 r4]; [done|].
    simpl in H3. case_decide.
    + intros ([l r5] & Hl%IHm & [= _ <-])%bind_Some. lia.
    + case_decide; [|done]. intros [= _ <-]. lia.
Qed.

(** Two amounts of fuel that are both enough give the same result. *)
Lemma parse_fuel n :
  (∀ d bs f1 f2, (length bs ≤ n → 2 * length bs + 1 ≤ f1 → 2 * length bs + 1 ≤ f2 →
    parse_value f1 d bs = parse_value f2 d bs)%nat) ∧
  (∀ d bs f1 f2, (length bs ≤ n → 2 * length bs + 2 ≤ f1 → 2 * length bs + 2 ≤ f2 →
    parse_elements f1 d bs = parse_elements f2 d bs)%nat) ∧
  (∀ d bs f1 f2, (length bs ≤ n → 2 * length bs + 2 ≤ f1 → 2 * length bs + 2 ≤ f2 →
    parse_members f1 d bs = parse_members f2 d bs)%nat).
Proof.
  induction n as [n IH] using (well_founded_induction lt_wf).
  assert (∀ d bs f1 f2, (length bs ≤ n → 2 * length bs + 1 ≤ f1 → 2 * length bs + 1 ≤ f2 →
    parse_value f1 d bs = parse_value f2 d bs)%nat) as Hvalue.
  { intros d bs [|f1] [|f2] Hn H1 H2; try lia. cbn [parse_value].
    pose proof (skip_spaces_rest bs) as Hbs. destruct (skip_spaces bs) as [|c t]; [done|]. simpl in Hbs.
    destruct n as [|n]; [lia|]. destruct (IH n ltac:(lia)) as (_ & IHe & IHm).
    rewrite (IHe (d + 1) t f1 f2), (IHm (d + 1) t f1 f2) by lia. done. }
  split_and!; [done| |].
  - intros d bs [|f1] [|f2] Hn H1 H2; try lia. cbn [parse_elements].
    rewrite (Hvalue d bs f1 f2) by lia. destruct (parse_value f2 d bs) as [[v r]|] eqn:Hv; [|done].
    apply parse_rest in Hv. cbn [mbind option_bind].
    pose proof (skip_spaces_rest r) as Hr. destruct (skip_spaces r) as [|c t]; [done|]. simpl in Hr.
    destruct (IH (length t) ltac:(lia)) as (_ & IHe & _). by rewrite (IHe d t f1 f2) by lia.
  - intros d bs [|f1] [|f2] Hn H1 H2; try lia. cbn [parse_members].
    pose proof (skip_spaces_rest bs) as Hbs. destruct (skip_spaces bs) as [|c t]; [done|]. simpl in Hbs.
    case_decide; [|done]. destruct (scan_string 0 t) as [[k r1]|] eqn:Hs; [|done].
    apply scan_string_rest in Hs. cbn [mbind option_bind].
    pose proof (skip_spaces_rest r1) as H1'. destruct (skip_spaces r1) as [|c1 r2]; [done|]. simpl in H1'.
    case_decide; [|done]. rewrite (Hvalue d r2 f1 f2) by lia.
    destruct (parse_value f2 d r2) as [[v r3]|] eqn:Hv; [|done]. apply parse_rest in Hv. cbn [mbind option_bind].
    pose proof (skip_spaces_rest r3) as H3. destruct (skip_spaces r3) as [|c2 r4]; [done|]. simpl in H3.
    destruct (IH (length r4) ltac:(lia)) as (_ & _ & IHm). by rewrite (IHm d r4 f1 f2) by lia.
Qed.

(** So a text that is refused is refused by every parser with more fuel. *)
Lemma parse_value_enough fuel d bs :
  (enough bs ≤ fuel)%nat → parse_value fuel d bs = parse_value (enough bs) d bs.
Proof. intros Hf. by apply (parse_fuel (length bs)). Qed.

(** The value of a key of an object. *)
Definition json_get (key : string) (j : json) : option json :=
  match j with
  | JObject fields => snd <$> (list_find (λ kv, kv.1 = key) fields ≫= λ p, Some p.2)
  | _ => None
  end.

(** *** Documents that read back *)

(** A document that can be printed and is at most [n] deep. *)
Definition writable (n : Z) (j : json) : Prop := printable j = true ∧ json_depth j ≤ n.

Lemma writable_le m n j : writable m j → m ≤ n → writable n j.
Proof. intros [Hp Hd] Hn. split; [done|lia]. Qed.

Lemma writable_int n : writable 0 (JInt n).
Proof. by split. Qed.

Lemma writable_string s : printable_string s = true → writable 0 (JString s).
Proof. by split. Qed.

Lemma deepest_le l n : 0 ≤ n → Forall (λ d, d ≤ n) l → deepest l ≤ n.
Proof. intros Hn. induction 1; simpl; lia. Qed.

Lemma writable_array n l : 0 ≤ n → Forall (writable n) l → writable (1 + n) (JArray l).
Proof.
  intros Hn Hl. split.
  - simpl. apply forallb_forall. intros j Hj%list_elem_of_In.
    rewrite Forall_forall in Hl. by apply Hl.
  - simpl. enough (deepest (map json_depth l) ≤ n) by lia. apply deepest_le; [done|].
    apply Forall_fmap. eapply Forall_impl; [exact Hl|]. by intros j [_ Hd].
Qed.

Lemma writable_object n fs :
  0 ≤ n → Forall (λ kv, printable_string kv.1 = true ∧ writable n kv.2) fs → writable (1 + n) (JObject fs).
Proof.
  intros Hn Hl. split.
  - simpl. apply forallb_forall. intros kv Hj%list_elem_of_In. rewrite Forall_forall in Hl.
    destruct (Hl kv Hj) as [-> [-> _]]. done.
  - simpl. enough (deepest (map (λ kv, json_depth kv.2) fs) ≤ n) by lia. apply deepest_le; [done|].
    apply Forall_fmap. eapply Forall_impl; [exact Hl|]. by intros kv [_ [_ Hd]].
Qed.

Lemma json_read_back j : writable maxDepth j → json_parse (json_text j) = Ok j.
Proof. intros [Hp Hd]. by apply json_parse_print. Qed.

(** Printing is injective on them. *)
Lemma json_text_inj j k :
  writable maxDepth j → writable maxDepth k → json_text j = json_text k → j = k.
Proof. intros Hj%json_read_back Hk%json_read_back Heq. rewrite Heq in Hj. congruence. Qed.

(** ASCII text is UTF-8; so is what [hex.EncodeToString] returns. *)
Lemma ascii_printable s :
  Forall (λ b, in_range 0 0x7F b = true) (String.list_byte_of_string s) → printable_string s = true.
Proof.
  unfold printable_string. induction 1 as [|b bs Hb _ IH]; [done|].
  cbn [utf8_valid]. unfold rune_width. by rewrite Hb.
Qed.

Lemma hex_printable bs : printable_string (hex.EncodeToString bs) = true.
Proof.
  apply ascii_printable. unfold hex.EncodeToString. rewrite String.list_byte_of_string_of_list_byte.
  induction bs as [|b bs IH]; [constructor|].
  change (hex.Encode (b :: bs)) with (hex.encode_byte b ++ hex.Encode bs).
  apply Forall_app. split; [|exact IH]. by destruct b; repeat constructor.
Qed.

Lemma writable_bytes bs : writable 1 (JArray ((λ v, JInt (byte_val v)) <$> bs)).
Proof. apply (writable_array 0); [done|]. apply Forall_fmap, Forall_true. intros b. apply writable_int. Qed.

Lemma writable_Bytes b : writable 1 (Bytes_MarshalJSON b).
Proof. destruct b as [bs|]; [apply writable_bytes|by split]. Qed.

(** ** Property *)

(** C40: [Bytes] read back from the text they are written as, nil as the empty slice, and
    two byte slices with the same text are equal. [UnmarshalJSON]
    accepts exactly null, read as empty, and the arrays whose elements are integers
    from 0 to 255, [-0] or null, read as 0; when every element is an integer but some are out
    of range, the error names the first of those and its index. *)
Theorem Bytes_json :
  (∀ b, (doc ← json_parse (json_text (Bytes_MarshalJSON b)); Bytes_UnmarshalJSON doc) =
        Ok (Some (default [] b))) ∧
  (∀ b c, json_text (Bytes_MarshalJSON b) = json_text (Bytes_MarshalJSON c) → default [] b = default [] c) ∧
  (∀ j r, Bytes_UnmarshalJSON j = Ok r ↔
     (j = JNull ∧ r = Some []) ∨
     ∃ l out, j = JArray l ∧ r = Some out ∧ Forall2 (λ e b, json_int_byte e = Some b) l out) ∧
  (∀ pre v rest, Forall (λ n, - 2 ^ 63 ≤ n < 2 ^ 63) (pre ++ v :: rest) →
     Forall (λ n, 0 ≤ n ≤ 255) pre → ¬ 0 ≤ v ≤ 255 →
     Bytes_UnmarshalJSON (JArray (JInt <$> pre ++ v :: rest)) = Err (rangeError (length pre) v)).
Proof.
  assert (∀ nums, Forall (λ n, - 2 ^ 63 ≤ n < 2 ^ 63) nums →
    mapM decode_go_int (JInt <$> nums) = Ok nums) as Hints.
  { intros nums Hn. apply mapM_Ok_Forall2. apply Forall2_fmap_l, Forall_Forall2_diag.
    eapply Forall_impl; [exact Hn|]. intros n Hr. unfold decode_go_int. simpl in *.
    by replace ((- 2 ^ 63 <=? n) && (n <? 2 ^ 63)) with true by lia. }
  assert (∀ b, (doc ← json_parse (json_text (Bytes_MarshalJSON b)); Bytes_UnmarshalJSON doc) =
    Ok (Some (default [] b))) as Hread.
  { intros b. rewrite json_read_back by by eapply writable_le; [apply writable_Bytes|].
    cbn [mbind result_bind]. revert b.
    intros [bs|]; [|done]. unfold Bytes_UnmarshalJSON, Bytes_MarshalJSON.
    cbn [decode_ints default from_option id]. change ((λ v, JInt (byte_val v)) <$> bs) with (JInt ∘ byte_val <$> bs).
    rewrite list_fmap_compose, Hints; [cbn [mbind result_bind]; by rewrite narrow_bytes|].
    apply Forall_fmap, Forall_true. intros b. simpl. pose proof (byte_val_range b). lia. }
  split_ands; [exact Hread| | |].
  - intros b c Heq. pose proof (Hread b) as Hb. rewrite Heq, Hread in Hb. congruence.
  - intros j r. unfold Bytes_UnmarshalJSON. rewrite bind_Ok. split.
    + intros (nums & Hn & Hr). apply bind_Ok in Hr as (out & Ho & [= <-]).
      destruct j; try done; simpl in Hn.
      * injection Hn as <-. injection Ho as <-. auto.
      * right. exists l, out. split_ands; [done|done|]. apply Forall2_ints_bytes. exists nums.
        apply mapM_Ok_Forall2 in Hn. apply narrow_Ok in Ho. done.
    + intros [[-> ->]|(l & out & -> & -> & Hl)]; [by exists []|].
      apply Forall2_ints_bytes in Hl as (nums & Hn & Ho). exists nums.
      split; [by apply mapM_Ok_Forall2|]. apply (narrow_Ok 0) in Ho. by rewrite Ho.
  - intros pre v rest Hall Hpre Hv. unfold Bytes_UnmarshalJSON. simpl decode_ints.
    rewrite Hints by done. cbn [mbind result_bind]. by rewrite narrow_Err.
Qed.

(** ** The tests of src/types_test.go *)

Example bytes_text : json_text (Bytes_MarshalJSON (Some [x01; x02; xff])) = "[1,2,255]".
Proof. reflexivity. Qed.
Example nil_bytes_text : json_text (Bytes_MarshalJSON None) = "[]".
Proof. reflexivity. Qed.
Example bytes_read :
  (doc ← json_parse "[3,4,5]"; Bytes_UnmarshalJSON doc) = Ok (Some [x03; x04; x05]).
Proof. vm_compute. reflexivity. Qed.
Example bytes_out_of_range :
  (doc ← json_parse "[300]"; Bytes_UnmarshalJSON doc) = Err (rangeError 0 300).
Proof. vm_compute. reflexivity. Qed.

(** Spaces, escapes, surrogate pairs, and texts that are refused. *)
Definition quoted (s : string) : string :=
  String.string_of_list_byte ([x22] ++ String.list_byte_of_string s ++ [x22]).
Example spaces_text : json_parse " [ 1 , true,null ] " = Ok (JArray [JInt 1; JBool true; JNull]).
Proof. vm_compute. reflexivity. Qed.
Example number_texts :
  json_parse "[-0,1e3,0.5,-12]" = Ok (JArray [JFloat "-0"; JFloat "1e3"; JFloat "0.5"; JInt (-12)]).
Proof. vm_compute. reflexivity. Qed.
Example surrogate_text :
  json_parse (quoted "\ud83d\ude00\ud83dx") =
  Ok (JString (String.string_of_list_byte [xf0; x9f; x98; x80; xef; xbf; xbd; x78])).
Proof. vm_compute. reflexivity. Qed.
Example refused_texts :
  Forall (λ s, json_parse s = Err JsonSyntaxError) [""; "01"; "[1,]"; "nul"; "1 2"; "[1"; "+1"; "1."; ".5"].
Proof. repeat constructor. Qed.
