(* ===== verification/WebSocket.v ===== *)
(** * The WebSocket client: src/websocket.go.

    The goroutines of the client as a transition system. Shared state is the fields of
    [WSClient] and the channels it hands out; each caller of [Subscribe] or
    [Unsubscribe] is a thread with a program counter, and so is [readLoop]. One step is
    one critical section of [c.mu], one write under [c.writeMu] (which guards nothing
    else), one channel operation, or one [sync.Once]; every interleaving of steps is an
    execution. gorilla/websocket is the environment: it chooses the messages and errors
    that reads return and whether a write fails.

    A slice of subscriptions is a list: every reader of one works on a copy made under
    [c.mu], so the in-place [append] of [removeSubscription] is not observable. *)
From S2P Require Import Prelude GoLib Wire Json.

(** ** Data *)

Definition EventTopic : Type := string.

Definition TopicBlock : EventTopic := "block".
Definition TopicTransaction : EventTopic := "transaction".
Definition TopicAccountUpdate : EventTopic := "account_update".
Definition TopicRolledbackTransactions : EventTopic := "rolledback_transactions".
Definition TopicReappliedTransactions : EventTopic := "reapplied_transactions".
Definition TopicDKG : EventTopic := "dkg".

(** A value of type [any], as what encoding/json makes of it: its document, or the error
    of a value it cannot write. *)
Definition any : Type := result json.

(** A Go map: nil, or its entries. *)
Definition EventFilter : Type := option (gmap string any).

Record Event := MkEvent { ev_Topic : EventTopic; ev_Data : json }.

#[global] Instance Event_eq_dec : EqDecision Event.
Proof. solve_decision. Defined.

(** The two values the code gives to [wsRequest.Params]. *)
Inductive wsParams :=
| wsSubscribeParams (Topic : EventTopic) (Filter : EventFilter)
| wsUnsubscribeParams (Topic : EventTopic) (SubscriptionID : string).

Record wsRequest := MkWsRequest { Method : string; wsReqParams : wsParams }.

(** The JSON form of a request. The keys of a map are written in the order of their
    bytes. *)
Definition key_le {A} (a b : string * A) : Prop := is_true (String.leb a.1 b.1).

#[global] Instance key_le_dec {A} : RelDecision (@key_le A).
Proof. intros a b. unfold key_le, is_true. apply _. Defined.

Definition encode_entry (kv : string * any) : result (string * json) := v ← kv.2; Ok (kv.1, v).

Definition EventFilter_encode (f : EventFilter) : result json :=
  match f with
  | None => Ok JNull
  | Some m => kvs ← mapM encode_entry (merge_sort key_le (map_to_list m)); Ok (JObject kvs)
  end.

Definition wsParams_encode (p : wsParams) : result json :=
  match p with
  | wsSubscribeParams topic filter =>
      f ← EventFilter_encode filter; Ok (JObject [("topic", JString topic); ("filter", f)])
  | wsUnsubscribeParams topic id =>
      Ok (JObject [("topic", JString topic); ("subscription_id", JString id)])
  end.

Definition wsRequest_encode (r : wsRequest) : result json :=
  p ← wsParams_encode (wsReqParams r); Ok (JObject [("method", JString (Method r)); ("params", p)]).

Record wsResponse := MkWsResponse {
  wr_Status : string; wr_SubscriptionID : string; wr_Message : string; wr_Error : string }.

Record wsMessage := MkWsMessage {
  wm_Topic : EventTopic; wm_Data : option json; wm_Status : string;
  wm_SubscriptionID : string; wm_Message : string; wm_Error : string }.

Definition subEventBuffer : nat := 256.

(** A [*Subscription] is a number; its fields are in the heap. The channel [events] is
    its queue and whether it is closed. [sub_returned] records that [Subscribe] has
    returned it, so that only then can a caller use it. *)
Record Subscription := MkSubscription {
  sub_id : string;
  sub_topic : EventTopic;
  sub_events : list Event;
  sub_eventsClosed : bool;
  sub_once : bool;
  sub_returned : bool;
}.

Definition Subscription_ID (s : Subscription) : string := sub_id s.
Definition Subscription_Topic (s : Subscription) : EventTopic := sub_topic s.
(** The channel: what is queued, and whether it is closed. *)
Definition Subscription_Events (s : Subscription) : list Event * bool := (sub_events s, sub_eventsClosed s).

(** A response channel, of capacity 1. *)
Record respChan := MkRespChan { rc_queue : list wsResponse; rc_closed : bool }.

(** The fields of [WSClient] that [mu] guards. *)
Record WSClient := MkWSClient {
  c_pending : list nat;
  c_subs : gmap EventTopic (list nat);
  c_closed : bool;
  c_readErr : option error;
}.

(** ** Program counters *)

(** Who called [roundTrip]. *)
Inductive caller := InSubscribe (sub : nat) | InUnsubscribe (sub : nat).

Inductive outcome :=
| RetSub (sub : nat)
| RetNil
| RetErr (e : error).

Inductive thread :=
| TSubscribe (topic : EventTopic) (filter : EventFilter)  (* at the lock of Subscribe *)
| TRoundTrip (k : caller) (req : wsRequest)               (* at the lock of roundTrip *)
| TWrite (k : caller) (req : wsRequest) (ch : nat)        (* enqueued, at writeMu *)
| TSelect (k : caller) (ch : nat)                         (* at the select *)
| TReturned (k : caller) (r : result wsResponse)          (* roundTrip has returned *)
| TRemove (sub : nat) (ret : outcome)                     (* at the lock of removeSubscription *)
| TCloseEvents (sub : nat) (ret : outcome)                (* at its sync.Once *)
| TExit (ret : outcome).

Inductive loop :=
| LRead                                                   (* at ReadMessage *)
| LDispatch (ev : Event) (todo : list nat)                (* in the fan-out *)
| LDeliver (ch : nat) (resp : wsResponse)                 (* at the send to respCh *)
| LTearDown (err : error)                                 (* at the last lock *)
| LCloseDone (pending allSubs : list nat)
| LClosePending (pending allSubs : list nat)
| LCloseSubs (allSubs : list nat)
| LCloseConn
| LExit.

(** [s_wire], [s_enqueued] and [s_answered] are histories: the response channels of the
    requests written to the connection, of those appended to [pending], and of those
    taken from it by [readLoop], each in the order of these steps. *)
Record state := MkState {
  s_client : WSClient;
  s_heap : gmap nat Subscription;
  s_chans : gmap nat respChan;
  s_done : bool;
  s_open : bool;
  s_threads : gmap nat thread;
  s_loop : loop;
  s_panic : option string;
  s_wire : list (nat * wsRequest);
  s_enqueued : list nat;
  s_answered : list nat;
}.

Definition set_client (c : WSClient) (s : state) : state :=
  MkState c (s_heap s) (s_chans s) (s_done s) (s_open s) (s_threads s) (s_loop s) (s_panic s)
    (s_wire s) (s_enqueued s) (s_answered s).
Definition set_heap (h : gmap nat Subscription) (s : state) : state :=
  MkState (s_client s) h (s_chans s) (s_done s) (s_open s) (s_threads s) (s_loop s) (s_panic s)
    (s_wire s) (s_enqueued s) (s_answered s).
Definition set_chans (h : gmap nat respChan) (s : state) : state :=
  MkState (s_client s) (s_heap s) h (s_done s) (s_open s) (s_threads s) (s_loop s) (s_panic s)
    (s_wire s) (s_enqueued s) (s_answered s).
Definition set_done (d : bool) (s : state) : state :=
  MkState (s_client s) (s_heap s) (s_chans s) d (s_open s) (s_threads s) (s_loop s) (s_panic s)
    (s_wire s) (s_enqueued s) (s_answered s).
Definition set_open (o : bool) (s : state) : state :=
  MkState (s_client s) (s_heap s) (s_chans s) (s_done s) o (s_threads s) (s_loop s) (s_panic s)
    (s_wire s) (s_enqueued s) (s_answered s).
Definition set_thread (tid : nat) (t : thread) (s : state) : state :=
  MkState (s_client s) (s_heap s) (s_chans s) (s_done s) (s_open s) (<[tid := t]> (s_threads s))
    (s_loop s) (s_panic s) (s_wire s) (s_enqueued s) (s_answered s).
Definition set_loop (l : loop) (s : state) : state :=
  MkState (s_client s) (s_heap s) (s_chans s) (s_done s) (s_open s) (s_threads s) l (s_panic s)
    (s_wire s) (s_enqueued s) (s_answered s).
Definition set_panic (msg : string) (s : state) : state :=
  MkState (s_client s) (s_heap s) (s_chans s) (s_done s) (s_open s) (s_threads s) (s_loop s)
    (Some msg) (s_wire s) (s_enqueued s) (s_answered s).
Definition log_wire (ch : nat) (req : wsRequest) (s : state) : state :=
  MkState (s_client s) (s_heap s) (s_chans s) (s_done s) (s_open s) (s_threads s) (s_loop s)
    (s_panic s) (s_wire s ++ [(ch, req)]) (s_enqueued s) (s_answered s).
Definition log_enqueued (ch : nat) (s : state) : state :=
  MkState (s_client s) (s_heap s) (s_chans s) (s_done s) (s_open s) (s_threads s) (s_loop s)
    (s_panic s) (s_wire s) (s_enqueued s ++ [ch]) (s_answered s).
Definition log_answered (ch : nat) (s : state) : state :=
  MkState (s_client s) (s_heap s) (s_chans s) (s_done s) (s_open s) (s_threads s) (s_loop s)
    (s_panic s) (s_wire s) (s_enqueued s) (s_answered s ++ [ch]).

Definition set_pending (l : list nat) (c : WSClient) : WSClient :=
  MkWSClient l (c_subs c) (c_closed c) (c_readErr c).
Definition set_subs (m : gmap EventTopic (list nat)) (c : WSClient) : WSClient :=
  MkWSClient (c_pending c) m (c_closed c) (c_readErr c).

Definition set_events (l : list Event) (s : Subscription) : Subscription :=
  MkSubscription (sub_id s) (sub_topic s) l (sub_eventsClosed s) (sub_once s) (sub_returned s).
Definition close_events (s : Subscription) : Subscription :=
  MkSubscription (sub_id s) (sub_topic s) (sub_events s) true true (sub_returned s).
Definition set_returned (id : string) (s : Subscription) : Subscription :=
  MkSubscription id (sub_topic s) (sub_events s) (sub_eventsClosed s) (sub_once s) true.

(** ** Steps *)

Definition sendOnClosed : string := "send on closed channel".
Definition closeOfClosed : string := "close of closed channel".

Definition closeReason (c : WSClient) : error :=
  match c_readErr c with
  | Some e => ErrorWrap "websocket connection closed" e
  | None => ErrorString "websocket connection closed"
  end.

(** [sub.once.Do(func() { close(sub.events) })] *)
Definition onceClose (sub : nat) (s : state) : option state :=
  S ← s_heap s !! sub;
  if sub_once S then Some s
  else if sub_eventsClosed S then Some (set_panic closeOfClosed s)
  else Some (set_heap (<[sub := close_events S]> (s_heap s)) s).

(** The loop of [removeSubscription]: the list without the first [sub], if there is one. *)
Fixpoint removeFirst (sub : nat) (subs : list nat) : option (list nat) :=
  match subs with
  | [] => None
  | s :: subs => if decide (s = sub) then Some subs else cons s <$> removeFirst sub subs
  end.

(** [c.subs[sub.topic]] without [sub], in the critical section of [removeSubscription]. *)
Definition unregister (topic : EventTopic) (sub : nat) (m : gmap EventTopic (list nat)) :
    gmap EventTopic (list nat) :=
  match removeFirst sub (default [] (m !! topic)) with
  | Some l => <[topic := l]> m
  | None => m
  end.

(** [Subscribe], up to its call of [roundTrip]. *)
Definition startSubscribe (tid : nat) (topic : EventTopic) (filter : EventFilter) (s : state) :
    state :=
  let filter := Some (default ∅ filter) in
  let c := s_client s in
  if c_closed c then set_thread tid (TExit (RetErr (closeReason c))) s
  else
    let sub := fresh (dom (s_heap s)) in
    let s := set_heap (<[sub := MkSubscription "" topic [] false false false]> (s_heap s)) s in
    let s := set_client (set_subs (<[topic := default [] (c_subs c !! topic) ++ [sub]]> (c_subs c)) c) s in
    set_thread tid (TRoundTrip (InSubscribe sub)
      (MkWsRequest "subscribe" (wsSubscribeParams topic filter))) s.

(** The first critical section of [roundTrip]. *)
Definition enqueue (tid : nat) (k : caller) (req : wsRequest) (s : state) : state :=
  let c := s_client s in
  if c_closed c then set_thread tid (TReturned k (Err (closeReason c))) s
  else
    let ch := fresh (dom (s_chans s)) in
    let s := set_chans (<[ch := MkRespChan [] false]> (s_chans s)) s in
    let s := set_client (set_pending (c_pending c ++ [ch]) c) s in
    set_thread tid (TWrite k req ch) (log_enqueued ch s).

(** What the environment decides for a thread: let it go on, fail its write, cancel its
    context, or (when it is enabled) take the branch of [c.done]. *)
Inductive choice := ChGo | ChWriteErr (e : error) | ChCtx (e : error) | ChDone.

(** The write under [writeMu]: it fails when the connection or the encoder does. *)
Definition encodable (req : wsRequest) : bool :=
  match wsRequest_encode req with Ok _ => true | Err _ => false end.

Definition write (tid : nat) (k : caller) (req : wsRequest) (ch : nat) (c : choice) (s : state) :
    option state :=
  match c with
  | ChWriteErr e =>
      Some (set_thread tid (TReturned k (Err (ErrorWrap ("sending " +:+ Method req +:+ " request") e))) s)
  | ChGo =>
      if s_open s && encodable req
      then Some (set_thread tid (TSelect k ch) (log_wire ch req s)) else None
  | _ => None
  end.

(** The [select] of [roundTrip]. *)
Definition select (tid : nat) (k : caller) (ch : nat) (c : choice) (s : state) : option state :=
  match c with
  | ChGo =>
      rc ← s_chans s !! ch;
      match rc_queue rc with
      | r :: q =>
          Some (set_thread tid (TReturned k (Ok r))
            (set_chans (<[ch := MkRespChan q (rc_closed rc)]> (s_chans s)) s))
      | [] =>
          if rc_closed rc then Some (set_thread tid (TReturned k (Err (closeReason (s_client s)))) s)
          else None
      end
  | ChCtx e => Some (set_thread tid (TReturned k (Err e)) s)
  | ChDone =>
      if s_done s then Some (set_thread tid (TReturned k (Err (closeReason (s_client s)))) s) else None
  | ChWriteErr _ => None
  end.

(** What [Subscribe] and [Unsubscribe] do with the result of [roundTrip]. *)
Definition afterRoundTrip (tid : nat) (k : caller) (r : result wsResponse) (s : state) : option state :=
  match k with
  | InSubscribe sub =>
      match r with
      | Err e => Some (set_thread tid (TRemove sub (RetErr e)) s)
      | Ok resp =>
          if decide (wr_Status resp = "Subscribed") then
            S ← s_heap s !! sub;
            Some (set_thread tid (TExit (RetSub sub))
              (set_heap (<[sub := set_returned (wr_SubscriptionID resp) S]> (s_heap s)) s))
          else Some (set_thread tid
            (TRemove sub (RetErr (ErrorString ("subscribe failed: " +:+ wr_Error resp)))) s)
      end
  | InUnsubscribe sub =>
      let ret := match r with
        | Err e => RetErr e
        | Ok resp =>
            if decide (wr_Status resp = "Unsubscribed") then RetNil
            else RetErr (ErrorString ("unsubscribe failed: " +:+ wr_Message resp +:+ wr_Error resp))
        end in
      Some (set_thread tid (TRemove sub ret) s)
  end.

(** One step of a caller. *)
Definition threadStep (tid : nat) (c : choice) (s : state) : option state :=
  t ← s_threads s !! tid;
  match t with
  | TSubscribe topic filter => Some (startSubscribe tid topic filter s)
  | TRoundTrip k req => Some (enqueue tid k req s)
  | TWrite k req ch => write tid k req ch c s
  | TSelect k ch => select tid k ch c s
  | TReturned k r => afterRoundTrip tid k r s
  | TRemove sub ret =>
      S ← s_heap s !! sub;
      let c := s_client s in
      Some (set_thread tid (TCloseEvents sub ret)
        (set_client (set_subs (unregister (sub_topic S) sub (c_subs c)) c) s))
  | TCloseEvents sub ret => set_thread tid (TExit ret) <$> onceClose sub s
  | TExit _ => None
  end.

(** [Close]: closes the connection, and nothing else; [readLoop] does the rest. *)
Definition Close (s : state) : state := set_open false s.

(** What [ReadMessage] returns: a message of the known shape, something that is not
    one, or an error. *)
Inductive input := InMessage (m : wsMessage) | InOther | InError (e : error).

(** One round of [readLoop], up to its next channel operation. Messages that were
    buffered may still be read after the connection was closed. *)
Definition receive (i : input) (s : state) : option state :=
  match i with
  | InError e => Some (set_loop (LTearDown e) s)
  | InOther => Some s
  | InMessage m =>
      let c := s_client s in
      match wm_Data m with
      | Some d =>
          Some (set_loop (LDispatch (MkEvent (wm_Topic m) d) (default [] (c_subs c !! wm_Topic m))) s)
      | None =>
          if decide (wm_Status m = "") then Some s
          else
            match c_pending c with
            | [] => Some s
            | ch :: rest =>
                Some (set_loop (LDeliver ch (MkWsResponse (wm_Status m) (wm_SubscriptionID m)
                                              (wm_Message m) (wm_Error m)))
                  (set_client (set_pending rest c) (log_answered ch s)))
            end
      end
  end.

(** [select { case sub.events <- ev: default: }]: a send to a closed channel panics. *)
Definition dispatch (ev : Event) (sub : nat) (todo : list nat) (s : state) : option state :=
  S ← s_heap s !! sub;
  if sub_eventsClosed S then Some (set_panic sendOnClosed s)
  else if decide (length (sub_events S) < subEventBuffer)%nat
  then Some (set_loop (LDispatch ev todo)
         (set_heap (<[sub := set_events (sub_events S ++ [ev]) S]> (s_heap s)) s))
  else Some (set_loop (LDispatch ev todo) s).

(** [respCh <- resp]: panics when closed, blocks when full. *)
Definition deliver (ch : nat) (resp : wsResponse) (s : state) : option state :=
  rc ← s_chans s !! ch;
  if rc_closed rc then Some (set_panic sendOnClosed s)
  else match rc_queue rc with
       | [] => Some (set_loop LRead (set_chans (<[ch := MkRespChan [resp] false]> (s_chans s)) s))
       | _ => None
       end.

(** [close(ch)] *)
Definition closeChan (ch : nat) (s : state) : option state :=
  rc ← s_chans s !! ch;
  if rc_closed rc then Some (set_panic closeOfClosed s)
  else Some (set_chans (<[ch := MkRespChan (rc_queue rc) true]> (s_chans s)) s).

Section runtime.
Context {RT : GoRuntime}.

(** The critical section of the tear-down. *)
Definition tearDown (e : error) (s : state) : state :=
  let c := s_client s in
  let allSubs := go_range (c_subs c) ≫= λ topic, default [] (c_subs c !! topic) in
  set_loop (LCloseDone (c_pending c) allSubs) (set_client (MkWSClient [] ∅ true (Some e)) s).

(** One step of [readLoop]. *)
Definition loopStep (i : input) (s : state) : option state :=
  match s_loop s with
  | LRead => receive i s
  | LDispatch ev [] => Some (set_loop LRead s)
  | LDispatch ev (sub :: todo) => dispatch ev sub todo s
  | LDeliver ch resp => deliver ch resp s
  | LTearDown e => Some (tearDown e s)
  | LCloseDone pending allSubs =>
      if s_done s then Some (set_panic closeOfClosed s)
      else Some (set_loop (LClosePending pending allSubs) (set_done true s))
  | LClosePending [] allSubs => Some (set_loop (LCloseSubs allSubs) s)
  | LClosePending (ch :: pending) allSubs =>
      set_loop (LClosePending pending allSubs) <$> closeChan ch s
  | LCloseSubs [] => Some (set_loop LCloseConn s)
  | LCloseSubs (sub :: allSubs) => set_loop (LCloseSubs allSubs) <$> onceClose sub s
  | LCloseConn => Some (set_loop LExit (set_open false s))
  | LExit => None
  end.

(** Everything that can happen: a caller starts [Subscribe], or [Unsubscribe] on a
    subscription it was given; a caller or [readLoop] takes a step; a consumer receives
    an event; [Close] is called. Nothing happens after a panic. *)
Inductive action :=
| ASubscribe (tid : nat) (topic : EventTopic) (filter : EventFilter)
| AUnsubscribe (tid sub : nat)
| AThread (tid : nat) (c : choice)
| ALoop (i : input)
| AReceive (sub : nat)
| AClose.

Definition perform (a : action) (s : state) : option state :=
  match a with
  | ASubscribe tid topic filter =>
      match s_threads s !! tid with
      | Some _ => None
      | None => Some (set_thread tid (TSubscribe topic filter) s)
      end
  | AUnsubscribe tid sub =>
      match s_threads s !! tid with
      | Some _ => None
      | None =>
          S ← s_heap s !! sub;
          if sub_returned S then
            Some (set_thread tid (TRoundTrip (InUnsubscribe sub)
              (MkWsRequest "unsubscribe" (wsUnsubscribeParams (sub_topic S) (sub_id S)))) s)
          else None
      end
  | AThread tid c => threadStep tid c s
  | ALoop i => loopStep i s
  | AReceive sub =>
      S ← s_heap s !! sub;
      match sub_events S with
      | ev :: evs =>
          if sub_returned S then Some (set_heap (<[sub := set_events evs S]> (s_heap s)) s) else None
      | [] => None
      end
  | AClose => Some (Close s)
  end.

Definition exec (a : action) (s : state) : option state :=
  match s_panic s with Some _ => None | None => perform a s end.

Definition step (s s' : state) : Prop := ∃ a, exec a s = Some s'.

Fixpoint run (acts : list action) (s : state) : option state :=
  match acts with
  | [] => Some s
  | a :: acts => s' ← exec a s; run acts s'
  end.
End runtime.

(** The client of a new connection, with [readLoop] started. *)
Definition newWSClient : state :=
  MkState (MkWSClient [] ∅ false None) ∅ ∅ false true ∅ LRead None [] [] [].

(** [dialed] is what the dialer of gorilla/websocket returns. *)
Definition DialWebSocket (url : string) (dialed : result unit) : result state :=
  _ ← wrap_err ("dialing " +:+ url) dialed;
  Ok newWSClient.
