(* ===== verification/WebSocketInv.v ===== *)
(** * Invariants of the WebSocket client.

    The reachable states of the transition system of WebSocket.v: five invariants, each
    over the parts of the state it needs, that every step preserves. *)
From S2P Require Import Prelude GoLib Wire Json WebSocket.

(** ** The invariants *)

(** What the registry invariant needs of the heap: topic, and whether closed. *)
Definition hview (h : gmap nat Subscription) (sub : nat) : option (EventTopic * bool) :=
  (λ sb, (sub_topic sb, sub_once sb)) <$> h !! sub.

Definition registered (m : gmap EventTopic (list nat)) (sub : nat) : Prop :=
  ∃ t l, m !! t = Some l ∧ sub ∈ l.

(** The subscription a thread works on. *)
Definition caller_sub (k : caller) : nat :=
  match k with InSubscribe sub | InUnsubscribe sub => sub end.
Definition thread_sub (t : thread) : option nat :=
  match t with
  | TRoundTrip k _ | TWrite k _ _ | TSelect k _ | TReturned k _ => Some (caller_sub k)
  | TRemove sub _ | TCloseEvents sub _ => Some sub
  | TSubscribe _ _ | TExit _ => None
  end.
Definition about_to_close (t : thread) (sub : nat) : Prop := ∃ ret, t = TCloseEvents sub ret.

(** The subscriptions [readLoop] still holds: to send to, or to close. *)
Definition loop_todo (l : loop) : list nat := match l with LDispatch _ todo => todo | _ => [] end.
Definition loop_closing (l : loop) : list nat :=
  match l with LCloseDone _ a | LClosePending _ a | LCloseSubs a => a | _ => [] end.

(** The registry: every registered subscription is open and of its list's topic, and
    one that is open is registered or somebody is about to close it. *)
Record subs_inv (m : gmap EventTopic (list nat)) (h : gmap nat Subscription)
    (ts : gmap nat thread) (l : loop) : Prop := {
  subs_lists t subs : m !! t = Some subs →
    NoDup subs ∧ ∀ sub, sub ∈ subs → hview h sub = Some (t, false);
  subs_threads tid t sub : ts !! tid = Some t → thread_sub t = Some sub →
    is_Some (h !! sub) ∧ (about_to_close t sub → ¬ registered m sub);
  subs_loop sub : sub ∈ loop_todo l ++ loop_closing l → is_Some (h !! sub);
  subs_cover sub t : hview h sub = Some (t, false) →
    registered m sub ∨ sub ∈ loop_closing l ∨
    ∃ tid t, ts !! tid = Some t ∧ about_to_close t sub;
}.

(** The event channels: closed with the [sync.Once], within capacity, and holding only
    events of the subscription's topic. *)
Definition events_inv (h : gmap nat Subscription) (l : loop) : Prop :=
  (∀ sub sb, h !! sub = Some sb →
     sub_eventsClosed sb = sub_once sb ∧ (length (sub_events sb) ≤ subEventBuffer)%nat ∧
     Forall (λ ev, ev_Topic ev = sub_topic sb) (sub_events sb)) ∧
  (∀ ev todo sub, l = LDispatch ev todo → sub ∈ todo →
     fst <$> hview h sub = Some (ev_Topic ev)).

(** The response channels a response is still owed to: taken by [readLoop], pending, or
    about to be closed. They are distinct, open and empty. *)
Definition loop_owed (l : loop) : list nat :=
  match l with LDeliver ch _ => [ch] | LCloseDone p _ | LClosePending p _ => p | _ => [] end.

Definition chans_inv (pending : list nat) (chans : gmap nat respChan) (l : loop) : Prop :=
  NoDup (loop_owed l ++ pending) ∧
  ∀ ch, ch ∈ loop_owed l ++ pending → chans !! ch = Some (MkRespChan [] false).

(** The life of the client: what is closed when. *)
Definition torn_down (l : loop) : bool :=
  match l with LRead | LDispatch _ _ | LDeliver _ _ | LTearDown _ => false | _ => true end.

Definition done_closed (l : loop) : bool :=
  match l with LClosePending _ _ | LCloseSubs _ | LCloseConn | LExit => true | _ => false end.

Definition client_inv (c : WSClient) (done open : bool) (l : loop) : Prop :=
  c_closed c = torn_down l ∧ done = done_closed l ∧
  (c_closed c = true → c_pending c = [] ∧ c_subs c = ∅ ∧ is_Some (c_readErr c)) ∧
  (l = LExit → open = false).

(** The queue: taken and pending channels are the enqueued ones, in order. *)
Definition fifo_inv (c : WSClient) (enqueued answered : list nat) : Prop :=
  (c_closed c = false → enqueued = answered ++ c_pending c) ∧ answered `prefix_of` enqueued.

(** The only panic: [readLoop] sends to a subscription that was closed after its copy
    of the registry was made. *)
Definition panic_inv (p : option string) (h : gmap nat Subscription) (l : loop) : Prop :=
  match p with
  | None => True
  | Some msg => msg = sendOnClosed ∧
      ∃ ev sub todo sb, l = LDispatch ev (sub :: todo) ∧ h !! sub = Some sb ∧ sub_eventsClosed sb = true
  end.

Record inv (s : state) : Prop := {
  inv_subs : subs_inv (c_subs (s_client s)) (s_heap s) (s_threads s) (s_loop s);
  inv_events : events_inv (s_heap s) (s_loop s);
  inv_chans : chans_inv (c_pending (s_client s)) (s_chans s) (s_loop s);
  inv_client : client_inv (s_client s) (s_done s) (s_open s) (s_loop s);
  inv_fifo : fifo_inv (s_client s) (s_enqueued s) (s_answered s);
  inv_panic : panic_inv (s_panic s) (s_heap s) (s_loop s);
}.

(** ** The registry *)

Lemma hview_Some h sub t b :
  hview h sub = Some (t, b) ↔ ∃ sb, h !! sub = Some sb ∧ sub_topic sb = t ∧ sub_once sb = b.
Proof.
  unfold hview. rewrite fmap_Some. split.
  - intros (sb & Hs & [= -> ->]). eauto.
  - intros (sb & Hs & <- & <-). eauto.
Qed.

Lemma hview_insert h sub sb sub' :
  hview (<[sub := sb]> h) sub' =
  if decide (sub = sub') then Some (sub_topic sb, sub_once sb) else hview h sub'.
Proof.
  unfold hview. case_decide as Heq; [subst; by rewrite lookup_insert_eq|].
  by rewrite lookup_insert_ne.
Qed.

Lemma hview_is_Some h sub : is_Some (hview h sub) ↔ is_Some (h !! sub).
Proof. unfold hview. apply fmap_is_Some. Qed.

Section registry.
Context (m : gmap EventTopic (list nat)) (h : gmap nat Subscription)
  (ts : gmap nat thread) (l : loop).
Hypothesis Hinv : subs_inv m h ts l.

Lemma registered_open sub : registered m sub → ∃ t, hview h sub = Some (t, false).
Proof. intros (t & subs & Hl & Hin). exists t. by apply (subs_lists _ _ _ _ Hinv t subs). Qed.

(** Only the topic and the closing of subscriptions matter. *)
Lemma subs_inv_hview h' : (∀ sub, hview h' sub = hview h sub) → subs_inv m h' ts l.
Proof.
  intros Heq. assert (∀ sub, is_Some (h' !! sub) ↔ is_Some (h !! sub)) as Hs
    by (intros; by rewrite <- !hview_is_Some, Heq).
  split.
  - intros t subs Hl. destruct (subs_lists _ _ _ _ Hinv t subs Hl) as [Hnd Hall].
    split; [done|]. intros sub Hin. rewrite Heq. by apply Hall.
  - intros tid t sub. rewrite Hs. apply (subs_threads _ _ _ _ Hinv).
  - intros sub. rewrite Hs. apply (subs_loop _ _ _ _ Hinv).
  - intros sub t. rewrite Heq. apply (subs_cover _ _ _ _ Hinv).
Qed.

(** A thread that was not about to close a subscription moves on. *)
Lemma subs_inv_thread tid t :
  (∀ t' sub, ts !! tid = Some t' → ¬ about_to_close t' sub) →
  (∀ sub, thread_sub t = Some sub → is_Some (h !! sub) ∧ ¬ about_to_close t sub) →
  subs_inv m h (<[tid := t]> ts) l.
Proof.
  intros Hold Hnew. split; [apply Hinv| |apply Hinv|].
  - intros tid' t' sub [[<- <-]|[_ Ht']]%lookup_insert_Some Hsub.
    + destruct (Hnew sub Hsub). done.
    + by apply (subs_threads _ _ _ _ Hinv tid').
  - intros sub tp Hv. destruct (subs_cover _ _ _ _ Hinv sub tp Hv) as [?|[?|(tid' & t' & Ht & Hc)]];
      [by auto..|]. right. right. exists tid', t'. split; [|done].
    rewrite lookup_insert_ne; [done|]. intros ->. by destruct (Hold t' sub Ht).
Qed.

(** [readLoop] moves on without dropping a subscription it has to close. *)
Lemma subs_inv_loop l' :
  (∀ sub, sub ∈ loop_todo l' ++ loop_closing l' → is_Some (h !! sub)) →
  (∀ sub, sub ∈ loop_closing l → sub ∈ loop_closing l') →
  subs_inv m h ts l'.
Proof.
  intros Hsubs Hcl. split; [apply Hinv|apply Hinv|done|].
  intros sub t Hv. destruct (subs_cover _ _ _ _ Hinv sub t Hv) as [?|[?|?]]; auto.
Qed.

(** A new subscription is registered. *)
Lemma subs_inv_register tid topic sub sb t :
  h !! sub = None → sub_topic sb = topic → sub_once sb = false →
  (∀ t' sub, ts !! tid = Some t' → ¬ about_to_close t' sub) →
  thread_sub t = Some sub → ¬ about_to_close t sub →
  subs_inv (<[topic := default [] (m !! topic) ++ [sub]]> m) (<[sub := sb]> h)
    (<[tid := t]> ts) l.
Proof.
  intros Hfresh Htopic Honce Hold Hsub Hnc.
  assert (∀ sub' t b, hview h sub' = Some (t, b) → hview (<[sub := sb]> h) sub' = Some (t, b)) as Hkeep.
  { intros sub' t' b Hv. rewrite hview_insert, decide_False; [done|]. intros <-.
    apply hview_Some in Hv as (? & ? & _). congruence. }
  assert (∀ sub', is_Some (h !! sub') → is_Some (<[sub := sb]> h !! sub')) as Hdom.
  { intros sub' Hs. destruct (decide (sub = sub')) as [<-|]; [by rewrite lookup_insert_eq|].
    by rewrite lookup_insert_ne. }
  assert (∀ sub', registered (<[topic := default [] (m !! topic) ++ [sub]]> m) sub' ↔
    sub' = sub ∨ registered m sub') as Hreg.
  { intros sub'. unfold registered. split.
    - intros (t' & l' & [[<- <-]|[_ Hl]]%lookup_insert_Some & Hin); [|by eauto 10].
      apply elem_of_app in Hin as [Hin|Hin%list_elem_of_singleton]; [|auto].
      destruct (m !! topic) eqn:Hm; [eauto 10|]. by apply elem_of_nil in Hin.
    - intros [->|(t' & l' & Hl & Hin)].
      + exists topic. eexists. rewrite lookup_insert_eq. split; [done|].
        apply elem_of_app. right. by apply list_elem_of_singleton.
      + destruct (decide (topic = t')) as [<-|Hne].
        * exists topic. eexists. rewrite lookup_insert_eq, Hl. split; [done|]. apply elem_of_app. auto.
        * exists t', l'. by rewrite lookup_insert_ne. }
  split.
  - intros t' subs [[<- <-]|[_ Hl]]%lookup_insert_Some.
    + assert (NoDup (default [] (m !! topic)) ∧
        ∀ sub', sub' ∈ default [] (m !! topic) → hview h sub' = Some (topic, false)) as [Hnd Hall].
      { destruct (m !! topic) as [subs|] eqn:Hm; [by apply (subs_lists _ _ _ _ Hinv)|].
        split; [constructor|]. by intros ? ?%elem_of_nil. }
      split.
      * apply NoDup_app. split_ands; [done| |apply NoDup_singleton].
        intros x Hx Heq%list_elem_of_singleton. subst x. apply Hall, hview_Some in Hx as (? & ? & _). congruence.
      * intros x [Hx|Hx%list_elem_of_singleton]%elem_of_app; [by apply Hkeep, Hall|]. subst x.
        rewrite hview_insert, decide_True by done. by rewrite Htopic, Honce.
    + destruct (subs_lists _ _ _ _ Hinv t' subs Hl) as [Hnd Hall]. split; [done|].
      intros x Hx. by apply Hkeep, Hall.
  - intros tid' t' sub' [[<- <-]|[_ Ht']]%lookup_insert_Some Hs.
    + rewrite Hsub in Hs. injection Hs as <-. rewrite lookup_insert_eq. done.
    + destruct (subs_threads _ _ _ _ Hinv tid' t' sub' Ht' Hs) as [Hd Hn].
      split; [by apply Hdom|]. intros Hc. rewrite Hreg. intros [->|Hr]; [|by apply Hn].
      rewrite Hfresh in Hd. by destruct Hd.
  - intros sub' Hin. by apply Hdom, (subs_loop _ _ _ _ Hinv).
  - intros sub' t'. rewrite hview_insert, Hreg. case_decide as Hd; [by auto|].
    intros Hv. destruct (subs_cover _ _ _ _ Hinv sub' t' Hv) as [?|[?|(tid' & t'' & Ht & Hc)]]; [by auto..|].
    right. right. exists tid', t''. split; [|done].
    rewrite lookup_insert_ne; [done|]. intros ->. by destruct (Hold t'' sub' Ht).
Qed.

Lemma removeFirst_spec sub subs :
  NoDup subs →
  match removeFirst sub subs with
  | Some subs' => sub ∈ subs ∧ NoDup subs' ∧ ∀ x, x ∈ subs' ↔ x ∈ subs ∧ x ≠ sub
  | None => sub ∉ subs
  end.
Proof.
  induction 1 as [|x subs Hx Hnd IH]; simpl; [by apply not_elem_of_nil|].
  case_decide as Heq.
  - subst x. split_ands; [by left|done|]. intros y. rewrite elem_of_cons.
    split; [intros Hy; split; [auto|congruence]|]. by intros [[->|Hy] Hne].
  - destruct (removeFirst sub subs) as [subs'|]; simpl.
    + destruct IH as (Hin & Hnd' & Hiff). split_ands; [by right| |].
      * constructor; [|done]. rewrite Hiff. tauto.
      * intros y. rewrite !elem_of_cons, Hiff. split; [|tauto].
        intros [->|[? ?]]; [split; [auto|congruence]|auto].
    + rewrite elem_of_cons. intuition congruence.
Qed.

(** A subscription is taken off the registry: nothing else is. *)
Lemma registered_unregister topic sub sub' :
  fst <$> hview h sub = Some topic →
  registered (unregister topic sub m) sub' ↔ registered m sub' ∧ sub' ≠ sub.
Proof.
  intros Ht. unfold unregister.
  assert (NoDup (default [] (m !! topic))) as Hnd.
  { destruct (m !! topic) as [subs|] eqn:Hm; [|constructor].
    by apply (subs_lists _ _ _ _ Hinv topic subs). }
  pose proof (removeFirst_spec sub _ Hnd) as Hrem.
  assert (∀ t subs, m !! t = Some subs → sub ∈ subs → t = topic) as Honly.
  { intros t subs Hl Hin. destruct (subs_lists _ _ _ _ Hinv t subs Hl) as [_ Hall].
    rewrite (Hall sub Hin) in Ht. simpl in Ht. congruence. }
  destruct (removeFirst sub _) as [subs'|].
  - destruct Hrem as (Hin & _ & Hiff). destruct (m !! topic) as [subs|] eqn:Hm;
      [|by apply elem_of_nil in Hin]. simpl in *. unfold registered. split.
    + intros (t & l' & [[<- <-]|[Hne Hl]]%lookup_insert_Some & Hx).
      * apply Hiff in Hx as [? ?]. eauto 10.
      * split; [eauto 10|]. intros ->. destruct Hne. symmetry. by eapply Honly.
    + intros [(t & l' & Hl & Hx) Hne]. destruct (decide (topic = t)) as [<-|].
      * exists topic, subs'. rewrite lookup_insert_eq. split; [done|]. apply Hiff.
        simplify_eq. done.
      * exists t, l'. by rewrite lookup_insert_ne.
  - split; [|tauto]. intros (t & l' & Hl & Hx). split; [by exists t, l'|].
    intros ->. pose proof (Honly _ _ Hl Hx) as ->. by rewrite Hl in Hrem.
Qed.

Lemma subs_inv_unregister tid topic sub ret :
  fst <$> hview h sub = Some topic → ts !! tid = Some (TRemove sub ret) →
  subs_inv (unregister topic sub m) h (<[tid := TCloseEvents sub ret]> ts) l.
Proof.
  intros Htopic Htid. pose proof (λ x, registered_unregister topic sub x Htopic) as Hreg.
  split.
  - intros t subs. unfold unregister.
    destruct (removeFirst sub (default [] (m !! topic))) as [subs'|] eqn:Hrem;
      [|apply (subs_lists _ _ _ _ Hinv)].
    intros [[<- <-]|[_ Hl]]%lookup_insert_Some; [|by apply (subs_lists _ _ _ _ Hinv)].
    destruct (m !! topic) as [subs|] eqn:Hm; simpl in Hrem; [|done].
    destruct (subs_lists _ _ _ _ Hinv topic subs Hm) as [Hnd Hall].
    pose proof (removeFirst_spec sub subs Hnd) as H. rewrite Hrem in H.
    destruct H as (_ & Hnd' & Hiff). split; [done|]. intros x Hx. by apply Hall, Hiff.
  - intros tid' t sub' [[<- <-]|[_ Ht]]%lookup_insert_Some Hs.
    + simpl in Hs. injection Hs as <-. rewrite <- hview_is_Some. split.
      * destruct (hview h sub); [by eexists|done].
      * intros _. rewrite Hreg. tauto.
    + destruct (subs_threads _ _ _ _ Hinv tid' t sub' Ht Hs) as [Hd Hn].
      split; [done|]. intros Hc. rewrite Hreg. intros [? _]. by apply Hn.
  - apply Hinv.
  - intros x t Hv. rewrite Hreg.
    destruct (subs_cover _ _ _ _ Hinv x t Hv) as [Hr|[?|(tid' & t' & Ht & Hc)]].
    + destruct (decide (x = sub)) as [->|]; [|by auto]. right. right.
      exists tid. eexists. rewrite lookup_insert_eq. split; [done|]. by eexists.
    + auto.
    + right. right. exists tid', t'. split; [|done]. rewrite lookup_insert_ne; [done|].
      intros ->. rewrite Htid in Ht. injection Ht as <-. by destruct Hc.
Qed.

(** A subscription nobody has registered is closed. *)
Lemma subs_inv_close sub sb sb' :
  h !! sub = Some sb → sub_topic sb' = sub_topic sb → sub_once sb' = true → ¬ registered m sub →
  subs_inv m (<[sub := sb']> h) ts l.
Proof.
  intros Hsb Htopic Honce Hnr.
  assert (∀ x, is_Some (h !! x) → is_Some (<[sub := sb']> h !! x)) as Hdom.
  { intros x Hx. destruct (decide (sub = x)) as [<-|]; [by rewrite lookup_insert_eq|].
    by rewrite lookup_insert_ne. }
  split.
  - intros t subs Hl. destruct (subs_lists _ _ _ _ Hinv t subs Hl) as [Hnd Hall].
    split; [done|]. intros x Hx. rewrite hview_insert, decide_False; [by apply Hall|].
    intros <-. destruct Hnr. by exists t, subs.
  - intros tid t x Ht Hs. destruct (subs_threads _ _ _ _ Hinv tid t x Ht Hs). auto.
  - intros x Hx. by apply Hdom, (subs_loop _ _ _ _ Hinv).
  - intros x t. rewrite hview_insert. case_decide; [intros [= _ ?]; congruence|].
    apply (subs_cover _ _ _ _ Hinv).
Qed.

(** The thread that has closed a subscription exits; [readLoop] drops one it has closed. *)
Lemma subs_inv_exit tid ret sub sb :
  h !! sub = Some sb → sub_once sb = true →
  (∀ t' sub', ts !! tid = Some t' → about_to_close t' sub' → sub' = sub) →
  subs_inv m h (<[tid := TExit ret]> ts) l.
Proof.
  intros Hsb Honce Hold. split; [apply Hinv| |apply Hinv|].
  - intros tid' t' sub' [[<- <-]|[_ Ht']]%lookup_insert_Some Hs; [done|].
    by apply (subs_threads _ _ _ _ Hinv tid').
  - intros x t Hv. destruct (subs_cover _ _ _ _ Hinv x t Hv) as [?|[?|(tid' & t' & Ht & Hc)]]; [by auto..|].
    right. right. exists tid', t'. split; [|done]. rewrite lookup_insert_ne; [done|].
    intros ->. pose proof (Hold t' x Ht Hc) as ->.
    apply hview_Some in Hv as (sb' & ? & _ & ?). congruence.
Qed.

Lemma subs_inv_closed sub sb l' :
  h !! sub = Some sb → sub_once sb = true →
  loop_todo l' = [] → loop_closing l = sub :: loop_closing l' → subs_inv m h ts l'.
Proof.
  intros Hsb Honce Htodo Hcl. split; [apply Hinv|apply Hinv| |].
  - intros x Hx. apply (subs_loop _ _ _ _ Hinv). rewrite Htodo in Hx.
    apply elem_of_app. right. rewrite Hcl. by right.
  - intros x t Hv. destruct (subs_cover _ _ _ _ Hinv x t Hv) as [?|[Hin|?]]; [by auto| |by auto].
    rewrite Hcl in Hin. apply elem_of_cons in Hin as [->|?]; [|by auto].
    apply hview_Some in Hv as (sb' & ? & _ & ?). congruence.
Qed.

(** Tear-down moves the whole registry to the list of subscriptions to close. *)
Lemma subs_inv_tearDown `{RT : GoRuntime} l' :
  loop_closing l = [] → loop_todo l' = [] →
  loop_closing l' = (go_range m ≫= λ topic, default [] (m !! topic)) →
  subs_inv ∅ h ts l'.
Proof.
  intros Hnone Htodo Hcl.
  assert (∀ x, x ∈ loop_closing l' ↔ registered m x) as Hiff.
  { intros x. rewrite Hcl, list_elem_of_bind. unfold registered. split.
    - intros (t & Hx & Ht). destruct (m !! t) as [subs|] eqn:Hm; [eauto|].
      by apply elem_of_nil in Hx.
    - intros (t & subs & Ht & Hx). exists t. rewrite Ht. split; [done|].
      apply elem_of_go_range. by eexists. }
  assert (∀ x, ¬ registered ∅ x) as Hempty.
  { intros x (t & subs & Ht & _). by rewrite lookup_empty in Ht. }
  split.
  - intros t subs Ht. by rewrite lookup_empty in Ht.
  - intros tid t sub Ht Hs. destruct (subs_threads _ _ _ _ Hinv tid t sub Ht Hs). split; [done|].
    intros _. apply Hempty.
  - intros x. rewrite Htodo. simpl. rewrite Hiff. intros Hr.
    apply registered_open in Hr as [t Hv]. apply hview_is_Some. by eexists.
  - intros x t Hv. rewrite Hiff. destruct (subs_cover _ _ _ _ Hinv x t Hv) as [?|[Hin|?]]; [by auto| |by auto].
    rewrite Hnone in Hin. by apply elem_of_nil in Hin.
Qed.
End registry.

(** ** Events *)

Definition sub_ok (sb : Subscription) : Prop :=
  sub_eventsClosed sb = sub_once sb ∧ (length (sub_events sb) ≤ subEventBuffer)%nat ∧
  Forall (λ ev, ev_Topic ev = sub_topic sb) (sub_events sb).

Lemma events_inv_insert h l sub sb :
  events_inv h l → sub_ok sb →
  (∀ sb0, h !! sub = Some sb0 → sub_topic sb = sub_topic sb0) →
  events_inv (<[sub := sb]> h) l.
Proof.
  intros [Hh Hl] Hsb Htopic. split.
  - intros x sx [[<- <-]|[_ Hx]]%lookup_insert_Some; [done|by apply (Hh x)].
  - intros ev todo x Heq Hx. specialize (Hl ev todo x Heq Hx). rewrite hview_insert.
    case_decide as Hd; [|done]. subst x. unfold hview in Hl.
    destruct (h !! sub) as [sb0|]; [|done]. simpl in *. by rewrite (Htopic sb0).
Qed.

Lemma events_inv_loop h l l' :
  events_inv h l →
  (∀ ev todo sub, l' = LDispatch ev todo → sub ∈ todo → fst <$> hview h sub = Some (ev_Topic ev)) →
  events_inv h l'.
Proof. intros [Hh _] Hl. done. Qed.

(** ** Response channels *)

Lemma chans_inv_incl p chans l p' l' :
  chans_inv p chans l → NoDup (loop_owed l' ++ p') →
  (∀ ch, ch ∈ loop_owed l' ++ p' → ch ∈ loop_owed l ++ p) → chans_inv p' chans l'.
Proof. intros [_ Hall] Hnd Hincl. split; [done|]. intros ch Hch. by apply Hall, Hincl. Qed.

Lemma chans_inv_insert p chans l ch rc :
  chans_inv p chans l → ch ∉ loop_owed l ++ p → chans_inv p (<[ch := rc]> chans) l.
Proof.
  intros [Hnd Hall] Hni. split; [done|]. intros x Hx. rewrite lookup_insert_ne; [by apply Hall|].
  by intros <-.
Qed.

Lemma chans_inv_not_owed p chans l ch rc :
  chans_inv p chans l → chans !! ch = Some rc → rc ≠ MkRespChan [] false → ch ∉ loop_owed l ++ p.
Proof. intros [_ Hall] Hch Hne Hin. rewrite (Hall ch Hin) in Hch. congruence. Qed.

Lemma chans_inv_enqueue p chans l :
  let ch := fresh (dom chans) in
  chans_inv p chans l → chans_inv (p ++ [ch]) (<[ch := MkRespChan [] false]> chans) l.
Proof.
  intros ch [Hnd Hall].
  assert (ch ∉ loop_owed l ++ p) as Hni.
  { intros Hin. apply (is_fresh (dom chans)). apply elem_of_dom. eexists. by apply Hall. }
  unfold chans_inv. rewrite app_assoc. split.
  - apply NoDup_app. split_ands; [done| |apply NoDup_singleton].
    intros x Hx Heq%list_elem_of_singleton. by subst x.
  - intros x [Hx|Hx%list_elem_of_singleton]%elem_of_app.
    + rewrite lookup_insert_ne; [by apply Hall|]. by intros <-.
    + subst x. by rewrite lookup_insert_eq.
Qed.

(** The first channel of the list is dealt with. *)
Lemma chans_inv_drop p chans l l' ch rc :
  chans_inv p chans l → loop_owed l = ch :: loop_owed l' →
  chans_inv p (<[ch := rc]> chans) l'.
Proof.
  intros Hinv Heq. pose proof Hinv as [Hnd _]. rewrite Heq in Hnd. simpl in Hnd.
  apply NoDup_cons in Hnd as [Hni Hnd]. apply chans_inv_insert; [|done].
  eapply chans_inv_incl; [exact Hinv|done|]. intros x Hx. rewrite Heq. by right.
Qed.

Lemma chans_inv_head p chans l ch owed :
  chans_inv p chans l → loop_owed l = ch :: owed → chans !! ch = Some (MkRespChan [] false).
Proof. intros [_ Hall] Heq. apply Hall. rewrite Heq. by left. Qed.

(** ** Preservation *)

Lemma inv_newWSClient : inv newWSClient.
Proof.
  split; simpl.
  - split; [intros t subs H|intros tid t sub H|intros sub H|intros sub t H];
      try (by rewrite lookup_empty in H); [by apply elem_of_nil in H|].
    unfold hview in H. by rewrite lookup_empty in H.
  - split; [intros sub sb H; by rewrite lookup_empty in H|done].
  - split; [constructor|]. intros ch H. by apply elem_of_nil in H.
  - done.
  - split; [done|]. by exists [].
  - done.
Qed.

Section preservation.
Context {RT : GoRuntime}.
Implicit Types s : state.

(** A step that only moves a thread. *)
Lemma inv_set_thread s tid t :
  inv s → (∀ t' sub, s_threads s !! tid = Some t' → ¬ about_to_close t' sub) →
  (∀ sub, thread_sub t = Some sub → is_Some (s_heap s !! sub) ∧ ¬ about_to_close t sub) →
  inv (set_thread tid t s).
Proof.
  intros I Hold Hnew. split; simpl; [|apply I..].
  by apply subs_inv_thread; [apply I|..].
Qed.

Lemma thread_sub_dom s tid t sub :
  inv s → s_threads s !! tid = Some t → thread_sub t = Some sub → is_Some (s_heap s !! sub).
Proof. intros I Ht Hs. by destruct (subs_threads _ _ _ _ (inv_subs _ I) tid t sub Ht Hs). Qed.

(** A thread goes on with the same subscription, or with none. *)
Lemma inv_same_sub s tid t t' :
  inv s → s_threads s !! tid = Some t →
  (∀ sub ret, t ≠ TCloseEvents sub ret) → (∀ sub ret, t' ≠ TCloseEvents sub ret) →
  (thread_sub t' = None ∨ thread_sub t' = thread_sub t) →
  inv (set_thread tid t' s).
Proof.
  intros I Ht Hc Hc' Hs. apply inv_set_thread; [done| |].
  - intros t0 sub Ht0 [ret ->]. rewrite Ht in Ht0. injection Ht0 as ->. by apply (Hc sub ret).
  - intros sub Hsub. split; [|by intros [ret ->]; apply (Hc' sub ret)].
    destruct Hs as [Hs|Hs]; rewrite Hs in Hsub; [done|]. by apply (thread_sub_dom s tid t).
Qed.

Lemma inv_startSubscribe s tid topic filter :
  inv s → s_panic s = None → s_threads s !! tid = Some (TSubscribe topic filter) →
  inv (startSubscribe tid topic filter s).
Proof.
  intros I Hp Ht. unfold startSubscribe. destruct (c_closed (s_client s)) eqn:Hcl.
  { eapply inv_same_sub; [done|done|done|done|by left]. }
  set (sub := fresh (dom (s_heap s))).
  assert (s_heap s !! sub = None) as Hfresh by apply not_elem_of_dom, is_fresh.
  split; simpl.
  - eapply subs_inv_register; [apply I|done|done|done| |done|by intros [? ?]].
    intros t' sub' Ht' [ret ->]. congruence.
  - apply events_inv_insert; [apply I| |].
    + split; [done|split; [simpl; lia|constructor]].
    + intros sb0 H0. congruence.
  - apply I.
  - destruct (inv_client _ I) as (H1 & H2 & H3 & H4). unfold client_inv. split_ands; [done|done| |done]. simpl. congruence.
  - apply I.
  - by rewrite Hp.
Qed.

Lemma inv_enqueue s tid k req :
  inv s → s_panic s = None → s_threads s !! tid = Some (TRoundTrip k req) → inv (enqueue tid k req s).
Proof.
  intros I Hp Ht. unfold enqueue. destruct (c_closed (s_client s)) eqn:Hcl.
  { eapply inv_same_sub; [done|done|done|done|by right]. }
  split; simpl.
  - apply subs_inv_thread; [apply I| |].
    + intros t' sub' Ht' [ret ->]. congruence.
    + intros sub [= <-]. split; [|by intros [? ?]]. by apply (thread_sub_dom s tid _ _ I Ht).
  - apply I.
  - apply chans_inv_enqueue, I.
  - destruct (inv_client _ I) as (H1 & H2 & H3 & H4). unfold client_inv. split_ands; [done|done| |done]. simpl. congruence.
  - destruct (inv_fifo _ I) as [Hf Hpre]. split; simpl.
    + intros _. rewrite Hf by done. by rewrite app_assoc.
    + by apply prefix_app_r.
  - by rewrite Hp.
Qed.

Lemma inv_write s s' tid k req ch c :
  inv s → s_threads s !! tid = Some (TWrite k req ch) → write tid k req ch c s = Some s' → inv s'.
Proof.
  intros I Ht Hw. destruct c; simpl in Hw; try done.
  - destruct (s_open s && encodable req); [|done]. injection Hw as <-.
    assert (inv (set_thread tid (TSelect k ch) s)) as []
      by (eapply inv_same_sub; [done|done|done|done|by right]).
    by split.
  - injection Hw as <-. eapply inv_same_sub; [done|done|done|done|by right].
Qed.

Lemma inv_select s s' tid k ch c :
  inv s → s_threads s !! tid = Some (TSelect k ch) → select tid k ch c s = Some s' → inv s'.
Proof.
  intros I Ht Hs. destruct c; simpl in Hs; try done.
  - apply bind_Some in Hs as (rc & Hrc & Hs). destruct (rc_queue rc) as [|r q] eqn:Hq.
    + destruct (rc_closed rc); [|done]. injection Hs as <-. eapply inv_same_sub; [done|done|done|done|by right].
    + injection Hs as <-.
      assert (inv (set_thread tid (TReturned k (Ok r)) s)) as []
        by (eapply inv_same_sub; [done|done|done|done|by right]).
      split; try done. simpl in *.
      apply chans_inv_insert; [done|]. eapply chans_inv_not_owed; [done|exact Hrc|].
      intros ->. by simpl in Hq.
  - injection Hs as <-. eapply inv_same_sub; [done|done|done|done|by right].
  - destruct (s_done s); [|done]. injection Hs as <-. eapply inv_same_sub; [done|done|done|done|by right].
Qed.

(** Updating a subscription without closing it or changing its topic. *)
Lemma inv_update_sub s sub sb sb' :
  inv s → s_panic s = None → s_heap s !! sub = Some sb → sub_ok sb' →
  sub_topic sb' = sub_topic sb → sub_once sb' = sub_once sb →
  inv (set_heap (<[sub := sb']> (s_heap s)) s).
Proof.
  intros I Hp Hsb Hok Htopic Honce. split; simpl; try apply I.
  - eapply subs_inv_hview; [apply I|]. intros x. rewrite hview_insert. case_decide as Heq; [|done].
    subst x. unfold hview. rewrite Hsb. simpl. by rewrite Htopic, Honce.
  - apply events_inv_insert; [apply I|done|]. intros sb0 H0. congruence.
  - by rewrite Hp.
Qed.

Lemma inv_sub_ok s sub sb : inv s → s_heap s !! sub = Some sb → sub_ok sb.
Proof. intros I. apply (inv_events _ I). Qed.

Lemma inv_afterRoundTrip s s' tid k r :
  inv s → s_panic s = None → s_threads s !! tid = Some (TReturned k r) →
  afterRoundTrip tid k r s = Some s' → inv s'.
Proof.
  intros I Hp Ht Hs. destruct k as [sub|sub]; simpl in Hs.
  - destruct r as [resp|e].
    + case_decide.
      * apply bind_Some in Hs as (sb & Hsb & Hs). injection Hs as <-.
        assert (inv (set_heap (<[sub := set_returned (wr_SubscriptionID resp) sb]> (s_heap s)) s)) as I'.
        { eapply inv_update_sub; [done|done|done| |done|done].
          exact (inv_sub_ok s sub sb I Hsb). }
        eapply (inv_same_sub _ tid); [exact I'|exact Ht|done|done|by left].
      * injection Hs as <-. eapply inv_same_sub; [done|done|done|done|by right].
    + injection Hs as <-. eapply inv_same_sub; [done|done|done|done|by right].
  - injection Hs as <-. eapply inv_same_sub; [done|done|done|done|by right].
Qed.

Lemma inv_remove s tid sub sb ret :
  inv s → s_panic s = None → s_threads s !! tid = Some (TRemove sub ret) → s_heap s !! sub = Some sb →
  inv (set_thread tid (TCloseEvents sub ret)
    (set_client (set_subs (unregister (sub_topic sb) sub (c_subs (s_client s))) (s_client s)) s)).
Proof.
  intros I Hp Ht Hsb. split; simpl; try apply I.
  - apply subs_inv_unregister; [apply I| |done]. unfold hview. by rewrite Hsb.
  - destruct (inv_client _ I) as (H1 & H2 & H3 & H4). unfold client_inv. split_ands; [done|done| |done]. simpl.
    intros Hc. destruct (H3 Hc) as (-> & -> & ?). split_ands; [done| |done].
    unfold unregister. by rewrite lookup_empty.
Qed.

(** Closing a subscription that is not registered. *)
Lemma inv_onceClose s s' sub :
  inv s → s_panic s = None → ¬ registered (c_subs (s_client s)) sub → onceClose sub s = Some s' →
  inv s' ∧ s_threads s' = s_threads s ∧ s_loop s' = s_loop s ∧ s_panic s' = None ∧
  ∃ sb, s_heap s' !! sub = Some sb ∧ sub_once sb = true.
Proof.
  intros I Hp Hnr Hs. unfold onceClose in Hs. apply bind_Some in Hs as (sb & Hsb & Hs).
  pose proof (inv_sub_ok s sub sb I Hsb) as (Hc & Hlen & Htop).
  destruct (sub_once sb) eqn:Honce; [injection Hs as <-; eauto 10|].
  rewrite Hc in Hs. injection Hs as <-. split_ands; [|done..|].
  2:{ simpl. rewrite lookup_insert_eq. eauto. }
  split; simpl; try apply I.
  - eapply subs_inv_close; [apply I|exact Hsb|done|done|done].
  - apply events_inv_insert; [apply I|done|]. intros sb0 H0. simpl. congruence.
  - by rewrite Hp.
Qed.

Lemma inv_threadStep s s' tid c :
  inv s → s_panic s = None → threadStep tid c s = Some s' → inv s'.
Proof.
  intros I Hp Hs. unfold threadStep in Hs. apply bind_Some in Hs as (t & Ht & Hs). destruct t.
  - injection Hs as <-. by apply inv_startSubscribe.
  - injection Hs as <-. by apply inv_enqueue.
  - by eapply inv_write.
  - by eapply inv_select.
  - by eapply inv_afterRoundTrip.
  - apply bind_Some in Hs as (sb & Hsb & Hs). injection Hs as <-. by apply inv_remove.
  - apply fmap_Some in Hs as (s1 & H1 & ->).
    destruct (subs_threads _ _ _ _ (inv_subs _ I) tid _ sub Ht eq_refl) as [_ Hnr].
    destruct (inv_onceClose s s1 sub I Hp) as (I1 & Hth & Hl & Hp1 & sb & Hsb & Honce);
      [apply Hnr; by eexists|done|].
    split; simpl; try apply I1.
    eapply subs_inv_exit; [apply I1|exact Hsb|done|]. rewrite Hth, Ht.
    intros t' sub' [= <-] [ret' [= ->]]. done.
  - done.
Qed.

(** *** Steps of [readLoop] *)

(** Before the tear-down [readLoop] holds no list to close; moving among these
    positions keeps the client's invariant. *)
Lemma client_inv_running c done open l l' :
  client_inv c done open l → torn_down l = false → torn_down l' = false → client_inv c done open l'.
Proof.
  intros (H1 & H2 & H3 & H4) Hl Hl'. unfold client_inv.
  split_ands; [congruence| |done|by intros ->]. rewrite H2.
  by destruct l, l'.
Qed.

Lemma running_closing l : torn_down l = false → loop_closing l = [].
Proof. by destruct l. Qed.

(** [readLoop] moves without touching the response channels. *)
Lemma inv_loop_running s l' :
  inv s → s_panic s = None → torn_down (s_loop s) = false → torn_down l' = false →
  loop_owed l' = [] →
  (∀ ev todo sub, l' = LDispatch ev todo → sub ∈ todo →
     fst <$> hview (s_heap s) sub = Some (ev_Topic ev)) →
  inv (set_loop l' s).
Proof.
  intros I Hp Hl Hl' Howed Htodo. split; simpl; try apply I.
  - eapply subs_inv_loop; [apply I| |].
    + intros x. rewrite (running_closing l'), app_nil_r by done. intros Hx.
      destruct l' as [|ev todo| | | | | | |]; simpl in Hx; try (by apply elem_of_nil in Hx).
      apply hview_is_Some. specialize (Htodo ev todo x eq_refl Hx).
      destruct (hview (s_heap s) x); [by eexists|done].
    + rewrite (running_closing (s_loop s)) by done. by intros x ?%elem_of_nil.
  - eapply events_inv_loop; [apply I|done].
  - pose proof (inv_chans _ I) as Hc. eapply chans_inv_incl; [exact Hc| |]; rewrite Howed.
    + destruct Hc as [Hnd _]. by apply NoDup_app in Hnd as (_ & _ & ?).
    + intros ch Hch. apply elem_of_app. by right.
  - by eapply client_inv_running; [apply I|..].
  - by rewrite Hp.
Qed.

Lemma inv_receive s s' i :
  inv s → s_panic s = None → s_loop s = LRead → receive i s = Some s' → inv s'.
Proof.
  intros I Hp Hl Hs. destruct i as [m| |e]; simpl in Hs.
  - destruct (wm_Data m) as [d|].
    + injection Hs as <-. apply inv_loop_running; [done|done|by rewrite Hl|done|done|].
      intros ev todo sub [= <- <-] Hin. simpl.
      destruct (c_subs (s_client s) !! wm_Topic m) as [subs|] eqn:Hm; [|by apply elem_of_nil in Hin].
      destruct (subs_lists _ _ _ _ (inv_subs _ I) _ _ Hm) as [_ Hall]. by rewrite (Hall sub Hin).
    + case_decide; [by injection Hs as <-|].
      destruct (c_pending (s_client s)) as [|ch rest] eqn:Hpend; injection Hs as <-; [done|].
      split; simpl; try apply I.
      * eapply subs_inv_loop; [apply I|by intros x ?%elem_of_nil|]. by rewrite Hl.
      * by eapply events_inv_loop; [apply I|].
      * pose proof (inv_chans _ I) as Hc. rewrite Hl, Hpend in Hc. exact Hc.
      * destruct (inv_client _ I) as (H1 & H2 & H3 & H4). rewrite Hl in *. simpl in *.
        unfold client_inv. simpl. rewrite H1. done.
      * destruct (inv_fifo _ I) as [Hf _], (inv_client _ I) as (H1 & _). rewrite Hl in H1. simpl in H1.
        specialize (Hf H1). rewrite Hpend in Hf. rewrite Hf. split; simpl.
        -- intros _. by rewrite <- app_assoc.
        -- exists rest. by rewrite <- app_assoc.
      * by rewrite Hp.
  - by injection Hs as <-.
  - injection Hs as <-. apply inv_loop_running; [done|done|by rewrite Hl|done..].
Qed.

Lemma inv_dispatch s s' ev sub todo :
  inv s → s_panic s = None → s_loop s = LDispatch ev (sub :: todo) →
  dispatch ev sub todo s = Some s' → inv s'.
Proof.
  intros I Hp Hl Hs. unfold dispatch in Hs. apply bind_Some in Hs as (sb & Hsb & Hs).
  destruct (inv_events _ I) as [Hh Htodo]. destruct (Hh sub sb Hsb) as (Hc & Hlen & Htop).
  assert (∀ x, x ∈ sub :: todo → fst <$> hview (s_heap s) x = Some (ev_Topic ev)) as Htopic
    by (intros x; by apply Htodo).
  assert (sub_topic sb = ev_Topic ev) as Hsub.
  { specialize (Htopic sub (list_elem_of_here _ _)). unfold hview in Htopic. rewrite Hsb in Htopic.
    by injection Htopic. }
  destruct (sub_eventsClosed sb) eqn:Hclosed.
  { injection Hs as <-. split; simpl; try apply I. split; [done|]. eauto 10. }
  case_decide as Hroom; injection Hs as <-.
  - apply inv_loop_running; [|done|by simpl; rewrite Hl|done|done|].
    + eapply inv_update_sub; [done|done|exact Hsb| |done|done]. split_ands; simpl.
      unfold sub_ok. simpl. split_ands; [congruence| |].
      * rewrite length_app. simpl. unfold subEventBuffer in *. lia.
      * apply Forall_app. split; [done|]. constructor; [by rewrite Hsub|constructor].
    + intros ev' todo' x [= <- <-] Hx. simpl. rewrite hview_insert. case_decide; simpl; [by rewrite Hsub|].
      apply Htopic. by right.
  - apply inv_loop_running; [done|done|by rewrite Hl|done|done|].
    intros ev' todo' x [= <- <-] Hx. apply Htopic. by right.
Qed.

Lemma inv_deliver s s' ch resp :
  inv s → s_panic s = None → s_loop s = LDeliver ch resp → deliver ch resp s = Some s' → inv s'.
Proof.
  intros I Hp Hl Hs. pose proof (inv_chans _ I) as Hc. rewrite Hl in Hc.
  unfold deliver in Hs. rewrite (chans_inv_head _ _ _ _ _ Hc eq_refl) in Hs. simpl in Hs.
  injection Hs as <-. split; simpl; try apply I.
  - eapply subs_inv_loop; [apply I|by intros x ?%elem_of_nil|]. by rewrite Hl.
  - by eapply events_inv_loop; [apply I|].
  - by eapply chans_inv_drop; [exact Hc|].
  - eapply client_inv_running; [apply I|by rewrite Hl|done].
  - by rewrite Hp.
Qed.

Lemma inv_tearDown s e :
  inv s → s_panic s = None → s_loop s = LTearDown e → inv (tearDown e s).
Proof.
  intros I Hp Hl. pose proof (inv_chans _ I) as Hc. rewrite Hl in Hc.
  unfold tearDown. split; simpl.
  - eapply subs_inv_tearDown; [apply I|by rewrite Hl|done|done].
  - by eapply events_inv_loop; [apply I|].
  - unfold chans_inv in *. simpl in *. by rewrite app_nil_r.
  - destruct (inv_client _ I) as (_ & H2 & _). rewrite Hl in H2. unfold client_inv. simpl in *.
    split_ands; [done|done| |done]. by intros _.
  - destruct (inv_fifo _ I) as [_ ?]. done.
  - by rewrite Hp.
Qed.

(** After the critical section of the tear-down nothing is registered. *)
Lemma torn_down_unregistered s sub :
  inv s → torn_down (s_loop s) = true → ¬ registered (c_subs (s_client s)) sub.
Proof.
  intros I Hl (t & subs & Ht & _). destruct (inv_client _ I) as (H1 & _ & H3 & _).
  rewrite Hl in H1. destruct (H3 H1) as (_ & Hs & _). by rewrite Hs, lookup_empty in Ht.
Qed.

Lemma client_inv_torn c done open l done' open' l' :
  client_inv c done open l → torn_down l = true → torn_down l' = true →
  done' = done_closed l' → (l' = LExit → open' = false) → client_inv c done' open' l'.
Proof.
  intros (H1 & H2 & H3 & H4) Hl Hl' Hd Ho. unfold client_inv. split_ands; [congruence|done..].
Qed.

(** During the tear-down [readLoop] moves on, keeping its lists. *)
Lemma inv_loop_torn s l' :
  inv s → s_panic s = None → torn_down (s_loop s) = true → torn_down l' = true →
  loop_todo l' = [] → loop_closing l' = loop_closing (s_loop s) →
  loop_owed l' = loop_owed (s_loop s) → done_closed l' = done_closed (s_loop s) →
  (l' = LExit → s_open s = false) → inv (set_loop l' s).
Proof.
  intros I Hp Hl Hl' Htodo Hcl Howed Hd Ho. split; simpl; try apply I.
  - eapply subs_inv_loop; [apply I| |by rewrite Hcl]. intros x. rewrite Htodo, Hcl. intros Hx.
    apply (subs_loop _ _ _ _ (inv_subs _ I)). apply elem_of_app. by right.
  - eapply events_inv_loop; [apply I|]. intros ev todo x -> Hx. simpl in Htodo. subst todo.
    by apply elem_of_nil in Hx.
  - unfold chans_inv. rewrite Howed. apply I.
  - eapply client_inv_torn; [apply I|done|done| |done]. rewrite Hd. by destruct (inv_client _ I) as (_ & ? & _).
  - by rewrite Hp.
Qed.

Lemma inv_set_open s : inv s → inv (set_open false s).
Proof.
  intros []. split; simpl; try done.
  destruct inv_client0 as (H1 & H2 & H3 & H4). unfold client_inv. by split_ands.
Qed.

(** The first pending call is failed. *)
Lemma inv_closePending s s' ch p a :
  inv s → s_panic s = None → s_loop s = LClosePending (ch :: p) a → closeChan ch s = Some s' →
  inv (set_loop (LClosePending p a) s').
Proof.
  intros I Hp Hl Hs. pose proof (inv_chans _ I) as Hch. pose proof (inv_subs _ I) as Hsub.
  pose proof (inv_client _ I) as Hcl. rewrite Hl in *. unfold closeChan in Hs.
  rewrite (chans_inv_head _ _ _ _ _ Hch eq_refl) in Hs. simpl in Hs. injection Hs as <-.
  split; simpl; try apply I.
  - eapply subs_inv_loop; [exact Hsub|apply (subs_loop _ _ _ _ Hsub)|done].
  - by eapply events_inv_loop; [apply I|].
  - by eapply chans_inv_drop; [exact Hch|].
  - eapply client_inv_torn; [exact Hcl|done|done| |done]. by destruct Hcl as (_ & -> & _).
  - by rewrite Hp.
Qed.

(** The first subscription of the list is closed. *)
Lemma inv_closeSub s s' sub a :
  inv s → s_panic s = None → s_loop s = LCloseSubs (sub :: a) → onceClose sub s = Some s' →
  inv (set_loop (LCloseSubs a) s').
Proof.
  intros I Hp Hl Hs.
  destruct (inv_onceClose s s' sub I Hp) as (I1 & Hth & Hl1 & Hp1 & sb & Hsb & Honce);
    [apply torn_down_unregistered; [done|by rewrite Hl]|done|].
  rewrite Hl in Hl1. pose proof (inv_chans _ I1) as Hch1. pose proof (inv_client _ I1) as Hcl1.
  rewrite Hl1 in Hch1, Hcl1. split; simpl; try apply I1.
  - eapply subs_inv_closed; [apply I1|exact Hsb|done|done|by rewrite Hl1].
  - by eapply events_inv_loop; [apply I1|].
  - exact Hch1.
  - eapply client_inv_torn; [exact Hcl1|done|done| |done]. by destruct Hcl1 as (_ & -> & _).
  - by rewrite Hp1.
Qed.

Lemma inv_closeDone s p a :
  inv s → s_panic s = None → s_loop s = LCloseDone p a →
  s_done s = false ∧ inv (set_loop (LClosePending p a) (set_done true s)).
Proof.
  intros I Hp Hl. pose proof (inv_chans _ I) as Hch. pose proof (inv_subs _ I) as Hsub.
  pose proof (inv_client _ I) as Hcl. rewrite Hl in *. split; [by destruct Hcl as (_ & -> & _)|].
  split; simpl; try apply I.
  - eapply subs_inv_loop; [exact Hsub|apply (subs_loop _ _ _ _ Hsub)|done].
  - by eapply events_inv_loop; [apply I|].
  - exact Hch.
  - by eapply client_inv_torn.
  - by rewrite Hp.
Qed.

Lemma inv_loopStep s s' i : inv s → s_panic s = None → loopStep i s = Some s' → inv s'.
Proof.
  intros I Hp Hs. unfold loopStep in Hs.
  destruct (s_loop s) as [|ev [|sub todo]|ch resp|e|p a|[|ch p] a|[|sub a]| |] eqn:Hl.
  - by eapply inv_receive.
  - injection Hs as <-. apply inv_loop_running; [done|done|by rewrite Hl|done..].
  - by eapply inv_dispatch.
  - by eapply inv_deliver.
  - injection Hs as <-. by apply inv_tearDown.
  - destruct (inv_closeDone s p a I Hp Hl) as [Hd I']. rewrite Hd in Hs. by injection Hs as <-.
  - injection Hs as <-. by apply inv_loop_torn; rewrite ?Hl.
  - apply fmap_Some in Hs as (s1 & H1 & ->). by eapply inv_closePending.
  - injection Hs as <-. by apply inv_loop_torn; rewrite ?Hl.
  - apply fmap_Some in Hs as (s1 & H1 & ->). by eapply inv_closeSub.
  - injection Hs as <-. apply inv_loop_torn; try (by simpl; rewrite ?Hl).
    by apply inv_set_open.
  - done.
Qed.

Lemma inv_exec s s' a : inv s → exec a s = Some s' → inv s'.
Proof.
  intros I Hs. unfold exec in Hs. destruct (s_panic s) eqn:Hp; [done|].
  destruct a as [tid topic filter|tid sub|tid c|i|sub|]; simpl in Hs.
  - destruct (s_threads s !! tid) eqn:Ht; [done|]. injection Hs as <-.
    apply inv_set_thread; [done| |done]. intros t' x Ht'. congruence.
  - destruct (s_threads s !! tid) eqn:Ht; [done|].
    apply bind_Some in Hs as (sb & Hsb & Hs). destruct (sub_returned sb); [|done]. injection Hs as <-.
    apply inv_set_thread; [done| |].
    + intros t' x Ht'. congruence.
    + intros x [= <-]. split; [by eexists|by intros [? ?]].
  - by eapply inv_threadStep.
  - by eapply inv_loopStep.
  - apply bind_Some in Hs as (sb & Hsb & Hs). destruct (sub_events sb) as [|ev evs] eqn:Hev; [done|].
    destruct (sub_returned sb); [|done]. injection Hs as <-.
    eapply inv_update_sub; [done|done|exact Hsb| |done|done].
    destruct (inv_sub_ok s sub sb I Hsb) as (H1 & H2 & H3). rewrite Hev in *.
    unfold sub_ok. simpl in *. split_ands; [done|lia|]. by apply Forall_cons in H3 as [_ ?].
  - injection Hs as <-. by apply inv_set_open.
Qed.

Lemma inv_reachable s : rtc step newWSClient s → inv s.
Proof.
  intros Hr. pattern s. eapply rtc_ind_r; [exact inv_newWSClient| |exact Hr].
  intros s1 s2 _ [a Ha] I. by eapply inv_exec.
Qed.

Lemma run_reachable acts s s' : run acts s = Some s' → rtc step s s'.
Proof.
  revert s. induction acts as [|a acts IH]; intros s Hr; simpl in Hr.
  - injection Hr as <-. constructor.
  - apply bind_Some in Hr as (s1 & H1 & Hr). eapply rtc_l; [by exists a|by apply IH].
Qed.
End preservation.
