(* ===== verification/WebSocketProps.v ===== *)
(** * What the WebSocket client guarantees.

    Theorems over the reachable states of WebSocket.v, from the invariants of
    WebSocketInv.v: the discipline of the channels, that [readLoop] blocks only on the
    connection, the tear-down, the fan-out of events and the correlation of responses
    with requests; and two executions that break what the comments of
    src/websocket.go promise. *)
From S2P Require Import Prelude GoLib Wire Json WebSocket WebSocketInv.

(** ** Executions *)

(** The messages of a node, for the example executions. *)
Definition respond (status id : string) : input := InMessage (MkWsMessage "" None status id "" "").
Definition publish (topic : EventTopic) (data : json) : input :=
  InMessage (MkWsMessage topic (Some data) "" "" "" "").

(** A call of [Subscribe] that no other thread interferes with. *)
Definition subscribing (tid : nat) (topic : EventTopic) (id : string) : list action :=
  [ASubscribe tid topic None; AThread tid ChGo; AThread tid ChGo; AThread tid ChGo;
   ALoop (respond "Subscribed" id); ALoop InOther; AThread tid ChGo; AThread tid ChGo].

(** The environment is kind: no write fails, no context is cancelled, no read fails and
    the connection is not closed. *)
Definition kind (a : action) : bool :=
  match a with
  | AThread _ (ChWriteErr _) | AThread _ (ChCtx _) | ALoop (InError _) | AClose => false
  | _ => true
  end.

(** Runs an execution that is known to succeed. *)
Definition after (acts : list action) : state := default newWSClient (run acts newWSClient).

(** ** Progress of readLoop *)

Section props.
Context {RT : GoRuntime}.
Implicit Types s : state.

Lemma loopStep_progress s i :
  inv s → s_panic s = None → s_loop s ≠ LRead → s_loop s ≠ LExit →
  ∃ s', exec (ALoop i) s = Some s'.
Proof.
  intros I Hp Hr He. unfold exec. rewrite Hp. simpl. unfold loopStep.
  pose proof (inv_chans _ I) as Hc. pose proof (subs_loop _ _ _ _ (inv_subs _ I)) as Hs.
  destruct (s_loop s) as [|ev [|sub todo]|ch resp|e|p a|[|ch p] a|[|sub a]| |] eqn:Hl; try done;
    try (by eexists).
  - destruct (Hs sub) as [sb Hsb]; [by left|]. unfold dispatch. rewrite Hsb. simpl.
    destruct (sub_eventsClosed sb); [by eexists|]. case_decide; by eexists.
  - unfold deliver. rewrite (chans_inv_head _ _ _ _ _ Hc eq_refl). by eexists.
  - destruct (s_done s); by eexists.
  - unfold closeChan. rewrite (chans_inv_head _ _ _ _ _ Hc eq_refl). by eexists.
  - destruct (Hs sub) as [sb Hsb]; [by left|]. unfold onceClose. rewrite Hsb. simpl.
    destruct (sub_once sb); [by eexists|]. destruct (sub_eventsClosed sb); by eexists.
Qed.

(** ** The fan-out *)

(** What a subscription holds after an event was offered to it. *)
Definition offered (ev : Event) (sb : Subscription) : Subscription :=
  if decide (length (sub_events sb) < subEventBuffer)%nat
  then set_events (sub_events sb ++ [ev]) sb else sb.

Lemma fan_out_run s ev todo :
  s_panic s = None → s_loop s = LDispatch ev todo → NoDup todo →
  (∀ sub, sub ∈ todo → ∃ sb, s_heap s !! sub = Some sb ∧ sub_eventsClosed sb = false) →
  ∃ s', run (replicate (S (length todo)) (ALoop InOther)) s = Some s' ∧ s_loop s' = LRead ∧
    s_panic s' = None ∧
    ∀ sub, s_heap s' !! sub =
      if decide (sub ∈ todo) then offered ev <$> s_heap s !! sub else s_heap s !! sub.
Proof.
  revert s. induction todo as [|sub todo IH]; intros s Hp Hl Hnd Hopen.
  - exists (set_loop LRead s). split_ands; [|done|done|].
    + simpl. unfold exec. rewrite Hp. simpl. unfold loopStep. by rewrite Hl.
    + intros sub. case_decide as Hin; [by apply elem_of_nil in Hin|done].
  - apply NoDup_cons in Hnd as [Hni Hnd].
    destruct (Hopen sub) as (sb & Hsb & Hcl); [by left|].
    assert (∃ s1, exec (ALoop InOther) s = Some s1 ∧ s_panic s1 = None ∧ s_loop s1 = LDispatch ev todo ∧
      s_heap s1 = <[sub := offered ev sb]> (s_heap s)) as (s1 & H1 & Hp1 & Hl1 & Hh1).
    { unfold exec. rewrite Hp. simpl. unfold loopStep. rewrite Hl. unfold dispatch. rewrite Hsb.
      simpl. rewrite Hcl. unfold offered. case_decide; eexists; split_ands; try done.
      simpl. by rewrite insert_id. }
    destruct (IH s1 Hp1 Hl1 Hnd) as (s' & Hr & Hl' & Hp' & Hh').
    { intros x Hx. rewrite Hh1, lookup_insert_ne by (by intros ->). apply Hopen. by right. }
    exists s'. change (replicate (S (length (sub :: todo))) (ALoop InOther))
      with (ALoop InOther :: replicate (S (length todo)) (ALoop InOther)).
    cbn [run]. rewrite H1. split_ands; [exact Hr|done|done|]. intros x. rewrite Hh', Hh1.
    destruct (decide (x = sub)) as [->|Hne].
    + rewrite lookup_insert_eq, decide_False, decide_True, Hsb by (done || by left). done.
    + rewrite lookup_insert_ne by done. destruct (decide (x ∈ todo)).
      * by rewrite decide_True by (by right).
      * rewrite decide_False; [done|]. by intros [->|?]%elem_of_cons.
Qed.

(** ** The tear-down *)

Lemma run_app acts1 acts2 s :
  run (acts1 ++ acts2) s = s' ← run acts1 s; run acts2 s'.
Proof.
  revert s. induction acts1 as [|a acts1 IH]; intros s; [done|]. simpl.
  destruct (exec a s); [|done]. apply IH.
Qed.

(** How many steps [readLoop] has left, once it has stopped reading. *)
Definition steps_left (m : gmap EventTopic (list nat)) (pending : list nat) (l : loop) : nat :=
  match l with
  | LTearDown _ =>
      5 + length pending + length (go_range m ≫= λ topic, default [] (m !! topic))
  | LCloseDone p a => 4 + length p + length a
  | LClosePending p a => 3 + length p + length a
  | LCloseSubs a => 2 + length a
  | LCloseConn => 1
  | _ => 0
  end.

Definition stopping (l : loop) : bool :=
  match l with LRead | LDispatch _ _ | LDeliver _ _ => false | _ => true end.

Lemma stopping_step s :
  inv s → s_panic s = None → stopping (s_loop s) = true → s_loop s ≠ LExit →
  ∃ s', exec (ALoop InOther) s = Some s' ∧ s_panic s' = None ∧ stopping (s_loop s') = true ∧
    S (steps_left (c_subs (s_client s')) (c_pending (s_client s')) (s_loop s')) =
    steps_left (c_subs (s_client s)) (c_pending (s_client s)) (s_loop s).
Proof.
  intros I Hp Hst He. destruct (loopStep_progress s InOther I Hp) as [s' Hs']; [by intros H; rewrite H in Hst|done|].
  exists s'. split; [done|]. pose proof (inv_exec _ _ _ I Hs') as I'.
  assert (stopping (s_loop s') = true ∧
    S (steps_left (c_subs (s_client s')) (c_pending (s_client s')) (s_loop s')) =
    steps_left (c_subs (s_client s)) (c_pending (s_client s)) (s_loop s)) as [Hst' Hn].
  { unfold exec in Hs'. rewrite Hp in Hs'. simpl in Hs'. unfold loopStep in Hs'.
    destruct (inv_client _ I) as (_ & Hd & _).
    destruct (s_loop s) as [| | |e|p a|[|ch p] a|[|sub a]| |] eqn:Hl; try done.
    - injection Hs' as <-. simpl. split; [done|]. lia.
    - rewrite Hd in Hs'. injection Hs' as <-. simpl. split; [done|]. lia.
    - injection Hs' as <-. simpl. split; [done|]. lia.
    - apply fmap_Some in Hs' as (s1 & _ & ->). simpl. split; [done|]. lia.
    - injection Hs' as <-. simpl. split; [done|]. lia.
    - apply fmap_Some in Hs' as (s1 & _ & ->). simpl. split; [done|]. lia.
    - injection Hs' as <-. simpl. split; [done|]. lia. }
  split_ands; [|done|done]. destruct (s_panic s') as [msg|] eqn:Hp'; [|done].
  pose proof (inv_panic _ I') as Hpi. rewrite Hp' in Hpi.
  destruct Hpi as (_ & ev & sub & todo & sb & Hl & _). by rewrite Hl in Hst'.
Qed.

Lemma tear_down_run n s :
  inv s → s_panic s = None → stopping (s_loop s) = true →
  steps_left (c_subs (s_client s)) (c_pending (s_client s)) (s_loop s) = n →
  ∃ s', run (replicate n (ALoop InOther)) s = Some s' ∧ s_loop s' = LExit ∧ s_panic s' = None.
Proof.
  revert s. induction n as [|n IH]; intros s I Hp Hst Hn.
  - exists s. split_ands; [done| |done]. destruct (s_loop s) as [| | |e|p a|p a|a| |]; simpl in *; try done; lia.
  - destruct (stopping_step s I Hp Hst) as (s1 & H1 & Hp1 & Hst1 & Hn1).
    { intros H. by rewrite H in Hn. }
    destruct (IH s1 (inv_exec _ _ _ I H1) Hp1 Hst1) as (s' & Hr & Hl & Hp'); [lia|].
    exists s'. simpl. rewrite H1. done.
Qed.

(** ** Correlation *)

(** A thread between its place in the queue and its write. *)
Definition writing (ts : gmap nat thread) (tid ch : nat) : Prop :=
  ∃ k req, ts !! tid = Some (TWrite k req ch).

(** At most one call at a time is between these two points, and no write fails. *)
Definition one_writer s : Prop :=
  ∀ tid1 tid2 ch1 ch2, writing (s_threads s) tid1 ch1 → writing (s_threads s) tid2 ch2 → tid1 = tid2.
Definition write_ok (a : action) : bool :=
  match a with AThread _ (ChWriteErr _) => false | _ => true end.
Definition serial_step s s' : Prop :=
  ∃ a, exec a s = Some s' ∧ write_ok a = true ∧ one_writer s'.

Definition is_write (t : thread) : bool := match t with TWrite _ _ _ => true | _ => false end.

Definition not_writing (t : option thread) : Prop :=
  match t with Some (TWrite _ _ _) => False | _ => True end.

Lemma writing_insert ts tid t tid' ch :
  not_writing (ts !! tid) → not_writing (Some t) →
  writing (<[tid := t]> ts) tid' ch ↔ writing ts tid' ch.
Proof.
  intros Hold Hnew. unfold writing. destruct (decide (tid = tid')) as [<-|Hne].
  - rewrite lookup_insert_eq. split; intros (k & req & Heq).
    + injection Heq as ->. done.
    + by rewrite Heq in Hold.
  - by rewrite lookup_insert_ne.
Qed.

(** What a step does to the queue, the wire and the writers. *)
Inductive queue_effect s s' : Prop :=
| QueueKept :
    (∀ tid ch, writing (s_threads s') tid ch ↔ writing (s_threads s) tid ch) →
    s_enqueued s' = s_enqueued s → s_wire s' = s_wire s → queue_effect s s'
| QueueEnter tid k req ch :
    not_writing (s_threads s !! tid) → s_threads s' = <[tid := TWrite k req ch]> (s_threads s) →
    s_enqueued s' = s_enqueued s ++ [ch] → s_wire s' = s_wire s → queue_effect s s'
| QueueWrite tid k req ch :
    s_threads s !! tid = Some (TWrite k req ch) →
    s_threads s' = <[tid := TSelect k ch]> (s_threads s) →
    s_enqueued s' = s_enqueued s → s_wire s' = s_wire s ++ [(ch, req)] → queue_effect s s'.

Lemma queue_kept s s' :
  s_threads s' = s_threads s → s_enqueued s' = s_enqueued s → s_wire s' = s_wire s → queue_effect s s'.
Proof. intros Ht He Hw. apply QueueKept; [|done|done]. by rewrite Ht. Qed.

Lemma queue_kept_thread s s' tid t :
  s_threads s' = <[tid := t]> (s_threads s) → not_writing (s_threads s !! tid) → not_writing (Some t) →
  s_enqueued s' = s_enqueued s → s_wire s' = s_wire s → queue_effect s s'.
Proof.
  intros Ht Ho Hn He Hw. apply QueueKept; [|done|done]. intros tid' ch. rewrite Ht.
  by apply writing_insert.
Qed.

Lemma onceClose_queue s s' sub :
  onceClose sub s = Some s' →
  s_threads s' = s_threads s ∧ s_enqueued s' = s_enqueued s ∧ s_wire s' = s_wire s.
Proof.
  unfold onceClose. intros (sb & _ & Hs)%bind_Some.
  destruct (sub_once sb); [by injection Hs as <-|].
  destruct (sub_eventsClosed sb); by injection Hs as <-.
Qed.

Lemma threadStep_queue s s' tid c :
  threadStep tid c s = Some s' → write_ok (AThread tid c) = true → queue_effect s s'.
Proof.
  unfold threadStep. intros (t & Ht & Hs)%bind_Some Hok.
  destruct t as [topic filter|k req|k req ch|k ch|k r|sub ret|sub ret|ret]; try done.
  - injection Hs as <-. unfold startSubscribe.
    destruct (c_closed _); (eapply (queue_kept_thread _ _ tid); [done|by rewrite Ht|done|done|done]).
  - injection Hs as <-. unfold enqueue. destruct (c_closed _).
    + eapply (queue_kept_thread _ _ tid); [done|by rewrite Ht|done|done|done].
    + eapply (QueueEnter _ _ tid); [by rewrite Ht|done|done|done].
  - destruct c; try done. simpl in Hs. destruct (s_open s && encodable req); [|done]. injection Hs as <-.
    by eapply (QueueWrite _ _ tid).
  - assert (∃ r ch', s' = set_thread tid (TReturned k r) (set_chans ch' s)) as (r & ch' & ->).
    { destruct c; simpl in Hs; try done.
      - apply bind_Some in Hs as (rc & _ & Hs). destruct (rc_queue rc).
        + destruct (rc_closed rc); [|done]. injection Hs as <-. exists (Err (closeReason (s_client s))), (s_chans s).
          by destruct s.
        + injection Hs as <-. by eexists _, _.
      - injection Hs as <-. exists (Err e), (s_chans s). by destruct s.
      - destruct (s_done s); [|done]. injection Hs as <-.
        exists (Err (closeReason (s_client s))), (s_chans s). by destruct s. }
    eapply (queue_kept_thread _ _ tid); [done|by rewrite Ht|done|done|done].
  - destruct k as [sub|sub]; simpl in Hs.
    + destruct r as [resp|e]; [case_decide|].
      * apply bind_Some in Hs as (sb & _ & Hs). injection Hs as <-.
        eapply (queue_kept_thread _ _ tid); [done|by rewrite Ht|done|done|done].
      * injection Hs as <-. eapply (queue_kept_thread _ _ tid); [done|by rewrite Ht|done|done|done].
      * injection Hs as <-. eapply (queue_kept_thread _ _ tid); [done|by rewrite Ht|done|done|done].
    + injection Hs as <-. eapply (queue_kept_thread _ _ tid); [done|by rewrite Ht|done|done|done].
  - apply bind_Some in Hs as (sb & _ & Hs). injection Hs as <-.
    eapply (queue_kept_thread _ _ tid); [done|by rewrite Ht|done|done|done].
  - apply fmap_Some in Hs as (s1 & (H1 & H2 & H3)%onceClose_queue & ->).
    eapply (queue_kept_thread _ _ tid); [simpl; by rewrite H1|by rewrite Ht|done|done|done].
Qed.

Lemma loopStep_queue s s' i : loopStep i s = Some s' → queue_effect s s'.
Proof.
  intros Hs. unfold loopStep in Hs.
  destruct (s_loop s) as [|ev [|sub todo]|ch resp|e|p a|[|ch p] a|[|sub a]| |];
    try (injection Hs as <-; by apply queue_kept).
  - unfold receive in Hs. repeat case_match; try done; injection Hs as <-; by apply queue_kept.
  - unfold dispatch in Hs. apply bind_Some in Hs as (sb & _ & Hs).
    repeat case_match; injection Hs as <-; by apply queue_kept.
  - unfold deliver in Hs. apply bind_Some in Hs as (rc & _ & Hs).
    repeat case_match; try done; injection Hs as <-; by apply queue_kept.
  - destruct (s_done s); injection Hs as <-; by apply queue_kept.
  - apply fmap_Some in Hs as (s1 & H1 & ->). unfold closeChan in H1.
    apply bind_Some in H1 as (rc & _ & H1). case_match; injection H1 as <-; by apply queue_kept.
  - apply fmap_Some in Hs as (s1 & (H1 & H2 & H3)%onceClose_queue & ->). by apply queue_kept.
  - done.
Qed.

Lemma exec_queue s s' a : exec a s = Some s' → write_ok a = true → queue_effect s s'.
Proof.
  intros Hs Hok. unfold exec in Hs. destruct (s_panic s); [done|].
  destruct a as [tid topic filter|tid sub|tid c|i|sub|]; simpl in Hs.
  - destruct (s_threads s !! tid) eqn:Ht; [done|]. injection Hs as <-.
    eapply (queue_kept_thread _ _ tid); [done|by rewrite Ht|done|done|done].
  - destruct (s_threads s !! tid) eqn:Ht; [done|]. apply bind_Some in Hs as (sb & _ & Hs).
    destruct (sub_returned sb); [|done]. injection Hs as <-.
    eapply (queue_kept_thread _ _ tid); [done|by rewrite Ht|done|done|done].
  - by eapply threadStep_queue.
  - by eapply loopStep_queue.
  - apply bind_Some in Hs as (sb & _ & Hs). repeat case_match; try done.
    injection Hs as <-. by apply queue_kept.
  - injection Hs as <-. by apply queue_kept.
Qed.

(** In a serial execution the queue is what was written, and the channel of the call
    that is about to write, if there is one. *)
Definition serial_inv s : Prop :=
  (∀ tid ch, writing (s_threads s) tid ch → s_enqueued s = (s_wire s).*1 ++ [ch]) ∧
  ((∀ tid ch, ¬ writing (s_threads s) tid ch) → s_enqueued s = (s_wire s).*1).

Lemma serial_inv_step s s' :
  serial_inv s → one_writer s → serial_step s s' → serial_inv s'.
Proof.
  intros [Hw Hn] Hone (a & Ha & Hok & Hone').
  destruct (exec_queue s s' a Ha Hok) as [Hsame He Hwi|tid k req ch Hold Ht He Hwi|tid k req ch Hold Ht He Hwi].
  - unfold serial_inv. rewrite He, Hwi. setoid_rewrite Hsame. done.
  - assert (writing (s_threads s') tid ch) as Hch.
    { exists k, req. by rewrite Ht, lookup_insert_eq. }
    assert (∀ tid' ch', ¬ writing (s_threads s) tid' ch') as Hnone.
    { intros tid' ch' Hw'. assert (tid ≠ tid') as Hne.
      { intros <-. destruct Hw' as (k' & req' & Hk'). by rewrite Hk' in Hold. }
      apply Hne, (Hone' tid tid' ch ch'); [done|].
      unfold writing. by rewrite Ht, lookup_insert_ne. }
    split; [|intros Hno; by destruct (Hno tid ch)].
    intros tid' ch' Hw'. pose proof (Hone' _ _ _ _ Hch Hw') as <-.
    destruct Hch as (? & ? & Hch), Hw' as (? & ? & Hw'). rewrite Hch in Hw'. injection Hw' as <- <- <-.
    rewrite He, Hwi, Hn by done. done.
  - assert (∀ tid' ch', ¬ writing (s_threads s') tid' ch') as Hnone.
    { intros tid' ch' (k' & req' & Hk'). rewrite Ht in Hk'.
      apply lookup_insert_Some in Hk' as [[_ ?]|[Hne Hk']]; [done|].
      destruct Hne. apply (Hone tid tid' ch ch'); unfold writing; eauto. }
    split; [intros tid' ch' H; by destruct (Hnone tid' ch')|]. intros _.
    rewrite He, Hwi, fmap_app. apply (Hw tid ch). by exists k, req.
Qed.

Lemma serial_reachable s :
  rtc serial_step newWSClient s → serial_inv s ∧ one_writer s ∧ inv s.
Proof.
  intros Hr. pattern s. eapply rtc_ind_r; [| |exact Hr].
  - split_ands; [split| |apply inv_newWSClient].
    + intros tid ch (? & ? & H). simpl in H. by rewrite lookup_empty in H.
    + done.
    + intros ? ? ? ? (? & ? & H). simpl in H. by rewrite lookup_empty in H.
  - intros s1 s2 _ Hs (H1 & H2 & I). split; [by eapply serial_inv_step|].
    destruct Hs as (a & Ha & _ & Hone). split; [done|]. by eapply inv_exec.
Qed.
End props.

(** ** Properties *)

(** C9: the channels, in every reachable state. An events channel never holds more
    than [subEventBuffer] events, all of its subscription's topic, and is closed
    exactly when its [sync.Once] has run. The pending response channels are distinct,
    open and empty, so the answer to each can be sent without blocking. Registered
    subscriptions are listed once, under their own topic, and are open. Once the client
    is closed nothing is pending or registered and the read error is recorded, and the
    done channel is only closed on a closed client. *)
Theorem ws_discipline {RT : GoRuntime} s :
  rtc step newWSClient s →
  (∀ sub sb, s_heap s !! sub = Some sb →
     (length (sub_events sb) ≤ subEventBuffer)%nat ∧
     Forall (λ ev, ev_Topic ev = sub_topic sb) (sub_events sb) ∧
     sub_eventsClosed sb = sub_once sb) ∧
  (NoDup (c_pending (s_client s)) ∧
   ∀ ch, ch ∈ c_pending (s_client s) → s_chans s !! ch = Some (MkRespChan [] false)) ∧
  (∀ t subs, c_subs (s_client s) !! t = Some subs → NoDup subs ∧
     ∀ sub, sub ∈ subs → ∃ sb, s_heap s !! sub = Some sb ∧ sub_topic sb = t ∧ sub_eventsClosed sb = false) ∧
  (c_closed (s_client s) = true →
     c_pending (s_client s) = [] ∧ c_subs (s_client s) = ∅ ∧ is_Some (c_readErr (s_client s))) ∧
  (s_done s = true → c_closed (s_client s) = true).
Proof.
  intros I%inv_reachable. pose proof (inv_events _ I) as [Hh _].
  pose proof (inv_client _ I) as (H1 & H2 & H3 & _). split_ands.
  - intros sub sb Hsb. destruct (Hh sub sb Hsb) as (? & ? & ?). done.
  - destruct (inv_chans _ I) as [Hnd _]. by apply NoDup_app in Hnd as (_ & _ & ?).
  - intros ch Hch. apply (inv_chans _ I). apply elem_of_app. by right.
  - intros t subs Ht. destruct (subs_lists _ _ _ _ (inv_subs _ I) t subs Ht) as [Hnd Hall].
    split; [done|]. intros sub Hin. apply Hall, hview_Some in Hin as (sb & Hsb & Htop & Honce).
    exists sb. split_ands; [done|done|]. destruct (Hh sub sb Hsb) as (-> & _). done.
  - done.
  - rewrite H1, H2. by destruct (s_loop s).
Qed.

Lemma ws_discipline_witness : NoDup (c_pending (s_client (after (subscribing 0 "block" "a")))).
Proof.
  refine (proj1 (proj1 (proj2 (ws_discipline (after (subscribing 0 "block" "a")) _)))).
  apply (run_reachable (subscribing 0 "block" "a")). vm_compute. reflexivity.
Defined.

(** C18: [readLoop] blocks only on the connection, and panics only in one place. In
    every reachable state in which it is not waiting for a message it can take its next
    step, whatever the callers do: in particular it never blocks on a response channel.
    It never closes a channel twice nor sends a response to a closed channel; the one
    panic that can happen is the send of an event to a subscription that was closed
    after [readLoop] copied the registry. *)
Theorem ws_readLoop {RT : GoRuntime} s :
  rtc step newWSClient s →
  (s_panic s = None → s_loop s ≠ LRead → s_loop s ≠ LExit →
   ∀ i, ∃ s', exec (ALoop i) s = Some s') ∧
  (∀ msg, s_panic s = Some msg → msg = sendOnClosed ∧
     ∃ ev sub todo sb, s_loop s = LDispatch ev (sub :: todo) ∧ s_heap s !! sub = Some sb ∧
       sub_eventsClosed sb = true).
Proof.
  intros I%inv_reachable. split.
  - intros Hp Hr He i. by apply loopStep_progress.
  - intros msg Hp. pose proof (inv_panic _ I) as H. by rewrite Hp in H.
Qed.

(** Two subscriptions to one topic; the first is unsubscribed, and while the caller is
    on its way from the response to [removeSubscription] the node publishes an event. *)
Definition panicExecution : list action :=
  subscribing 0 "block" "a" ++ subscribing 1 "block" "b" ++
  [AUnsubscribe 2 0; AThread 2 ChGo; AThread 2 ChGo;
   ALoop (respond "Unsubscribed" "a"); ALoop InOther; AThread 2 ChGo; AThread 2 ChGo;
   ALoop (publish "block" JNull); AThread 2 ChGo; AThread 2 ChGo; ALoop InOther].

Lemma ws_readLoop_witness :
  s_panic (after panicExecution) = Some sendOnClosed ∧
  ∃ ev sub todo sb, s_loop (after panicExecution) = LDispatch ev (sub :: todo) ∧
    s_heap (after panicExecution) !! sub = Some sb ∧ sub_eventsClosed sb = true.
Proof.
  split; [vm_compute; reflexivity|].
  refine (proj2 (proj2 (ws_readLoop (after panicExecution) _) sendOnClosed _)).
  - apply (run_reachable panicExecution). vm_compute. reflexivity.
  - vm_compute. reflexivity.
Defined.

(** C21: [Unsubscribe] can crash the program. There is an execution in which no write
    fails, no context is cancelled and the connection stays up, in which [Unsubscribe]
    succeeds and returns nil, and [readLoop] panics by sending an event on the channel
    that [Unsubscribe] has closed. *)
Theorem ws_unsubscribe_panics :
  ∃ acts s, Forall (λ a, kind a = true) acts ∧ run acts newWSClient = Some s ∧
    s_threads s !! 2%nat = Some (TExit RetNil) ∧ s_panic s = Some sendOnClosed.
Proof.
  exists panicExecution, (after panicExecution). split_ands; [|vm_compute; reflexivity..].
  apply (bool_decide_unpack _). vm_compute. exact I.
Qed.

(** C20: the tear-down ends. From every reachable state in which [readLoop] has stopped
    reading, [steps_left] of its own steps, a number given by the pending calls and the
    registered subscriptions, take it to its end without a panic. *)
Theorem ws_tear_down {RT : GoRuntime} s :
  rtc step newWSClient s → s_panic s = None → stopping (s_loop s) = true →
  ∃ s', run (replicate (steps_left (c_subs (s_client s)) (c_pending (s_client s)) (s_loop s))
               (ALoop InOther)) s = Some s' ∧ s_loop s' = LExit ∧ s_panic s' = None.
Proof. intros I%inv_reachable Hp Hst. by eapply tear_down_run. Qed.

(** The connection fails while a call is waiting for its response. *)
Definition failing : list action :=
  subscribing 0 "block" "a" ++
  [ASubscribe 1 "dkg" None; AThread 1 ChGo; AThread 1 ChGo; AThread 1 ChGo;
   ALoop (InError (ForeignErr "EOF"))].

Lemma ws_tear_down_witness :
  ∃ s', run (replicate 8 (ALoop InOther)) (after failing) = Some s' ∧ s_loop s' = LExit ∧
        s_panic s' = None.
Proof.
  assert (rtc step newWSClient (after failing)) as Hr
    by (apply (run_reachable failing); vm_compute; reflexivity).
  pose proof (ws_tear_down (after failing) Hr) as H.
  assert (steps_left (c_subs (s_client (after failing))) (c_pending (s_client (after failing)))
    (s_loop (after failing)) = 8%nat) as Hn by (vm_compute; reflexivity).
  rewrite Hn in H. apply H; vm_compute; reflexivity.
Defined.

(** C19: after the tear-down nobody hangs. When [readLoop] has ended, the connection is
    closed, and every events channel is closed or a caller is about to close it; every
    call still running can take a step; one that waits for a response can return the
    error "websocket connection closed" with the read error inside, and so does a call
    of [Subscribe] that comes later. *)
Theorem ws_closed {RT : GoRuntime} s :
  rtc step newWSClient s → s_loop s = LExit →
  ∃ e, c_readErr (s_client s) = Some e ∧ s_open s = false ∧
    (∀ sub sb, s_heap s !! sub = Some sb → sub_eventsClosed sb = true ∨
       ∃ tid ret, s_threads s !! tid = Some (TCloseEvents sub ret)) ∧
    (∀ tid t, s_threads s !! tid = Some t →
       (∃ ret, t = TExit ret) ∨ ∃ c s', exec (AThread tid c) s = Some s') ∧
    (∀ tid k ch, s_threads s !! tid = Some (TSelect k ch) →
       exec (AThread tid ChDone) s =
       Some (set_thread tid (TReturned k (Err (ErrorWrap "websocket connection closed" e))) s)) ∧
    (∀ tid topic filter, s_threads s !! tid = Some (TSubscribe topic filter) →
       exec (AThread tid ChGo) s =
       Some (set_thread tid (TExit (RetErr (ErrorWrap "websocket connection closed" e))) s)).
Proof.
  intros I%inv_reachable Hl. destruct (inv_client _ I) as (H1 & H2 & H3 & H4).
  rewrite Hl in H1, H2. destruct (H3 H1) as (_ & Hs & e & He). exists e.
  assert (s_panic s = None) as Hp.
  { destruct (s_panic s) eqn:Hp; [|done]. pose proof (inv_panic _ I) as Hpi. rewrite Hp, Hl in Hpi.
    destruct Hpi as (_ & ? & ? & ? & ? & ? & _). done. }
  unfold exec. rewrite Hp. simpl. unfold threadStep. split_ands; [done|by apply H4| | | |].
  - intros sub sb Hsb. destruct (inv_sub_ok s sub sb I Hsb) as (-> & _).
    destruct (sub_once sb) eqn:Ho; [by left|]. right.
    destruct (subs_cover _ _ _ _ (inv_subs _ I) sub (sub_topic sb)) as [Hr|[Hc|(tid & t & Ht & ret & ->)]].
    + unfold hview. rewrite Hsb. simpl. by rewrite Ho.
    + destruct Hr as (t & subs & Ht & _). by rewrite Hs, lookup_empty in Ht.
    + rewrite Hl in Hc. by apply elem_of_nil in Hc.
    + eauto.
  - intros tid t Ht. rewrite Ht. simpl.
    assert (∀ sub, thread_sub t = Some sub → is_Some (s_heap s !! sub)) as Hdom
      by (intros sub; by apply (thread_sub_dom s tid)).
    destruct t as [topic filter|k req|k req ch|k ch|k r|sub ret|sub ret|ret]; [..|by left; eexists]; right.
    + exists ChGo. by eexists.
    + exists ChGo. by eexists.
    + exists (ChWriteErr e). by eexists.
    + exists ChDone. simpl. rewrite H2. by eexists.
    + exists ChGo. destruct (Hdom _ eq_refl) as [sb Hsb]. destruct k; simpl in *; [|by eexists].
      destruct r; [|by eexists]. case_decide; [|by eexists]. rewrite Hsb. by eexists.
    + exists ChGo. destruct (Hdom _ eq_refl) as [sb ->]. by eexists.
    + exists ChGo. destruct (Hdom _ eq_refl) as [sb Hsb]. unfold onceClose. rewrite Hsb. simpl.
      destruct (sub_once sb); [by eexists|]. destruct (sub_eventsClosed sb); by eexists.
  - intros tid k ch ->. simpl. rewrite H2. unfold closeReason. by rewrite He.
  - intros tid topic filter ->. simpl. unfold startSubscribe. rewrite H1. unfold closeReason. by rewrite He.
Qed.

Lemma ws_closed_witness :
  ∃ e, c_readErr (s_client (after (failing ++ replicate 8 (ALoop InOther)))) = Some e ∧
       s_open (after (failing ++ replicate 8 (ALoop InOther))) = false.
Proof.
  destruct (ws_closed (after (failing ++ replicate 8 (ALoop InOther)))) as (e & He & Ho & _).
  - apply (run_reachable (failing ++ replicate 8 (ALoop InOther))). vm_compute. reflexivity.
  - vm_compute. reflexivity.
  - exists e. split; [exact He|exact Ho].
Defined.

(** The fan-out. When a message with data arrives and no other thread intervenes,
    [readLoop] is back at its read after one step per subscription registered on the
    topic; each of these has the event appended, unless its buffer was full, when it is
    unchanged; no other subscription changes. *)
Lemma ws_fan_out {RT : GoRuntime} s m data :
  rtc step newWSClient s → s_panic s = None → s_loop s = LRead →
  wm_Data m = Some data →
  let subs := default [] (c_subs (s_client s) !! wm_Topic m) in
  ∃ s', run (ALoop (InMessage m) :: replicate (S (length subs)) (ALoop InOther)) s = Some s' ∧
    s_loop s' = LRead ∧ s_panic s' = None ∧
    ∀ sub, s_heap s' !! sub =
      if decide (sub ∈ subs) then offered (MkEvent (wm_Topic m) data) <$> s_heap s !! sub
      else s_heap s !! sub.
Proof.
  intros I%inv_reachable Hp Hl Hd subs.
  destruct (fan_out_run (set_loop (LDispatch (MkEvent (wm_Topic m) data) subs) s)
    (MkEvent (wm_Topic m) data) subs) as (s' & Hr & H); [done|done| | |].
  - unfold subs. destruct (c_subs (s_client s) !! wm_Topic m) as [l|] eqn:Hm; [|constructor].
    by apply (subs_lists _ _ _ _ (inv_subs _ I) (wm_Topic m)).
  - intros sub Hin. unfold subs in Hin.
    destruct (c_subs (s_client s) !! wm_Topic m) as [l|] eqn:Hm; [|by apply elem_of_nil in Hin].
    destruct (subs_lists _ _ _ _ (inv_subs _ I) _ _ Hm) as [_ Hall].
    apply Hall, hview_Some in Hin as (sb & Hsb & _ & Honce). exists sb. split; [done|].
    by destruct (inv_sub_ok s sub sb I Hsb) as (-> & _).
  - exists s'. split; [|exact H]. cbn [run]. unfold exec. rewrite Hp. simpl perform.
    unfold loopStep. rewrite Hl. simpl receive. rewrite Hd. exact Hr.
Qed.

Lemma ws_fan_out_witness :
  ∃ s', run (ALoop (publish "block" (JInt 7)) :: replicate 2 (ALoop InOther))
          (after (subscribing 0 "block" "a")) = Some s' ∧ s_loop s' = LRead ∧ s_panic s' = None.
Proof.
  destruct (ws_fan_out (after (subscribing 0 "block" "a"))
    (MkWsMessage "block" (Some (JInt 7)) "" "" "" "") (JInt 7)) as (s' & Hr & Hl & Hp & _);
    [|vm_compute; reflexivity..|].
  - apply (run_reachable (subscribing 0 "block" "a")). vm_compute. reflexivity.
  - exists s'. split; [exact Hr|]. split; [exact Hl|exact Hp].
Defined.

(** FIFO correlation, for calls that do not overlap. In an execution in which at
    most one call at a time is between its place in the queue and its write, and no
    write fails, the responses are delivered in the order of the requests on the
    connection: as long as the node has not answered more requests than it was sent, the
    k-th response goes to the caller of the k-th request, whether or not that caller is
    still waiting. *)
Lemma ws_fifo {RT : GoRuntime} s :
  rtc serial_step newWSClient s → (length (s_answered s) ≤ length (s_wire s))%nat →
  s_answered s `prefix_of` (s_wire s).*1.
Proof.
  intros (Hser & Hone & I)%serial_reachable Hlen.
  destruct (inv_fifo _ I) as [_ [k Hk]]. destruct Hser as [Hw Hn].
  destruct (decide (map_Exists (λ _ t, is_write t = true) (s_threads s)))
    as [(tid & t & Ht & Hwr)|Hno]; [destruct t as [| |k' req ch| | | | |]; try done;
      assert (writing (s_threads s) tid ch) as Hwr' by (by exists k', req)|].
  - rewrite (Hw tid ch Hwr') in Hk. destruct k as [|x k _] using rev_ind.
    + apply (f_equal length) in Hk. rewrite !length_app, length_fmap in Hk. simpl in Hk. lia.
    + rewrite app_assoc in Hk. apply app_inj_tail in Hk as [-> _]. by exists k.
  - rewrite Hn in Hk; [by exists k|]. intros tid ch (k' & req & H). apply Hno. by eexists _, _.
Qed.

(** Runs a serial execution, checking that it is one. *)
Definition writers (ts : gmap nat thread) : list (nat * thread) :=
  filter (λ p, is_write p.2 = true) (map_to_list ts).

Fixpoint run_serial {RT : GoRuntime} (acts : list action) (s : state) : option state :=
  match acts with
  | [] => Some s
  | a :: acts =>
      s' ← exec a s;
      if write_ok a && bool_decide (length (writers (s_threads s')) ≤ 1)%nat
      then run_serial acts s' else None
  end.

Lemma one_writer_check s : (length (writers (s_threads s)) ≤ 1)%nat → one_writer s.
Proof.
  intros Hlen tid1 tid2 ch1 ch2 (k1 & r1 & H1) (k2 & r2 & H2).
  assert (∀ tid t, s_threads s !! tid = Some t → is_write t = true → (tid, t) ∈ writers (s_threads s)) as Hin.
  { intros tid t Ht Hw. unfold writers. apply list_elem_of_filter.
    split; [done|]. by apply elem_of_map_to_list. }
  pose proof (Hin _ _ H1 eq_refl) as Hin1. pose proof (Hin _ _ H2 eq_refl) as Hin2.
  destruct (writers (s_threads s)) as [|p [|q l]]; simpl in Hlen; [by apply elem_of_nil in Hin1| |lia].
  apply list_elem_of_singleton in Hin1, Hin2. congruence.
Qed.

Lemma run_serial_reachable {RT : GoRuntime} acts s s' :
  run_serial acts s = Some s' → rtc serial_step s s'.
Proof.
  revert s. induction acts as [|a acts IH]; intros s Hr; simpl in Hr.
  - injection Hr as <-. constructor.
  - apply bind_Some in Hr as (s1 & H1 & Hr). destruct (write_ok a) eqn:Hok; [|done]. simpl in Hr.
    case_bool_decide as Hlen; [|done]. eapply rtc_l; [|by apply IH].
    exists a. split_ands; [done|done|]. by apply one_writer_check.
Qed.

(** Two calls, one after the other; the first is cancelled before its response comes. *)
Definition cancelledExecution : list action :=
  [ASubscribe 0 "block" None; AThread 0 ChGo; AThread 0 ChGo; AThread 0 ChGo;
   AThread 0 (ChCtx (ForeignErr "context deadline exceeded"));
   ASubscribe 1 "dkg" None; AThread 1 ChGo; AThread 1 ChGo; AThread 1 ChGo;
   ALoop (respond "Subscribed" "a"); ALoop InOther;
   ALoop (respond "Subscribed" "b"); ALoop InOther; AThread 1 ChGo; AThread 1 ChGo].

Lemma ws_fifo_witness :
  s_answered (after cancelledExecution) `prefix_of` (s_wire (after cancelledExecution)).*1.
Proof.
  apply (ws_fifo (after cancelledExecution)).
  - apply (run_serial_reachable cancelledExecution). vm_compute. reflexivity.
  - apply (bool_decide_unpack _). vm_compute. exact I.
Defined.

(** Two calls that overlap: the second writes its request first. *)
Definition swappedExecution : list action :=
  [ASubscribe 0 "block" None; ASubscribe 1 "dkg" None; AThread 0 ChGo; AThread 1 ChGo;
   AThread 0 ChGo; AThread 1 ChGo; AThread 1 ChGo; AThread 0 ChGo;
   ALoop (respond "Subscribed" "id of dkg"); ALoop InOther;
   ALoop (respond "Subscribed" "id of block"); ALoop InOther;
   AThread 0 ChGo; AThread 0 ChGo; AThread 1 ChGo; AThread 1 ChGo].

(** C22: overlapping calls can get each other's response. There is an execution with a
    kind environment, in which the requests reach the node as [dkg], then [block], and
    the node answers them in that order, and both calls of [Subscribe] succeed: the
    caller who asked for [block] gets a subscription with the id issued for [dkg], and
    conversely. *)
Theorem ws_responses_swapped :
  ∃ s sb0 sb1, Forall (λ a, kind a = true) swappedExecution ∧
    run swappedExecution newWSClient = Some s ∧
    wsReqParams <$> (s_wire s).*2 =
      [wsSubscribeParams "dkg" (Some ∅); wsSubscribeParams "block" (Some ∅)] ∧
    s_threads s !! 0%nat = Some (TExit (RetSub 0)) ∧ s_heap s !! 0%nat = Some sb0 ∧
    sub_topic sb0 = "block" ∧ sub_id sb0 = "id of dkg" ∧
    s_threads s !! 1%nat = Some (TExit (RetSub 1)) ∧ s_heap s !! 1%nat = Some sb1 ∧
    sub_topic sb1 = "dkg" ∧ sub_id sb1 = "id of block".
Proof.
  exists (after swappedExecution),
    (MkSubscription "id of dkg" "block" [] false false true),
    (MkSubscription "id of block" "dkg" [] false false true).
  split_ands; [|vm_compute; reflexivity..].
  apply (bool_decide_unpack _). vm_compute. exact I.
Qed.
