(* ===== verification/Broker.v ===== *)
(** * The WebSocket client as an event broker.

    What the client of WebSocket.v promises the consumers of its subscriptions: a
    broker that gives every subscription its own queue, publishes an event to all
    subscriptions of the event's topic at once, and loses an event only when a queue is
    full. The transition system refines it: the abstraction function maps every
    reachable state to a broker and every step to at most one step of the broker. The
    delivery guarantee is proved of the broker and carried over. *)
From S2P Require Import Prelude GoLib Wire Json WebSocket WebSocketInv WebSocketProps.

(** ** The broker *)

Record box := MkBox {
  bx_topic : EventTopic;
  bx_live : bool;
  bx_queue : list Event;
  bx_closed : bool;
}.

Abbreviation broker := (gmap nat box).

Inductive blabel :=
| BSubscribe (sub : nat) (topic : EventTopic)
| BPublish (ev : Event)
| BLose (sub : nat)
| BReceive (sub : nat) (ev : Event)
| BUnsubscribe (sub : nat)
| BDisconnect
| BClose (sub : nat).

(** An event reaches a box that is live and of its topic. *)
Definition post (ev : Event) (x : box) : box :=
  if bx_live x && bool_decide (bx_topic x = ev_Topic ev)
  then MkBox (bx_topic x) (bx_live x) (bx_queue x ++ [ev]) (bx_closed x) else x.

Definition mute (x : box) : box := MkBox (bx_topic x) false (bx_queue x) (bx_closed x).

(** One step of the broker, if it is allowed. An event is lost only when more than
    [subEventBuffer] events are waiting, and then it is the latest; a box is closed only
    when no event can reach it any more. *)
Definition bstep (l : blabel) (b : broker) : option broker :=
  match l with
  | BSubscribe sub topic =>
      match b !! sub with
      | Some _ => None
      | None => Some (<[sub := MkBox topic true [] false]> b)
      end
  | BPublish ev => Some (post ev <$> b)
  | BLose sub =>
      x ← b !! sub;
      if decide (length (bx_queue x) = S subEventBuffer)
      then Some (<[sub := MkBox (bx_topic x) (bx_live x) (take subEventBuffer (bx_queue x))
                            (bx_closed x)]> b)
      else None
  | BReceive sub ev =>
      x ← b !! sub;
      match bx_queue x with
      | ev' :: q =>
          if decide (ev' = ev) then Some (<[sub := MkBox (bx_topic x) (bx_live x) q (bx_closed x)]> b)
          else None
      | [] => None
      end
  | BUnsubscribe sub => x ← b !! sub; Some (<[sub := mute x]> b)
  | BDisconnect => Some (mute <$> b)
  | BClose sub =>
      x ← b !! sub;
      if bx_live x then None
      else Some (<[sub := MkBox (bx_topic x) false (bx_queue x) true]> b)
  end.

Fixpoint brun (tr : list blabel) (b : broker) : option broker :=
  match tr with
  | [] => Some b
  | l :: tr => b' ← bstep l b; brun tr b'
  end.

(** The events a subscription is owed by a trace: those published on its topic while it
    is subscribed; [t] is its topic while it is. *)
Fixpoint owed (sub : nat) (t : option EventTopic) (tr : list blabel) : list Event :=
  match tr with
  | [] => []
  | BSubscribe x topic :: tr => owed sub (if decide (x = sub) then Some topic else t) tr
  | BPublish ev :: tr =>
      if decide (t = Some (ev_Topic ev)) then ev :: owed sub t tr else owed sub t tr
  | BUnsubscribe x :: tr => owed sub (if decide (x = sub) then None else t) tr
  | BDisconnect :: tr => owed sub None tr
  | _ :: tr => owed sub t tr
  end.

(** The events its consumer received, and whether one was lost. *)
Definition received (sub : nat) (tr : list blabel) : list Event :=
  omap (λ l, match l with BReceive x ev => if decide (x = sub) then Some ev else None | _ => None end) tr.

Definition is_loss (sub : nat) (l : blabel) : bool :=
  match l with BLose x => bool_decide (x = sub) | _ => false end.

Definition queued (sub : nat) (b : broker) : list Event :=
  match b !! sub with Some x => bx_queue x | None => [] end.

Definition live_topic (sub : nat) (b : broker) : option EventTopic :=
  x ← b !! sub; if bx_live x then Some (bx_topic x) else None.

(** ** What the broker guarantees *)

(** One step: what is received and what stays queued is what was queued, then what the
    step owes; unless it loses an event. *)
Lemma bstep_delivery l b b' sub :
  bstep l b = Some b' →
  (∀ tr, owed sub (live_topic sub b) (l :: tr) =
         owed sub (live_topic sub b) [l] ++ owed sub (live_topic sub b') tr) ∧
  let got := received sub [l] ++ queued sub b' in
  let due := queued sub b ++ owed sub (live_topic sub b) [l] in
  got `sublist_of` due ∧ (is_loss sub l = false → got = due).
Proof.
  intros Hs.
  destruct l as [x topic|ev|x|x ev|x| |x]; simpl in Hs.
  - destruct (b !! x) eqn:Hx; [done|]. injection Hs as <-. unfold queued, live_topic. simpl.
    destruct (decide (x = sub)) as [->|Hne].
    + rewrite lookup_insert_eq, Hx. simpl. split; [done|]. by split.
    + rewrite lookup_insert_ne by done. rewrite app_nil_r. done.
  - injection Hs as <-. unfold queued, live_topic. rewrite lookup_fmap.
    destruct (b !! sub) as [y|]; simpl; [|done]. unfold post.
    destruct (bx_live y) eqn:Hl; simpl; [|by rewrite ?Hl, app_nil_r].
    case_bool_decide as Ht; simpl; rewrite ?Hl.
    + split; [intros tr; by rewrite !decide_True by congruence|]. by rewrite decide_True by congruence.
    + split; [intros tr; by rewrite !decide_False by congruence|]. by rewrite decide_False, app_nil_r by congruence.
  - apply bind_Some in Hs as (y & Hy & Hs). case_decide as Hlen; [|done]. injection Hs as <-.
    unfold queued, live_topic. simpl. rewrite app_nil_r. destruct (decide (x = sub)) as [->|Hne].
    + rewrite lookup_insert_eq, Hy. simpl. rewrite bool_decide_eq_true_2 by done.
      split_ands; [done|apply sublist_take|done].
    + by rewrite lookup_insert_ne.
  - apply bind_Some in Hs as (y & Hy & Hs). destruct (bx_queue y) as [|ev' q] eqn:Hq; [done|].
    case_decide as Heq; [|done]. subst ev'. injection Hs as <-.
    unfold queued, live_topic. simpl. rewrite app_nil_r. destruct (decide (x = sub)) as [->|Hne].
    + rewrite lookup_insert_eq, Hy. simpl. by rewrite Hq.
    + by rewrite lookup_insert_ne.
  - apply bind_Some in Hs as (y & Hy & Hs). injection Hs as <-.
    unfold queued, live_topic. simpl. rewrite app_nil_r. destruct (decide (x = sub)) as [->|Hne].
    + by rewrite lookup_insert_eq, Hy.
    + by rewrite lookup_insert_ne.
  - injection Hs as <-. unfold queued, live_topic. rewrite lookup_fmap. simpl. rewrite app_nil_r.
    by destruct (b !! sub).
  - apply bind_Some in Hs as (y & Hy & Hs). destruct (bx_live y) eqn:Hl; [done|]. injection Hs as <-.
    unfold queued, live_topic. simpl. rewrite app_nil_r. destruct (decide (x = sub)) as [->|Hne].
    + rewrite lookup_insert_eq, Hy. simpl. by rewrite Hl.
    + by rewrite lookup_insert_ne.
Qed.

Lemma received_cons sub l tr : received sub (l :: tr) = received sub [l] ++ received sub tr.
Proof. apply (omap_app _ [l] tr). Qed.

Lemma brun_delivery tr b b' sub :
  brun tr b = Some b' →
  let got := received sub tr ++ queued sub b' in
  let due := queued sub b ++ owed sub (live_topic sub b) tr in
  got `sublist_of` due ∧ (Forall (λ l, is_loss sub l = false) tr → got = due).
Proof.
  revert b. induction tr as [|l tr IH]; intros b Hr.
  - injection Hr as <-. simpl. by rewrite app_nil_r.
  - simpl in Hr. apply bind_Some in Hr as (b1 & H1 & Hr).
    destruct (IH b1 Hr) as [Hsub Heq]. destruct (bstep_delivery l b b1 sub H1) as (Howed & Hsub1 & Heq1).
    cbv zeta in *. rewrite received_cons, Howed, (app_assoc (queued sub b)), <- (app_assoc (received sub [l])).
    split.
    + etransitivity; [by apply sublist_app; [done|exact Hsub]|].
      rewrite (app_assoc (received sub [l])). by apply sublist_app.
    + intros [Hl Htr]%Forall_cons. rewrite (Heq Htr), <- (Heq1 Hl). by rewrite <- !app_assoc.
Qed.

Lemma brun_app tr1 tr2 b : brun (tr1 ++ tr2) b = b' ← brun tr1 b; brun tr2 b'.
Proof.
  revert b. induction tr1 as [|l tr1 IH]; intros b; [done|]. simpl.
  destruct (bstep l b); [apply IH|done].
Qed.

(** ** The refinement *)

(** The event [readLoop] holds for a subscription and has not offered yet. *)
Definition transit (l : loop) (sub : nat) : list Event :=
  match l with
  | LDispatch ev todo => if decide (sub ∈ todo) then [ev] else []
  | _ => []
  end.

Definition box_of (m : gmap EventTopic (list nat)) (l : loop) (sub : nat) (sb : Subscription) : box :=
  MkBox (sub_topic sb) (bool_decide (sub ∈ default [] (m !! sub_topic sb)))
    (sub_events sb ++ transit l sub) (sub_once sb).

(** The broker a state implements. *)
Definition abs (s : state) : broker :=
  map_imap (λ sub sb, Some (box_of (c_subs (s_client s)) (s_loop s) sub sb)) (s_heap s).

(** The broker's steps that a step of the client makes: at most one. *)
Definition label (a : action) (s : state) : list blabel :=
  match a with
  | AThread tid _ =>
      match s_threads s !! tid with
      | Some (TSubscribe topic _) =>
          if c_closed (s_client s) then [] else [BSubscribe (fresh (dom (s_heap s))) topic]
      | Some (TRemove sub _) => [BUnsubscribe sub]
      | Some (TCloseEvents sub _) => [BClose sub]
      | _ => []
      end
  | ALoop i =>
      match s_loop s with
      | LRead =>
          match i with
          | InMessage m =>
              match wm_Data m with Some d => [BPublish (MkEvent (wm_Topic m) d)] | None => [] end
          | _ => []
          end
      | LDispatch ev (sub :: _) =>
          match s_heap s !! sub with
          | Some sb =>
              if sub_eventsClosed sb then []
              else if decide (length (sub_events sb) < subEventBuffer)%nat then [] else [BLose sub]
          | None => []
          end
      | LTearDown _ => [BDisconnect]
      | LCloseSubs (sub :: _) => [BClose sub]
      | _ => []
      end
  | AReceive sub =>
      match s_heap s !! sub with
      | Some sb => match sub_events sb with ev :: _ => [BReceive sub ev] | [] => [] end
      | None => []
      end
  | _ => []
  end.

Section refinement.
Context {RT : GoRuntime}.
Implicit Types s : state.

(** The trace of an execution. *)
Fixpoint trace (acts : list action) s : list blabel :=
  match acts with
  | [] => []
  | a :: acts => label a s ++ match exec a s with Some s' => trace acts s' | None => [] end
  end.

Lemma abs_lookup s sub :
  abs s !! sub = box_of (c_subs (s_client s)) (s_loop s) sub <$> s_heap s !! sub.
Proof. unfold abs. rewrite map_lookup_imap. by destruct (s_heap s !! sub). Qed.

Lemma abs_Some s sub sb :
  s_heap s !! sub = Some sb →
  abs s !! sub = Some (box_of (c_subs (s_client s)) (s_loop s) sub sb).
Proof. intros Hsb. by rewrite abs_lookup, Hsb. Qed.

Lemma abs_same s s' :
  c_subs (s_client s') = c_subs (s_client s) → s_heap s' = s_heap s →
  (∀ sub, transit (s_loop s') sub = transit (s_loop s) sub) → abs s' = abs s.
Proof.
  intros Hm Hh Ht. apply map_eq. intros sub. rewrite !abs_lookup, Hh, Hm.
  destruct (s_heap s !! sub); simpl; [|done]. unfold box_of. by rewrite Ht.
Qed.

(** One box changes. *)
Lemma abs_insert s s' sub sb' :
  s_heap s' = <[sub := sb']> (s_heap s) →
  (∀ x sb, x ≠ sub → s_heap s !! x = Some sb →
     box_of (c_subs (s_client s')) (s_loop s') x sb = box_of (c_subs (s_client s)) (s_loop s) x sb) →
  abs s' = <[sub := box_of (c_subs (s_client s')) (s_loop s') sub sb']> (abs s).
Proof.
  intros Hh Heq. apply map_eq. intros x. rewrite abs_lookup, Hh.
  destruct (decide (x = sub)) as [->|Hne]; [by rewrite !lookup_insert_eq|].
  rewrite !lookup_insert_ne, abs_lookup by done.
  destruct (s_heap s !! x) as [sb|] eqn:Hx; [|done]. simpl. by rewrite (Heq x sb).
Qed.

Lemma abs_fmap f s s' :
  s_heap s' = s_heap s →
  (∀ sub sb, s_heap s !! sub = Some sb →
     box_of (c_subs (s_client s')) (s_loop s') sub sb = f (box_of (c_subs (s_client s)) (s_loop s) sub sb)) →
  abs s' = f <$> abs s.
Proof.
  intros Hh Heq. apply map_eq. intros x. rewrite lookup_fmap, !abs_lookup, Hh.
  destruct (s_heap s !! x) as [sb|] eqn:Hx; [|done]. simpl. by rewrite (Heq x sb).
Qed.

(** A subscription is live in the broker iff it is registered. *)
Lemma live_registered s sub sb :
  inv s → s_heap s !! sub = Some sb →
  sub ∈ default [] (c_subs (s_client s) !! sub_topic sb) ↔ registered (c_subs (s_client s)) sub.
Proof.
  intros I Hsb. split.
  - intros Hin. destruct (c_subs (s_client s) !! sub_topic sb) as [subs|] eqn:Hm;
      [|by apply elem_of_nil in Hin]. by exists (sub_topic sb), subs.
  - intros (t & subs & Hm & Hin).
    destruct (subs_lists _ _ _ _ (inv_subs _ I) t subs Hm) as [_ Hall].
    pose proof (Hall sub Hin) as (sb' & Hsb' & <- & _)%hview_Some.
    rewrite Hsb in Hsb'. injection Hsb' as <-. by rewrite Hm.
Qed.

(** The copy [readLoop] works on has no duplicates. *)
Definition todo_inv s : Prop := NoDup (loop_todo (s_loop s)).

Lemma threadStep_loop s s' tid c : threadStep tid c s = Some s' → s_loop s' = s_loop s.
Proof.
  unfold threadStep. intros (t & Ht & Hs)%bind_Some.
  destruct t as [topic filter|k req|k req ch|k ch|k r|sub ret|sub ret|ret]; try done.
  - injection Hs as <-. unfold startSubscribe. by case_match.
  - injection Hs as <-. unfold enqueue. by case_match.
  - destruct c; simpl in Hs; try done; [|by injection Hs as <-].
    destruct (s_open s && encodable req); [|done]. by injection Hs as <-.
  - destruct c; simpl in Hs; try done; [|by injection Hs as <-|].
    + apply bind_Some in Hs as (rc & _ & Hs). repeat case_match; simplify_eq; done.
    + destruct (s_done s); [|done]. by injection Hs as <-.
  - destruct k; simpl in Hs; [|by injection Hs as <-].
    destruct r; [case_decide|]; [|by injection Hs as <-..].
    apply bind_Some in Hs as (sb & _ & Hs). by injection Hs as <-.
  - apply bind_Some in Hs as (sb & _ & Hs). by injection Hs as <-.
  - apply fmap_Some in Hs as (s1 & H1 & ->). simpl. unfold onceClose in H1.
    apply bind_Some in H1 as (sb & _ & H1). repeat case_match; by injection H1 as <-.
Qed.

Lemma onceClose_loop s s' sub : onceClose sub s = Some s' → s_loop s' = s_loop s.
Proof.
  unfold onceClose. intros (sb & _ & H1)%bind_Some. repeat case_match; by injection H1 as <-.
Qed.

Lemma loopStep_todo s s' i :
  s_loop s ≠ LRead → loopStep i s = Some s' →
  loop_todo (s_loop s') `sublist_of` loop_todo (s_loop s).
Proof.
  intros Hr Hs. unfold loopStep in Hs.
  destruct (s_loop s) as [|ev [|sub todo]|ch resp|e|p a|[|ch p] a|[|sub a]| |] eqn:Hl;
    try done; try (by injection Hs as <-).
  - unfold dispatch in Hs. apply bind_Some in Hs as (sb & _ & Hs).
    repeat case_match; injection Hs as <-; simpl; rewrite ?Hl; [done|by apply sublist_cons..].
  - unfold deliver in Hs. apply bind_Some in Hs as (rc & _ & Hs).
    repeat case_match; simplify_eq; simpl; by rewrite ?Hl.
  - destruct (s_done s); injection Hs as <-; simpl; by rewrite ?Hl.
  - by apply fmap_Some in Hs as (s1 & _ & ->).
  - by apply fmap_Some in Hs as (s1 & _ & ->).
Qed.

Lemma todo_inv_exec s s' a : inv s → todo_inv s → exec a s = Some s' → todo_inv s'.
Proof.
  intros I Ht Hs. unfold exec in Hs. destruct (s_panic s); [done|].
  unfold todo_inv in *. destruct a as [tid topic filter|tid sub|tid c|i|sub|]; simpl in Hs.
  - destruct (s_threads s !! tid); [done|]. by injection Hs as <-.
  - destruct (s_threads s !! tid); [done|]. apply bind_Some in Hs as (sb & _ & Hs).
    destruct (sub_returned sb); [|done]. by injection Hs as <-.
  - by rewrite (threadStep_loop _ _ _ _ Hs).
  - assert (s_loop s = LRead ∨ s_loop s ≠ LRead) as [Hl|Hl] by (destruct (s_loop s); auto).
    + unfold loopStep in Hs. rewrite Hl in Hs. unfold receive in Hs.
      destruct i as [m| |e]; repeat case_match; simplify_eq; simpl; try done; try constructor.
      destruct (c_subs (s_client s) !! wm_Topic m) as [l|] eqn:Hm; [|constructor].
      by apply (subs_lists _ _ _ _ (inv_subs _ I) _ _ Hm).
    + eapply sublist_NoDup; [|by eapply loopStep_todo]. done.
  - apply bind_Some in Hs as (sb & _ & Hs). repeat case_match; by simplify_eq.
  - by injection Hs as <-.
Qed.

(** Nothing the broker can see changes. *)
Definition stutters s s' : Prop :=
  c_subs (s_client s') = c_subs (s_client s) ∧ s_heap s' = s_heap s ∧ s_loop s' = s_loop s.

Lemma abs_stutter s s' : stutters s s' → abs s' = abs s.
Proof. intros (Hm & Hh & Hl). apply abs_same; [done..|]. intros sub. by rewrite Hl. Qed.

(** The fields of one box change, except for those the broker sees. *)
Lemma abs_insert_same s s' sub sb sb' :
  s_heap s !! sub = Some sb → s_heap s' = <[sub := sb']> (s_heap s) →
  (∀ x y, s_heap s !! x = Some y →
     box_of (c_subs (s_client s')) (s_loop s') x (if decide (x = sub) then sb' else y) =
     box_of (c_subs (s_client s)) (s_loop s) x y) →
  abs s' = abs s.
Proof.
  intros Hsb Hh Heq. rewrite (abs_insert s s' sub sb' Hh).
  - rewrite insert_id; [done|]. rewrite (abs_Some s sub sb Hsb). f_equal.
    rewrite <- (Heq sub sb Hsb). by rewrite decide_True.
  - intros x y Hne Hx. rewrite <- (Heq x y Hx). by rewrite decide_False.
Qed.

Lemma refine_close s s' sub :
  inv s → s_panic s = None → ¬ registered (c_subs (s_client s)) sub → onceClose sub s = Some s' →
  bstep (BClose sub) (abs s) = Some (abs s').
Proof.
  intros I Hp Hnr Hs. unfold onceClose in Hs. apply bind_Some in Hs as (sb & Hsb & Hs).
  destruct (inv_sub_ok s sub sb I Hsb) as (Hc & _). simpl. rewrite (abs_Some s sub sb Hsb). simpl.
  assert (sub ∉ default [] (c_subs (s_client s) !! sub_topic sb)) as Hni
    by (by rewrite (live_registered s sub sb)).
  rewrite bool_decide_eq_false_2 by done. f_equal.
  destruct (sub_once sb) eqn:Ho.
  - injection Hs as <-. rewrite insert_id; [done|]. rewrite (abs_Some s sub sb Hsb). unfold box_of.
    by rewrite bool_decide_eq_false_2, Ho.
  - rewrite Hc in Hs. injection Hs as <-. symmetry. rewrite (abs_insert s _ sub (close_events sb)).
    + unfold box_of. simpl. by rewrite bool_decide_eq_false_2.
    + done.
    + done.
Qed.

Lemma refine_subscribe s tid topic filter :
  inv s → c_closed (s_client s) = false →
  bstep (BSubscribe (fresh (dom (s_heap s))) topic) (abs s) =
  Some (abs (startSubscribe tid topic filter s)).
Proof.
  intros I Hc. unfold startSubscribe. rewrite Hc. cbv zeta.
  set (sub := fresh (dom (s_heap s))).
  assert (s_heap s !! sub = None) as Hnone by (apply not_elem_of_dom, is_fresh).
  unfold bstep. rewrite abs_lookup, Hnone. simpl. f_equal. symmetry. erewrite abs_insert; [|done|].
  - unfold box_of. simpl. rewrite lookup_insert_eq. simpl.
    rewrite bool_decide_eq_true_2 by (apply elem_of_app; right; by left).
    destruct (s_loop s) as [|ev todo| | | | | | |] eqn:Hl; simpl; try done.
    rewrite decide_False; [done|]. intros Hin.
    destruct (subs_loop _ _ _ _ (inv_subs _ I) sub) as [? ?]; [|congruence].
    rewrite Hl. apply elem_of_app. by left.
  - intros x sb Hne Hx. unfold box_of. simpl. f_equal. apply bool_decide_ext.
    destruct (decide (topic = sub_topic sb)) as [<-|?]; [|by rewrite lookup_insert_ne].
    rewrite lookup_insert_eq. simpl. rewrite elem_of_app, list_elem_of_singleton. tauto.
Qed.

Lemma refine_threadStep s s' tid c :
  inv s → s_panic s = None → threadStep tid c s = Some s' →
  brun (label (AThread tid c) s) (abs s) = Some (abs s').
Proof.
  intros I Hp Hs. pose proof (inv_threadStep s s' tid c I Hp Hs) as I'.
  unfold threadStep in Hs. apply bind_Some in Hs as (t & Ht & Hs). unfold label. rewrite Ht.
  destruct t as [topic filter|k req|k req ch|k ch|k r|sub ret|sub ret|ret]; try done.
  - injection Hs as <-. destruct (c_closed (s_client s)) eqn:Hc.
    + simpl. f_equal. symmetry. apply abs_stutter. unfold startSubscribe. by rewrite Hc.
    + cbn [brun]. by rewrite (refine_subscribe s tid topic filter).
  - injection Hs as <-. simpl. f_equal. symmetry. apply abs_stutter. unfold enqueue. by case_match.
  - simpl. f_equal. symmetry. apply abs_stutter. destruct c; simpl in Hs; try done; [|by injection Hs as <-].
    destruct (s_open s && encodable req); [|done]. by injection Hs as <-.
  - simpl. f_equal. symmetry. apply abs_stutter.
    destruct c; simpl in Hs; try done; [|by injection Hs as <-|].
    + apply bind_Some in Hs as (rc & _ & Hs). repeat case_match; simplify_eq; done.
    + destruct (s_done s); [|done]. by injection Hs as <-.
  - simpl. f_equal. symmetry. destruct k as [sub|sub]; simpl in Hs; [|by injection Hs as <-].
    destruct r as [resp|]; [case_decide|]; [|by injection Hs as <-..].
    apply bind_Some in Hs as (sb & Hsb & Hs). injection Hs as <-.
    eapply abs_insert_same; [exact Hsb|done|]. intros x y Hx. case_decide; [|done].
    simplify_eq. done.
  - apply bind_Some in Hs as (sb & Hsb & Hs). injection Hs as <-. cbn [brun bstep].
    rewrite (abs_Some s sub sb Hsb). simpl. f_equal. symmetry.
    assert (fst <$> hview (s_heap s) sub = Some (sub_topic sb)) as Hv by (unfold hview; by rewrite Hsb).
    pose proof (λ x, registered_unregister _ _ _ _ (inv_subs _ I) _ sub x Hv) as Hreg.
    assert (∀ x y, s_heap s !! x = Some y →
      x ∈ default [] (unregister (sub_topic sb) sub (c_subs (s_client s)) !! sub_topic y) ↔
      x ∈ default [] (c_subs (s_client s) !! sub_topic y) ∧ x ≠ sub) as Hin.
    { intros x y Hx. rewrite (live_registered s x y I Hx), <- (Hreg x). by apply (live_registered _ x y I'). }
    rewrite (abs_insert s _ sub sb); [|by rewrite insert_id|].
    + unfold box_of, mute. simpl. rewrite bool_decide_eq_false_2; [done|]. rewrite (Hin sub sb Hsb). tauto.
    + intros x y Hne Hx. unfold box_of. simpl. f_equal. apply bool_decide_ext. rewrite (Hin x y Hx). tauto.
  - apply fmap_Some in Hs as (s1 & H1 & ->). cbn [brun].
    destruct (subs_threads _ _ _ _ (inv_subs _ I) tid _ sub Ht eq_refl) as [_ Hnr].
    rewrite (refine_close s s1 sub I Hp); [|apply Hnr; by eexists|done].
    simpl. f_equal.
Qed.

Lemma refine_receive s s' i :
  inv s → s_loop s = LRead → receive i s = Some s' →
  brun (label (ALoop i) s) (abs s) = Some (abs s').
Proof.
  intros I Hl Hs. unfold label. rewrite Hl.
  assert (∀ l, (∀ sub, transit l sub = []) → s_loop s' = l → c_subs (s_client s') = c_subs (s_client s) →
    s_heap s' = s_heap s → brun [] (abs s) = Some (abs s')) as Hstutter.
  { intros l Htr Hl' Hm Hh. simpl. f_equal. symmetry. apply abs_same; [done..|].
    intros sub. by rewrite Hl', Hl, Htr. }
  unfold receive in Hs. destruct i as [m| |e];
    [|injection Hs as <-; by eapply (Hstutter LRead)|injection Hs as <-; by eapply (Hstutter (LTearDown e))].
  destruct (wm_Data m) as [d|].
  2:{ case_decide; [injection Hs as <-; by eapply (Hstutter LRead)|].
      destruct (c_pending (s_client s)); injection Hs as <-; [by eapply (Hstutter LRead)|].
      by eapply (Hstutter (LDeliver _ _)). }
  injection Hs as <-. cbn [brun bstep]. simpl. f_equal. symmetry. apply abs_fmap; [done|].
  intros sub sb Hsb. unfold box_of, post. simpl. rewrite Hl. simpl. rewrite app_nil_r.
  destruct (decide (sub ∈ default [] (c_subs (s_client s) !! wm_Topic m))) as [Hin|Hni].
  - assert (sub_topic sb = wm_Topic m) as ->.
    { destruct (c_subs (s_client s) !! wm_Topic m) as [subs|] eqn:Hm; [|by apply elem_of_nil in Hin].
      destruct (subs_lists _ _ _ _ (inv_subs _ I) _ _ Hm) as [_ Hall].
      apply Hall, hview_Some in Hin as (sb' & Hsb' & <- & _). congruence. }
    by rewrite !bool_decide_eq_true_2.
  - rewrite app_nil_r. case_bool_decide as Hreg; [|done]. rewrite bool_decide_eq_false_2; [done|].
    intros Ht. by rewrite Ht in Hreg.
Qed.

Lemma refine_dispatch s s' ev sub todo i :
  inv s → todo_inv s → s_loop s = LDispatch ev (sub :: todo) → dispatch ev sub todo s = Some s' →
  brun (label (ALoop i) s) (abs s) = Some (abs s').
Proof.
  intros I Hnd Hl Hs. unfold label. rewrite Hl. unfold todo_inv in Hnd. rewrite Hl in Hnd.
  apply NoDup_cons in Hnd as [Hni _]. unfold dispatch in Hs.
  apply bind_Some in Hs as (sb & Hsb & Hs). rewrite Hsb.
  destruct (inv_sub_ok s sub sb I Hsb) as (_ & Hlen & _).
  destruct (sub_eventsClosed sb).
  { by injection Hs as <-. }
  assert (∀ x, x ≠ sub → transit (LDispatch ev todo) x = transit (s_loop s) x) as Hoth.
  { intros x Hne. rewrite Hl. unfold transit. apply decide_ext. rewrite elem_of_cons. tauto. }
  assert (transit (s_loop s) sub = [ev]) as Htr by (rewrite Hl; apply decide_True; left).
  assert (transit (LDispatch ev todo) sub = []) as Htr' by (by apply decide_False).
  case_decide as Hroom; injection Hs as <-.
  - simpl. f_equal. symmetry. eapply abs_insert_same; [exact Hsb|done|]. intros x y Hx.
    unfold box_of. cbn [s_loop set_loop s_client set_heap]. case_decide as Heq.
    + subst x. simplify_eq. rewrite Htr, Htr'. simpl. by rewrite app_nil_r.
    + by rewrite Hoth.
  - cbn [brun bstep]. rewrite (abs_Some s sub sb Hsb). simpl. unfold subEventBuffer in *.
    rewrite Htr, length_app. simpl. rewrite decide_True by lia. f_equal. symmetry.
    rewrite (abs_insert s _ sub sb); [|by rewrite insert_id|].
    + unfold box_of. cbn [s_loop set_loop s_client]. rewrite Htr', app_nil_r, take_app_le, take_ge by lia. done.
    + intros x y Hne Hx. unfold box_of. cbn [s_loop set_loop s_client]. by rewrite Hoth.
Qed.

Lemma refine_loopStep s s' i :
  inv s → todo_inv s → s_panic s = None → loopStep i s = Some s' →
  brun (label (ALoop i) s) (abs s) = Some (abs s').
Proof.
  intros I Hnd Hp Hs. pose proof (inv_loopStep s s' i I Hp Hs) as I'. unfold loopStep in Hs.
  destruct (s_loop s) as [|ev [|sub todo]|ch resp|e|p a|[|ch p] a|[|sub a]| |] eqn:Hl; try done;
    try (by eapply refine_receive); try (by eapply refine_dispatch); unfold label; rewrite Hl;
    try (injection Hs as <-; simpl; f_equal; symmetry; apply abs_same; [done..|]; intros x;
         by rewrite Hl).
  - unfold deliver in Hs. apply bind_Some in Hs as (rc & _ & Hs). simpl. f_equal. symmetry.
    repeat case_match; simplify_eq; apply abs_same; try done; intros x; simpl; by rewrite Hl.
  - injection Hs as <-. simpl. f_equal. symmetry. apply abs_fmap; [done|]. intros sub sb Hsb.
    unfold box_of, mute. simpl. by rewrite Hl, lookup_empty.
  - simpl. f_equal. symmetry. destruct (s_done s); injection Hs as <-; apply abs_same; try done;
      intros x; simpl; by rewrite ?Hl.
  - apply fmap_Some in Hs as (s1 & H1 & ->). simpl. f_equal. symmetry.
    unfold closeChan in H1. apply bind_Some in H1 as (rc & _ & H1).
    repeat case_match; injection H1 as <-; apply abs_same; try done; intros x; simpl; by rewrite Hl.
  - apply fmap_Some in Hs as (s1 & H1 & ->). cbn [brun].
    rewrite (refine_close s s1 sub I Hp); [|by apply torn_down_unregistered; rewrite ?Hl|done].
    simpl. f_equal. symmetry. apply abs_same; [done..|]. intros x. simpl.
    by rewrite (onceClose_loop _ _ _ H1), Hl.
Qed.

(** Every step of the client is at most one step of the broker. *)
Lemma refine_exec s s' a :
  inv s → todo_inv s → exec a s = Some s' → brun (label a s) (abs s) = Some (abs s').
Proof.
  intros I Hnd Hs. unfold exec in Hs. destruct (s_panic s) eqn:Hp; [done|].
  destruct a as [tid topic filter|tid sub|tid c|i|sub|].
  - simpl in *. f_equal. symmetry. destruct (s_threads s !! tid); [done|]. injection Hs as <-.
    by apply abs_stutter.
  - simpl in *. f_equal. symmetry. destruct (s_threads s !! tid); [done|].
    apply bind_Some in Hs as (sb & _ & Hs). destruct (sub_returned sb); [|done]. injection Hs as <-.
    by apply abs_stutter.
  - by apply refine_threadStep.
  - by apply refine_loopStep.
  - simpl in Hs. apply bind_Some in Hs as (sb & Hsb & Hs). unfold label. rewrite Hsb.
    destruct (sub_events sb) as [|ev evs] eqn:Hev; [done|]. destruct (sub_returned sb); [|done].
    injection Hs as <-. cbn [brun bstep]. rewrite (abs_Some s sub sb Hsb). simpl. rewrite Hev. simpl.
    rewrite decide_True by done. f_equal. symmetry. by rewrite (abs_insert s _ sub (set_events evs sb)).
  - simpl in *. f_equal. symmetry. injection Hs as <-. by apply abs_stutter.
Qed.

Lemma refine_run acts s s' :
  inv s → todo_inv s → run acts s = Some s' → brun (trace acts s) (abs s) = Some (abs s').
Proof.
  revert s. induction acts as [|a acts IH]; intros s I Hnd Hr; simpl in *; [by injection Hr as <-|].
  apply bind_Some in Hr as (s1 & H1 & Hr). rewrite H1, brun_app, (refine_exec s s1 a I Hnd H1). simpl.
  apply IH; [by eapply inv_exec|by eapply todo_inv_exec|done].
Qed.

Lemma todo_inv_newWSClient : todo_inv newWSClient.
Proof. constructor. Qed.

Lemma refine_newWSClient acts s :
  run acts newWSClient = Some s → brun (trace acts newWSClient) ∅ = Some (abs s).
Proof. apply (refine_run acts newWSClient); [apply inv_newWSClient|apply todo_inv_newWSClient]. Qed.

(** An event is lost only when the buffer is full. *)
Lemma label_loss a s sub :
  Exists (λ l, is_loss sub l = true) (label a s) →
  ∃ sb, s_heap s !! sub = Some sb ∧ (subEventBuffer ≤ length (sub_events sb))%nat.
Proof.
  intros (l & Hin & Hl)%Exists_exists. destruct l as [| |x| | | |]; try done.
  apply bool_decide_eq_true in Hl. subst x. unfold label in Hin. revert Hin.
  repeat case_match; rewrite ?elem_of_nil, ?list_elem_of_singleton; try done.
  intros [= <-]. eexists. split; [done|]. lia.
Qed.

(** The consumer of [sub] keeps up: its buffer is never full. *)
Definition keeps_up (sub : nat) (acts : list action) s : Prop :=
  ∀ acts1 acts2 s1 sb, acts = acts1 ++ acts2 → run acts1 s = Some s1 →
    s_heap s1 !! sub = Some sb → (length (sub_events sb) < subEventBuffer)%nat.

Lemma trace_lossless acts s s' sub :
  run acts s = Some s' → keeps_up sub acts s → Forall (λ l, is_loss sub l = false) (trace acts s).
Proof.
  revert s. induction acts as [|a acts IH]; intros s Hr Hk; simpl in *; [done|].
  apply bind_Some in Hr as (s1 & H1 & Hr). rewrite H1. apply Forall_app. split.
  - destruct (decide (Exists (λ l, is_loss sub l = true) (label a s))) as [Hex|Hno].
    + destruct (label_loss a s sub Hex) as (sb & Hsb & Hlen).
      specialize (Hk [] (a :: acts) s sb eq_refl eq_refl Hsb). lia.
    + apply not_Exists_Forall in Hno; [|apply _]. eapply Forall_impl; [exact Hno|].
      intros l Hl. by apply not_true_is_false.
  - apply IH; [done|]. intros acts1 acts2 s2 sb -> Hr2 Hsb.
    apply (Hk (a :: acts1) acts2 s2 sb); [done| |done]. simpl. by rewrite H1.
Qed.

(** ** Closing *)

(** The subscription whose events channel a caller closes in this step. *)
Definition closing (a : action) s : option nat :=
  match a with
  | AThread tid _ =>
      match s_threads s !! tid with Some (TCloseEvents sub _) => Some sub | _ => None end
  | _ => None
  end.

(** A step in which no caller closes a subscription that [readLoop] is about to send to. *)
Definition safe_step s s' : Prop :=
  ∃ a, exec a s = Some s' ∧ ∀ sub, closing a s = Some sub → sub ∉ loop_todo (s_loop s).

Definition open_box (b : broker) (sub : nat) : Prop :=
  ∃ x, b !! sub = Some x ∧ bx_closed x = false.

Lemma bstep_open l b b' sub :
  bstep l b = Some b' → open_box b sub → l ≠ BClose sub → open_box b' sub.
Proof.
  intros Hs (x & Hx & Hc) Hne. unfold open_box. destruct l as [y topic|ev|y|y ev|y| |y]; simpl in Hs.
  - destruct (b !! y) eqn:Hy; [done|]. injection Hs as <-.
    rewrite lookup_insert_ne by congruence. eauto.
  - injection Hs as <-. rewrite lookup_fmap, Hx. eexists. split; [done|]. unfold post. by case_match.
  - apply bind_Some in Hs as (z & Hz & Hs). case_decide; [|done]. injection Hs as <-.
    rewrite lookup_insert. destruct (decide (y = sub)); [|by eauto]. simplify_eq. eexists. by split.
  - apply bind_Some in Hs as (z & Hz & Hs). repeat case_match; simplify_eq.
    rewrite lookup_insert. destruct (decide (y = sub)); [|by eauto]. simplify_eq. eexists. by split.
  - apply bind_Some in Hs as (z & Hz & Hs). injection Hs as <-.
    rewrite lookup_insert. destruct (decide (y = sub)); [|by eauto]. simplify_eq. eexists. by split.
  - injection Hs as <-. rewrite lookup_fmap, Hx. eexists. by split.
  - apply bind_Some in Hs as (z & Hz & Hs). destruct (bx_live z); [done|]. injection Hs as <-.
    rewrite lookup_insert_ne by congruence. eauto.
Qed.

Lemma brun_open tr b b' sub :
  brun tr b = Some b' → open_box b sub → BClose sub ∉ tr → open_box b' sub.
Proof.
  revert b. induction tr as [|l tr IH]; intros b Hr Ho Hni; simpl in Hr; [by injection Hr as <-|].
  apply bind_Some in Hr as (b1 & H1 & Hr). apply not_elem_of_cons in Hni as [Hl Hni].
  apply (IH b1); [done|by eapply bstep_open|done].
Qed.

Lemma open_box_abs s sub :
  open_box (abs s) sub ↔ ∃ sb, s_heap s !! sub = Some sb ∧ sub_once sb = false.
Proof.
  unfold open_box. rewrite abs_lookup. destruct (s_heap s !! sub) as [sb|]; simpl; split.
  - intros (x & [= <-] & Hc). eauto.
  - intros (? & [= <-] & Hc). eauto.
  - by intros (? & ? & _).
  - by intros (? & ? & _).
Qed.

Lemma label_close a s sub :
  BClose sub ∈ label a s → closing a s = Some sub ∨ loop_todo (s_loop s) = [] ∧ s_loop s ≠ LRead.
Proof.
  unfold label, closing.
  repeat case_match; rewrite ?elem_of_nil, ?list_elem_of_singleton; try done;
    intros [= <-]; auto.
Qed.

(** Every subscription [readLoop] is about to send to is open. *)
Definition todo_open s : Prop := ∀ sub, sub ∈ loop_todo (s_loop s) → open_box (abs s) sub.

Lemma todo_open_step s s' :
  inv s → todo_inv s → todo_open s → safe_step s s' → todo_open s'.
Proof.
  intros I Hnd Ho (a & Ha & Hsafe) sub Hin. pose proof (inv_exec _ _ _ I Ha) as I'.
  destruct (decide (sub ∈ loop_todo (s_loop s))) as [Hold|Hnew].
  - eapply brun_open; [exact (refine_exec s s' a I Hnd Ha)|by apply Ho|].
    intros [Hc|[Hnil _]]%label_close; [by apply (Hsafe sub)|]. rewrite Hnil in Hold. by apply elem_of_nil in Hold.
  - apply open_box_abs.
    assert (registered (c_subs (s_client s')) sub) as Hreg.
    { unfold exec in Ha. destruct (s_panic s); [done|].
      destruct a as [tid topic filter|tid sub'|tid c|i|sub'|]; simpl in Ha.
      - destruct (s_threads s !! tid); [done|]. by injection Ha as <-.
      - destruct (s_threads s !! tid); [done|]. apply bind_Some in Ha as (sb & _ & Ha).
        destruct (sub_returned sb); [|done]. by injection Ha as <-.
      - by rewrite (threadStep_loop _ _ _ _ Ha) in Hin.
      - assert (s_loop s = LRead ∨ s_loop s ≠ LRead) as [Hl|Hl] by (destruct (s_loop s); auto).
        + unfold loopStep in Ha. rewrite Hl in Ha, Hnew. unfold receive in Ha.
          destruct i as [m| |e]; repeat case_match; simplify_eq; simpl in Hin;
            try (by apply elem_of_nil in Hin); try (by rewrite Hl in Hin; apply elem_of_nil in Hin).
          simpl. destruct (c_subs (s_client s) !! wm_Topic m) as [subs|] eqn:Hm;
            [|by apply elem_of_nil in Hin]. by exists (wm_Topic m), subs.
        + pose proof (loopStep_todo _ _ _ Hl Ha) as Hsub. destruct Hnew.
          by eapply elem_of_submseteq, sublist_submseteq.
      - apply bind_Some in Ha as (sb & _ & Ha). repeat case_match; by simplify_eq.
      - by injection Ha as <-. }
    destruct (registered_open _ _ _ _ (inv_subs _ I') sub Hreg) as (t & (sb & Hsb & _ & Ho')%hview_Some).
    eauto.
Qed.

Lemma safe_reachable s :
  rtc safe_step newWSClient s → inv s ∧ todo_inv s ∧ todo_open s.
Proof.
  intros Hr. pattern s. eapply rtc_ind_r; [| |exact Hr].
  - split_ands; [apply inv_newWSClient|apply todo_inv_newWSClient|]. by intros sub ?%elem_of_nil.
  - intros s1 s2 _ Hs (I & Hnd & Ho). pose proof Hs as (a & Ha & _).
    split_ands; [by eapply inv_exec|by eapply todo_inv_exec|by eapply todo_open_step].
Qed.
End refinement.

(** ** Checking executions *)

(** An execution whose consumer keeps up, by checking each of its states. *)
Definition room {RT : GoRuntime} (sub : nat) (acts : list action) (s : state) : bool :=
  match run acts s with
  | Some s1 =>
      match s_heap s1 !! sub with
      | Some sb => bool_decide (length (sub_events sb) < subEventBuffer)%nat
      | None => true
      end
  | None => true
  end.

Lemma keeps_up_check {RT : GoRuntime} sub acts s :
  forallb (λ n, room sub (take n acts) s) (seq 0 (S (length acts))) = true → keeps_up sub acts s.
Proof.
  intros Hall acts1 acts2 s1 sb -> Hr Hsb.
  rewrite forallb_forall in Hall. specialize (Hall (length acts1)).
  rewrite take_app_length in Hall. unfold room in Hall. rewrite Hr, Hsb in Hall.
  apply (bool_decide_eq_true_1 _), Hall, in_seq. rewrite length_app. lia.
Qed.

(** Runs an execution, checking that each step is safe. *)
Fixpoint run_safe {RT : GoRuntime} (acts : list action) (s : state) : option state :=
  match acts with
  | [] => Some s
  | a :: acts =>
      s' ← exec a s;
      if bool_decide (Forall (λ sub, sub ∉ loop_todo (s_loop s)) (option_list (closing a s)))
      then run_safe acts s' else None
  end.

Lemma run_safe_reachable {RT : GoRuntime} acts s s' :
  run_safe acts s = Some s' → rtc safe_step s s'.
Proof.
  revert s. induction acts as [|a acts IH]; intros s Hr; simpl in Hr.
  - injection Hr as <-. constructor.
  - apply bind_Some in Hr as (s1 & H1 & Hr). case_bool_decide as Hs; [|done].
    eapply rtc_l; [|by apply IH]. exists a. split; [done|]. intros sub Hc. rewrite Hc in Hs. by inversion Hs.
Qed.

(** ** Properties *)

(** C10: the client implements a broker. Along every execution, the steps of the client
    that the broker sees are steps the broker allows, in that order, and they take the
    empty broker to the broker of the final state: events are published to all current
    subscriptions of their topic at once, queued per subscription in order, lost only
    when more than [subEventBuffer] wait, and received from the head of the queue; no
    event reaches a subscription after its [Unsubscribe] or the end of the connection,
    and a channel is closed only when no later event can reach it. *)
Theorem ws_refines_broker {RT : GoRuntime} acts s :
  run acts newWSClient = Some s → brun (trace acts newWSClient) ∅ = Some (abs s).
Proof. apply refine_newWSClient. Qed.

(** A subscription that receives an event, misses one after [Unsubscribe], and another
    that does not. *)
Definition deliveryExecution : list action :=
  subscribing 0 "block" "a" ++ subscribing 1 "block" "b" ++
  [ALoop (publish "block" (JInt 1)); ALoop InOther; ALoop InOther; ALoop InOther;
   ALoop (publish "dkg" (JInt 2)); ALoop InOther;
   AReceive 0; AUnsubscribe 2 0; AThread 2 ChGo; AThread 2 ChGo;
   ALoop (publish "block" (JInt 3)); ALoop InOther; ALoop InOther; ALoop InOther;
   ALoop (respond "Unsubscribed" "a"); ALoop InOther; AThread 2 ChGo; AThread 2 ChGo;
   AThread 2 ChGo; AThread 2 ChGo;
   ALoop (publish "block" (JInt 4)); ALoop InOther; ALoop InOther;
   AReceive 1].

Lemma ws_refines_broker_witness :
  brun (trace deliveryExecution newWSClient) ∅ = Some (abs (after deliveryExecution)).
Proof. apply ws_refines_broker. vm_compute. reflexivity. Defined.

(** C11: delivery. What a consumer has received, followed by what waits in the channel
    and what [readLoop] is about to send, is a subsequence of the events published on
    the topic while it was subscribed: in order, none twice, none of another topic and
    none from before or after. If its channel never fills up it is all of them. *)
Theorem ws_delivery {RT : GoRuntime} acts s sub sb :
  run acts newWSClient = Some s → s_heap s !! sub = Some sb →
  let got := received sub (trace acts newWSClient) ++ sub_events sb ++ transit (s_loop s) sub in
  let due := owed sub None (trace acts newWSClient) in
  got `sublist_of` due ∧ (keeps_up sub acts newWSClient → got = due).
Proof.
  intros Hr Hsb.
  destruct (brun_delivery _ _ _ sub (refine_newWSClient acts s Hr)) as [Hsub Heq].
  unfold queued in *. rewrite (abs_Some s sub sb Hsb) in Hsub, Heq. split; [exact Hsub|].
  intros Hk. apply Heq. by eapply trace_lossless.
Qed.

Lemma ws_delivery_witness :
  received 0 (trace deliveryExecution newWSClient) ++
    [MkEvent "block" (JInt 3)] = owed 0 None (trace deliveryExecution newWSClient).
Proof.
  refine (proj2 (ws_delivery deliveryExecution (after deliveryExecution) 0
    (MkSubscription "a" "block" [MkEvent "block" (JInt 3)] true true true) _ _) _).
  - vm_compute. reflexivity.
  - vm_compute. reflexivity.
  - apply keeps_up_check. vm_compute. reflexivity.
Defined.

(** C12: the panic of [readLoop] has one cause. In an execution in which no caller
    closes a subscription while it is among those [readLoop] has still to send the
    current event to, there is no panic, and every subscription [readLoop] is about to
    send to is open; so outside that window [Unsubscribe] and failing calls of
    [Subscribe] are safe at any time. *)
Theorem ws_no_panic {RT : GoRuntime} s :
  rtc safe_step newWSClient s →
  s_panic s = None ∧
  ∀ sub, sub ∈ loop_todo (s_loop s) →
    ∃ sb, s_heap s !! sub = Some sb ∧ sub_eventsClosed sb = false.
Proof.
  intros (I & _ & Ho)%safe_reachable.
  assert (∀ sub, sub ∈ loop_todo (s_loop s) →
    ∃ sb, s_heap s !! sub = Some sb ∧ sub_eventsClosed sb = false) as Hopen.
  { intros sub Hin. apply Ho, open_box_abs in Hin as (sb & Hsb & Hc). exists sb. split; [done|].
    by destruct (inv_sub_ok s sub sb I Hsb) as (-> & _). }
  split; [|done]. destruct (s_panic s) as [msg|] eqn:Hp; [|done]. exfalso.
  pose proof (inv_panic _ I) as Hpi. rewrite Hp in Hpi.
  destruct Hpi as (_ & ev & sub & todo & sb & Hl & Hsb & Hc). rewrite Hl in Hopen.
  destruct (Hopen sub) as (sb' & Hsb' & Hc'); [by left|]. congruence.
Qed.

Lemma ws_no_panic_witness : s_panic (after deliveryExecution) = None.
Proof.
  refine (proj1 (ws_no_panic (after deliveryExecution) _)).
  apply (run_safe_reachable deliveryExecution). vm_compute. reflexivity.
Defined.
