(* ===== verification/Correlation.v ===== *)
(** * Whose response it is.

    The calls of the WebSocket client against the responses of the node: which response
    a call takes, over whole executions, and that a waiting call never loses its place.
    The histories are functions of an execution; the invariants extend those of
    WebSocketInv.v. *)
From S2P Require Import Prelude GoLib Wire Json WebSocket WebSocketInv WebSocketProps.

(** ** Histories *)

(** The response in a message. *)
Definition response_of (m : wsMessage) : wsResponse :=
  MkWsResponse (wm_Status m) (wm_SubscriptionID m) (wm_Message m) (wm_Error m).

Definition is_response (m : wsMessage) : bool :=
  match wm_Data m with Some _ => false | None => negb (bool_decide (wm_Status m = "")) end.

(** The response [readLoop] takes from the connection in a step, and the channel of the
    call it is for. *)
Definition answers (a : action) (s : state) : list (nat * wsResponse) :=
  match a, s_loop s with
  | ALoop (InMessage m), LRead =>
      match is_response m, c_pending (s_client s) with
      | true, ch :: _ => [(ch, response_of m)]
      | _, _ => []
      end
  | _, _ => []
  end.

(** The response a call returns with in a step, and its channel. *)
Definition takes (a : action) (s : state) : list (nat * wsResponse) :=
  match a with
  | AThread tid ChGo =>
      match s_threads s !! tid with
      | Some (TSelect _ ch) =>
          match s_chans s !! ch with
          | Some rc => match rc_queue rc with r :: _ => [(ch, r)] | [] => [] end
          | None => []
          end
      | _ => []
      end
  | _ => []
  end.

(** The channel a call has a place in the queue with. *)
Definition thread_chan (t : thread) : option nat :=
  match t with TWrite _ _ ch | TSelect _ ch => Some ch | _ => None end.

Section correlation.
Context {RT : GoRuntime}.
Implicit Types s : state.

Fixpoint history {A} (f : action → state → list A) (acts : list action) s : list A :=
  match acts with
  | [] => []
  | a :: acts => f a s ++ match exec a s with Some s' => history f acts s' | None => [] end
  end.

(** ** What a step does to the channels and to the calls' places *)

(** Every response in a channel, or on its way to one, was an answer to it. *)
Definition answered_inv (A T : list (nat * wsResponse)) s : Prop :=
  A.*1 = s_answered s ∧
  (∀ p, p ∈ T → p ∈ A) ∧
  (∀ ch rc r, s_chans s !! ch = Some rc → r ∈ rc_queue rc → (ch, r) ∈ A) ∧
  (∀ ch r, s_loop s = LDeliver ch r → (ch, r) ∈ A).

(** Every call between its place in the queue and its return has a channel of its own,
    which is still owed a response as long as it is open and empty. *)
Definition places_inv s : Prop :=
  (∀ tid t ch, s_threads s !! tid = Some t → thread_chan t = Some ch →
     is_Some (s_chans s !! ch) ∧
     (s_chans s !! ch = Some (MkRespChan [] false) →
      ch ∈ loop_owed (s_loop s) ++ c_pending (s_client s))) ∧
  (∀ tid1 tid2 t1 t2 ch, s_threads s !! tid1 = Some t1 → s_threads s !! tid2 = Some t2 →
     thread_chan t1 = Some ch → thread_chan t2 = Some ch → tid1 = tid2).

(** The histories at the end of a step. *)
Definition keeps_answers s s' : Prop :=
  s_answered s' = s_answered s ∧
  (∀ ch rc r, s_chans s' !! ch = Some rc → r ∈ rc_queue rc →
     (∃ rc0, s_chans s !! ch = Some rc0 ∧ r ∈ rc_queue rc0) ∨ s_loop s = LDeliver ch r) ∧
  (∀ ch r, s_loop s' = LDeliver ch r → s_loop s = LDeliver ch r).

Lemma answered_inv_keep A T s s' : answered_inv A T s → keeps_answers s s' → answered_inv A T s'.
Proof.
  intros (H1 & H2 & H3 & H4) (K1 & K2 & K3). unfold answered_inv. split_ands; [congruence|done| |].
  - intros ch rc r Hrc Hr. destruct (K2 ch rc r Hrc Hr) as [(rc0 & H0 & Hr0)|Hl]; [by eapply H3|by apply H4].
  - intros ch r Hl. by apply H4, K3.
Qed.

Lemma keeps_answers_same s s' :
  s_answered s' = s_answered s → s_chans s' = s_chans s → s_loop s' = s_loop s → keeps_answers s s'.
Proof. intros H1 H2 H3. unfold keeps_answers. rewrite H1, H2, H3. split_ands; eauto. Qed.

(** A step that takes nothing from the connection and returns no response. *)
Lemma keeps_threadStep s s' tid c :
  threadStep tid c s = Some s' → keeps_answers s s'.
Proof.
  unfold threadStep. intros (t & Ht & Hs)%bind_Some.
  destruct t as [topic filter|k req|k req ch|k ch|k r|sub ret|sub ret|ret]; try done.
  - injection Hs as <-. unfold startSubscribe. case_match; by apply keeps_answers_same.
  - injection Hs as <-. unfold enqueue. case_match; [by apply keeps_answers_same|].
    unfold keeps_answers. simpl. split_ands; [done| |done]. intros ch rc r.
    rewrite lookup_insert_Some. intros [[<- <-]|[_ Hrc]] Hr; [by apply elem_of_nil in Hr|eauto].
  - destruct c; simpl in Hs; try done; [|by injection Hs as <-; apply keeps_answers_same].
    destruct (s_open s && encodable req); [|done]. injection Hs as <-. by apply keeps_answers_same.
  - destruct c; simpl in Hs; try done; [|by injection Hs as <-; apply keeps_answers_same|].
    2:{ destruct (s_done s); [|done]. injection Hs as <-. by apply keeps_answers_same. }
    apply bind_Some in Hs as (rc & Hrc & Hs). destruct (rc_queue rc) as [|r q] eqn:Hq.
    + destruct (rc_closed rc); [|done]. injection Hs as <-. by apply keeps_answers_same.
    + injection Hs as <-. unfold keeps_answers. simpl. split_ands; [done| |done]. intros ch' rc' r'.
      rewrite lookup_insert_Some. intros [[<- <-]|[_ Hrc']] Hr; [|eauto]. left. exists rc.
      split; [done|]. rewrite Hq. by right.
  - destruct k; simpl in Hs; [|by injection Hs as <-; apply keeps_answers_same].
    destruct r; [case_decide|]; [|by injection Hs as <-; apply keeps_answers_same..].
    apply bind_Some in Hs as (sb & _ & Hs). injection Hs as <-. by apply keeps_answers_same.
  - apply bind_Some in Hs as (sb & _ & Hs). injection Hs as <-. by apply keeps_answers_same.
  - apply fmap_Some in Hs as (s1 & H1 & ->). unfold onceClose in H1.
    apply bind_Some in H1 as (sb & _ & H1). repeat case_match; injection H1 as <-; by apply keeps_answers_same.
Qed.

(** [readLoop] moves on without a response in hand. *)
Lemma keeps_answers_loop s s' :
  s_answered s' = s_answered s → s_chans s' = s_chans s → (∀ ch r, s_loop s' ≠ LDeliver ch r) →
  keeps_answers s s'.
Proof.
  intros H1 H2 H3. unfold keeps_answers. rewrite H1, H2.
  split_ands; [done|eauto|]. intros ch r Hl. by destruct (H3 ch r).
Qed.

Lemma keeps_loopStep s s' i :
  s_loop s ≠ LRead → loopStep i s = Some s' → keeps_answers s s'.
Proof.
  intros Hr Hs. unfold loopStep in Hs.
  destruct (s_loop s) as [|ev [|sub todo]|ch resp|e|p a|[|ch p] a|[|sub a]| |] eqn:Hl;
    try done; try (by injection Hs as <-; apply keeps_answers_loop).
  - unfold dispatch in Hs. apply bind_Some in Hs as (sb & _ & Hs).
    repeat case_match; injection Hs as <-; apply keeps_answers_loop; simpl; by rewrite ?Hl.
  - unfold deliver in Hs. apply bind_Some in Hs as (rc & Hrc & Hs).
    destruct (rc_closed rc); [injection Hs as <-; by apply keeps_answers_same|].
    destruct (rc_queue rc); [|done]. injection Hs as <-. unfold keeps_answers. simpl.
    split_ands; [done| |done]. intros ch' rc' r.
    rewrite lookup_insert_Some. intros [[<- <-]|[_ Hrc']] Hr'; [|eauto].
    simpl in Hr'. apply list_elem_of_singleton in Hr' as ->. by right.
  - destruct (s_done s); injection Hs as <-; apply keeps_answers_loop; simpl; by rewrite ?Hl.
  - apply fmap_Some in Hs as (s1 & H1 & ->). unfold closeChan in H1.
    apply bind_Some in H1 as (rc & Hrc & H1). destruct (rc_closed rc); injection H1 as <-;
      [by apply keeps_answers_loop|]. unfold keeps_answers. simpl. split_ands; [done| |done].
    intros ch' rc' r. rewrite lookup_insert_Some. intros [[<- <-]|[_ Hrc']] Hr'; eauto.
  - apply fmap_Some in Hs as (s1 & H1 & ->). unfold onceClose in H1.
    apply bind_Some in H1 as (sb & _ & H1). repeat case_match; injection H1 as <-; by apply keeps_answers_loop.
Qed.

Lemma answered_inv_receive A T s s' i :
  answered_inv A T s → s_loop s = LRead → receive i s = Some s' →
  answered_inv (A ++ answers (ALoop i) s) T s'.
Proof.
  intros HA Hl Hs. unfold answers. rewrite Hl. destruct i as [m| |e]; simpl in Hs.
  2,3: rewrite app_nil_r; injection Hs as <-; eapply answered_inv_keep;
    [exact HA|apply keeps_answers_loop; simpl; by rewrite ?Hl].
  unfold is_response. destruct (wm_Data m) as [d|].
  { rewrite app_nil_r. injection Hs as <-. eapply answered_inv_keep; [exact HA|by apply keeps_answers_loop]. }
  case_decide as Hst.
  { rewrite bool_decide_eq_true_2 by done. simpl. rewrite app_nil_r. by injection Hs as <-. }
  rewrite bool_decide_eq_false_2 by done. simpl.
  destruct (c_pending (s_client s)) as [|ch rest]; injection Hs as <-; [by rewrite app_nil_r|].
  destruct HA as (H1 & H2 & H3 & H4). unfold answered_inv. simpl. rewrite fmap_app, H1. split_ands; [done| | |].
  - intros p Hp. apply elem_of_app. left. by apply H2.
  - intros ch' rc r Hrc Hr. apply elem_of_app. left. by eapply H3.
  - intros ch' r [= <- <-]. apply elem_of_app. right. by left.
Qed.

Lemma answers_nil a s : s_loop s ≠ LRead → answers a s = [].
Proof. unfold answers. repeat case_match; done. Qed.

Lemma answers_thread tid c s : answers (AThread tid c) s = [].
Proof. done. Qed.

(** A response that is taken was in its channel. *)
Lemma takes_queue a s p :
  p ∈ takes a s → ∃ rc, s_chans s !! p.1 = Some rc ∧ p.2 ∈ rc_queue rc.
Proof.
  unfold takes. intros Hp.
  destruct a as [| |tid []| | |]; try (by apply elem_of_nil in Hp).
  destruct (s_threads s !! tid) as [[]|]; try (by apply elem_of_nil in Hp).
  destruct (s_chans s !! ch) as [rc|] eqn:Hrc; [|by apply elem_of_nil in Hp].
  destruct (rc_queue rc) as [|r q] eqn:Hq; [by apply elem_of_nil in Hp|].
  apply list_elem_of_singleton in Hp as ->. exists rc. rewrite Hq. split; [done|by left].
Qed.

Lemma answered_inv_exec A T s s' a :
  answered_inv A T s → exec a s = Some s' → answered_inv (A ++ answers a s) (T ++ takes a s) s'.
Proof.
  intros HA Hs.
  assert (answered_inv (A ++ answers a s) T s') as (H1 & H2 & H3 & H4).
  { unfold exec in Hs. destruct (s_panic s); [done|].
    destruct a as [tid topic filter|tid sub|tid c|i|sub|]; simpl in Hs.
    4:{ assert (s_loop s = LRead ∨ s_loop s ≠ LRead) as [Hl|Hl] by (destruct (s_loop s); auto).
        - unfold loopStep in Hs. rewrite Hl in Hs. by apply answered_inv_receive.
        - rewrite answers_nil, app_nil_r by done. eapply answered_inv_keep; [exact HA|].
          by eapply keeps_loopStep. }
    all: rewrite app_nil_r; eapply answered_inv_keep; [exact HA|].
    - destruct (s_threads s !! tid); [done|]. injection Hs as <-. by apply keeps_answers_same.
    - destruct (s_threads s !! tid); [done|]. apply bind_Some in Hs as (sb & _ & Hs).
      destruct (sub_returned sb); [|done]. injection Hs as <-. by apply keeps_answers_same.
    - by eapply keeps_threadStep.
    - apply bind_Some in Hs as (sb & _ & Hs). repeat case_match; simplify_eq. by apply keeps_answers_same.
    - injection Hs as <-. by apply keeps_answers_same. }
  unfold answered_inv. split_ands; [done| |done|done].
  intros p [Hp|Hp]%elem_of_app; [by apply H2|].
  destruct HA as (_ & _ & H3' & _). apply takes_queue in Hp as (rc & Hrc & Hr).
  apply elem_of_app. left. destruct p as [ch r]. by eapply H3'.
Qed.

Lemma history_answered acts A T s s' :
  answered_inv A T s → run acts s = Some s' →
  answered_inv (A ++ history answers acts s) (T ++ history takes acts s) s'.
Proof.
  revert A T s. induction acts as [|a acts IH]; intros A T s HA Hr; simpl in *.
  - injection Hr as <-. by rewrite !app_nil_r.
  - apply bind_Some in Hr as (s1 & H1 & Hr). rewrite H1, !app_assoc.
    apply IH; [|done]. by apply answered_inv_exec.
Qed.

Lemma answered_inv_newWSClient : answered_inv [] [] newWSClient.
Proof.
  unfold answered_inv. split_ands; [done|by intros ? ?%elem_of_nil| |done].
  intros ch rc r Hrc. simpl in Hrc. by rewrite lookup_empty in Hrc.
Qed.

(** ** Places in the queue *)

(** What keeps the places: no call gets a channel, channels that stay open and empty are
    unchanged, and a channel leaves the queue only when it is filled or closed. *)
Lemma places_keep s s' :
  (∀ tid t ch, s_threads s' !! tid = Some t → thread_chan t = Some ch →
     (∃ t0, s_threads s !! tid = Some t0 ∧ thread_chan t0 = Some ch) ∧
     (s_chans s' !! ch = s_chans s !! ch ∨
      ∃ rc, s_chans s' !! ch = Some rc ∧ rc ≠ MkRespChan [] false)) →
  (∀ ch, ch ∈ loop_owed (s_loop s) ++ c_pending (s_client s) →
     s_chans s' !! ch = Some (MkRespChan [] false) →
     ch ∈ loop_owed (s_loop s') ++ c_pending (s_client s')) →
  places_inv s → places_inv s'.
Proof.
  intros Hth Hq [Hp Hu]. split.
  - intros tid t ch Ht Hc. destruct (Hth tid t ch Ht Hc) as ((t0 & Ht0 & Hc0) & Hch).
    destruct (Hp tid t0 ch Ht0 Hc0) as [Hs Ho].
    destruct Hch as [Heq|(rc & Hrc & Hne)].
    + rewrite Heq. split; [done|]. intros He. apply Hq; [by apply Ho|congruence].
    + rewrite Hrc. split; [by eexists|]. intros [= Heq]. done.
  - intros tid1 tid2 t1 t2 ch H1 H2 C1 C2.
    destruct (Hth _ _ _ H1 C1) as ((u1 & U1 & D1) & _), (Hth _ _ _ H2 C2) as ((u2 & U2 & D2) & _).
    by eapply Hu.
Qed.

(** A thread moves on, keeping its channel or giving it up. *)
Lemma places_thread s s' tid t t' :
  s_threads s !! tid = Some t → s_threads s' = <[tid := t']> (s_threads s) →
  thread_chan t' = None ∨ thread_chan t' = thread_chan t →
  s_chans s' = s_chans s → s_loop s' = s_loop s → c_pending (s_client s') = c_pending (s_client s) →
  places_inv s → places_inv s'.
Proof.
  intros Ht Hth Hc Hch Hl Hq. apply places_keep.
  - intros tid' u ch Hu Hcu. rewrite Hch. split; [|by left]. rewrite Hth in Hu.
    apply lookup_insert_Some in Hu as [[<- <-]|[_ Hu]]; [|eauto].
    exists t. split; [done|]. destruct Hc; congruence.
  - intros ch Hin _. by rewrite Hl, Hq.
Qed.

(** The goal is a state in which one thread of the state of [HP] has moved on. *)
Ltac move_thread :=
  match goal with
  | HP : places_inv ?s, Ht : s_threads ?s !! _ = Some _ |- places_inv _ =>
      refine (places_thread s _ _ _ _ Ht _ _ _ _ _ HP);
      [reflexivity|first [by left|by right]|reflexivity..]
  end.

Lemma places_enqueue s tid k req :
  places_inv s → s_threads s !! tid = Some (TRoundTrip k req) → places_inv (enqueue tid k req s).
Proof.
  intros HP Ht. unfold enqueue. destruct (c_closed (s_client s)).
  { move_thread. }
  pose proof HP as [Hp Hu]. set (ch := fresh (dom (s_chans s))).
  assert (s_chans s !! ch = None) as Hnone by (apply not_elem_of_dom, is_fresh).
  assert (∀ tid' t', s_threads s !! tid' = Some t' → thread_chan t' ≠ Some ch) as Hno.
  { intros tid' t' Ht' Hc. destruct (Hp tid' t' ch Ht' Hc) as [[? ?] _]. congruence. }
  split; simpl.
  - intros tid' t ch' [[<- <-]|[Hne Ht']]%lookup_insert_Some Hc.
    + injection Hc as <-. rewrite lookup_insert_eq. split; [by eexists|]. intros _.
      rewrite !elem_of_app. right. right. by left.
    + assert (ch ≠ ch') as Hne' by (intros <-; by apply (Hno tid' t)).
      rewrite lookup_insert_ne by done. destruct (Hp tid' t ch' Ht' Hc) as [Hs Ho].
      split; [done|]. intros He. specialize (Ho He). rewrite !elem_of_app in *. tauto.
  - intros tid1 tid2 t1 t2 c [[<- <-]|[N1 T1]]%lookup_insert_Some
      [[<- <-]|[N2 T2]]%lookup_insert_Some C1 C2; [done| | |by eapply Hu].
    + injection C1 as <-. by destruct (Hno tid2 t2 T2).
    + injection C2 as <-. by destruct (Hno tid1 t1 T1).
Qed.

Lemma places_select s s' tid k ch c :
  places_inv s → s_threads s !! tid = Some (TSelect k ch) → select tid k ch c s = Some s' → places_inv s'.
Proof.
  intros HP Ht Hs.
  assert (∀ r, places_inv (set_thread tid (TReturned k r) s)) as Hret.
  { intros r. move_thread. }
  destruct c; simpl in Hs; try done; [|by injection Hs as <-|destruct (s_done s); [by injection Hs as <-|done]].
  apply bind_Some in Hs as (rc & Hrc & Hs). destruct (rc_queue rc) as [|r q] eqn:Hq.
  { destruct (rc_closed rc); [by injection Hs as <-|done]. }
  injection Hs as <-. destruct HP as [Hp Hu]. revert Hp. intros Hp.
  apply (places_keep s); [|intros ch' Hin _; exact Hin|by split]. simpl.
  intros tid' t ch' [[<- <-]|[Hne Ht']]%lookup_insert_Some Hc; [done|]. split; [eauto|].
  left. apply lookup_insert_ne. intros <-. destruct Hne. by eapply Hu.
Qed.

Lemma places_threadStep s s' tid c :
  places_inv s → threadStep tid c s = Some s' → places_inv s'.
Proof.
  intros HP Hs. unfold threadStep in Hs. apply bind_Some in Hs as (t & Ht & Hs).
  destruct t as [topic filter|k req|k req ch|k ch|k r|sub ret|sub ret|ret]; try done.
  - injection Hs as <-. unfold startSubscribe.
    case_match; move_thread.
  - injection Hs as <-. by apply places_enqueue.
  - destruct c; simpl in Hs; try done.
    + destruct (s_open s && encodable req); [|done]. injection Hs as <-.
      move_thread.
    + injection Hs as <-. move_thread.
  - by eapply places_select.
  - destruct k; simpl in Hs; [|injection Hs as <-; move_thread].
    destruct r; [case_decide|]; [|injection Hs as <-; move_thread..].
    apply bind_Some in Hs as (sb & _ & Hs). injection Hs as <-.
    move_thread.
  - apply bind_Some in Hs as (sb & _ & Hs). injection Hs as <-.
    move_thread.
  - apply fmap_Some in Hs as (s1 & H1 & ->). unfold onceClose in H1.
    apply bind_Some in H1 as (sb & _ & H1).
    repeat case_match; injection H1 as <-; move_thread.
Qed.

Lemma places_loopStep s s' i :
  inv s → s_panic s = None → places_inv s → loopStep i s = Some s' → places_inv s'.
Proof.
  intros I Hp HP Hs.
  assert (∀ s1, s_threads s1 = s_threads s → s_chans s1 = s_chans s →
    (∀ ch, ch ∈ loop_owed (s_loop s) ++ c_pending (s_client s) →
       ch ∈ loop_owed (s_loop s1) ++ c_pending (s_client s1)) → places_inv s1) as Hkeep.
  { intros s1 Hth Hch Hq. apply (places_keep s); [|by auto|done].
    intros tid t ch. rewrite Hth, Hch. eauto. }
  assert (∀ s1 ch rc, s_threads s1 = s_threads s → s_chans s1 = <[ch := rc]> (s_chans s) →
    rc ≠ MkRespChan [] false → (∀ c, c ∈ loop_owed (s_loop s) ++ c_pending (s_client s) → c ≠ ch →
       c ∈ loop_owed (s_loop s1) ++ c_pending (s_client s1)) → places_inv s1) as Hfill.
  { intros s1 ch rc Hth Hch Hne Hq. apply (places_keep s); [| |done].
    - intros tid t c. rewrite Hth, Hch. intros Ht Hc. split; [eauto|].
      destruct (decide (ch = c)) as [<-|Hd]; [right; exists rc; by rewrite lookup_insert_eq|].
      left. by apply lookup_insert_ne.
    - intros c Hin. rewrite Hch. intros [[_ ?]|[Hd _]]%lookup_insert_Some; [done|]. by apply Hq. }
  pose proof (inv_chans _ I) as Hci. unfold loopStep in Hs.
  destruct (s_loop s) as [|ev [|sub todo]|ch resp|e|p a|[|ch p] a|[|sub a]| |] eqn:Hl;
    try (injection Hs as <-; by apply Hkeep).
  - destruct i as [m| |e]; simpl in Hs; [|injection Hs as <-; apply Hkeep; by rewrite ?Hl..].
    destruct (wm_Data m); [injection Hs as <-; by apply Hkeep|].
    case_decide; [by injection Hs as <-|].
    destruct (c_pending (s_client s)); injection Hs as <-; [done|by apply Hkeep].
  - unfold dispatch in Hs. apply bind_Some in Hs as (sb & _ & Hs).
    repeat case_match; injection Hs as <-; apply Hkeep; simpl; by rewrite ?Hl.
  - unfold deliver in Hs. rewrite (chans_inv_head _ _ _ _ _ Hci eq_refl) in Hs. simpl in Hs.
    injection Hs as <-. eapply (Hfill _ ch); [done|done|done|]. simpl.
    intros c [->|Hin]%elem_of_cons Hne; [done|]. by rewrite ?elem_of_cons.
  - injection Hs as <-. apply Hkeep; simpl; [done|done|]. intros c. by rewrite app_nil_r.
  - destruct (s_done s); injection Hs as <-; apply Hkeep; simpl; by rewrite ?Hl.
  - apply fmap_Some in Hs as (s1 & H1 & ->). unfold closeChan in H1.
    rewrite (chans_inv_head _ _ _ _ _ Hci eq_refl) in H1. simpl in H1. injection H1 as <-.
    eapply (Hfill _ ch); [done|done|done|]. simpl. intros c [->|Hin]%elem_of_cons Hne; done.
  - apply fmap_Some in Hs as (s1 & H1 & ->). unfold onceClose in H1.
    apply bind_Some in H1 as (sb & _ & H1).
    repeat case_match; injection H1 as <-; by apply Hkeep.
  - done.
Qed.

Lemma places_exec s s' a : inv s → places_inv s → exec a s = Some s' → places_inv s'.
Proof.
  intros I HP Hs. unfold exec in Hs. destruct (s_panic s) eqn:Hp; [done|].
  assert (∀ tid t, s_threads s !! tid = None → thread_chan t = None → places_inv (set_thread tid t s)) as Hnew.
  { intros tid t Ht Hc. apply (places_keep s); [|by auto|done]. simpl.
    intros tid' u ch [[<- <-]|[_ Hu]]%lookup_insert_Some Hcu; [congruence|eauto]. }
  destruct a as [tid topic filter|tid sub|tid c|i|sub|]; simpl in Hs.
  - destruct (s_threads s !! tid) eqn:Ht; [done|]. injection Hs as <-. by apply Hnew.
  - destruct (s_threads s !! tid) eqn:Ht; [done|]. apply bind_Some in Hs as (sb & _ & Hs).
    destruct (sub_returned sb); [|done]. injection Hs as <-. by apply Hnew.
  - by eapply places_threadStep.
  - by eapply places_loopStep.
  - apply bind_Some in Hs as (sb & _ & Hs). repeat case_match; simplify_eq. done.
  - by injection Hs as <-.
Qed.

Lemma places_reachable s : rtc step newWSClient s → inv s ∧ places_inv s.
Proof.
  intros Hr. pattern s. eapply rtc_ind_r; [| |exact Hr].
  - split; [apply inv_newWSClient|]. split.
    + intros tid t ch Ht. simpl in Ht. by rewrite lookup_empty in Ht.
    + intros tid1 tid2 t1 t2 ch Ht. simpl in Ht. by rewrite lookup_empty in Ht.
  - intros s1 s2 _ [a Ha] (I & HP). split; [by eapply inv_exec|by eapply places_exec].
Qed.

(** ** Serving the queue *)

(** The node sends a response; [readLoop] hands it over. *)
Definition serve (m : wsMessage) : list action := [ALoop (InMessage m); ALoop InOther].

Lemma serve_run s m ch rest :
  inv s → s_panic s = None → s_loop s = LRead → is_response m = true →
  c_pending (s_client s) = ch :: rest →
  ∃ s', run (serve m) s = Some s' ∧ inv s' ∧ s_panic s' = None ∧ s_loop s' = LRead ∧
    c_pending (s_client s') = rest ∧ s_threads s' = s_threads s ∧
    s_chans s' = <[ch := MkRespChan [response_of m] false]> (s_chans s).
Proof.
  intros I Hp Hl Hm Hq. destruct (inv_chans _ I) as [_ Hch]. rewrite Hl, Hq in Hch.
  assert (s_chans s !! ch = Some (MkRespChan [] false)) as Hrc by (apply Hch; left).
  unfold is_response in Hm. destruct (wm_Data m) eqn:Hd; [done|].
  apply negb_true_iff, bool_decide_eq_false in Hm.
  assert (∃ s', run (serve m) s = Some s' ∧ s_panic s' = None ∧ s_loop s' = LRead ∧
    c_pending (s_client s') = rest ∧ s_threads s' = s_threads s ∧
    s_chans s' = <[ch := MkRespChan [response_of m] false]> (s_chans s)) as (s' & Hr & H).
  { set (s1 := set_loop (LDeliver ch (response_of m))
      (set_client (set_pending rest (s_client s)) (log_answered ch s))).
    assert (exec (ALoop (InMessage m)) s = Some s1) as H1.
    { unfold exec, perform, loopStep, receive. by rewrite Hp, Hl, Hd, decide_False, Hq by done. }
    assert (exec (ALoop InOther) s1 =
      Some (set_loop LRead (set_chans (<[ch := MkRespChan [response_of m] false]> (s_chans s)) s1))) as H2.
    { unfold exec, perform, loopStep, deliver. simpl. by rewrite Hp, Hrc. }
    unfold serve. cbn [run]. rewrite H1. cbn [mbind option_bind]. rewrite H2.
    eexists. split; [reflexivity|]. split_ands; done. }
  exists s'. split; [done|]. split; [|done]. clear -I Hr. revert s I Hr.
  generalize (serve m) as acts. induction acts as [|a acts IH]; intros s I Hr; simpl in Hr.
  - by injection Hr as <-.
  - apply bind_Some in Hr as (s1 & H1 & Hr). apply (IH s1); [by eapply inv_exec|done].
Qed.

(** The response for a call is in its channel after the responses for those before it. *)
Lemma serve_all n s ms ch m :
  inv s → s_panic s = None → s_loop s = LRead → Forall (λ m, is_response m = true) ms →
  c_pending (s_client s) !! n = Some ch → length ms = S n → last ms = Some m →
  ∃ s', run (ms ≫= serve) s = Some s' ∧ s_panic s' = None ∧ s_threads s' = s_threads s ∧
    s_chans s' !! ch = Some (MkRespChan [response_of m] false).
Proof.
  revert s ms. induction n as [|n IH]; intros s ms I Hp Hl Hms Hq Hlen Hlast.
  - destruct ms as [|m' [|]]; try done. injection Hlast as ->. apply Forall_cons in Hms as [Hm _].
    destruct (c_pending (s_client s)) as [|ch' rest] eqn:Hpend; [done|]. injection Hq as ->.
    destruct (serve_run s m ch rest I Hp Hl Hm Hpend) as (s' & Hr & _ & Hp' & _ & _ & Hth & Hch).
    exists s'. rewrite bind_cons, app_nil_r. split_ands; [done|done|done|]. by rewrite Hch, lookup_insert_eq.
  - destruct ms as [|m' ms]; [done|]. apply Forall_cons in Hms as [Hm Hms].
    destruct (c_pending (s_client s)) as [|ch' rest] eqn:Hpend; [done|]. simpl in Hq, Hlen.
    destruct (serve_run s m' ch' rest I Hp Hl Hm Hpend) as (s1 & Hr & I1 & Hp1 & Hl1 & Hq1 & Hth1 & _).
    destruct (IH s1 ms I1 Hp1 Hl1 Hms) as (s' & Hr' & Hp' & Hth & Hch).
    { by rewrite Hq1. } { lia. } { destruct ms; [done|]. by rewrite <- Hlast. }
    exists s'. rewrite bind_cons, run_app, Hr. split_ands; [done|done|congruence|done].
Qed.

Lemma run_serial_run acts s s' : run_serial acts s = Some s' → run acts s = Some s'.
Proof.
  revert s. induction acts as [|a acts IH]; intros s Hr; simpl in *; [done|].
  apply bind_Some in Hr as (s1 & -> & Hr). simpl. apply IH. by case_match.
Qed.
End correlation.

(** ** Properties *)

(** C13: in a serial execution every call gets the response to its own request. When at
    most one call at a time is between its place in the queue and its write, no write
    fails, and the node has not answered more requests than it was sent, the response a
    call returns with is the i-th one that [readLoop] took from the connection where the
    call's request is the i-th one written to it, however many calls before it were
    cancelled. *)
Theorem ws_correlation {RT : GoRuntime} acts s :
  run_serial acts newWSClient = Some s → (length (s_answered s) ≤ length (s_wire s))%nat →
  (history answers acts newWSClient).*1 = s_answered s ∧
  ∀ ch r, (ch, r) ∈ history takes acts newWSClient →
    ∃ i req, history answers acts newWSClient !! i = Some (ch, r) ∧ s_wire s !! i = Some (ch, req).
Proof.
  intros Hr Hlen.
  pose proof (history_answered acts [] [] _ s answered_inv_newWSClient (run_serial_run _ _ _ Hr))
    as (HA & HT & _). simpl in HA, HT. split; [done|]. intros ch r Hin.
  destruct (ws_fifo s (run_serial_reachable _ _ _ Hr) Hlen) as [rest Hrest].
  apply HT, list_elem_of_lookup in Hin as [i Hi].
  assert ((s_wire s).*1 !! i = Some ch) as Hw.
  { rewrite Hrest, <- HA. apply lookup_app_l_Some. by rewrite list_lookup_fmap, Hi. }
  rewrite list_lookup_fmap in Hw. apply fmap_Some in Hw as ([ch' req] & Hw & ->). eauto.
Qed.

(** The first of two calls is cancelled; the second gets the second response. *)
Lemma ws_correlation_witness :
  ∃ i req, history answers cancelledExecution newWSClient !! i =
      Some (1%nat, MkWsResponse "Subscribed" "b" "" "") ∧
    s_wire (after cancelledExecution) !! i = Some (1%nat, req).
Proof.
  refine (proj2 (ws_correlation cancelledExecution (after cancelledExecution) _ _) 1%nat
    (MkWsResponse "Subscribed" "b" "" "") _).
  - vm_compute. reflexivity.
  - apply (bool_decide_unpack _). vm_compute. exact I.
  - assert (history takes cancelledExecution newWSClient = [(1%nat, MkWsResponse "Subscribed" "b" "" "")])
      as -> by (vm_compute; reflexivity). left.
Defined.

(** C14: a waiting call is never forgotten. In every reachable state a call at its
    [select] has a response or the end of the connection to return with, or its channel
    is still in the queue; and when it is the n-th in the queue of an idle [readLoop], it
    returns with the n-th response the node sends from there on, whatever the calls
    before it do. *)
Theorem ws_waiting {RT : GoRuntime} s tid k ch :
  rtc step newWSClient s → s_panic s = None → s_threads s !! tid = Some (TSelect k ch) →
  ((∃ s', exec (AThread tid ChGo) s = Some s') ∨
   ch ∈ loop_owed (s_loop s) ++ c_pending (s_client s)) ∧
  ∀ n ms m, s_loop s = LRead → c_pending (s_client s) !! n = Some ch →
    length ms = S n → Forall (λ m, is_response m = true) ms → last ms = Some m →
    ∃ s' s'', run (ms ≫= serve) s = Some s' ∧ exec (AThread tid ChGo) s' = Some s'' ∧
      s_threads s'' !! tid = Some (TReturned k (Ok (response_of m))).
Proof.
  intros (I & HP)%places_reachable Hp Ht. split.
  - destruct (proj1 HP tid _ ch Ht eq_refl) as [[rc Hrc] Hq]. unfold exec. rewrite Hp. simpl.
    unfold threadStep. rewrite Ht. simpl. rewrite Hrc. simpl.
    destruct rc as [[|r q] []]; simpl; eauto.
  - intros n ms m Hl Hq Hlen Hms Hlast.
    destruct (serve_all n s ms ch m I Hp Hl Hms Hq Hlen Hlast) as (s' & Hr & Hp' & Hth & Hch).
    eexists s', _. split; [done|]. unfold exec. rewrite Hp'. simpl. unfold threadStep.
    rewrite Hth, Ht. simpl. rewrite Hch. simpl. split; [reflexivity|]. simpl. by rewrite lookup_insert_eq.
Qed.

(** Two calls are waiting; the second returns with the second response. *)
Definition twoWaiting : list action :=
  [ASubscribe 0 "block" None; AThread 0 ChGo; AThread 0 ChGo; AThread 0 ChGo;
   ASubscribe 1 "dkg" None; AThread 1 ChGo; AThread 1 ChGo; AThread 1 ChGo].

Definition subscribed (id : string) : wsMessage := MkWsMessage "" None "Subscribed" id "" "".

Lemma ws_waiting_witness :
  ∃ s' s'', run ([subscribed "a"; subscribed "b"] ≫= serve) (after twoWaiting) = Some s' ∧
    exec (AThread 1 ChGo) s' = Some s'' ∧
    s_threads s'' !! 1%nat =
      Some (TReturned (InSubscribe 1) (Ok (MkWsResponse "Subscribed" "b" "" ""))).
Proof.
  refine (proj2 (ws_waiting (after twoWaiting) 1 (InSubscribe 1) 1 _ _ _) 1%nat
    [subscribed "a"; subscribed "b"] (subscribed "b") _ _ _ _ _).
  - apply (run_reachable twoWaiting). vm_compute. reflexivity.
  - vm_compute. reflexivity.
  - vm_compute. reflexivity.
  - vm_compute. reflexivity.
  - vm_compute. reflexivity.
  - reflexivity.
  - repeat constructor.
  - reflexivity.
Defined.
