(* ===== verification/JsonTypes.v ===== *)
(** * The JSON forms of the data types: src/types.go, src/message.go, src/websocket.go.

    [GoJson] is the interface between a Go type and [encoding/json]: its zero value, how
    it is written, how it is read into an existing value, and the law that reading into
    the zero value inverts writing. Struct types read a document field by field, in the
    order of the document, each key matched exactly or else without regard to case;
    unknown keys are skipped and null changes nothing. A [list] stands for a non-nil
    slice; null is read as an empty one, and the elements of a slice are read into zero
    values (the package reuses old elements when a key is repeated in a document).

    The structs are those of the node's responses, the transaction and message structs,
    and the payloads of WebSocket events with their accessors. *)
From S2P Require Import Prelude GoLib Wire Pubkey Message Bip322 Transaction Json WebSocket.

(** ** The interface *)

Class GoJson (A : Type) := {
  json_zero : A;
  json_encode : A → json;
  json_decode : json → A → result A;
  json_wf : A → Prop;
  json_roundtrip a : json_wf a → json_decode (json_encode a) json_zero = Ok a;
}.
Arguments json_zero : simpl never.
Arguments json_encode : simpl never.
Arguments json_decode : simpl never.
Arguments json_wf : simpl never.

(** *** Scalars *)

Definition decode_string (j : json) (old : string) : result string :=
  match j with JNull => Ok old | JString s => Ok s | _ => Err (JsonTypeError (json_kind j) "string") end.
Definition decode_bool (j : json) (old : bool) : result bool :=
  match j with JNull => Ok old | JBool b => Ok b | _ => Err (JsonTypeError (json_kind j) "bool") end.

(** An unsigned integer of [w] bits. *)
Definition decode_uint (w : Z) (j : json) (old : Z) : result Z :=
  match j with JNull => Ok old | _ => decode_int 0 (2 ^ w) ("uint" +:+ pretty w) j end.

#[global] Instance string_json : GoJson string := {|
  json_zero := ""; json_encode := JString; json_decode := decode_string;
  json_wf _ := True; json_roundtrip a _ := eq_refl |}.
#[global] Instance bool_json : GoJson bool := {|
  json_zero := false; json_encode := JBool; json_decode := decode_bool;
  json_wf _ := True; json_roundtrip a _ := eq_refl |}.

#[global] Arguments decode_uint : simpl never.

Lemma decode_uint_int w n old : 0 ≤ n < 2 ^ w → decode_uint w (JInt n) old = Ok n.
Proof.
  intros Hn. unfold decode_uint, decode_int.
  by replace ((0 <=? n) && (n <? 2 ^ w)) with true by lia.
Qed.

(** [uint64]. *)
#[global] Instance uint64_json : GoJson Z := {|
  json_zero := 0; json_encode := JInt; json_decode := decode_uint 64;
  json_wf := is_u64; json_roundtrip a H := decode_uint_int 64 a 0 H |}.

(** [uint8]. *)
Definition decode_byte (j : json) (old : byte) : result byte :=
  byte_of <$> decode_uint 8 j (byte_val old).

Lemma decode_byte_val b : decode_byte (JInt (byte_val b)) (byte_of 0) = Ok b.
Proof.
  unfold decode_byte. rewrite decode_uint_int by apply byte_val_range. simpl. by rewrite byte_of_val.
Qed.

#[global] Instance uint8_json : GoJson byte := {|
  json_zero := byte_of 0; json_encode b := JInt (byte_val b); json_decode := decode_byte;
  json_wf _ := True; json_roundtrip a _ := decode_byte_val a |}.

(** *** Byte arrays, byte slices, slices and pointers *)

Definition decode_array n (j : json) (old : array n) : result (array n) :=
  match j with JNull => Ok old | _ => array_UnmarshalJSON n j end.

Lemma array_UnmarshalJSON_Marshal n (a : array n) :
  array_UnmarshalJSON n (array_MarshalJSON a) = Ok a.
Proof.
  unfold array_UnmarshalJSON, array_MarshalJSON.
  rewrite take_ge by (rewrite length_fmap, length_array; lia).
  assert (mapM decode_uint8 ((λ v, JInt (byte_val v)) <$> array_list a) = Ok (array_list a)) as ->.
  { apply mapM_Ok_Forall2, Forall2_fmap_l, Forall_Forall2_diag, Forall_true.
    intros b. apply decode_uint8_Ok, json_byte_val. }
  simpl. by rewrite array_of_array.
Qed.

Lemma decode_array_json n (a : array n) : decode_array n (array_MarshalJSON a) (zero_array n) = Ok a.
Proof. apply array_UnmarshalJSON_Marshal. Qed.

#[global] Instance Pubkey_json : GoJson Pubkey := {|
  json_zero := zero_array 32; json_encode := array_MarshalJSON; json_decode := decode_array 32;
  json_wf _ := True; json_roundtrip a _ := decode_array_json 32 a |}.
#[global] Instance Hash_json : GoJson Hash := {|
  json_zero := zero_array 32; json_encode := array_MarshalJSON; json_decode := decode_array 32;
  json_wf _ := True; json_roundtrip a _ := decode_array_json 32 a |}.
#[global] Instance Signature_json : GoJson Signature := {|
  json_zero := zero_array 64; json_encode := array_MarshalJSON; json_decode := decode_array 64;
  json_wf _ := True; json_roundtrip a _ := decode_array_json 64 a |}.

Lemma Bytes_Unmarshal_Marshal bs : Bytes_UnmarshalJSON (Bytes_MarshalJSON (Some bs)) = Ok (Some bs).
Proof.
  unfold Bytes_UnmarshalJSON, Bytes_MarshalJSON, decode_ints.
  assert (mapM decode_go_int ((λ v, JInt (byte_val v)) <$> bs) = Ok (byte_val <$> bs)) as ->.
  { apply mapM_Ok_Forall2, Forall2_fmap, Forall_Forall2_diag, Forall_true. intros b.
    unfold decode_go_int, decode_int. pose proof (byte_val_range b).
    by replace ((- 2 ^ 63 <=? byte_val b) && (byte_val b <? 2 ^ 63)) with true by lia. }
  cbn [mbind result_bind]. by rewrite narrow_bytes.
Qed.

(** A field of type [Bytes]; nil is written as an empty array. *)
#[global] Instance Bytes_json_form : GoJson Bytes := {|
  json_zero := None; json_encode := Bytes_MarshalJSON; json_decode j _ := Bytes_UnmarshalJSON j;
  json_wf b := is_Some b;
  json_roundtrip b H := match b return is_Some b → Bytes_UnmarshalJSON (Bytes_MarshalJSON b) = Ok b with
    | Some bs => λ _, Bytes_Unmarshal_Marshal bs
    | None => λ H, False_ind _ (is_Some_None H)
    end H |}.

Section containers.
Context `{GoJson A}.

Definition decode_list (j : json) (old : list A) : result (list A) :=
  match j with
  | JNull => Ok []
  | JArray l => mapM (λ e, json_decode e json_zero) l
  | _ => Err (JsonTypeError (json_kind j) "slice")
  end.

Lemma decode_list_json l old :
  Forall json_wf l → decode_list (JArray (json_encode <$> l)) old = Ok l.
Proof.
  intros Hl. simpl. apply mapM_Ok_Forall2, Forall2_fmap_l, Forall_Forall2_diag.
  eapply Forall_impl; [exact Hl|]. intros a Ha. by apply json_roundtrip.
Qed.

Definition encode_list (l : list A) : json := JArray (json_encode <$> l).

(** A pointer: nil is null. *)
Definition encode_pointer (p : option A) : json := from_option json_encode JNull p.
Definition decode_pointer (j : json) (old : option A) : result (option A) :=
  match j with JNull => Ok None | _ => Some <$> json_decode j (default json_zero old) end.

Definition pointer_wf (p : option A) : Prop :=
  match p with Some a => json_wf a ∧ json_encode a ≠ JNull | None => True end.

Lemma decode_pointer_json p : pointer_wf p → decode_pointer (encode_pointer p) None = Ok p.
Proof.
  destruct p as [a|]; [|done]. intros [Ha Hn]. simpl.
  pose proof (json_roundtrip a Ha) as Hr. unfold decode_pointer.
  change (default json_zero None) with (json_zero (A := A)).
  by destruct (json_encode a); try done; rewrite Hr.
Qed.
End containers.

#[global] Instance list_json `{GoJson A} : GoJson (list A) := {|
  json_zero := []; json_encode := encode_list; json_decode := decode_list;
  json_wf := Forall json_wf; json_roundtrip l := decode_list_json l [] |}.
#[global] Instance pointer_json `{GoJson A} : GoJson (option A) := {|
  json_zero := None; json_encode := encode_pointer; json_decode := decode_pointer;
  json_wf := pointer_wf; json_roundtrip := decode_pointer_json |}.

(** *** Structs *)

(** [foldName] of encoding/json: letters in upper case, and the two other characters
    that fold to an ASCII letter, U+017F (to S) and U+212A (to K), in UTF-8. *)
Definition upper (c : byte) : byte :=
  let v := byte_val c in if (97 <=? v) && (v <=? 122) then byte_of (v - 32) else c.

Fixpoint foldName (bs : list byte) : list byte :=
  match bs with
  | c :: ((d :: ((e :: bs3) as bs2)) as bs1) =>
      if (byte_val c =? 0xC5) && (byte_val d =? 0xBF) then byte_of 83 :: foldName bs2
      else if (byte_val c =? 0xE2) && (byte_val d =? 0x84) && (byte_val e =? 0xAA)
      then byte_of 75 :: foldName bs3
      else upper c :: foldName bs1
  | [c; d] =>
      if (byte_val c =? 0xC5) && (byte_val d =? 0xBF) then [byte_of 83] else [upper c; upper d]
  | [c] => [upper c]
  | [] => []
  end.

Definition sameFold (a b : string) : bool :=
  bool_decide (foldName (String.list_byte_of_string a) = foldName (String.list_byte_of_string b)).

(** A field of a struct: the key of its tag, and reading it into the struct. *)
Definition field (A : Type) : Type := string * (json → A → result A).

Definition json_field {A B} `{GoJson B} (name : string) (get : A → B) (set : B → A → A) : field A :=
  (name, λ j a, b ← json_decode j (get a); Ok (set b a)).

(** The field a key names: the exact one, or else the first one up to case. *)
Fixpoint exactField {A} (key : string) (fs : list (field A)) : option (field A) :=
  match fs with
  | [] => None
  | f :: fs => if String.eqb f.1 key then Some f else exactField key fs
  end.
Fixpoint foldedField {A} (key : string) (fs : list (field A)) : option (field A) :=
  match fs with
  | [] => None
  | f :: fs => if sameFold f.1 key then Some f else foldedField key fs
  end.
Definition findField {A} (key : string) (fs : list (field A)) : option (field A) :=
  match exactField key fs with Some f => Some f | None => foldedField key fs end.

(** The entries of an object, in order. *)
Fixpoint decode_fields {A} (fs : list (field A)) (kvs : list (string * json)) (a : A) : result A :=
  match kvs with
  | [] => Ok a
  | (k, v) :: kvs =>
      a ← match findField k fs with Some f => f.2 v a | None => Ok a end;
      decode_fields fs kvs a
  end.

Definition decode_struct {A} (type : string) (fs : list (field A)) (j : json) (a : A) : result A :=
  match j with
  | JNull => Ok a
  | JObject kvs => decode_fields fs kvs a
  | _ => Err (JsonTypeError (json_kind j) type)
  end.

Lemma Hash_pointer_wf (p : option Hash) : json_wf p.
Proof. by destruct p. Qed.

(** [json_side] proves that a value can be written, [read_struct] runs [decode_struct] on
    a written struct, one field at a time. *)
Ltac json_side :=
  first [assumption | exact I | (unfold is_u32, is_u64 in *; lia)
        | apply Hash_pointer_wf | (repeat (apply Forall_true; intros ?); exact I)].

Create HintDb json_struct.

Ltac read_struct :=
  autounfold with json_struct; cbn;
  repeat (rewrite ?json_roundtrip, ?decode_uint_int by json_side; cbn);
  try reflexivity.

(** ** Messages and transactions *)

Definition MessageHeader_zero : MessageHeader := MkMessageHeader json_zero json_zero json_zero.
Definition MessageHeader_fields : list (field MessageHeader) := [
  json_field "num_required_signatures" NumRequiredSignatures
    (λ x h, MkMessageHeader x (NumReadonlySignedAccounts h) (NumReadonlyUnsignedAccounts h));
  json_field "num_readonly_signed_accounts" NumReadonlySignedAccounts
    (λ x h, MkMessageHeader (NumRequiredSignatures h) x (NumReadonlyUnsignedAccounts h));
  json_field "num_readonly_unsigned_accounts" NumReadonlyUnsignedAccounts
    (λ x h, MkMessageHeader (NumRequiredSignatures h) (NumReadonlySignedAccounts h) x)].
Definition MessageHeader_encode (h : MessageHeader) : json := JObject [
  ("num_required_signatures", json_encode (NumRequiredSignatures h));
  ("num_readonly_signed_accounts", json_encode (NumReadonlySignedAccounts h));
  ("num_readonly_unsigned_accounts", json_encode (NumReadonlyUnsignedAccounts h))].
#[export] Hint Unfold MessageHeader_zero MessageHeader_fields MessageHeader_encode : json_struct.

Lemma MessageHeader_roundtrip h : True →
  decode_struct "arch.MessageHeader" MessageHeader_fields (MessageHeader_encode h) MessageHeader_zero = Ok h.
Proof. intros _. destruct h. read_struct. Qed.

#[global] Instance MessageHeader_json : GoJson MessageHeader := {|
  json_zero := MessageHeader_zero; json_encode := MessageHeader_encode;
  json_decode := decode_struct "arch.MessageHeader" MessageHeader_fields;
  json_wf _ := True; json_roundtrip := MessageHeader_roundtrip |}.

(** The fields of type [Bytes]; reading one does not depend on its old value. *)
Definition bytes_field {A} (name : string) (set : list byte → A → A) : field A :=
  json_field name (λ _, json_zero) (λ (b : Bytes) a, set (default [] b) a).

#[export] Hint Unfold bytes_field : json_struct.

Definition SanitizedInstruction_zero : SanitizedInstruction :=
  MkSanitizedInstruction json_zero [] [].
Definition SanitizedInstruction_fields : list (field SanitizedInstruction) := [
  json_field "program_id_index" si_ProgramIDIndex
    (λ x i, MkSanitizedInstruction x (si_Accounts i) (si_Data i));
  bytes_field "accounts" (λ x i, MkSanitizedInstruction (si_ProgramIDIndex i) x (si_Data i));
  bytes_field "data" (λ x i, MkSanitizedInstruction (si_ProgramIDIndex i) (si_Accounts i) x)].
Definition SanitizedInstruction_encode (i : SanitizedInstruction) : json := JObject [
  ("program_id_index", json_encode (si_ProgramIDIndex i));
  ("accounts", json_encode (Some (si_Accounts i) : Bytes));
  ("data", json_encode (Some (si_Data i) : Bytes))].
#[export] Hint Unfold SanitizedInstruction_zero SanitizedInstruction_fields SanitizedInstruction_encode : json_struct.

Lemma Some_bytes_wf (bs : list byte) : json_wf (Some bs : Bytes).
Proof. by eexists. Qed.

Lemma SanitizedInstruction_roundtrip i : True →
  decode_struct "arch.SanitizedInstruction" SanitizedInstruction_fields
    (SanitizedInstruction_encode i) SanitizedInstruction_zero = Ok i.
Proof.
  intros _. destruct i as [p a d]. pose proof (Some_bytes_wf a). pose proof (Some_bytes_wf d).
  read_struct.
Qed.

#[global] Instance SanitizedInstruction_json : GoJson SanitizedInstruction := {|
  json_zero := SanitizedInstruction_zero; json_encode := SanitizedInstruction_encode;
  json_decode := decode_struct "arch.SanitizedInstruction" SanitizedInstruction_fields;
  json_wf _ := True; json_roundtrip := SanitizedInstruction_roundtrip |}.

Definition SanitizedMessage_zero : SanitizedMessage :=
  MkSanitizedMessage json_zero json_zero json_zero json_zero.
Definition SanitizedMessage_fields : list (field SanitizedMessage) := [
  json_field "header" m_Header
    (λ x m, MkSanitizedMessage x (m_AccountKeys m) (m_RecentBlockhash m) (m_Instructions m));
  json_field "account_keys" m_AccountKeys
    (λ x m, MkSanitizedMessage (m_Header m) x (m_RecentBlockhash m) (m_Instructions m));
  json_field "recent_blockhash" m_RecentBlockhash
    (λ x m, MkSanitizedMessage (m_Header m) (m_AccountKeys m) x (m_Instructions m));
  json_field "instructions" m_Instructions
    (λ x m, MkSanitizedMessage (m_Header m) (m_AccountKeys m) (m_RecentBlockhash m) x)].
Definition SanitizedMessage_encode (m : SanitizedMessage) : json := JObject [
  ("header", json_encode (m_Header m)); ("account_keys", json_encode (m_AccountKeys m));
  ("recent_blockhash", json_encode (m_RecentBlockhash m));
  ("instructions", json_encode (m_Instructions m))].
#[export] Hint Unfold SanitizedMessage_zero SanitizedMessage_fields SanitizedMessage_encode : json_struct.

Lemma SanitizedMessage_json_roundtrip m : True →
  decode_struct "arch.SanitizedMessage" SanitizedMessage_fields (SanitizedMessage_encode m)
    SanitizedMessage_zero = Ok m.
Proof. intros _. destruct m. read_struct. Qed.

#[global] Instance SanitizedMessage_json : GoJson SanitizedMessage := {|
  json_zero := SanitizedMessage_zero; json_encode := SanitizedMessage_encode;
  json_decode := decode_struct "arch.SanitizedMessage" SanitizedMessage_fields;
  json_wf _ := True; json_roundtrip := SanitizedMessage_json_roundtrip |}.

Definition RuntimeTransaction_zero : RuntimeTransaction := MkRuntimeTransaction 0 json_zero json_zero.
Definition RuntimeTransaction_fields : list (field RuntimeTransaction) := [
  ("version", λ j t, v ← decode_uint 32 j (tx_Version t);
     Ok (MkRuntimeTransaction v (tx_Signatures t) (tx_Message t)));
  json_field "signatures" tx_Signatures (λ x t, MkRuntimeTransaction (tx_Version t) x (tx_Message t));
  json_field "message" tx_Message (λ x t, MkRuntimeTransaction (tx_Version t) (tx_Signatures t) x)].
Definition RuntimeTransaction_encode (t : RuntimeTransaction) : json := JObject [
  ("version", JInt (tx_Version t)); ("signatures", json_encode (tx_Signatures t));
  ("message", json_encode (tx_Message t))].
#[export] Hint Unfold RuntimeTransaction_zero RuntimeTransaction_fields RuntimeTransaction_encode : json_struct.

Lemma RuntimeTransaction_json_roundtrip t :
  is_u32 (tx_Version t) →
  decode_struct "arch.RuntimeTransaction" RuntimeTransaction_fields (RuntimeTransaction_encode t)
    RuntimeTransaction_zero = Ok t.
Proof. destruct t. simpl. intros. read_struct. Qed.

#[global] Instance RuntimeTransaction_json : GoJson RuntimeTransaction := {|
  json_zero := RuntimeTransaction_zero; json_encode := RuntimeTransaction_encode;
  json_decode := decode_struct "arch.RuntimeTransaction" RuntimeTransaction_fields;
  json_wf t := is_u32 (tx_Version t); json_roundtrip := RuntimeTransaction_json_roundtrip |}.

(** ** Responses of the node *)

Record AccountInfo := MkAccountInfo {
  ai_Lamports : Z;
  ai_Owner : Pubkey;
  ai_Data : Bytes;
  ai_Utxo : string;
  ai_IsExecutable : bool;
}.

Definition AccountInfo_zero : AccountInfo :=
  MkAccountInfo json_zero json_zero json_zero json_zero json_zero.
Definition AccountInfo_fields : list (field AccountInfo) := [
  json_field "lamports" ai_Lamports
    (λ x a, MkAccountInfo x (ai_Owner a) (ai_Data a) (ai_Utxo a) (ai_IsExecutable a));
  json_field "owner" ai_Owner
    (λ x a, MkAccountInfo (ai_Lamports a) x (ai_Data a) (ai_Utxo a) (ai_IsExecutable a));
  json_field "data" ai_Data
    (λ x a, MkAccountInfo (ai_Lamports a) (ai_Owner a) x (ai_Utxo a) (ai_IsExecutable a));
  json_field "utxo" ai_Utxo
    (λ x a, MkAccountInfo (ai_Lamports a) (ai_Owner a) (ai_Data a) x (ai_IsExecutable a));
  json_field "is_executable" ai_IsExecutable
    (λ x a, MkAccountInfo (ai_Lamports a) (ai_Owner a) (ai_Data a) (ai_Utxo a) x)].
Definition AccountInfo_encode (a : AccountInfo) : json := JObject (
  [("lamports", json_encode (ai_Lamports a));
   ("owner", json_encode (ai_Owner a));
   ("data", json_encode (ai_Data a));
   ("utxo", json_encode (ai_Utxo a));
   ("is_executable", json_encode (ai_IsExecutable a))]).
#[export] Hint Unfold AccountInfo_zero AccountInfo_fields AccountInfo_encode : json_struct.

Definition AccountInfo_wf (a : AccountInfo) : Prop := json_wf (ai_Lamports a) ∧ json_wf (ai_Data a).

Lemma AccountInfo_roundtrip a :
  AccountInfo_wf a →
  decode_struct "arch.AccountInfo" AccountInfo_fields (AccountInfo_encode a) AccountInfo_zero = Ok a.
Proof.
  destruct a. unfold AccountInfo_wf. simpl. intros Hwf. destruct_and?. read_struct.
Qed.

#[global] Instance AccountInfo_json : GoJson AccountInfo := {|
  json_zero := AccountInfo_zero; json_encode := AccountInfo_encode;
  json_decode := decode_struct "arch.AccountInfo" AccountInfo_fields;
  json_wf := AccountInfo_wf; json_roundtrip := AccountInfo_roundtrip |}.

Record AccountInfoWithPubkey := MkAccountInfoWithPubkey {
  aik_Key : Pubkey;
  aik_Lamports : Z;
  aik_Owner : Pubkey;
  aik_Data : Bytes;
  aik_Utxo : string;
  aik_IsExecutable : bool;
}.

Definition AccountInfoWithPubkey_zero : AccountInfoWithPubkey :=
  MkAccountInfoWithPubkey json_zero json_zero json_zero json_zero json_zero json_zero.
Definition AccountInfoWithPubkey_fields : list (field AccountInfoWithPubkey) := [
  json_field "key" aik_Key
    (λ x a, MkAccountInfoWithPubkey x (aik_Lamports a) (aik_Owner a) (aik_Data a) (aik_Utxo a) (aik_IsExecutable a));
  json_field "lamports" aik_Lamports
    (λ x a, MkAccountInfoWithPubkey (aik_Key a) x (aik_Owner a) (aik_Data a) (aik_Utxo a) (aik_IsExecutable a));
  json_field "owner" aik_Owner
    (λ x a, MkAccountInfoWithPubkey (aik_Key a) (aik_Lamports a) x (aik_Data a) (aik_Utxo a) (aik_IsExecutable a));
  json_field "data" aik_Data
    (λ x a, MkAccountInfoWithPubkey (aik_Key a) (aik_Lamports a) (aik_Owner a) x (aik_Utxo a) (aik_IsExecutable a));
  json_field "utxo" aik_Utxo
    (λ x a, MkAccountInfoWithPubkey (aik_Key a) (aik_Lamports a) (aik_Owner a) (aik_Data a) x (aik_IsExecutable a));
  json_field "is_executable" aik_IsExecutable
    (λ x a, MkAccountInfoWithPubkey (aik_Key a) (aik_Lamports a) (aik_Owner a) (aik_Data a) (aik_Utxo a) x)].
Definition AccountInfoWithPubkey_encode (a : AccountInfoWithPubkey) : json := JObject (
  [("key", json_encode (aik_Key a));
   ("lamports", json_encode (aik_Lamports a));
   ("owner", json_encode (aik_Owner a));
   ("data", json_encode (aik_Data a));
   ("utxo", json_encode (aik_Utxo a));
   ("is_executable", json_encode (aik_IsExecutable a))]).
#[export] Hint Unfold AccountInfoWithPubkey_zero AccountInfoWithPubkey_fields AccountInfoWithPubkey_encode : json_struct.

Definition AccountInfoWithPubkey_wf (a : AccountInfoWithPubkey) : Prop := json_wf (aik_Lamports a) ∧ json_wf (aik_Data a).

Lemma AccountInfoWithPubkey_roundtrip a :
  AccountInfoWithPubkey_wf a →
  decode_struct "arch.AccountInfoWithPubkey" AccountInfoWithPubkey_fields (AccountInfoWithPubkey_encode a) AccountInfoWithPubkey_zero = Ok a.
Proof.
  destruct a. unfold AccountInfoWithPubkey_wf. simpl. intros Hwf. destruct_and?. read_struct.
Qed.

#[global] Instance AccountInfoWithPubkey_json : GoJson AccountInfoWithPubkey := {|
  json_zero := AccountInfoWithPubkey_zero; json_encode := AccountInfoWithPubkey_encode;
  json_decode := decode_struct "arch.AccountInfoWithPubkey" AccountInfoWithPubkey_fields;
  json_wf := AccountInfoWithPubkey_wf; json_roundtrip := AccountInfoWithPubkey_roundtrip |}.

Record ProgramAccount := MkProgramAccount {
  pa_Pubkey : Pubkey;
  pa_Account : AccountInfo;
}.

Definition ProgramAccount_zero : ProgramAccount :=
  MkProgramAccount json_zero json_zero.
Definition ProgramAccount_fields : list (field ProgramAccount) := [
  json_field "pubkey" pa_Pubkey
    (λ x a, MkProgramAccount x (pa_Account a));
  json_field "account" pa_Account
    (λ x a, MkProgramAccount (pa_Pubkey a) x)].
Definition ProgramAccount_encode (a : ProgramAccount) : json := JObject (
  [("pubkey", json_encode (pa_Pubkey a));
   ("account", json_encode (pa_Account a))]).
#[export] Hint Unfold ProgramAccount_zero ProgramAccount_fields ProgramAccount_encode : json_struct.

Definition ProgramAccount_wf (a : ProgramAccount) : Prop := json_wf (pa_Account a).

Lemma ProgramAccount_roundtrip a :
  ProgramAccount_wf a →
  decode_struct "arch.ProgramAccount" ProgramAccount_fields (ProgramAccount_encode a) ProgramAccount_zero = Ok a.
Proof.
  destruct a. unfold ProgramAccount_wf. simpl. intros Hwf. destruct_and?. read_struct.
Qed.

#[global] Instance ProgramAccount_json : GoJson ProgramAccount := {|
  json_zero := ProgramAccount_zero; json_encode := ProgramAccount_encode;
  json_decode := decode_struct "arch.ProgramAccount" ProgramAccount_fields;
  json_wf := ProgramAccount_wf; json_roundtrip := ProgramAccount_roundtrip |}.

Definition StatusQueued : string := "queued".
Definition StatusProcessed : string := "processed".
Definition StatusFailed : string := "failed".

(** The message is omitted when it is empty. *)
Record ProcessedTransactionStatus := MkProcessedTransactionStatus {
  pts_Type : string;
  pts_Message : string;
}.

Definition ProcessedTransactionStatus_zero : ProcessedTransactionStatus :=
  MkProcessedTransactionStatus json_zero json_zero.
Definition ProcessedTransactionStatus_fields : list (field ProcessedTransactionStatus) := [
  json_field "type" pts_Type
    (λ x a, MkProcessedTransactionStatus x (pts_Message a));
  json_field "message" pts_Message
    (λ x a, MkProcessedTransactionStatus (pts_Type a) x)].
Definition ProcessedTransactionStatus_encode (a : ProcessedTransactionStatus) : json := JObject (
  [("type", json_encode (pts_Type a))] ++
  (if decide (pts_Message a = "") then [] else [("message", json_encode (pts_Message a))])).
#[export] Hint Unfold ProcessedTransactionStatus_zero ProcessedTransactionStatus_fields ProcessedTransactionStatus_encode : json_struct.

Definition ProcessedTransactionStatus_wf (a : ProcessedTransactionStatus) : Prop := True.

Lemma ProcessedTransactionStatus_roundtrip a :
  ProcessedTransactionStatus_wf a →
  decode_struct "arch.ProcessedTransactionStatus" ProcessedTransactionStatus_fields (ProcessedTransactionStatus_encode a) ProcessedTransactionStatus_zero = Ok a.
Proof.
  destruct a. unfold ProcessedTransactionStatus_wf. simpl. intros Hwf. destruct_and?. autounfold with json_struct; cbn. case_decide; subst; read_struct.
Qed.

#[global] Instance ProcessedTransactionStatus_json : GoJson ProcessedTransactionStatus := {|
  json_zero := ProcessedTransactionStatus_zero; json_encode := ProcessedTransactionStatus_encode;
  json_decode := decode_struct "arch.ProcessedTransactionStatus" ProcessedTransactionStatus_fields;
  json_wf := ProcessedTransactionStatus_wf; json_roundtrip := ProcessedTransactionStatus_roundtrip |}.

Definition RollbackStatusNotRolledback : string := "notRolledback".
Definition RollbackStatusRolledback : string := "rolledback".

Record RollbackStatus := MkRollbackStatus {
  rs_Type : string;
  rs_Message : string;
}.

Definition RollbackStatus_zero : RollbackStatus :=
  MkRollbackStatus json_zero json_zero.
Definition RollbackStatus_fields : list (field RollbackStatus) := [
  json_field "type" rs_Type
    (λ x a, MkRollbackStatus x (rs_Message a));
  json_field "message" rs_Message
    (λ x a, MkRollbackStatus (rs_Type a) x)].
Definition RollbackStatus_encode (a : RollbackStatus) : json := JObject (
  [("type", json_encode (rs_Type a))] ++
  (if decide (rs_Message a = "") then [] else [("message", json_encode (rs_Message a))])).
#[export] Hint Unfold RollbackStatus_zero RollbackStatus_fields RollbackStatus_encode : json_struct.

Definition RollbackStatus_wf (a : RollbackStatus) : Prop := True.

Lemma RollbackStatus_roundtrip a :
  RollbackStatus_wf a →
  decode_struct "arch.RollbackStatus" RollbackStatus_fields (RollbackStatus_encode a) RollbackStatus_zero = Ok a.
Proof.
  destruct a. unfold RollbackStatus_wf. simpl. intros Hwf. destruct_and?. autounfold with json_struct; cbn. case_decide; subst; read_struct.
Qed.

#[global] Instance RollbackStatus_json : GoJson RollbackStatus := {|
  json_zero := RollbackStatus_zero; json_encode := RollbackStatus_encode;
  json_decode := decode_struct "arch.RollbackStatus" RollbackStatus_fields;
  json_wf := RollbackStatus_wf; json_roundtrip := RollbackStatus_roundtrip |}.

Record InnerInstruction := MkInnerInstruction {
  ii_Instruction : SanitizedInstruction;
  ii_StackHeight : byte;
}.

Definition InnerInstruction_zero : InnerInstruction :=
  MkInnerInstruction json_zero json_zero.
Definition InnerInstruction_fields : list (field InnerInstruction) := [
  json_field "instruction" ii_Instruction
    (λ x a, MkInnerInstruction x (ii_StackHeight a));
  json_field "stack_height" ii_StackHeight
    (λ x a, MkInnerInstruction (ii_Instruction a) x)].
Definition InnerInstruction_encode (a : InnerInstruction) : json := JObject (
  [("instruction", json_encode (ii_Instruction a));
   ("stack_height", json_encode (ii_StackHeight a))]).
#[export] Hint Unfold InnerInstruction_zero InnerInstruction_fields InnerInstruction_encode : json_struct.

Definition InnerInstruction_wf (a : InnerInstruction) : Prop := True.

Lemma InnerInstruction_roundtrip a :
  InnerInstruction_wf a →
  decode_struct "arch.InnerInstruction" InnerInstruction_fields (InnerInstruction_encode a) InnerInstruction_zero = Ok a.
Proof.
  destruct a. unfold InnerInstruction_wf. simpl. intros Hwf. destruct_and?. read_struct.
Qed.

#[global] Instance InnerInstruction_json : GoJson InnerInstruction := {|
  json_zero := InnerInstruction_zero; json_encode := InnerInstruction_encode;
  json_decode := decode_struct "arch.InnerInstruction" InnerInstruction_fields;
  json_wf := InnerInstruction_wf; json_roundtrip := InnerInstruction_roundtrip |}.

Record ProcessedTransaction := MkProcessedTransaction {
  pt_RuntimeTransaction : RuntimeTransaction;
  pt_Status : ProcessedTransactionStatus;
  pt_BitcoinTxid : option Hash;
  pt_Logs : list string;
  pt_RollbackStatus : RollbackStatus;
  pt_InnerInstructionsList : list (list InnerInstruction);
}.

Definition ProcessedTransaction_zero : ProcessedTransaction :=
  MkProcessedTransaction json_zero json_zero json_zero json_zero json_zero json_zero.
Definition ProcessedTransaction_fields : list (field ProcessedTransaction) := [
  json_field "runtime_transaction" pt_RuntimeTransaction
    (λ x a, MkProcessedTransaction x (pt_Status a) (pt_BitcoinTxid a) (pt_Logs a) (pt_RollbackStatus a) (pt_InnerInstructionsList a));
  json_field "status" pt_Status
    (λ x a, MkProcessedTransaction (pt_RuntimeTransaction a) x (pt_BitcoinTxid a) (pt_Logs a) (pt_RollbackStatus a) (pt_InnerInstructionsList a));
  json_field "bitcoin_txid" pt_BitcoinTxid
    (λ x a, MkProcessedTransaction (pt_RuntimeTransaction a) (pt_Status a) x (pt_Logs a) (pt_RollbackStatus a) (pt_InnerInstructionsList a));
  json_field "logs" pt_Logs
    (λ x a, MkProcessedTransaction (pt_RuntimeTransaction a) (pt_Status a) (pt_BitcoinTxid a) x (pt_RollbackStatus a) (pt_InnerInstructionsList a));
  json_field "rollback_status" pt_RollbackStatus
    (λ x a, MkProcessedTransaction (pt_RuntimeTransaction a) (pt_Status a) (pt_BitcoinTxid a) (pt_Logs a) x (pt_InnerInstructionsList a));
  json_field "inner_instructions_list" pt_InnerInstructionsList
    (λ x a, MkProcessedTransaction (pt_RuntimeTransaction a) (pt_Status a) (pt_BitcoinTxid a) (pt_Logs a) (pt_RollbackStatus a) x)].
Definition ProcessedTransaction_encode (a : ProcessedTransaction) : json := JObject (
  [("runtime_transaction", json_encode (pt_RuntimeTransaction a));
   ("status", json_encode (pt_Status a));
   ("bitcoin_txid", json_encode (pt_BitcoinTxid a));
   ("logs", json_encode (pt_Logs a));
   ("rollback_status", json_encode (pt_RollbackStatus a));
   ("inner_instructions_list", json_encode (pt_InnerInstructionsList a))]).
#[export] Hint Unfold ProcessedTransaction_zero ProcessedTransaction_fields ProcessedTransaction_encode : json_struct.

Definition ProcessedTransaction_wf (a : ProcessedTransaction) : Prop := json_wf (pt_RuntimeTransaction a).

Lemma ProcessedTransaction_roundtrip a :
  ProcessedTransaction_wf a →
  decode_struct "arch.ProcessedTransaction" ProcessedTransaction_fields (ProcessedTransaction_encode a) ProcessedTransaction_zero = Ok a.
Proof.
  destruct a. unfold ProcessedTransaction_wf. simpl. intros Hwf. destruct_and?. read_struct.
Qed.

#[global] Instance ProcessedTransaction_json : GoJson ProcessedTransaction := {|
  json_zero := ProcessedTransaction_zero; json_encode := ProcessedTransaction_encode;
  json_decode := decode_struct "arch.ProcessedTransaction" ProcessedTransaction_fields;
  json_wf := ProcessedTransaction_wf; json_roundtrip := ProcessedTransaction_roundtrip |}.

Record Block := MkBlock {
  bl_Transactions : list Hash;
  bl_PreviousBlockHash : Hash;
  bl_Timestamp : Z;
  bl_BlockHeight : Z;
  bl_BitcoinBlockHeight : Z;
}.

Definition Block_zero : Block :=
  MkBlock json_zero json_zero json_zero json_zero json_zero.
Definition Block_fields : list (field Block) := [
  json_field "transactions" bl_Transactions
    (λ x a, MkBlock x (bl_PreviousBlockHash a) (bl_Timestamp a) (bl_BlockHeight a) (bl_BitcoinBlockHeight a));
  json_field "previous_block_hash" bl_PreviousBlockHash
    (λ x a, MkBlock (bl_Transactions a) x (bl_Timestamp a) (bl_BlockHeight a) (bl_BitcoinBlockHeight a));
  json_field "timestamp" bl_Timestamp
    (λ x a, MkBlock (bl_Transactions a) (bl_PreviousBlockHash a) x (bl_BlockHeight a) (bl_BitcoinBlockHeight a));
  json_field "block_height" bl_BlockHeight
    (λ x a, MkBlock (bl_Transactions a) (bl_PreviousBlockHash a) (bl_Timestamp a) x (bl_BitcoinBlockHeight a));
  json_field "bitcoin_block_height" bl_BitcoinBlockHeight
    (λ x a, MkBlock (bl_Transactions a) (bl_PreviousBlockHash a) (bl_Timestamp a) (bl_BlockHeight a) x)].
Definition Block_encode (a : Block) : json := JObject (
  [("transactions", json_encode (bl_Transactions a));
   ("previous_block_hash", json_encode (bl_PreviousBlockHash a));
   ("timestamp", json_encode (bl_Timestamp a));
   ("block_height", json_encode (bl_BlockHeight a));
   ("bitcoin_block_height", json_encode (bl_BitcoinBlockHeight a))]).
#[export] Hint Unfold Block_zero Block_fields Block_encode : json_struct.

Definition Block_wf (a : Block) : Prop := json_wf (bl_Timestamp a) ∧ json_wf (bl_BlockHeight a) ∧ json_wf (bl_BitcoinBlockHeight a).

Lemma Block_roundtrip a :
  Block_wf a →
  decode_struct "arch.Block" Block_fields (Block_encode a) Block_zero = Ok a.
Proof.
  destruct a. unfold Block_wf. simpl. intros Hwf. destruct_and?. read_struct.
Qed.

#[global] Instance Block_json : GoJson Block := {|
  json_zero := Block_zero; json_encode := Block_encode;
  json_decode := decode_struct "arch.Block" Block_fields;
  json_wf := Block_wf; json_roundtrip := Block_roundtrip |}.

Record FullBlock := MkFullBlock {
  fb_Transactions : list ProcessedTransaction;
  fb_PreviousBlockHash : Hash;
  fb_Timestamp : Z;
  fb_BlockHeight : Z;
  fb_BitcoinBlockHeight : Z;
}.

Definition FullBlock_zero : FullBlock :=
  MkFullBlock json_zero json_zero json_zero json_zero json_zero.
Definition FullBlock_fields : list (field FullBlock) := [
  json_field "transactions" fb_Transactions
    (λ x a, MkFullBlock x (fb_PreviousBlockHash a) (fb_Timestamp a) (fb_BlockHeight a) (fb_BitcoinBlockHeight a));
  json_field "previous_block_hash" fb_PreviousBlockHash
    (λ x a, MkFullBlock (fb_Transactions a) x (fb_Timestamp a) (fb_BlockHeight a) (fb_BitcoinBlockHeight a));
  json_field "timestamp" fb_Timestamp
    (λ x a, MkFullBlock (fb_Transactions a) (fb_PreviousBlockHash a) x (fb_BlockHeight a) (fb_BitcoinBlockHeight a));
  json_field "block_height" fb_BlockHeight
    (λ x a, MkFullBlock (fb_Transactions a) (fb_PreviousBlockHash a) (fb_Timestamp a) x (fb_BitcoinBlockHeight a));
  json_field "bitcoin_block_height" fb_BitcoinBlockHeight
    (λ x a, MkFullBlock (fb_Transactions a) (fb_PreviousBlockHash a) (fb_Timestamp a) (fb_BlockHeight a) x)].
Definition FullBlock_encode (a : FullBlock) : json := JObject (
  [("transactions", json_encode (fb_Transactions a));
   ("previous_block_hash", json_encode (fb_PreviousBlockHash a));
   ("timestamp", json_encode (fb_Timestamp a));
   ("block_height", json_encode (fb_BlockHeight a));
   ("bitcoin_block_height", json_encode (fb_BitcoinBlockHeight a))]).
#[export] Hint Unfold FullBlock_zero FullBlock_fields FullBlock_encode : json_struct.

Definition FullBlock_wf (a : FullBlock) : Prop := json_wf (fb_Transactions a) ∧ json_wf (fb_Timestamp a) ∧ json_wf (fb_BlockHeight a) ∧ json_wf (fb_BitcoinBlockHeight a).

Lemma FullBlock_roundtrip a :
  FullBlock_wf a →
  decode_struct "arch.FullBlock" FullBlock_fields (FullBlock_encode a) FullBlock_zero = Ok a.
Proof.
  destruct a. unfold FullBlock_wf. simpl. intros Hwf. destruct_and?. read_struct.
Qed.

#[global] Instance FullBlock_json : GoJson FullBlock := {|
  json_zero := FullBlock_zero; json_encode := FullBlock_encode;
  json_decode := decode_struct "arch.FullBlock" FullBlock_fields;
  json_wf := FullBlock_wf; json_roundtrip := FullBlock_roundtrip |}.

(** ** Event payloads *)

Record BlockEvent := MkBlockEvent {
  be_Hash : string;
  be_Timestamp : string;
}.

Definition BlockEvent_zero : BlockEvent :=
  MkBlockEvent json_zero json_zero.
Definition BlockEvent_fields : list (field BlockEvent) := [
  json_field "hash" be_Hash
    (λ x a, MkBlockEvent x (be_Timestamp a));
  json_field "timestamp" be_Timestamp
    (λ x a, MkBlockEvent (be_Hash a) x)].
Definition BlockEvent_encode (a : BlockEvent) : json := JObject (
  [("hash", json_encode (be_Hash a));
   ("timestamp", json_encode (be_Timestamp a))]).
#[export] Hint Unfold BlockEvent_zero BlockEvent_fields BlockEvent_encode : json_struct.

Definition BlockEvent_wf (a : BlockEvent) : Prop := True.

Lemma BlockEvent_roundtrip a :
  BlockEvent_wf a →
  decode_struct "arch.BlockEvent" BlockEvent_fields (BlockEvent_encode a) BlockEvent_zero = Ok a.
Proof.
  destruct a. unfold BlockEvent_wf. simpl. intros Hwf. destruct_and?. read_struct.
Qed.

#[global] Instance BlockEvent_json : GoJson BlockEvent := {|
  json_zero := BlockEvent_zero; json_encode := BlockEvent_encode;
  json_decode := decode_struct "arch.BlockEvent" BlockEvent_fields;
  json_wf := BlockEvent_wf; json_roundtrip := BlockEvent_roundtrip |}.

Record TransactionEvent := MkTransactionEvent {
  te_Hash : string;
  te_Status : ProcessedTransactionStatus;
  te_ProgramIDs : list string;
  te_BlockHeight : Z;
}.

Definition TransactionEvent_zero : TransactionEvent :=
  MkTransactionEvent json_zero json_zero json_zero json_zero.
Definition TransactionEvent_fields : list (field TransactionEvent) := [
  json_field "hash" te_Hash
    (λ x a, MkTransactionEvent x (te_Status a) (te_ProgramIDs a) (te_BlockHeight a));
  json_field "status" te_Status
    (λ x a, MkTransactionEvent (te_Hash a) x (te_ProgramIDs a) (te_BlockHeight a));
  json_field "program_ids" te_ProgramIDs
    (λ x a, MkTransactionEvent (te_Hash a) (te_Status a) x (te_BlockHeight a));
  json_field "block_height" te_BlockHeight
    (λ x a, MkTransactionEvent (te_Hash a) (te_Status a) (te_ProgramIDs a) x)].
Definition TransactionEvent_encode (a : TransactionEvent) : json := JObject (
  [("hash", json_encode (te_Hash a));
   ("status", json_encode (te_Status a));
   ("program_ids", json_encode (te_ProgramIDs a));
   ("block_height", json_encode (te_BlockHeight a))]).
#[export] Hint Unfold TransactionEvent_zero TransactionEvent_fields TransactionEvent_encode : json_struct.

Definition TransactionEvent_wf (a : TransactionEvent) : Prop := json_wf (te_BlockHeight a).

Lemma TransactionEvent_roundtrip a :
  TransactionEvent_wf a →
  decode_struct "arch.TransactionEvent" TransactionEvent_fields (TransactionEvent_encode a) TransactionEvent_zero = Ok a.
Proof.
  destruct a. unfold TransactionEvent_wf. simpl. intros Hwf. destruct_and?. read_struct.
Qed.

#[global] Instance TransactionEvent_json : GoJson TransactionEvent := {|
  json_zero := TransactionEvent_zero; json_encode := TransactionEvent_encode;
  json_decode := decode_struct "arch.TransactionEvent" TransactionEvent_fields;
  json_wf := TransactionEvent_wf; json_roundtrip := TransactionEvent_roundtrip |}.

Record AccountUpdateEvent := MkAccountUpdateEvent {
  au_Account : string;
  au_TransactionHash : string;
  au_BlockHeight : Z;
}.

Definition AccountUpdateEvent_zero : AccountUpdateEvent :=
  MkAccountUpdateEvent json_zero json_zero json_zero.
Definition AccountUpdateEvent_fields : list (field AccountUpdateEvent) := [
  json_field "account" au_Account
    (λ x a, MkAccountUpdateEvent x (au_TransactionHash a) (au_BlockHeight a));
  json_field "transaction_hash" au_TransactionHash
    (λ x a, MkAccountUpdateEvent (au_Account a) x (au_BlockHeight a));
  json_field "block_height" au_BlockHeight
    (λ x a, MkAccountUpdateEvent (au_Account a) (au_TransactionHash a) x)].
Definition AccountUpdateEvent_encode (a : AccountUpdateEvent) : json := JObject (
  [("account", json_encode (au_Account a));
   ("transaction_hash", json_encode (au_TransactionHash a));
   ("block_height", json_encode (au_BlockHeight a))]).
#[export] Hint Unfold AccountUpdateEvent_zero AccountUpdateEvent_fields AccountUpdateEvent_encode : json_struct.

Definition AccountUpdateEvent_wf (a : AccountUpdateEvent) : Prop := json_wf (au_BlockHeight a).

Lemma AccountUpdateEvent_roundtrip a :
  AccountUpdateEvent_wf a →
  decode_struct "arch.AccountUpdateEvent" AccountUpdateEvent_fields (AccountUpdateEvent_encode a) AccountUpdateEvent_zero = Ok a.
Proof.
  destruct a. unfold AccountUpdateEvent_wf. simpl. intros Hwf. destruct_and?. read_struct.
Qed.

#[global] Instance AccountUpdateEvent_json : GoJson AccountUpdateEvent := {|
  json_zero := AccountUpdateEvent_zero; json_encode := AccountUpdateEvent_encode;
  json_decode := decode_struct "arch.AccountUpdateEvent" AccountUpdateEvent_fields;
  json_wf := AccountUpdateEvent_wf; json_roundtrip := AccountUpdateEvent_roundtrip |}.

Record TransactionsEvent := MkTransactionsEvent {
  tse_BlockHeight : Z;
  tse_TransactionHashes : list string;
}.

Definition TransactionsEvent_zero : TransactionsEvent :=
  MkTransactionsEvent json_zero json_zero.
Definition TransactionsEvent_fields : list (field TransactionsEvent) := [
  json_field "block_height" tse_BlockHeight
    (λ x a, MkTransactionsEvent x (tse_TransactionHashes a));
  json_field "transaction_hashes" tse_TransactionHashes
    (λ x a, MkTransactionsEvent (tse_BlockHeight a) x)].
Definition TransactionsEvent_encode (a : TransactionsEvent) : json := JObject (
  [("block_height", json_encode (tse_BlockHeight a));
   ("transaction_hashes", json_encode (tse_TransactionHashes a))]).
#[export] Hint Unfold TransactionsEvent_zero TransactionsEvent_fields TransactionsEvent_encode : json_struct.

Definition TransactionsEvent_wf (a : TransactionsEvent) : Prop := json_wf (tse_BlockHeight a).

Lemma TransactionsEvent_roundtrip a :
  TransactionsEvent_wf a →
  decode_struct "arch.TransactionsEvent" TransactionsEvent_fields (TransactionsEvent_encode a) TransactionsEvent_zero = Ok a.
Proof.
  destruct a. unfold TransactionsEvent_wf. simpl. intros Hwf. destruct_and?. read_struct.
Qed.

#[global] Instance TransactionsEvent_json : GoJson TransactionsEvent := {|
  json_zero := TransactionsEvent_zero; json_encode := TransactionsEvent_encode;
  json_decode := decode_struct "arch.TransactionsEvent" TransactionsEvent_fields;
  json_wf := TransactionsEvent_wf; json_roundtrip := TransactionsEvent_roundtrip |}.

Record DKGEvent := MkDKGEvent {
  dkg_Status : string;
}.

Definition DKGEvent_zero : DKGEvent :=
  MkDKGEvent json_zero.
Definition DKGEvent_fields : list (field DKGEvent) := [
  json_field "status" dkg_Status
    (λ x a, MkDKGEvent x)].
Definition DKGEvent_encode (a : DKGEvent) : json := JObject (
  [("status", json_encode (dkg_Status a))]).
#[export] Hint Unfold DKGEvent_zero DKGEvent_fields DKGEvent_encode : json_struct.

Definition DKGEvent_wf (a : DKGEvent) : Prop := True.

Lemma DKGEvent_roundtrip a :
  DKGEvent_wf a →
  decode_struct "arch.DKGEvent" DKGEvent_fields (DKGEvent_encode a) DKGEvent_zero = Ok a.
Proof.
  destruct a. unfold DKGEvent_wf. simpl. intros Hwf. destruct_and?. read_struct.
Qed.

#[global] Instance DKGEvent_json : GoJson DKGEvent := {|
  json_zero := DKGEvent_zero; json_encode := DKGEvent_encode;
  json_decode := decode_struct "arch.DKGEvent" DKGEvent_fields;
  json_wf := DKGEvent_wf; json_roundtrip := DKGEvent_roundtrip |}.

(** ** The accessors of events *)

Definition decodeEvent {T} `{GoJson T} (e : Event) (topics : list EventTopic) : result T :=
  let ok := foldl (λ ok t, ok || bool_decide (ev_Topic e = t)) false topics in
  if negb ok then Err (ErrorFormat "event topic is %q, not %v" (ev_Topic e :: topics))
  else wrap_err ("decoding " +:+ ev_Topic e +:+ " event") (json_decode (ev_Data e) json_zero).

Definition Event_Block (e : Event) : result BlockEvent := decodeEvent e [TopicBlock].
Definition Event_Transaction (e : Event) : result TransactionEvent := decodeEvent e [TopicTransaction].
Definition Event_AccountUpdate (e : Event) : result AccountUpdateEvent :=
  decodeEvent e [TopicAccountUpdate].
Definition Event_Transactions (e : Event) : result TransactionsEvent :=
  decodeEvent e [TopicRolledbackTransactions; TopicReappliedTransactions].
Definition Event_DKG (e : Event) : result DKGEvent := decodeEvent e [TopicDKG].

Lemma decodeEvent_spec {T} `{GoJson T} e topics :
  decodeEvent (T := T) e topics =
  if decide (ev_Topic e ∈ topics)
  then wrap_err ("decoding " +:+ ev_Topic e +:+ " event") (json_decode (ev_Data e) json_zero)
  else Err (ErrorFormat "event topic is %q, not %v" (ev_Topic e :: topics)).
Proof.
  unfold decodeEvent.
  assert (∀ b, foldl (λ ok t, ok || bool_decide (ev_Topic e = t)) b topics =
    b || bool_decide (ev_Topic e ∈ topics)) as ->.
  { induction topics as [|t topics IH]; intros b; simpl.
    - by rewrite orb_false_r.
    - rewrite IH. rewrite <- orb_assoc. f_equal. apply eq_true_iff_eq.
      rewrite orb_true_iff, !bool_decide_eq_true, elem_of_cons. done. }
  simpl. case_bool_decide; case_decide; done.
Qed.

Lemma decodeEvent_own {T} `{GoJson T} topics t (a : T) :
  t ∈ topics → json_wf a → decodeEvent (MkEvent t (json_encode a)) topics = Ok a.
Proof.
  intros Ht Ha. rewrite decodeEvent_spec, decide_True by done. cbn [ev_Data].
  by rewrite json_roundtrip.
Qed.

Lemma decodeEvent_topic {T} `{GoJson T} e topics :
  is_ok (decodeEvent (T := T) e topics) → ev_Topic e ∈ topics.
Proof. intros [a Ha]. rewrite decodeEvent_spec in Ha. by case_decide. Qed.

(** An accessor of the events of [topics] with payloads of type [T]: it returns exactly
    the values that decode from the data of an event of one of these topics; when the
    data does not decode it returns that error, naming the topic; on any other event it
    fails, naming both the event's topic and its own. *)
Definition is_accessor {T} `{GoJson T} (accessor : Event → result T) (topics : list EventTopic) : Prop :=
  (∀ e a, accessor e = Ok a ↔ ev_Topic e ∈ topics ∧ json_decode (ev_Data e) json_zero = Ok a) ∧
  (∀ t j err, t ∈ topics → json_decode j (json_zero (A := T)) = Err err →
     accessor (MkEvent t j) = Err (ErrorWrap ("decoding " +:+ t +:+ " event") err)) ∧
  (∀ e, ev_Topic e ∉ topics →
     accessor e = Err (ErrorFormat "event topic is %q, not %v" (ev_Topic e :: topics))).

Lemma decodeEvent_accessor {T} `{GoJson T} topics : is_accessor (λ e, decodeEvent (T := T) e topics) topics.
Proof.
  unfold is_accessor. split_ands.
  - intros e a. rewrite decodeEvent_spec. case_decide as Ht.
    + destruct (json_decode (ev_Data e) json_zero) as [b|err]; simpl; [tauto|].
      split; [done|]. by intros [_ ?].
    + split; [done|]. by intros [? _].
  - intros t j err Ht Hj. rewrite decodeEvent_spec, decide_True by done. cbn [ev_Data]. by rewrite Hj.
  - intros e Ht. by rewrite decodeEvent_spec, decide_False.
Qed.

(** What a field or a document of the wrong kind gives. *)
Lemma decode_struct_kind {A} type (fs : list (field A)) j a :
  (∀ kvs, j ≠ JObject kvs) → j ≠ JNull → decode_struct type fs j a = Err (JsonTypeError (json_kind j) type).
Proof. intros Ho Hn. destruct j; try done. by destruct (Ho fields). Qed.

(** ** Properties *)

(** C38: the JSON forms of the node's responses read back. For every struct, reading
    into a zero value what was written gives the value, provided its integers are in
    the range of their types and its byte slices are not nil: transactions, accounts,
    blocks and full blocks, with everything nested in them. *)
Theorem types_json_roundtrip :
  (∀ t : RuntimeTransaction, is_u32 (tx_Version t) → json_decode (json_encode t) json_zero = Ok t) ∧
  (∀ t : ProcessedTransaction, is_u32 (tx_Version (pt_RuntimeTransaction t)) →
     json_decode (json_encode t) json_zero = Ok t) ∧
  (∀ b : Block, is_u64 (bl_Timestamp b) → is_u64 (bl_BlockHeight b) → is_u64 (bl_BitcoinBlockHeight b) →
     json_decode (json_encode b) json_zero = Ok b) ∧
  (∀ b : FullBlock,
     Forall (λ t, is_u32 (tx_Version (pt_RuntimeTransaction t))) (fb_Transactions b) →
     is_u64 (fb_Timestamp b) → is_u64 (fb_BlockHeight b) → is_u64 (fb_BitcoinBlockHeight b) →
     json_decode (json_encode b) json_zero = Ok b) ∧
  (∀ a : AccountInfoWithPubkey, is_u64 (aik_Lamports a) → is_Some (aik_Data a) →
     json_decode (json_encode a) json_zero = Ok a) ∧
  (∀ a : ProgramAccount, is_u64 (ai_Lamports (pa_Account a)) → is_Some (ai_Data (pa_Account a)) →
     json_decode (json_encode a) json_zero = Ok a).
Proof.
  split_ands; intros; apply json_roundtrip; (done || by split_ands).
Qed.

