(* ===== verification/Rpc.v ===== *)
(** * The JSON-RPC client: src/rpc.go.

    A method of [Client] posts one request and reads the answer: its model is an
    [exchange], the request it posts and the result it makes of whatever net/http
    returns. Theorems: the result on every branch, the not-found rule, and that an answer
    written by the node is read back. *)
From S2P Require Import Prelude GoLib Wire Pubkey Message Btcd Keys Bip322 Transaction Json JsonText WebSocket JsonTypes.

(** ** Method names: src/constants.go *)

Definition MethodReadAccountInfo : string := "read_account_info".
Definition MethodSendTransaction : string := "send_transaction".
Definition MethodSendTransactions : string := "send_transactions".
Definition MethodGetBlock : string := "get_block".
Definition MethodGetBlockCount : string := "get_block_count".
Definition MethodGetBlockHash : string := "get_block_hash".
Definition MethodGetBestBlockHash : string := "get_best_block_hash".
Definition MethodGetBestFinalizedBlockHash : string := "get_best_finalized_block_hash".
Definition MethodGetProcessedTransaction : string := "get_processed_transaction".
Definition MethodGetAccountAddress : string := "get_account_address".
Definition MethodGetProgramAccounts : string := "get_program_accounts".
Definition MethodRequestAirdrop : string := "request_airdrop".
Definition MethodCreateAccountWithFaucet : string := "create_account_with_faucet".
Definition MethodGetBlockByHeight : string := "get_block_by_height".
Definition MethodGetTransactionsByBlock : string := "get_transactions_by_block".
Definition MethodGetTransactionsByIds : string := "get_transactions_by_ids".
Definition MethodRecentTransactions : string := "recent_transactions".
Definition MethodGetMultipleAccounts : string := "get_multiple_accounts".
Definition MethodGetFullBlockWithTxids : string := "get_full_block_with_txids".
Definition MethodGetNetworkPubkey : string := "get_network_pubkey".
Definition MethodCheckPreAnchorConflict : string := "check_pre_anchor_conflict".
Definition MethodGetTransactionStatus : string := "get_transaction_status".

(** ** Requests and responses *)

Definition rpcNotFoundCode : Z := 404.

Record RPCError := MkRPCError { re_Code : Z; re_Message : string }.

Definition RPCError_Error (e : RPCError) : string :=
  "rpc error " +:+ pretty (re_Code e) +:+ ": " +:+ re_Message e.

(** [Params] is an [any]: nil, or a value with its JSON form. *)
Record rpcRequest := MkRpcRequest {
  JSONRPC : string; rq_ID : string; rq_Method : string; rq_Params : option json }.

Record rpcResponse := MkRpcResponse { rp_Result : option json; rp_Error : option RPCError }.

(** [params] is omitted when the interface is nil. *)
Definition rpcRequest_encode (r : rpcRequest) : json := JObject (
  [("jsonrpc", JString (JSONRPC r)); ("id", JString (rq_ID r)); ("method", JString (rq_Method r))] ++
  match rq_Params r with Some p => [("params", p)] | None => [] end).

Definition decode_code (j : json) (old : Z) : result Z :=
  match j with JNull => Ok old | _ => decode_go_int j end.

Definition RPCError_fields : list (field RPCError) := [
  ("code", λ j e, c ← decode_code j (re_Code e); Ok (MkRPCError c (re_Message e)));
  json_field "message" re_Message (λ x e, MkRPCError (re_Code e) x)].

(** A [*RPCError]: null is nil. *)
Definition decode_rpcError (j : json) (old : option RPCError) : result (option RPCError) :=
  match j with
  | JNull => Ok None
  | _ => Some <$> decode_struct "arch.RPCError" RPCError_fields j (default (MkRPCError 0 "") old)
  end.

(** A [json.RawMessage] keeps the document, null included. *)
Definition rpcResponse_fields : list (field rpcResponse) := [
  ("result", λ j r, Ok (MkRpcResponse (Some j) (rp_Error r)));
  ("error", λ j r, e ← decode_rpcError j (rp_Error r); Ok (MkRpcResponse (rp_Result r) e))].

Definition decode_rpcResponse (j : json) : result rpcResponse :=
  decode_struct "arch.rpcResponse" rpcResponse_fields j (MkRpcResponse None None).

(** ** The client *)

(** net/http: clients, and what a POST and the reading of its body come to. *)
Inductive transport :=
| PostFailed (e : error)
| ReadFailed (e : error)
| Responded (status : Z) (body : string).

Class Http := {
  HttpClient : Type;
  DefaultClient : HttpClient;
}.

Section client.
Context {H : Http}.

Record Client := MkClient { nodeURL : string; httpClient : HttpClient }.

Definition NewClient (nodeURL : string) (client : option HttpClient) : Client :=
  {| nodeURL := nodeURL; httpClient := default DefaultClient client |}.

(** One POST, of the document [ex_body], and what is made of its outcome. *)
Record exchange (A : Type) := MkExchange {
  ex_client : HttpClient;
  ex_url : string;
  ex_contentType : string;
  ex_body : json;
  ex_result : transport → result A;
}.
Arguments MkExchange {A}.
Arguments ex_client {A}.
Arguments ex_url {A}.
Arguments ex_contentType {A}.
Arguments ex_body {A}.
Arguments ex_result {A}.

(** The bytes of the body. *)
Definition posted {A} (x : exchange A) : string := json_text (ex_body x).

(** What the caller of a function does with its result. *)
Definition andThen {A B} (k : result A → result B) (x : exchange A) : exchange B :=
  MkExchange (ex_client x) (ex_url x) (ex_contentType x) (ex_body x) (λ t, k (ex_result x t)).

Definition httpError (status : Z) (body : string) : error :=
  ErrorString ("node returned HTTP " +:+ pretty status +:+ ": " +:+ body).

(** What [postData] makes of the outcome of its POST. *)
Definition readResponse (t : transport) : result (option json) :=
  match t with
  | PostFailed e => Err (ErrorWrap "posting to node" e)
  | ReadFailed e => Err (ErrorWrap "reading node response" e)
  | Responded status body =>
      if negb (status =? 200) then Err (httpError status body)
      else
        resp ← wrap_err "parsing node response" (doc ← json_parse body; decode_rpcResponse doc);
        match rp_Error resp with
        | Some e => Err (RPCErr (re_Code e) (re_Message e))
        | None => Ok (rp_Result resp)
        end
  end.

Definition postData (c : Client) (method : string) (params : option json) (hasParams : bool)
    : exchange (option json) :=
  let req := MkRpcRequest "2.0" "curlycurl" method None in
  let req := if hasParams
    then MkRpcRequest (JSONRPC req) (rq_ID req) (rq_Method req) params else req in
  MkExchange (httpClient c) (nodeURL c) "application/json" (rpcRequest_encode req) readResponse.

(** [json.Unmarshal(raw, &out)]; a nil [raw] is an empty text. *)
Definition decode_raw {T} `{GoJson T} (raw : option json) : result T :=
  match raw with
  | None => Err (ErrorString "unexpected end of JSON input")
  | Some j => json_decode j json_zero
  end.

Definition unmarshalResult {T} `{GoJson T} (method : string) (r : result (option json)) : result T :=
  raw ← r; wrap_err ("unmarshaling " +:+ method +:+ " result") (decode_raw raw).

Definition call (T : Type) `{GoJson T} (c : Client) (method : string) (params : json) : exchange T :=
  andThen (unmarshalResult method) (postData c method (Some params) true).

Definition callNoParams (T : Type) `{GoJson T} (c : Client) (method : string) : exchange T :=
  andThen (unmarshalResult method) (postData c method None false).

(** [errors.As(err, &rpcErr)]: the first [*RPCError] of the chain. *)
Fixpoint asRPCError (e : error) : option RPCError :=
  match e with
  | RPCErr code message => Some (MkRPCError code message)
  | ErrorWrap _ e => asRPCError e
  | _ => None
  end.

Definition nilOnNotFound {T} (r : result (option T)) : result (option T) :=
  match r with
  | Err e =>
      match asRPCError e with
      | Some re => if re_Code re =? rpcNotFoundCode then Ok None else Err e
      | None => Err e
      end
  | Ok out => Ok out
  end.

Definition callNilOnNotFound (T : Type) `{GoJson T} (c : Client) (method : string) (params : json)
    : exchange (option T) :=
  andThen nilOnNotFound (call (option T) c method params).

(** ** The parameters *)

(** A slice as a parameter: nil is null. *)
Definition encode_slice {A} (f : A → json) (l : option (list A)) : json :=
  match l with None => JNull | Some l => JArray (f <$> l) end.

(** A pointer field with omitempty. *)
Definition optional {A} `{GoJson A} (name : string) (p : option A) : list (string * json) :=
  match p with Some a => [(name, json_encode a)] | None => [] end.

Record BlockTransactionsParams := MkBlockTransactionsParams {
  btp_BlockHash : string; btp_Limit : option Z; btp_Offset : option Z; btp_Account : option Pubkey }.
Record TransactionListParams := MkTransactionListParams {
  tlp_Limit : option Z; tlp_Offset : option Z; tlp_Account : option Pubkey }.

Definition BlockTransactionsParams_encode (p : BlockTransactionsParams) : json := JObject (
  [("block_hash", JString (btp_BlockHash p))] ++ optional "limit" (btp_Limit p) ++
  optional "offset" (btp_Offset p) ++ optional "account" (btp_Account p)).
Definition TransactionListParams_encode (p : TransactionListParams) : json := JObject (
  optional "limit" (tlp_Limit p) ++ optional "offset" (tlp_Offset p) ++
  optional "account" (tlp_Account p)).

(** [map[string][]string{"txids": txids}] *)
Definition encode_txids (txids : option (list string)) : json :=
  JObject [("txids", encode_slice JString txids)].

Definition BlockTransactionFilter : Type := string.
Definition BlockTransactionFilterFull : BlockTransactionFilter := "full".
Definition BlockTransactionFilterSignatures : BlockTransactionFilter := "signatures".

(** ** The methods *)

Definition SendTransaction (c : Client) (tx : RuntimeTransaction) : exchange string :=
  call string c MethodSendTransaction (json_encode tx).
Definition SendTransactions (c : Client) (txs : option (list RuntimeTransaction)) : exchange (list string) :=
  call (list string) c MethodSendTransactions (encode_slice json_encode txs).
Definition ReadAccountInfo (c : Client) (pubkey : Pubkey) : exchange AccountInfo :=
  call AccountInfo c MethodReadAccountInfo (json_encode pubkey).
Definition GetAccountAddress (c : Client) (pubkey : Pubkey) : exchange string :=
  call string c MethodGetAccountAddress (json_encode pubkey).
Definition GetBestBlockHash (c : Client) : exchange string :=
  callNoParams string c MethodGetBestBlockHash.
Definition GetBestFinalizedBlockHash (c : Client) : exchange string :=
  callNoParams string c MethodGetBestFinalizedBlockHash.
Definition GetBlock (c : Client) (blockHash : string) : exchange (option Block) :=
  callNilOnNotFound Block c MethodGetBlock (JArray [JString blockHash]).
Definition GetBlockByHeight (c : Client) (height : Z) : exchange (option Block) :=
  callNilOnNotFound Block c MethodGetBlockByHeight (JArray [JInt height]).
Definition GetFullBlockByHash (c : Client) (blockHash : string) : exchange (option FullBlock) :=
  callNilOnNotFound FullBlock c MethodGetBlock
    (JArray [JString blockHash; JString BlockTransactionFilterFull]).
Definition GetFullBlockByHeight (c : Client) (height : Z) : exchange (option FullBlock) :=
  callNilOnNotFound FullBlock c MethodGetBlockByHeight
    (JArray [JInt height; JString BlockTransactionFilterFull]).
Definition GetBlockCount (c : Client) : exchange Z := callNoParams Z c MethodGetBlockCount.
Definition GetBlockHash (c : Client) (height : Z) : exchange string :=
  call string c MethodGetBlockHash (JInt height).
Definition GetProcessedTransaction (c : Client) (txid : string) : exchange (option ProcessedTransaction) :=
  callNilOnNotFound ProcessedTransaction c MethodGetProcessedTransaction (JString txid).
Definition GetProgramAccounts (c : Client) (programID : Pubkey) (filters : option (list AccountFilter))
    : exchange (list ProgramAccount) :=
  call (list ProgramAccount) c MethodGetProgramAccounts
    (JArray [json_encode programID; encode_slice AccountFilter_json filters]).
Definition RequestAirdrop (c : Client) (pubkey : Pubkey) : exchange unit :=
  andThen (λ r, _ ← r; Ok ()) (postData c MethodRequestAirdrop (Some (json_encode pubkey)) true).
Definition CreateAccountWithFaucet (c : Client) (pubkey : Pubkey) : exchange RuntimeTransaction :=
  call RuntimeTransaction c MethodCreateAccountWithFaucet (json_encode pubkey).
Definition GetTransactionsByBlock (c : Client) (params : BlockTransactionsParams)
    : exchange (list ProcessedTransaction) :=
  call (list ProcessedTransaction) c MethodGetTransactionsByBlock (BlockTransactionsParams_encode params).
Definition GetTransactionsByIds (c : Client) (txids : option (list string))
    : exchange (list (option ProcessedTransaction)) :=
  call (list (option ProcessedTransaction)) c MethodGetTransactionsByIds (encode_txids txids).
Definition RecentTransactions (c : Client) (params : TransactionListParams)
    : exchange (list ProcessedTransaction) :=
  call (list ProcessedTransaction) c MethodRecentTransactions (TransactionListParams_encode params).
Definition GetMultipleAccounts (c : Client) (pubkeys : option (list Pubkey))
    : exchange (list (option AccountInfoWithPubkey)) :=
  call (list (option AccountInfoWithPubkey)) c MethodGetMultipleAccounts (encode_slice json_encode pubkeys).
Definition GetNetworkPubkey (c : Client) : exchange string := callNoParams string c MethodGetNetworkPubkey.
Definition CheckPreAnchorConflict (c : Client) (accounts : option (list Pubkey)) : exchange bool :=
  call bool c MethodCheckPreAnchorConflict (encode_slice json_encode accounts).
Definition GetTransactionStatus (c : Client) (txids : option (list string))
    : exchange (list (option ProcessedTransactionStatus)) :=
  call (list (option ProcessedTransactionStatus)) c MethodGetTransactionStatus (encode_txids txids).

Record CreatedAccount := MkCreatedAccount { ca_Privkey : string; ca_Pubkey : string; ca_Address : string }.

(** The key comes from the generator of btcec, [generated]; [serialize] is
    the method [Serialize] of its private keys. No request is made when the generator fails. *)
Definition CreateNewAccount {B : Btcd} (generated : result PrivateKey)
    (serialize : PrivateKey → list byte) (c : Client) : result (exchange CreatedAccount) :=
  priv ← NewPrivateKey generated;
  let pubkey := XOnlyPubkey priv in
  Ok (andThen (λ r, address ← r;
        Ok (MkCreatedAccount (hex.EncodeToString (serialize priv)) (Pubkey_String pubkey) address))
      (GetAccountAddress c pubkey)).
End client.

Arguments MkExchange {H A}.
Arguments ex_client {H A}.
Arguments ex_url {H A}.
Arguments ex_contentType {H A}.
Arguments ex_body {H A}.
Arguments ex_result {H A}.

(** ** The calls, as data *)

Inductive RpcCall :=
| CallSendTransaction (tx : RuntimeTransaction)
| CallSendTransactions (txs : option (list RuntimeTransaction))
| CallReadAccountInfo (pubkey : Pubkey)
| CallGetAccountAddress (pubkey : Pubkey)
| CallGetBestBlockHash
| CallGetBestFinalizedBlockHash
| CallGetBlock (blockHash : string)
| CallGetBlockByHeight (height : Z)
| CallGetFullBlockByHash (blockHash : string)
| CallGetFullBlockByHeight (height : Z)
| CallGetBlockCount
| CallGetBlockHash (height : Z)
| CallGetProcessedTransaction (txid : string)
| CallGetProgramAccounts (programID : Pubkey) (filters : option (list AccountFilter))
| CallRequestAirdrop (pubkey : Pubkey)
| CallCreateAccountWithFaucet (pubkey : Pubkey)
| CallGetTransactionsByBlock (params : BlockTransactionsParams)
| CallGetTransactionsByIds (txids : option (list string))
| CallRecentTransactions (params : TransactionListParams)
| CallGetMultipleAccounts (pubkeys : option (list Pubkey))
| CallGetNetworkPubkey
| CallCheckPreAnchorConflict (accounts : option (list Pubkey))
| CallGetTransactionStatus (txids : option (list string)).

(** The document each method posts. *)
Definition call_body {H : Http} (c : Client) (x : RpcCall) : json :=
  match x with
  | CallSendTransaction tx => ex_body (SendTransaction c tx)
  | CallSendTransactions txs => ex_body (SendTransactions c txs)
  | CallReadAccountInfo k => ex_body (ReadAccountInfo c k)
  | CallGetAccountAddress k => ex_body (GetAccountAddress c k)
  | CallGetBestBlockHash => ex_body (GetBestBlockHash c)
  | CallGetBestFinalizedBlockHash => ex_body (GetBestFinalizedBlockHash c)
  | CallGetBlock h => ex_body (GetBlock c h)
  | CallGetBlockByHeight n => ex_body (GetBlockByHeight c n)
  | CallGetFullBlockByHash h => ex_body (GetFullBlockByHash c h)
  | CallGetFullBlockByHeight n => ex_body (GetFullBlockByHeight c n)
  | CallGetBlockCount => ex_body (GetBlockCount c)
  | CallGetBlockHash n => ex_body (GetBlockHash c n)
  | CallGetProcessedTransaction t => ex_body (GetProcessedTransaction c t)
  | CallGetProgramAccounts p fs => ex_body (GetProgramAccounts c p fs)
  | CallRequestAirdrop k => ex_body (RequestAirdrop c k)
  | CallCreateAccountWithFaucet k => ex_body (CreateAccountWithFaucet c k)
  | CallGetTransactionsByBlock p => ex_body (GetTransactionsByBlock c p)
  | CallGetTransactionsByIds ts => ex_body (GetTransactionsByIds c ts)
  | CallRecentTransactions p => ex_body (RecentTransactions c p)
  | CallGetMultipleAccounts ks => ex_body (GetMultipleAccounts c ks)
  | CallGetNetworkPubkey => ex_body (GetNetworkPubkey c)
  | CallCheckPreAnchorConflict ks => ex_body (CheckPreAnchorConflict c ks)
  | CallGetTransactionStatus ts => ex_body (GetTransactionStatus c ts)
  end.

(** Versions in range, and the bytes of content filters not nil (nil and empty bytes
    have the same JSON form). *)
Definition filter_wf (f : AccountFilter) : Prop :=
  match af_DataContent f with Some d => is_Some (dc_Bytes d) | None => True end.

Definition rpc_call_wf (x : RpcCall) : Prop :=
  match x with
  | CallSendTransaction tx => json_wf tx
  | CallSendTransactions txs => Forall json_wf (default [] txs)
  | CallGetProgramAccounts _ fs => Forall filter_wf (default [] fs)
  | _ => True
  end.

(** ** The forms of parameters are injective *)

Lemma json_encode_inj `{GoJson A} a b : json_wf a → json_wf b → json_encode a = json_encode b → a = b.
Proof.
  intros Ha Hb Heq. pose proof (json_roundtrip a Ha) as H1. rewrite Heq, json_roundtrip in H1 by done.
  by injection H1.
Qed.

Lemma Pubkey_encode_inj (a b : Pubkey) : json_encode a = json_encode b → a = b.
Proof. by apply json_encode_inj. Qed.

Lemma Pubkey_numbers_inj (a b : Pubkey) :
  (λ v, JInt (byte_val v)) <$> array_list a = (λ v, JInt (byte_val v)) <$> array_list b → a = b.
Proof.
  intros Heq. apply Pubkey_encode_inj. unfold json_encode. simpl. unfold array_MarshalJSON. by rewrite Heq.
Qed.

Lemma encode_slice_inj {A} (f : A → json) (P : A → Prop) l k :
  (∀ a b, P a → P b → f a = f b → a = b) →
  Forall P (default [] l) → Forall P (default [] k) → encode_slice f l = encode_slice f k → l = k.
Proof.
  intros Hf Hl Hk. destruct l as [l|], k as [k|]; simpl; try done. intros [= Heq]. f_equal.
  simpl in *. revert k Hk Heq. induction Hl as [|a l Ha _ IH]; intros [|b k] Hk Heq; try done.
  apply Forall_cons in Hk as [Hb Hk]. injection Heq as Hab Heq. f_equal; [by apply Hf|by apply IH].
Qed.

Lemma encode_slice_inj_all {A} (f : A → json) l k :
  (∀ a b, f a = f b → a = b) → encode_slice f l = encode_slice f k → l = k.
Proof. intros Hf. by apply (encode_slice_inj f (λ _, True)); [auto|apply Forall_true..]. Qed.

Lemma DataContent_encode_inj d e :
  is_Some (dc_Bytes d) → is_Some (dc_Bytes e) → dc_Offset d = dc_Offset e →
  Bytes_MarshalJSON (dc_Bytes d) = Bytes_MarshalJSON (dc_Bytes e) → d = e.
Proof.
  destruct d as [o b], e as [o' b']. simpl. intros [bs ->] [bs' ->] -> Heq.
  pose proof (Bytes_Unmarshal_Marshal bs) as H1. rewrite Heq, Bytes_Unmarshal_Marshal in H1. congruence.
Qed.

Lemma AccountFilter_json_inj a b :
  filter_wf a → filter_wf b → AccountFilter_json a = AccountFilter_json b → a = b.
Proof.
  destruct a as [n d], b as [n' d']. unfold filter_wf, AccountFilter_json. simpl.
  destruct n, n', d as [d|], d' as [d'|]; intros Ha Hb Heq; simpl in Heq; try done;
    injection Heq; intros; subst; try done; by rewrite (DataContent_encode_inj d d').
Qed.

Lemma BlockTransactionsParams_encode_inj p q :
  BlockTransactionsParams_encode p = BlockTransactionsParams_encode q → p = q.
Proof.
  destruct p as [h [l|] [o|] [a|]], q as [h' [l'|] [o'|] [a'|]]; unfold BlockTransactionsParams_encode;
    simpl; intros Heq; try done; injection Heq; intros; subst; try done;
    repeat match goal with H : _ <$> _ = _ <$> _ |- _ => apply Pubkey_numbers_inj in H; subst end;
    done.
Qed.

Lemma TransactionListParams_encode_inj p q :
  TransactionListParams_encode p = TransactionListParams_encode q → p = q.
Proof.
  destruct p as [[l|] [o|] [a|]], q as [[l'|] [o'|] [a'|]]; unfold TransactionListParams_encode;
    simpl; intros Heq; try done; injection Heq; intros; subst; try done;
    repeat match goal with H : _ <$> _ = _ <$> _ |- _ => apply Pubkey_numbers_inj in H; subst end;
    done.
Qed.

(** The posted document determines the call (with nil and empty content filters
    identified, and versions in range); where it is sent depends only on the client. *)
Lemma call_body_inj {H : Http} c1 c2 x y :
  rpc_call_wf x → rpc_call_wf y → call_body c1 x = call_body c2 y → x = y.
Proof.
  intros Hx Hy Heq. destruct x, y; try discriminate Heq; try reflexivity; f_equal;
    simpl in Hx, Hy; cbv [call_body SendTransaction SendTransactions ReadAccountInfo GetAccountAddress
      GetBlock GetBlockByHeight GetFullBlockByHash GetFullBlockByHeight GetBlockHash
      GetProcessedTransaction GetProgramAccounts RequestAirdrop CreateAccountWithFaucet
      GetTransactionsByBlock GetTransactionsByIds RecentTransactions GetMultipleAccounts
      CheckPreAnchorConflict GetTransactionStatus call callNilOnNotFound andThen postData ex_body
      rpcRequest_encode rq_Params rq_Method rq_ID JSONRPC app encode_txids] in Heq;
    try (injection Heq; intros; done);
    try (injection Heq; intros; by apply Pubkey_numbers_inj).
  - apply json_encode_inj; [done|done|]. congruence.
  - apply (encode_slice_inj json_encode json_wf); [apply json_encode_inj|done|done|]. congruence.
  - apply (encode_slice_inj AccountFilter_json filter_wf);
      [apply AccountFilter_json_inj|done|done|]. congruence.
  - apply BlockTransactionsParams_encode_inj. congruence.
  - apply (encode_slice_inj_all JString); [congruence|]. congruence.
  - apply TransactionListParams_encode_inj. congruence.
  - apply (encode_slice_inj_all json_encode); [apply Pubkey_encode_inj|]. congruence.
  - apply (encode_slice_inj_all json_encode); [apply Pubkey_encode_inj|]. congruence.
  - apply (encode_slice_inj_all JString); [congruence|]. congruence.
Qed.

(** An instance to compute with. *)
#[global] Instance null_http : Http := {| HttpClient := unit; DefaultClient := () |}.

Definition localClient : @Client null_http := NewClient "http://localhost:9002" None.

(** ** Properties *)

(** C35: the outcome of a lookup on every branch. A failed POST, a failed read, an HTTP
    status other than 200 and an answer that is not a response each give their own
    error. An answer with an error gives nil and no error when its code is 404, and
    otherwise that very error, whatever result comes with it. An answer without an error
    gives nil when the result is null, the decoded value when it decodes, and an error
    naming the method when it does not or is missing. *)
Theorem rpc_lookup_outcomes {H : Http} {T} `{GoJson T} c method params :
  let result := ex_result (callNilOnNotFound T c method params) in
  (∀ e, asRPCError e = None → result (PostFailed e) = Err (ErrorWrap "posting to node" e)) ∧
  (∀ e, asRPCError e = None → result (ReadFailed e) = Err (ErrorWrap "reading node response" e)) ∧
  (∀ status body, status ≠ 200 → result (Responded status body) = Err (httpError status body)) ∧
  (∀ body e, asRPCError e = None → (doc ← json_parse body; decode_rpcResponse doc) = Err e →
     result (Responded 200 body) = Err (ErrorWrap "parsing node response" e)) ∧
  (∀ body resp, (doc ← json_parse body; decode_rpcResponse doc) = Ok resp →
     result (Responded 200 body) =
     match rp_Error resp, rp_Result resp with
     | Some e, _ => if decide (re_Code e = 404) then Ok None else Err (RPCErr (re_Code e) (re_Message e))
     | None, Some JNull => Ok None
     | None, Some j => nilOnNotFound
         (wrap_err ("unmarshaling " +:+ method +:+ " result") (Some <$> json_decode j json_zero))
     | None, None => Err (ErrorWrap ("unmarshaling " +:+ method +:+ " result")
                            (ErrorString "unexpected end of JSON input"))
     end).
Proof.
  intros result. unfold result, callNilOnNotFound, call, postData. cbn [andThen ex_result].
  split_ands.
  - intros e He. simpl. by rewrite He.
  - intros e He. simpl. by rewrite He.
  - intros status body Hs. unfold readResponse. replace (status =? 200) with false by lia. done.
  - intros body e He Hd. unfold readResponse. change (negb (200 =? 200)) with false.
    cbv iota. rewrite Hd. simpl. by rewrite He.
  - intros body resp Hd. unfold readResponse. change (negb (200 =? 200)) with false.
    cbv iota. rewrite Hd. cbn [wrap_err mbind result_bind]. destruct resp as [res [e|]]; simpl.
    + unfold rpcNotFoundCode. destruct (Z.eqb_spec (re_Code e) 404); case_decide; done.
    + destruct res as [j|]; [|done]. simpl. by destruct j.
Qed.

(** C37: an answer the node writes is read back: for any value that can be written, a
    200 response with the text of [{"jsonrpc": ..., "result": value, "id": ...}] makes
    [call] return it, and a lookup return a pointer to it. *)
Theorem rpc_reads_result {H : Http} {T} `{GoJson T} c method params body (a : T) :
  json_wf a → json_encode a ≠ JNull → writable (maxDepth - 1) (json_encode a) →
  body = json_text (JObject [("jsonrpc", JString "2.0"); ("result", json_encode a);
                             ("id", JString "curlycurl")]) →
  ex_result (call T c method params) (Responded 200 body) = Ok a ∧
  ex_result (callNilOnNotFound T c method params) (Responded 200 body) = Ok (Some a).
Proof.
  intros Ha Hn Hwr ->.
  assert (readResponse (Responded 200 (json_text (JObject [("jsonrpc", JString "2.0");
    ("result", json_encode a); ("id", JString "curlycurl")]))) = Ok (Some (json_encode a))) as Hr.
  { unfold readResponse. change (negb (200 =? 200)) with false. cbv iota. rewrite json_read_back; [done|].
    apply (writable_object (maxDepth - 1)); [done|]. repeat constructor; (done || apply Hwr). }
  unfold callNilOnNotFound, call, postData. cbn [andThen ex_result]. rewrite Hr.
  unfold unmarshalResult. cbn [mbind result_bind decode_raw]. split.
  - by rewrite json_roundtrip.
  - pose proof (decode_pointer_json (Some a)) as Hp. unfold encode_pointer in Hp. simpl in Hp.
    change (json_decode (json_encode a) (json_zero (A := option T)))
      with (decode_pointer (json_encode a) (None : option T)).
    by rewrite Hp.
Qed.

(** The height 7, as the node writes it. *)
Definition sevenBody : string := json_text (JObject [("jsonrpc", JString "2.0"); ("result", JInt 7);
  ("id", JString "curlycurl")]).

Lemma rpc_reads_result_witness :
  ex_result (GetBlockCount localClient) (Responded 200 sevenBody) = Ok 7.
Proof.
  refine (proj1 (@rpc_reads_result null_http Z _ localClient
    MethodGetBlockCount JNull sevenBody 7 _ _ _ eq_refl)).
  - unfold json_wf. simpl. unfold is_u64. lia.
  - discriminate.
  - split; [reflexivity|]. simpl. unfold maxDepth. lia.
Defined.

(** The flag [hasParams] makes no difference for nil parameters: they are omitted
    from the request in both cases, so the request never holds [params: null] for them. *)
Lemma rpc_nil_params_omitted {H : Http} c method hasParams :
  ex_body (postData c method None hasParams) =
  JObject [("jsonrpc", JString "2.0"); ("id", JString "curlycurl"); ("method", JString method)].
Proof. by destruct hasParams. Qed.
