(* ===== verification/RpcText.v ===== *)
(** * The bytes of the requests: src/rpc.go over encoding/json.

    Which strings a call carries, and that with those in UTF-8 its request is a document
    that reads back from the posted text, at most eight deep. Theorem: no two calls post
    the same bytes. *)
From S2P Require Import Prelude GoLib Wire Pubkey Message Bip322 Transaction Json JsonText WebSocket JsonTypes Rpc.

(** ** The depth of what is written *)

Lemma writable_slice {A} (f : A → json) n l :
  0 ≤ n → (∀ a, a ∈ default [] l → writable n (f a)) → writable (1 + n) (encode_slice f l).
Proof.
  intros Hn Hf. destruct l as [l|]; [|split; [done|simpl; lia]].
  apply writable_array; [done|]. by apply Forall_fmap, Forall_forall.
Qed.

Lemma writable_list `{GoJson A} n (l : list A) :
  0 ≤ n → (∀ a, a ∈ l → writable n (json_encode a)) → writable (1 + n) (json_encode l).
Proof. apply (writable_slice json_encode n (Some l)). Qed.

(** One step of the proof that a written struct is a document; [n] bounds what it holds. *)
Ltac write_object n :=
  apply (writable_object n); [done|]; repeat (constructor; [split; [done|]|]); [..|constructor].

Lemma writable_scalar j : writable 0 j → writable 1 j ∧ writable 2 j ∧ writable 3 j ∧ writable 4 j.
Proof. intros Hj. split_ands; (eapply writable_le; [exact Hj|lia]). Qed.

Lemma writable_SanitizedInstruction (i : SanitizedInstruction) : writable 2 (json_encode i).
Proof.
  write_object 1; [|apply writable_Bytes..]. by apply writable_scalar, writable_int.
Qed.

Lemma writable_MessageHeader (h : MessageHeader) : writable 1 (json_encode h).
Proof. write_object 0; apply writable_int. Qed.

Lemma writable_SanitizedMessage (m : SanitizedMessage) : writable 4 (json_encode m).
Proof.
  write_object 3.
  - eapply writable_le; [apply writable_MessageHeader|lia].
  - eapply writable_le; [apply (writable_list 1); [done|]|lia]. intros k _. apply writable_bytes.
  - eapply writable_le; [apply writable_bytes|lia].
  - apply (writable_list 2); [done|]. intros i _. apply writable_SanitizedInstruction.
Qed.

Lemma writable_RuntimeTransaction (tx : RuntimeTransaction) : writable 5 (json_encode tx).
Proof.
  write_object 4.
  - by apply writable_scalar, writable_int.
  - eapply writable_le; [apply (writable_list 1); [done|]|lia]. intros s _. apply writable_bytes.
  - apply writable_SanitizedMessage.
Qed.

Lemma writable_AccountFilter f : writable 3 (AccountFilter_json f).
Proof.
  apply (writable_object 2); [done|]. apply Forall_app. split.
  - destruct (af_DataSize f) as [z|]; [|constructor]. constructor; [|constructor].
    split; [done|]. by apply writable_scalar, writable_int.
  - destruct (af_DataContent f) as [d|]; [|constructor]. constructor; [|constructor].
    split; [done|]. write_object 1; [by apply writable_scalar, writable_int|apply writable_Bytes].
Qed.

(** An optional field. *)
Lemma writable_optional `{GoJson A} n name (p : option A) :
  printable_string name = true → (∀ a, writable n (json_encode a)) →
  Forall (λ kv : string * json, printable_string kv.1 = true ∧ writable n kv.2) (optional name p).
Proof. intros Hn Ha. destruct p as [a|]; [|constructor]. constructor; [|constructor]. split; [done|apply Ha]. Qed.

Lemma writable_TransactionListParams p : writable 2 (TransactionListParams_encode p).
Proof.
  apply (writable_object 1); [done|]. repeat (apply Forall_app; split); apply writable_optional; try done.
  intros a. apply writable_bytes.
Qed.

Lemma writable_BlockTransactionsParams p :
  printable_string (btp_BlockHash p) = true → writable 2 (BlockTransactionsParams_encode p).
Proof.
  intros Hp. apply (writable_object 1); [done|]. apply Forall_cons. split.
  { split; [done|]. by apply writable_scalar, writable_string. }
  repeat (apply Forall_app; split); apply writable_optional; try done.
  intros a. apply writable_bytes.
Qed.

(** ** Calls *)

(** The strings a caller gives. *)
Definition call_strings (x : RpcCall) : list string :=
  match x with
  | CallGetBlock s | CallGetFullBlockByHash s | CallGetProcessedTransaction s => [s]
  | CallGetTransactionsByBlock p => [btp_BlockHash p]
  | CallGetTransactionsByIds ts | CallGetTransactionStatus ts => default [] ts
  | _ => []
  end.

Definition call_utf8 (x : RpcCall) : Prop := Forall (λ s, printable_string s = true) (call_strings x).

(** A request is a document when its parameters are one, and its method is one of
    those of the package. *)
Lemma writable_request {H : Http} n (c : Client) method params :
  0 ≤ n → printable_string method = true → writable n params →
  writable (1 + n) (rpcRequest_encode (MkRpcRequest "2.0" "curlycurl" method (Some params))).
Proof.
  intros Hn Hm Hp. apply writable_object; [done|].
  assert (∀ s, printable_string s = true → writable n (JString s)) as Hs.
  { intros s Hs. eapply writable_le; [by apply writable_string|done]. }
  repeat (constructor; [split; [done|]|]); [apply Hs; done|apply Hs; done|apply Hs; done|done|constructor].
Qed.

Lemma writable_strings (l : list string) :
  Forall (λ s, printable_string s = true) l → ∀ s, s ∈ l → writable 0 (JString s).
Proof. intros Hl s Hs. rewrite Forall_forall in Hl. by apply writable_string, Hl. Qed.

(** An array of two parameters. *)
Lemma writable_pair n a b : 0 ≤ n → writable n a → writable n b → writable (1 + n) (JArray [a; b]).
Proof. intros. apply writable_array; [done|]. apply Forall_cons; split; [done|by apply Forall_singleton]. Qed.

Lemma writable_txids ts :
  Forall (λ s, printable_string s = true) (default [] ts) → writable 2 (encode_txids ts).
Proof.
  intros Hl. write_object 1. apply (writable_slice JString 0); [done|]. by apply writable_strings.
Qed.

Lemma call_body_writable {H : Http} c x : call_utf8 x → writable 7 (call_body c x).
Proof.
  unfold call_utf8. intros Hs.
  destruct x; simpl in Hs; try (by split); try (apply Forall_cons in Hs as [Hs _]);
    try (apply (writable_request 6); [done|done|done|]).
  - eapply writable_le; [apply writable_RuntimeTransaction|lia].
  - apply (writable_slice json_encode 5); [done|]. intros tx _. apply writable_RuntimeTransaction.
  - eapply writable_le; [apply writable_bytes|lia].
  - eapply writable_le; [apply writable_bytes|lia].
  - eapply writable_le; [apply (writable_array 0); [done|]; repeat constructor; done|lia].
  - eapply writable_le; [by apply (writable_pair 0); [|by apply writable_string|]|lia].
  - eapply writable_le; [by apply writable_string|lia].
  - eapply writable_le; [apply (writable_pair 4); [done| |]|lia].
    + eapply writable_le; [apply writable_bytes|lia].
    + apply (writable_slice AccountFilter_json 3); [done|]. intros f _. apply writable_AccountFilter.
  - eapply writable_le; [apply writable_bytes|lia].
  - eapply writable_le; [apply writable_bytes|lia].
  - eapply writable_le; [by apply writable_BlockTransactionsParams|lia].
  - eapply writable_le; [by apply writable_txids|lia].
  - eapply writable_le; [apply writable_TransactionListParams|lia].
  - eapply writable_le; [apply (writable_slice json_encode 1); [done|]; intros; apply writable_bytes|lia].
  - eapply writable_le; [apply (writable_slice json_encode 1); [done|]; intros; apply writable_bytes|lia].
  - eapply writable_le; [by apply writable_txids|lia].
Qed.

(** The posted text of a call. *)
Definition call_text {H : Http} (c : Client) (x : RpcCall) : string := json_text (call_body c x).

Lemma call_text_reads {H : Http} c x : call_utf8 x → json_parse (call_text c x) = Ok (call_body c x).
Proof.
  intros Hx. apply json_read_back. eapply writable_le; [by apply call_body_writable|]. unfold maxDepth. lia.
Qed.

(** ** Property *)

(** C36: no two calls post the same bytes: for strings in UTF-8 and versions in range the
    posted text determines the method and its arguments, nil and empty content filters
    identified (an invalid byte of a string would be replaced); where it is sent depends
    only on the client. *)
Theorem rpc_requests_distinct {H : Http} c1 c2 x y :
  rpc_call_wf x → rpc_call_wf y → call_utf8 x → call_utf8 y → call_text c1 x = call_text c2 y → x = y.
Proof.
  intros Hx Hy Hxs Hys Heq. apply (call_body_inj c1 c2); [done|done|].
  pose proof (call_text_reads c1 x Hxs) as H1. rewrite Heq, (call_text_reads c2 y Hys) in H1. congruence.
Qed.

Lemma rpc_requests_distinct_witness : CallGetBlock "00" = CallGetBlock "00".
Proof.
  apply (@rpc_requests_distinct null_http localClient (@NewClient null_http "http://other" (Some ())));
    [exact I|exact I|repeat constructor..|reflexivity].
Defined.

(** The bytes of a request without parameters. *)
Example block_count_text : call_text localClient CallGetBlockCount =
  String.string_of_list_byte (flat_map (λ s, String.list_byte_of_string s)
    ["{"; quoted "jsonrpc"; ":"; quoted "2.0"; ","; quoted "id"; ":"; quoted "curlycurl"; ",";
     quoted "method"; ":"; quoted "get_block_count"; "}"]).
Proof. reflexivity. Qed.
