(* ===== verification/Frames.v ===== *)
(** * The text frames of the WebSocket client: src/websocket.go over encoding/json.

    Requests as they are written to the connection, and what [readLoop] makes of the
    text of a frame. The node's reading of a request is a specification, from the wire
    format in the comment at the top of src/websocket.go. Theorems: every request that is
    written is one a caller asked for and is read by the node as that, and a frame of the
    node becomes the event or the response in it, up to the typed payload a consumer
    gets. *)
From S2P Require Import Prelude GoLib Wire Json JsonText WebSocket WebSocketInv WebSocketProps Correlation JsonTypes RpcText.

(** ** Requests *)

(** [conn.WriteJSON(req)]: the document, and a newline. *)
Definition request_text (r : wsRequest) : result string :=
  doc ← wsRequest_encode r; Ok (String.string_of_list_byte (json_print doc ++ [x0a])).

(** ** Messages *)

(** A field of type string that is given is read over the old value. *)
Definition wsMessage_fields : list (field wsMessage) := [
  json_field "topic" wm_Topic (λ (x : string) m,
    MkWsMessage x (wm_Data m) (wm_Status m) (wm_SubscriptionID m) (wm_Message m) (wm_Error m));
  ("data", λ j m, Ok
    (MkWsMessage (wm_Topic m) (Some j) (wm_Status m) (wm_SubscriptionID m) (wm_Message m) (wm_Error m)));
  json_field "status" wm_Status (λ x m,
    MkWsMessage (wm_Topic m) (wm_Data m) x (wm_SubscriptionID m) (wm_Message m) (wm_Error m));
  json_field "subscription_id" wm_SubscriptionID (λ x m,
    MkWsMessage (wm_Topic m) (wm_Data m) (wm_Status m) x (wm_Message m) (wm_Error m));
  json_field "message" wm_Message (λ x m,
    MkWsMessage (wm_Topic m) (wm_Data m) (wm_Status m) (wm_SubscriptionID m) x (wm_Error m));
  json_field "error" wm_Error (λ x m,
    MkWsMessage (wm_Topic m) (wm_Data m) (wm_Status m) (wm_SubscriptionID m) (wm_Message m) x)].

Definition wsMessage_zero : wsMessage := MkWsMessage "" None "" "" "" "".

(** [var msg wsMessage; json.Unmarshal(raw, &msg)] *)
Definition wsMessage_decode (raw : string) : result wsMessage :=
  doc ← json_parse raw; decode_struct "arch.wsMessage" wsMessage_fields doc wsMessage_zero.

(** What [readLoop] makes of the outcome of [ReadMessage]. *)
Definition frame_input (r : result string) : input :=
  match r with
  | Err e => InError e
  | Ok raw => match wsMessage_decode raw with Ok m => InMessage m | Err _ => InOther end
  end.

(** ** The node's side *)

Definition json_string (j : json) : option string := match j with JString s => Some s | _ => None end.

(** A request: its method, the topic, and the filter or the subscription id. *)
Definition node_request (text : string) : option wsRequest :=
  doc ← match json_parse text with Ok doc => Some doc | Err _ => None end;
  method ← json_get "method" doc ≫= json_string;
  params ← json_get "params" doc;
  topic ← json_get "topic" params ≫= json_string;
  if decide (method = "subscribe") then
    match json_get "filter" params with
    | Some (JObject kvs) =>
        Some (MkWsRequest method (wsSubscribeParams topic (Some (Ok <$> list_to_map kvs))))
    | _ => None
    end
  else if decide (method = "unsubscribe") then
    id ← json_get "subscription_id" params ≫= json_string;
    Some (MkWsRequest method (wsUnsubscribeParams topic id))
  else None.

(** The frames it sends. *)
Inductive server_frame :=
| Confirmed (topic : EventTopic) (id : string)
| Cancelled (id message : string)
| Refused (error : string)
| Published (topic : EventTopic) (data : json).

Definition server_json (f : server_frame) : json :=
  match f with
  | Confirmed topic id =>
      JObject [("status", JString "Subscribed"); ("subscription_id", JString id); ("topic", JString topic)]
  | Cancelled id message =>
      JObject [("message", JString message); ("status", JString "Unsubscribed"); ("subscription_id", JString id)]
  | Refused e => JObject [("error", JString e); ("status", JString "Error")]
  | Published topic data => JObject [("topic", JString topic); ("data", data)]
  end.

Definition server_text (f : server_frame) : string := json_text (server_json f).

(** ** Lemmas *)

(** *** Requests *)

(** The requests the client makes. *)
Definition made_request (r : wsRequest) : Prop :=
  match wsReqParams r with
  | wsSubscribeParams _ f => Method r = "subscribe" ∧ is_Some f
  | wsUnsubscribeParams _ _ => Method r = "unsubscribe"
  end.

(** Strings in UTF-8, and filter values not nested beyond the reader's limit. *)
Definition request_utf8 (r : wsRequest) : Prop :=
  match wsReqParams r with
  | wsSubscribeParams topic f =>
      printable_string topic = true ∧
      map_Forall (λ k v, printable_string k = true ∧ ∀ j, v = Ok j → writable (maxDepth - 3) j) (default ∅ f)
  | wsUnsubscribeParams topic id => printable_string topic = true ∧ printable_string id = true
  end.

Lemma encode_entries (l : list (string * any)) kvs :
  mapM encode_entry l = Ok kvs → l = prod_map id Ok <$> kvs.
Proof.
  intros Hl%mapM_Ok_Forall2. induction Hl as [|[k v] [k' j] l kvs H _ IH]; [done|].
  unfold encode_entry in H. simpl in H. destruct v as [v|]; [|done]. injection H as <- <-.
  by rewrite fmap_cons, IH.
Qed.

(** The entries of a written filter are those of the map. *)
Lemma sorted_entries (m : gmap string any) kvs :
  mapM encode_entry (merge_sort key_le (map_to_list m)) = Ok kvs →
  Ok <$> list_to_map kvs = m ∧ ∀ k j, (k, j) ∈ kvs → m !! k = Some (Ok j).
Proof.
  intros Hl%encode_entries.
  assert (prod_map id Ok <$> kvs ≡ₚ map_to_list m) as Hperm.
  { rewrite <- Hl. apply merge_sort_Permutation. }
  split.
  - rewrite <- list_to_map_fmap.
    transitivity (list_to_map (map_to_list m) : gmap string any); [|apply list_to_map_to_list].
    symmetry. apply list_to_map_proper; [apply NoDup_fst_map_to_list|]. by rewrite <- Hperm.
  - intros k j Hkj. apply elem_of_map_to_list. rewrite <- Hperm.
    apply list_elem_of_fmap. by exists (k, j).
Qed.

Lemma writable_filter n f j :
  0 ≤ n → map_Forall (λ k v, printable_string k = true ∧ ∀ j, v = Ok j → writable n j) (default ∅ f) →
  EventFilter_encode f = Ok j → writable (1 + n) j.
Proof.
  intros Hn Hf Hj. destruct f as [m|]; simpl in *; [|injection Hj as <-; split; [done|simpl; lia]].
  apply bind_Ok in Hj as (kvs & Hkvs & [= <-]). apply sorted_entries in Hkvs as [_ Hin].
  apply writable_object; [done|]. apply Forall_forall. intros [k j] Hkj.
  destruct (Hf k (Ok j) (Hin k j Hkj)) as [Hk Hv]. split; [done|]. by apply Hv.
Qed.

Lemma writable_wsRequest r doc :
  made_request r → request_utf8 r → wsRequest_encode r = Ok doc → writable maxDepth doc.
Proof.
  assert (∀ n s, 0 ≤ n → printable_string s = true → writable n (JString s)) as Hs.
  { intros n s Hn Hs. eapply writable_le; [by apply writable_string|done]. }
  intros Hm Hu Hdoc. apply bind_Ok in Hdoc as (p & Hp & [= <-]).
  change maxDepth with (1 + (1 + (1 + (maxDepth - 3)))).
  write_object (1 + (1 + (maxDepth - 3))).
  - apply Hs; [done|]. unfold made_request in Hm.
    destruct (wsReqParams r); [destruct Hm as [-> _]|rewrite Hm]; done.
  - unfold request_utf8 in Hu. destruct (wsReqParams r) as [topic f|topic id]; destruct Hu as [H1 H2]; simpl in Hp.
    + apply bind_Ok in Hp as (jf & Hf & [= <-]).
      write_object (1 + (maxDepth - 3)); [by apply Hs|by eapply writable_filter].
    + injection Hp as <-. write_object (1 + (maxDepth - 3)); by apply Hs.
Qed.

Lemma node_request_text r :
  made_request r → request_utf8 r → encodable r = true →
  ∃ text, request_text r = Ok text ∧ node_request text = Some r.
Proof.
  intros Hm Hu Hw. unfold encodable in Hw.
  destruct (wsRequest_encode r) as [doc|] eqn:Hdoc; [|done]. clear Hw.
  destruct (writable_wsRequest r doc Hm Hu Hdoc) as [Hp Hd].
  eexists. unfold request_text. rewrite Hdoc. split; [reflexivity|].
  unfold node_request. rewrite json_parse_print_line by done.
  destruct r as [method [topic f|topic id]]; unfold made_request in Hm; simpl in Hm.
  - destruct Hm as [-> [m ->]]. unfold wsRequest_encode in Hdoc. simpl in Hdoc.
    destruct (mapM encode_entry _) as [kvs|] eqn:Hkvs; [|done]. injection Hdoc as <-.
    apply sorted_entries in Hkvs as [<- _]. reflexivity.
  - subst method. injection Hdoc as <-. reflexivity.
Qed.

(** *** What was asked for and what was written *)

(** The request a caller asks for, with its thread. *)
Definition asks (a : action) (s : state) : list (nat * wsRequest) :=
  match a with
  | ASubscribe tid topic filter =>
      [(tid, MkWsRequest "subscribe" (wsSubscribeParams topic (Some (default ∅ filter))))]
  | AUnsubscribe tid sub =>
      match s_heap s !! sub with
      | Some sb => [(tid, MkWsRequest "unsubscribe" (wsUnsubscribeParams (sub_topic sb) (sub_id sb)))]
      | None => []
      end
  | _ => []
  end.

(** The request a thread writes to the connection. *)
Definition writes (a : action) (s : state) : list (nat * wsRequest) :=
  match a with
  | AThread tid ChGo => match s_threads s !! tid with Some (TWrite _ req _) => [(tid, req)] | _ => [] end
  | _ => []
  end.

(** The request a thread has still to write. *)
Definition unwritten (t : thread) : option wsRequest :=
  match t with
  | TSubscribe topic filter =>
      Some (MkWsRequest "subscribe" (wsSubscribeParams topic (Some (default ∅ filter))))
  | TRoundTrip _ req | TWrite _ req _ => Some req
  | _ => None
  end.

(** [A] was asked for and [W] written: each by one thread, each once, and a thread that
    has written has nothing more to write. *)
Record wire_inv (A W : list (nat * wsRequest)) (s : state) : Prop := {
  wire_texts : W.*2 = (s_wire s).*2;
  wire_made : Forall (λ p, made_request p.2) A;
  wire_asked : NoDup A.*1 ∧ ∀ tid, tid ∈ A.*1 → is_Some (s_threads s !! tid);
  wire_written : NoDup W.*1 ∧ ∀ p, p ∈ W → p ∈ A ∧ encodable p.2 = true ∧
    ∀ t, s_threads s !! p.1 = Some t → unwritten t = None;
  wire_pending tid t req : s_threads s !! tid = Some t → unwritten t = Some req → (tid, req) ∈ A;
}.

Lemma wire_inv_same A W s s' :
  wire_inv A W s → s_wire s' = s_wire s → s_threads s' = s_threads s → wire_inv A W s'.
Proof.
  intros [H1 H2 H3 H4 H5] Hw Ht. split; [by rewrite Hw|done|by rewrite Ht..|]. intros tid t req. rewrite Ht. apply H5.
Qed.

(** A thread goes on, with the same request to write or none. *)
Lemma wire_inv_thread A W s s' tid t0 t :
  wire_inv A W s → s_threads s !! tid = Some t0 → unwritten t = unwritten t0 ∨ unwritten t = None →
  s_wire s' = s_wire s → s_threads s' = <[tid := t]> (s_threads s) → wire_inv A W s'.
Proof.
  intros [H1 H2 [H3 H3'] [H4 H4'] H5] Ht0 Ht Hw Hts. split; [by rewrite Hw|done| | |].
  - split; [done|]. intros tid' Hin. rewrite Hts. destruct (decide (tid = tid')) as [<-|Hne].
    + rewrite lookup_insert_eq. by eexists.
    + rewrite lookup_insert_ne by done. by apply H3'.
  - split; [done|]. intros p Hp. destruct (H4' p Hp) as (Ha & Hwr & Hun). split_ands; [done|done|].
    intros t'. rewrite Hts. intros [[Heq <-]|[_ Hl]]%lookup_insert_Some; [|by apply Hun].
    destruct Ht as [-> | ->]; [|done]. apply Hun. by rewrite <- Heq.
  - intros tid' t' req. rewrite Hts. intros [[<- <-]|[_ Hl]]%lookup_insert_Some Hr; [|by eapply H5].
    destruct Ht as [Heq|Heq]; [rewrite Heq in Hr; by eapply H5|congruence].
Qed.

(** A new thread asks for a request. *)
Lemma wire_inv_ask A W s tid t req :
  wire_inv A W s → s_threads s !! tid = None → unwritten t = Some req → made_request req →
  wire_inv (A ++ [(tid, req)]) W (set_thread tid t s).
Proof.
  intros [H1 H2 [H3 H3'] [H4 H4'] H5] Hfresh Ht Hreq. split; [done| | | |].
  - apply Forall_app. split; [done|]. by apply Forall_singleton.
  - rewrite fmap_app. split.
    + apply NoDup_app. split_ands; [done| |apply NoDup_singleton].
      intros x Hx Heq%list_elem_of_singleton. simpl in Heq. subst x. destruct (H3' _ Hx). congruence.
    + intros tid' [Hin|Hin%list_elem_of_singleton]%elem_of_app; simpl.
      * destruct (decide (tid = tid')) as [<-|Hne]; [rewrite lookup_insert_eq; by eexists|].
        rewrite lookup_insert_ne by done. by apply H3'.
      * simpl in Hin. subst tid'. rewrite lookup_insert_eq. by eexists.
  - split; [done|]. intros p Hp. destruct (H4' p Hp) as (Ha & Hwr & Hun).
    split_ands; [apply elem_of_app; by left|done|]. intros t'. simpl.
    intros [[Heq _]|[_ Hl]]%lookup_insert_Some; [|by apply Hun].
    assert (p.1 ∈ A.*1) as Hin by (apply list_elem_of_fmap; by exists p).
    destruct (H3' _ Hin). congruence.
  - intros tid' t' req'. simpl. intros [[<- <-]|[_ Hl]]%lookup_insert_Some Hr.
    + apply elem_of_app. right. apply list_elem_of_singleton. congruence.
    + apply elem_of_app. left. by eapply H5.
Qed.

Lemma wire_inv_write A W s tid k req ch :
  wire_inv A W s → s_threads s !! tid = Some (TWrite k req ch) → encodable req = true →
  wire_inv A (W ++ [(tid, req)]) (set_thread tid (TSelect k ch) (log_wire ch req s)).
Proof.
  intros I Ht Hwr.
  destruct (wire_inv_thread A W s (set_thread tid (TSelect k ch) s) tid _ (TSelect k ch) I Ht
    ltac:(by right) eq_refl eq_refl) as [H1 H2 H3 [H4 H4'] H5].
  split; [|done|done| |done].
  - simpl in *. by rewrite !fmap_app, H1.
  - rewrite fmap_app. split.
    + apply NoDup_app. split_ands; [done| |apply NoDup_singleton].
      intros x Hx Heq%list_elem_of_singleton. simpl in Heq. subst x.
      apply list_elem_of_fmap in Hx as (p & -> & Hp).
      destruct (wire_written _ _ _ I) as [_ Hold]. destruct (Hold p Hp) as (_ & _ & Hun). by specialize (Hun _ Ht).
    + intros p [Hp|Hp%list_elem_of_singleton]%elem_of_app; [by apply H4'|]. subst p. split_ands.
      * by eapply (wire_pending _ _ _ I).
      * done.
      * intros t'. simpl. rewrite lookup_insert_eq. by intros [= <-].
Qed.

Lemma onceClose_requests s s' sub :
  onceClose sub s = Some s' → s_wire s' = s_wire s ∧ s_threads s' = s_threads s.
Proof.
  unfold onceClose. intros (sb & _ & Hs)%bind_Some. revert Hs.
  destruct (sub_once sb); [by intros [= <-]|]. destruct (sub_eventsClosed sb); by intros [= <-].
Qed.

(** The thread and its request after a step that was executed. *)
Ltac next_thread := split; [reflexivity|]; eexists; split; [reflexivity|]; first [by left|by right].

(** A step that writes nothing leaves the thread with the same request to write or none. *)
Lemma threadStep_request s s' tid c t :
  s_threads s !! tid = Some t → threadStep tid c s = Some s' → writes (AThread tid c) s = [] →
  s_wire s' = s_wire s ∧
  ∃ t', s_threads s' = <[tid := t']> (s_threads s) ∧ (unwritten t' = unwritten t ∨ unwritten t' = None).
Proof.
  intros Ht Hs Hw. unfold threadStep in Hs. unfold writes in Hw. rewrite Ht in Hs, Hw. cbn [mbind option_bind] in Hs.
  destruct t as [topic f|k req|k req ch|k ch|k r|sub ret|sub ret|ret]; simpl in Hs.
  - injection Hs as <-. unfold startSubscribe. destruct (c_closed (s_client s)); next_thread.
  - injection Hs as <-. unfold enqueue. destruct (c_closed (s_client s)); next_thread.
  - destruct c; simpl in Hs; [done|injection Hs as <-; next_thread|done..].
  - destruct c as [|e|e|]; simpl in Hs; [|done|injection Hs as <-; next_thread|].
    + apply bind_Some in Hs as (rc & _ & Hs).
      destruct (rc_queue rc); [destruct (rc_closed rc); [|done]|]; injection Hs as <-; next_thread.
    + destruct (s_done s); [|done]. injection Hs as <-. next_thread.
  - unfold afterRoundTrip in Hs. destruct k as [sub|sub]; [|injection Hs as <-; next_thread].
    destruct r as [resp|e]; [|injection Hs as <-; next_thread].
    case_decide; [|injection Hs as <-; next_thread]. apply bind_Some in Hs as (sb & _ & [= <-]). next_thread.
  - apply bind_Some in Hs as (sb & _ & [= <-]). next_thread.
  - apply fmap_Some in Hs as (s1 & Hs & ->). apply onceClose_requests in Hs as [Hw' Hts].
    split; [done|]. exists (TExit ret). simpl. rewrite Hts. by split; [|right].
  - done.
Qed.

Lemma wire_threadStep A W s s' tid c :
  wire_inv A W s → threadStep tid c s = Some s' → wire_inv A (W ++ writes (AThread tid c) s) s'.
Proof.
  intros I Hs. destruct (s_threads s !! tid) as [t|] eqn:Ht; [|unfold threadStep in Hs; by rewrite Ht in Hs].
  destruct (writes (AThread tid c) s) as [|p l] eqn:Hw.
  - rewrite app_nil_r. destruct (threadStep_request s s' tid c t Ht Hs Hw) as (Hwire & t' & Hts & Hun).
    by eapply wire_inv_thread.
  - unfold writes in Hw. rewrite Ht in Hw. destruct c; try done. destruct t as [| |k req ch| | | | |]; try done.
    injection Hw as <- <-. unfold threadStep in Hs. rewrite Ht in Hs. simpl in Hs.
    destruct (s_open s && encodable req) eqn:Hen; [|done]. injection Hs as <-.
    apply andb_true_iff in Hen as [_ Hen]. by apply wire_inv_write.
Qed.

Section runtime.
Context {RT : GoRuntime}.

Lemma loopStep_requests s s' i :
  loopStep i s = Some s' → s_wire s' = s_wire s ∧ s_threads s' = s_threads s.
Proof.
  unfold loopStep. intros Hs. destruct (s_loop s) as [|ev [|sub todo]|ch resp|e|p a|[|ch p] a|[|sub a]| |].
  all: try (injection Hs as <-; done).
  - destruct i as [m| |e]; simpl in Hs; [|by injection Hs as <-..].
    destruct (wm_Data m); [by injection Hs as <-|].
    case_decide; [by injection Hs as <-|]. by destruct (c_pending (s_client s)); injection Hs as <-.
  - unfold dispatch in Hs. apply bind_Some in Hs as (sb & _ & Hs).
    destruct (sub_eventsClosed sb); [by injection Hs as <-|].
    case_decide; by injection Hs as <-.
  - unfold deliver in Hs. apply bind_Some in Hs as (rc & _ & Hs).
    destruct (rc_closed rc); [by injection Hs as <-|]. destruct (rc_queue rc); by simplify_eq.
  - by destruct (s_done s); injection Hs as <-.
  - apply fmap_Some in Hs as (s1 & Hs & ->). unfold closeChan in Hs.
    apply bind_Some in Hs as (rc & _ & Hs). by destruct (rc_closed rc); injection Hs as <-.
  - apply fmap_Some in Hs as (s1 & Hs & ->). by apply onceClose_requests in Hs.
  - done.
Qed.

Lemma wire_exec A W s s' a :
  wire_inv A W s → exec a s = Some s' → wire_inv (A ++ asks a s) (W ++ writes a s) s'.
Proof.
  unfold exec. intros I Hs. destruct (s_panic s); [done|].
  destruct a as [tid topic f|tid sub|tid c|i|sub|]; cbn [perform asks writes] in *; rewrite ?app_nil_r.
  - destruct (s_threads s !! tid) eqn:Ht; [done|]. injection Hs as <-.
    apply wire_inv_ask; [done|done|done|]. split; [done|by eexists].
  - destruct (s_threads s !! tid) eqn:Ht; [done|]. apply bind_Some in Hs as (sb & Hsb & Hs). rewrite Hsb.
    destruct (sub_returned sb); [|done]. injection Hs as <-. by apply wire_inv_ask.
  - by apply wire_threadStep.
  - apply loopStep_requests in Hs as [Hw Ht]. by eapply wire_inv_same.
  - apply bind_Some in Hs as (sb & _ & Hs). destruct (sub_events sb); [done|].
    destruct (sub_returned sb); [|done]. injection Hs as <-. by eapply wire_inv_same.
  - injection Hs as <-. by eapply wire_inv_same.
Qed.

Lemma wire_run acts A W s s' :
  wire_inv A W s → run acts s = Some s' →
  wire_inv (A ++ history asks acts s) (W ++ history writes acts s) s'.
Proof.
  revert A W s. induction acts as [|a acts IH]; intros A W s I Hr; simpl in *.
  - injection Hr as <-. by rewrite !app_nil_r.
  - apply bind_Some in Hr as (s1 & H1 & Hr). rewrite H1, !app_assoc. apply IH; [|done]. by apply wire_exec.
Qed.

Lemma wire_inv_newWSClient : wire_inv [] [] newWSClient.
Proof.
  split; [done|constructor| | |].
  - split; [constructor|]. by intros ? ?%elem_of_nil.
  - split; [constructor|]. by intros ? ?%elem_of_nil.
  - intros tid t req Ht. simpl in Ht. by rewrite lookup_empty in Ht.
Qed.
End runtime.

(** *** Frames of the node *)

Definition frame_utf8 (f : server_frame) : Prop :=
  match f with
  | Confirmed topic id => printable_string topic = true ∧ printable_string id = true
  | Cancelled id message => printable_string id = true ∧ printable_string message = true
  | Refused e => printable_string e = true
  | Published topic data => printable_string topic = true ∧ writable (maxDepth - 1) data
  end.

(** What the client is to make of them. *)
Definition frame_message (f : server_frame) : wsMessage :=
  match f with
  | Confirmed topic id => MkWsMessage topic None "Subscribed" id "" ""
  | Cancelled id message => MkWsMessage "" None "Unsubscribed" id message ""
  | Refused e => MkWsMessage "" None "Error" "" "" e
  | Published topic data => MkWsMessage topic (Some data) "" "" "" ""
  end.

Lemma writable_server_json f : frame_utf8 f → writable maxDepth (server_json f).
Proof.
  assert (∀ s, printable_string s = true → writable (maxDepth - 1) (JString s)) as Hs.
  { intros s Hs. eapply writable_le; [by apply writable_string|done]. }
  intros Hf. change maxDepth with (1 + (maxDepth - 1)).
  destruct f; simpl in Hf; destruct_and?; write_object (maxDepth - 1); try done; by apply Hs.
Qed.

Lemma frame_input_server f : frame_utf8 f → frame_input (Ok (server_text f)) = InMessage (frame_message f).
Proof.
  intros Hf. unfold frame_input, wsMessage_decode, server_text.
  rewrite json_read_back by by apply writable_server_json. by destruct f.
Qed.

(** An entry of an object that does not make a frame unknown. *)
Definition accepted (kv : string * json) : Prop :=
  match findField kv.1 wsMessage_fields with
  | Some f => f.1 = "data" ∨ kv.2 = JNull ∨ is_Some (json_string kv.2)
  | None => True
  end.

Lemma exactField_in {A} key (fs : list (field A)) f : exactField key fs = Some f → f ∈ fs.
Proof.
  induction fs as [|g fs IH]; simpl; [done|]. destruct (String.eqb g.1 key).
  - intros [= ->]. by left.
  - intros H. right. by apply IH.
Qed.

Lemma foldedField_in {A} key (fs : list (field A)) f : foldedField key fs = Some f → f ∈ fs.
Proof.
  induction fs as [|g fs IH]; simpl; [done|]. destruct (sameFold g.1 key).
  - intros [= ->]. by left.
  - intros H. right. by apply IH.
Qed.

Lemma findField_in {A} key (fs : list (field A)) f : findField key fs = Some f → f ∈ fs.
Proof.
  unfold findField. destruct (exactField key fs) eqn:He.
  - intros [= ->]. by eapply exactField_in.
  - apply foldedField_in.
Qed.

(** A string field takes strings and null, and the data field everything. *)
Lemma wsMessage_field_ok f v m :
  f ∈ wsMessage_fields → is_ok (f.2 v m) ↔ f.1 = "data" ∨ v = JNull ∨ is_Some (json_string v).
Proof.
  intros Hf. unfold is_ok.
  assert (∀ set old, f.1 ≠ "data" → f.2 v m = (b ← decode_string v old; Ok (set b)) →
    (∃ x, f.2 v m = Ok x) ↔ f.1 = "data" ∨ v = JNull ∨ is_Some (json_string v)) as Hstr.
  { intros set old Hd ->. destruct v; simpl; try (split; [by intros []|]; intros [?|[?|[]]]; done);
      (split; [|by eexists]); intros _; right; [by left|]. right. by eexists. }
  unfold wsMessage_fields in Hf.
  repeat (apply elem_of_cons in Hf as [->|Hf]; [solve [eapply Hstr; [done|reflexivity] |
    split; [by left|]; intros _; by eexists]|]).
  by apply elem_of_nil in Hf.
Qed.

Lemma wsMessage_fields_ok kvs m :
  is_ok (decode_fields wsMessage_fields kvs m) ↔ Forall accepted kvs.
Proof.
  revert m. induction kvs as [|[k v] kvs IH]; intros m; [split; [constructor|by eexists]|].
  rewrite Forall_cons. cbn [decode_fields].
  assert (is_ok (match findField k wsMessage_fields with Some f => f.2 v m | None => Ok m end) ↔
    accepted (k, v)) as <-.
  { unfold accepted. cbn [fst snd]. destruct (findField k wsMessage_fields) as [f|] eqn:Hf.
    - apply wsMessage_field_ok. by eapply findField_in.
    - split; [done|by eexists]. }
  destruct (match findField k wsMessage_fields with Some f => f.2 v m | None => Ok m end) as [m'|e]; simpl.
  - rewrite IH. split; [|tauto]. split; [by eexists|done].
  - split; [by intros []|]. by intros [[] _].
Qed.

(** ** Properties *)

(** C15: what is on the wire is what the callers asked for. In any execution, with the
    calls of [Subscribe] and [Unsubscribe] made in it ([asks]: the caller's topic and
    filter, an empty map for nil, or the topic and id of the subscription) and the
    requests written to the connection ([writes]): every call is made by a thread of its
    own and is written at most once; what is written is what that call asked for; and
    from the text of its frame, if its strings are in UTF-8 and its filter is not nested
    too deep, the node reads exactly that request: method, topic, and the filter as a map
    or the subscription id. *)
Theorem ws_wire_requests {RT : GoRuntime} acts s :
  run acts newWSClient = Some s →
  let asked := history asks acts newWSClient in
  let written := history writes acts newWSClient in
  NoDup asked.*1 ∧ NoDup written.*1 ∧ written.*2 = (s_wire s).*2 ∧
  ∀ tid req, (tid, req) ∈ written →
    (tid, req) ∈ asked ∧
    (request_utf8 req → ∃ text, request_text req = Ok text ∧ node_request text = Some req).
Proof.
  intros Hr. destruct (wire_run acts [] [] _ s wire_inv_newWSClient Hr) as [H1 H2 [H3 _] [H4 H4'] _].
  simpl in *. split_ands; [done|done|done|]. intros tid req Hin.
  destruct (H4' _ Hin) as (Ha & Hen & _). split; [done|]. intros Hu.
  apply node_request_text; [|done|done]. rewrite Forall_forall in H2. by apply (H2 (tid, req)).
Qed.

(** The request of src/websocket_test.go: a transaction filter on one hash. *)
Definition hashFilter : EventFilter := Some {[ "hash" := Ok (JString "tx2") ]}.
Definition filterExecution : list action :=
  [ASubscribe 0 "transaction" hashFilter; AThread 0 ChGo; AThread 0 ChGo; AThread 0 ChGo].

Lemma ws_wire_requests_witness :
  ∃ text, request_text (MkWsRequest "subscribe" (wsSubscribeParams "transaction" hashFilter)) = Ok text ∧
    node_request text = Some (MkWsRequest "subscribe" (wsSubscribeParams "transaction" hashFilter)).
Proof.
  destruct (@ws_wire_requests default_runtime filterExecution (after filterExecution)) as (_ & _ & _ & Hw).
  - vm_compute. reflexivity.
  - apply (Hw 0%nat).
    + replace (history writes filterExecution newWSClient)
        with [(0%nat, MkWsRequest "subscribe" (wsSubscribeParams "transaction" hashFilter))]
        by (vm_compute; reflexivity). by left.
    + split; [reflexivity|]. apply map_Forall_singleton. split; [reflexivity|].
      intros j [= <-]. by apply writable_scalar.
Defined.

(** C16: an event from the node's text to the consumer's value. When the frame of an
    event arrives, its data the JSON form of a value of the payload type, and no other
    thread intervenes, [readLoop] is back at its read after one step per subscription
    registered on the topic; each of them with room has one more event queued, which
    the accessor for the topic decodes to that value; one that was full, and every
    other subscription, is unchanged. *)
Theorem ws_event_payload {RT : GoRuntime} {T} `{GoJson T} s topic topics (a : T) :
  rtc step newWSClient s → s_panic s = None → s_loop s = LRead →
  topic ∈ topics → json_wf a → printable_string topic = true → writable (maxDepth - 1) (json_encode a) →
  let subs := default [] (c_subs (s_client s) !! topic) in
  ∃ s' ev, run (ALoop (frame_input (Ok (server_text (Published topic (json_encode a)))))
                  :: replicate (S (length subs)) (ALoop InOther)) s = Some s' ∧
    s_loop s' = LRead ∧ s_panic s' = None ∧ decodeEvent ev topics = Ok a ∧
    ∀ sub sb, s_heap s !! sub = Some sb → s_heap s' !! sub = Some
      (if decide (sub ∈ subs ∧ length (sub_events sb) < subEventBuffer)%nat
       then set_events (sub_events sb ++ [ev]) sb else sb).
Proof.
  intros Hr Hp Hl Ht Ha Hu Hwr subs. rewrite frame_input_server by done.
  destruct (ws_fan_out s (frame_message (Published topic (json_encode a))) (json_encode a) Hr Hp Hl eq_refl)
    as (s' & Hrun & Hl' & Hp' & Hheap).
  exists s', (MkEvent topic (json_encode a)). split_ands; [done|done|done|by apply decodeEvent_own|].
  intros sub sb Hsb. rewrite Hheap, Hsb.
  destruct (decide (sub ∈ subs ∧ length (sub_events sb) < subEventBuffer)%nat) as [[Hin Hroom]|Hno].
  - rewrite decide_True by done. cbn. unfold offered. by rewrite decide_True.
  - case_decide as Hin; [|done]. cbn. unfold offered. rewrite decide_False; [done|].
    intros Hroom. by apply Hno.
Qed.

Lemma ws_event_payload_witness :
  ∃ s' ev, run (ALoop (frame_input (Ok (server_text (Published TopicBlock
                  (json_encode (MkBlockEvent "blk" "12345678901234567890"))))))
                :: replicate 2 (ALoop InOther)) (after (subscribing 0 "block" "a")) = Some s' ∧
    Event_Block ev = Ok (MkBlockEvent "blk" "12345678901234567890").
Proof.
  destruct (@ws_event_payload default_runtime BlockEvent _ (after (subscribing 0 "block" "a")) TopicBlock
    [TopicBlock] (MkBlockEvent "blk" "12345678901234567890")) as (s' & ev & Hr & _ & _ & Hd & _).
  - apply (run_reachable (subscribing 0 "block" "a")). vm_compute. reflexivity.
  - vm_compute. reflexivity.
  - vm_compute. reflexivity.
  - by left.
  - exact I.
  - reflexivity.
  - split; [reflexivity|]. vm_compute. discriminate.
  - exists s', ev. split; [exact Hr|exact Hd].
Defined.

(** C17: which frames are messages. An error of the read is passed on; the frames of the
    node give the message they hold; any other text is a message exactly when it is
    JSON, null or an object, and no key that stands for a string field has a value other
    than a string or null. Every other text is skipped: the client is back at its read,
    with nothing changed. *)
Theorem ws_frames {RT : GoRuntime} :
  (∀ e, frame_input (Err e) = InError e) ∧
  (∀ f, frame_utf8 f → frame_input (Ok (server_text f)) = InMessage (frame_message f)) ∧
  (∀ raw, (∃ m, frame_input (Ok raw) = InMessage m) ↔
     json_parse raw = Ok JNull ∨ ∃ kvs, json_parse raw = Ok (JObject kvs) ∧ Forall accepted kvs) ∧
  (∀ raw s, (∀ m, frame_input (Ok raw) ≠ InMessage m) → s_loop s = LRead → s_panic s = None →
     exec (ALoop (frame_input (Ok raw))) s = Some s).
Proof.
  assert (∀ raw, (∃ m, frame_input (Ok raw) = InMessage m) ↔ is_ok (wsMessage_decode raw)) as Hin.
  { intros raw. unfold frame_input, is_ok. destruct (wsMessage_decode raw) as [m|e]; [by split; eauto|].
    by split; intros []. }
  split_ands; [done|by intros; apply frame_input_server| |].
  - intros raw. rewrite Hin. unfold wsMessage_decode. destruct (json_parse raw) as [doc|e]; simpl.
    2:{ split; [by intros []|]. intros [?|(? & ? & _)]; done. }
    destruct doc; simpl; try (split; [by intros []|]; intros [?|(? & ? & _)]; done).
    + split; [by left|by eexists].
    + rewrite wsMessage_fields_ok. split; [by eauto|]. by intros [?|(? & [= <-] & ?)].
  - intros raw s Hno Hl Hp. unfold exec. rewrite Hp. cbn [perform]. unfold loopStep. rewrite Hl.
    unfold frame_input in *. destruct (wsMessage_decode raw) as [m|e]; [by destruct (Hno m)|done].
Qed.

Lemma ws_frames_witness :
  frame_input (Ok (server_text (Confirmed "block" "sub-1"))) =
    InMessage (MkWsMessage "block" None "Subscribed" "sub-1" "" "") ∧
  exec (ALoop (frame_input (Ok "[1]"))) newWSClient = Some newWSClient.
Proof.
  destruct (@ws_frames default_runtime) as (_ & Hf & _ & Hbad). split.
  - apply (Hf (Confirmed "block" "sub-1")). split; reflexivity.
  - apply Hbad; [|reflexivity|reflexivity]. intros m. vm_compute. discriminate.
Defined.
