(* ===== verification/Node.v ===== *)
(** * From a builder call to the node and back.

    The composition of the library: instructions made by the builders are compiled,
    signed, sent as the text of a JSON-RPC request, and the answer is read. The node's
    side is written here as a specification, from the formats alone: it parses the text,
    checks the message and every required signature, follows the indices of the message
    and has each instruction executed by its program (Programs.v), which decodes the data
    and gives every account its role. Theorem: what the node executes is what the caller
    asked for. *)
From S2P Require Import Prelude GoLib Sha256 Wire Pubkey Message Compile System Token Btcd Keys Bip322 Transaction Decompile Loader Programs Json JsonText WebSocket JsonTypes Rpc RpcText.

(** ** Calls of the builders *)

Inductive BuilderCall :=
| BuildSystem (c : SystemCall)
| BuildToken (c : TokenCall)
| BuildAssociated (c : AssociatedCall)
| BuildLoader (c : LoaderCall).

Definition build (c : BuilderCall) : result Instruction :=
  match c with
  | BuildSystem c => build_system c
  | BuildToken c => Ok (build_token c)
  | BuildAssociated c => build_associated c
  | BuildLoader c => Ok (build_loader c)
  end.

(** The call with every txid in lower case; none if a txid is not a hash. *)
Definition request (c : BuilderCall) : option BuilderCall :=
  match c with
  | BuildSystem c => BuildSystem <$> system_request c
  | BuildToken c => Some (BuildToken c)
  | BuildAssociated c => BuildAssociated <$> associated_request c
  | BuildLoader c => Some (BuildLoader c)
  end.

(** The arguments are values of the Go types. *)
Definition builder_fits (c : BuilderCall) : Prop :=
  match c with
  | BuildSystem c => call_fits c
  | BuildToken c => token_fits c
  | BuildAssociated c => associated_fits c
  | BuildLoader c => loader_fits c
  end.

(** ** The node *)

(** The program an instruction is for decodes the whole data, demands the privileges it
    needs of the account in each position, and does what it is asked for. *)
Definition execute (ix : Instruction) : option BuilderCall :=
  if decide (ix_ProgramID ix = SystemProgramID) then
    i ← parse_all get_system (ix_Data ix); BuildSystem <$> system_execute i (ix_Accounts ix)
  else if decide (ix_ProgramID ix = TokenProgramID) then
    i ← parse_all get_token (ix_Data ix); BuildToken <$> token_execute i (ix_Accounts ix)
  else if decide (ix_ProgramID ix = AssociatedTokenProgramID) then
    BuildAssociated <$> associated_execute (ix_Data ix) (ix_Accounts ix)
  else if decide (ix_ProgramID ix = BpfLoaderProgramID) then
    i ← parse_all get_loader (ix_Data ix); BuildLoader <$> loader_execute i (ix_Accounts ix)
  else None.

(** The body of a [send_transaction] request, and the transaction in it. *)
Definition node_receive (body : string) : option RuntimeTransaction :=
  doc ← match json_parse body with Ok doc => Some doc | Err _ => None end;
  version ← json_get "jsonrpc" doc;
  method ← json_get "method" doc;
  params ← json_get "params" doc;
  if decide (version = JString "2.0" ∧ method = JString "send_transaction") then
    match json_decode params json_zero with Ok tx => Some tx | Err _ => None end
  else None.

Definition node_answer (txid : string) : string := json_text
  (JObject [("jsonrpc", JString "2.0"); ("result", JString txid); ("id", JString "curlycurl")]).

Section node.
Context {B : Btcd}.

Definition signature_ok (digest : list byte) (key : Pubkey) (sig : Signature) : bool :=
  match VerifyMessageBIP322 digest key sig true with Ok _ => true | Err _ => false end.

(** One signature per required key, each of which verifies over the message digest. *)
Definition verified (tx : RuntimeTransaction) : bool :=
  let m := tx_Message tx in
  bool_decide (length (tx_Signatures tx) = length (requiredKeys m)) &&
  forallb (λ ks, signature_ok (SanitizedMessage_Hash m) ks.1 ks.2)
    (zip (requiredKeys m) (tx_Signatures tx)).

(** What the node does with a request: the calls it executes, and its answer. *)
Definition node_accept (body : string) : option (list BuilderCall * string) :=
  tx ← node_receive body;
  if bool_decide (well_formed (tx_Message tx)) && verified tx then
    ixs ← decompile (tx_Message tx);
    ops ← mapM execute ixs;
    Some (ops, node_answer (TxID tx))
  else None.
End node.

(** ** Lemmas *)

Lemma execute_build c op :
  builder_fits c → request c = Some op → ∃ ix, build c = Ok ix ∧ execute ix = Some op.
Proof.
  intros Hfit Hop. unfold execute. destruct c as [c|c|c|c]; simpl in *.
  - apply fmap_Some in Hop as (op' & Hop & ->).
    destruct (system_executed c op' Hfit Hop) as (ix & i & Hb & Hp & Hd & He).
    exists ix. split; [done|]. rewrite decide_True by done. by rewrite Hd; simpl; rewrite He.
  - injection Hop as <-. destruct (token_executed c Hfit) as (Hp & i & Hd & He).
    eexists. split; [done|]. rewrite Hp, decide_False, decide_True by done. by rewrite Hd; simpl; rewrite He.
  - apply fmap_Some in Hop as (op' & Hop & ->).
    destruct (associated_executed c op' Hfit Hop) as (ix & Hb & Hp & He).
    exists ix. split; [done|]. rewrite Hp, !decide_False, decide_True by done. by rewrite He.
  - injection Hop as <-. destruct (loader_executed c Hfit) as (Hp & i & Hd & He).
    eexists. split; [done|]. rewrite Hp, !decide_False, decide_True by done. by rewrite Hd; simpl; rewrite He.
Qed.

(** An instruction is executed as well when its accounts have more privileges. *)
Lemma execute_more p l k data op :
  Forall2 grants l k → execute (MkInstruction p l data) = Some op → execute (MkInstruction p k data) = Some op.
Proof.
  intros Hg. unfold execute. simpl. repeat case_decide; [..|done].
  - destruct (parse_all get_system data) as [i|]; [|done]. simpl.
    intros (c & Hc & ->)%fmap_Some. by rewrite (system_more i l k Hg c Hc).
  - destruct (parse_all get_token data) as [i|]; [|done]. simpl.
    intros (c & Hc & ->)%fmap_Some. by rewrite (token_more i l k Hg c Hc).
  - intros (c & Hc & ->)%fmap_Some. by rewrite (associated_more data l k Hg c Hc).
  - destruct (parse_all get_loader data) as [i|]; [|done]. simpl.
    intros (c & Hc & ->)%fmap_Some. by rewrite (loader_more i l k Hg c Hc).
Qed.

(** An account of an instruction gets at least what the instruction asks for it. *)
Lemma raise_grants ixs payer ix :
  ix ∈ ixs → Forall2 grants (ix_Accounts ix) (raiseAccount ixs payer <$> ix_Accounts ix).
Proof.
  intros Hix. apply Forall2_fmap_r, Forall_Forall2_diag, Forall_forall. intros a Ha.
  unfold grants, raiseAccount. simpl. unfold asksSigner, asksWritable.
  rewrite !requested_true. split_ands; [done|intros Hf; left; by exists ix, a..].
Qed.

Lemma execute_raise ixs payer ops :
  mapM execute ixs = Some ops → mapM execute (raise ixs payer) = Some ops.
Proof.
  rewrite !mapM_Some. unfold raise. rewrite Forall2_fmap_l, !Forall2_same_length_lookup.
  intros [Hlen Hall]. split; [done|]. intros n ix op Hix Hop.
  specialize (Hall n ix op Hix Hop). destruct ix as [p l data]. simpl.
  eapply execute_more; [|exact Hall].
  apply (raise_grants ixs payer (MkInstruction p l data)). by eapply list_elem_of_lookup_2.
Qed.

Lemma build_all calls ops :
  Forall builder_fits calls → mapM request calls = Some ops →
  ∃ ixs, mapM build calls = Ok ixs ∧ mapM execute ixs = Some ops.
Proof.
  intros Hfit. revert ops. induction Hfit as [|c calls Hc _ IH]; intros ops Hm.
  - injection Hm as <-. by exists [].
  - simpl in Hm. apply bind_Some in Hm as (op & Hop & Hm).
    apply bind_Some in Hm as (ops' & Hops & [= <-]).
    destruct (IH ops' Hops) as (ixs & Hb & Hi). destruct (execute_build c op Hc Hop) as (ix & Hbc & Hic).
    exists (ix :: ixs). simpl. by rewrite Hbc, Hic; simpl; rewrite Hb, Hi.
Qed.

Section proofs.
Context {B : Btcd} {L : BtcdLaws B} {RT : GoRuntime} {H : Http}.

Lemma signed_verified m signers tx :
  BuildAndSignTransaction m signers = Ok tx → tx_Message tx = m ∧ tx_Version tx = 0 ∧ verified tx = true.
Proof.
  intros Htx. assert (enoughKeys m) as Hn.
  { unfold BuildAndSignTransaction in Htx. case_decide as Hd; [done|]. unfold enoughKeys, zlen. lia. }
  destruct (decide (Forall (λ k, k ∈ (XOnlyPubkey <$> signers)) (requiredKeys m))) as [Hall|Hno].
  2:{ destruct (BuildAndSign_missing m signers Hn Hno) as (? & ? & ? & _ & _ & _ & Herr). congruence. }
  destruct (BuildAndSign_Ok m signers Hn Hall) as (sigs & Hr & Hv). rewrite Hr in Htx.
  injection Htx as <-. split_ands; [done|done|]. unfold verified. simpl.
  rewrite bool_decide_eq_true_2 by (by rewrite (Forall2_length _ _ _ Hv)). simpl.
  clear Hr Hall Hn. induction Hv as [|k s ks ss Hks _ IH]; [done|]. simpl. rewrite IH.
  unfold signature_ok. by rewrite Hks.
Qed.

Lemma node_receive_sent (c : Client) (tx : RuntimeTransaction) :
  json_wf tx → node_receive (posted (SendTransaction c tx)) = Some tx.
Proof.
  intros Hwf. unfold node_receive.
  assert (call_utf8 (CallSendTransaction tx)) as Hutf8 by constructor.
  change (posted (SendTransaction c tx)) with (call_text c (CallSendTransaction tx)).
  rewrite call_text_reads by done. simpl.
  by rewrite (json_roundtrip (A := RuntimeTransaction) tx Hwf).
Qed.

(** A transaction id is written in hexadecimal, so the answer reads back. *)
Lemma node_answer_read (c : Client) (tx0 tx : RuntimeTransaction) :
  ex_result (SendTransaction c tx0) (Responded 200 (node_answer (TxID tx))) = Ok (TxID tx).
Proof.
  unfold SendTransaction, call, postData, readResponse. cbn [andThen ex_result].
  change (negb (200 =? 200)) with false. cbv iota.
  unfold node_answer. rewrite json_read_back; [done|].
  apply (writable_le 1); [|unfold maxDepth; lia].
  write_object 0; try (by apply writable_string). apply writable_string, hex_printable.
Qed.
End proofs.

(** ** Properties *)

(** C1: what the node executes is what the caller asked for. For meaningful calls of
    the system, token, associated-token and loader builders the instructions are built,
    and each program, given one of them, executes the call that was made: every
    argument, and every account in its role (from and to, source and destination,
    authority and multisig signers, ...). With at most 255 account mentions and a private
    key for every account asked to sign they compile and a signed transaction is made.
    Whenever they do, the node accepts the request that [SendTransaction] posts: the
    message is well formed, every required signature verifies, every account has the
    privileges its role demands, and it executes exactly the calls, in order (their txids
    in lower case); and [SendTransaction] returns the transaction id the node answers
    with. *)
Theorem send_calls {B : Btcd} {L : BtcdLaws B} {RT : GoRuntime} {H : Http}
    (c : Client) calls ops payer bh signers :
  Forall builder_fits calls → mapM request calls = Some ops →
  ∃ ixs, mapM build calls = Ok ixs ∧ mapM execute ixs = Some ops ∧
    ((length (mentioned ixs payer) ≤ 255)%nat →
     (∀ k, k ∈ mentioned ixs payer → asksSigner ixs payer k = true → k ∈ (XOnlyPubkey <$> signers)) →
     ∃ m tx, NewSanitizedMessage ixs payer bh = Ok m ∧ BuildAndSignTransaction m signers = Ok tx) ∧
    ∀ m tx, NewSanitizedMessage ixs payer bh = Ok m → BuildAndSignTransaction m signers = Ok tx →
      node_accept (posted (SendTransaction c tx)) = Some (ops, node_answer (TxID tx)) ∧
      ex_result (SendTransaction c tx) (Responded 200 (node_answer (TxID tx))) = Ok (TxID tx).
Proof.
  intros Hfit Hops. destruct (build_all calls ops Hfit Hops) as (ixs & Hb & Hi).
  exists ixs. split_ands; [done|done| |].
  - intros Hfew Hkeys. destruct (NewSanitizedMessage_few ixs payer bh Hfew) as [m Hm].
    destruct (proj2 (compiled_sign_iff ixs payer bh m signers Hm) Hkeys) as [tx Htx]. eauto.
  - intros m tx Hm Htx. destruct (signed_verified m signers tx Htx) as (Hmsg & Hv & Hver).
    split; [|apply node_answer_read].
    unfold node_accept. rewrite node_receive_sent by (unfold json_wf; simpl; by rewrite Hv).
    cbn [mbind option_bind]. rewrite Hmsg, bool_decide_eq_true_2 by (by eapply compiled_well_formed).
    rewrite Hver, (decompile_compiled _ _ _ _ Hm). cbn [andb mbind option_bind].
    by rewrite (execute_raise ixs payer ops Hi).
Qed.

(** A transfer of lamports and one of tokens, paid by a third account. *)
Definition exampleCalls : list BuilderCall :=
  [BuildSystem (CallTransfer (testKey 2) (testKey 9) 5000);
   BuildToken (CallTokenTransfer (testKey 7) (testKey 8) (testKey 40) [] 12)].

Definition exampleInstructions : list Instruction :=
  match mapM build exampleCalls with Ok ixs => ixs | Err _ => [] end.

Definition exampleMessage : SanitizedMessage :=
  match NewSanitizedMessage exampleInstructions (Some (testKey 200)) testHash with
  | Ok m => m
  | Err _ => testMessage
  end.

Definition exampleTransaction : RuntimeTransaction :=
  match @BuildAndSignTransaction toy.btcd exampleMessage toySigners with
  | Ok tx => tx
  | Err _ => fixtureTransaction
  end.

Lemma send_calls_witness :
  @node_accept toy.btcd (posted (SendTransaction localClient exampleTransaction)) =
    Some (exampleCalls, node_answer (TxID exampleTransaction)) ∧
  ex_result (SendTransaction localClient exampleTransaction)
    (Responded 200 (node_answer (TxID exampleTransaction))) = Ok (TxID exampleTransaction).
Proof.
  destruct (@send_calls toy.btcd toy.btcd_laws default_runtime null_http localClient exampleCalls
    exampleCalls (Some (testKey 200)) testHash toySigners) as (ixs & Hb & _ & _ & Hsend).
  - repeat constructor; simpl; unfold is_u64; lia.
  - reflexivity.
  - assert (mapM build exampleCalls = Ok exampleInstructions) as Hb' by (vm_compute; reflexivity).
    rewrite Hb' in Hb. injection Hb as <-.
    destruct (Hsend exampleMessage exampleTransaction) as (Ha & Hr).
    + vm_compute. reflexivity.
    + vm_compute. reflexivity.
    + exact (conj Ha Hr).
Defined.
