(* ===== verification/Fixtures.v ===== *)
(** * The test vectors of the repository, computed in the model.

    The expected values of src/system_test.go, src/token_test.go, src/loader_test.go,
    src/rpc_test.go, src/types_test.go and src/websocket_test.go, which their comments
    derive from the programs and the node, checked by evaluation. Texts are written with
    single quotes for the double ones. *)
From S2P Require Import Prelude GoLib Pubkey Message Compile System Token Bip322 Transaction Loader Json JsonText WebSocket WebSocketProps JsonTypes Rpc RpcText Frames.

(** ** Instructions *)

(** [checkInstruction]: program id, data in hexadecimal, accounts in order. *)
Definition pins (ix : Instruction) (program : Pubkey) (data : string) (accounts : list AccountMeta) : Prop :=
  ix_ProgramID ix = program ∧ hex.EncodeToString (ix_Data ix) = data ∧ ix_Accounts ix = accounts.

(** A meta of a signer that is writable, of a signer, of a writable account, of neither. *)
Definition sw (n : Z) : AccountMeta := MkAccountMeta (testKey n) true true.
Definition sr (n : Z) : AccountMeta := MkAccountMeta (testKey n) true false.
Definition nw (n : Z) : AccountMeta := MkAccountMeta (testKey n) false true.
Definition nr (n : Z) : AccountMeta := MkAccountMeta (testKey n) false false.

Definition key_hex (n : Z) : string := Pubkey_String (testKey n).
Definition token_hex : string := Pubkey_String TokenProgramID.
Definition seed_hex (s : string) : string := hex.EncodeToString (String.list_byte_of_string s).

Definition txid1 : string := "00112233445566778899aabbccddeeff00112233445566778899aabbccddeeff".
Definition txid2 : string := "ff112233445566778899aabbccddeeff00112233445566778899aabbccddeeff".
Definition txid3 : string := "e3b0c44298fc1c149afbf4c8996fb92427ae41e4649b934ca495991b7852b855".

(** Evaluates a list of pins. *)
Ltac check_pins := repeat split; vm_compute; reflexivity.

Example system_vectors :
  pins (CreateAccount (testKey 1) (testKey 2) 1000 128 TokenProgramID) SystemProgramID
    ("00000000" +:+ "e803000000000000" +:+ "8000000000000000" +:+ token_hex) [sw 1; sw 2] ∧
  pins (Assign (testKey 4) TokenProgramID) SystemProgramID ("02000000" +:+ token_hex) [sw 4] ∧
  pins (SignInput 3 (testKey 4)) SystemProgramID "0400000003000000" [sw 4] ∧
  pins (Transfer (testKey 1) (testKey 2) 500) SystemProgramID "05000000f401000000000000" [sw 1; nw 2] ∧
  pins (Allocate (testKey 4) 256) SystemProgramID "060000000001000000000000" [sw 4] ∧
  pins (CreateAccountWithSeed (testKey 1) (testKey 2) (testKey 3) "seed" 10 20 TokenProgramID)
    SystemProgramID ("07000000" +:+ key_hex 3 +:+ "0400000000000000" +:+ seed_hex "seed" +:+
                     "0a00000000000000" +:+ "1400000000000000" +:+ token_hex) [sw 1; nw 2; sr 3] ∧
  length (ix_Accounts (CreateAccountWithSeed (testKey 1) (testKey 2) (testKey 1) "seed" 10 20
    TokenProgramID)) = 2%nat ∧
  pins (AllocateWithSeed (testKey 1) (testKey 2) "s" 32 TokenProgramID) SystemProgramID
    ("08000000" +:+ key_hex 2 +:+ "0100000000000000" +:+ seed_hex "s" +:+ "2000000000000000" +:+ token_hex)
    [nw 1; sr 2] ∧
  pins (AssignWithSeed (testKey 1) (testKey 2) "s" TokenProgramID) SystemProgramID
    ("09000000" +:+ key_hex 2 +:+ "0100000000000000" +:+ seed_hex "s" +:+ token_hex) [nw 1; sr 2] ∧
  pins (TransferWithSeed (testKey 1) (testKey 2) "s" TokenProgramID (testKey 3) 500) SystemProgramID
    ("0a000000" +:+ "f401000000000000" +:+ "0100000000000000" +:+ seed_hex "s" +:+ token_hex)
    [nw 1; sr 2; nw 3].
Proof. check_pins. Qed.

(** The two builders that read a transaction id. *)
Definition pins_ok (r : result Instruction) (program : Pubkey) (data : string) (accounts : list AccountMeta) : Prop :=
  match r with Ok ix => pins ix program data accounts | Err _ => False end.

Definition fails {A} (r : result A) : bool := match r with Ok _ => false | Err _ => true end.

Example anchor_vectors :
  pins_ok (CreateAccountWithAnchor (testKey 1) (testKey 2) 1000 128 TokenProgramID txid1 7) SystemProgramID
    ("01000000" +:+ "e803000000000000" +:+ "8000000000000000" +:+ token_hex +:+ txid1 +:+ "07000000")
    [sw 1; sw 2] ∧
  pins_ok (Anchor (testKey 4) txid2 2) SystemProgramID ("03000000" +:+ txid2 +:+ "02000000") [sw 4] ∧
  fails (CreateAccountWithAnchor (testKey 1) (testKey 2) 1 1 TokenProgramID "abcd" 0) = true ∧
  fails (CreateAssociatedTokenAccountWithAnchor (testKey 1) (testKey 2) (testKey 7) (testKey 9) "beef" 0) = true ∧
  (match CreateAssociatedTokenAccountWithAnchor (testKey 1) (testKey 2) (testKey 7) (testKey 9) txid3 3 with
   | Ok ix => hex.EncodeToString (ix_Data ix) = txid3 +:+ "03000000"
   | Err _ => False
   end).
Proof. check_pins. Qed.

Example token_vectors :
  let P := λ ix, pins ix TokenProgramID in
  P (TokenInitializeMint (testKey 1) (testKey 2) (Some (testKey 3)) (byte_of 9))
    ("0009" +:+ key_hex 2 +:+ "01" +:+ key_hex 3) [nw 1] ∧
  P (TokenInitializeMint (testKey 1) (testKey 2) None (byte_of 6)) ("0006" +:+ key_hex 2 +:+ "00") [nw 1] ∧
  head (ix_Data (TokenInitializeMint2 (testKey 1) (testKey 2) None (byte_of 6))) = Some (byte_of 19) ∧
  P (TokenInitializeAccount (testKey 1) (testKey 2) (testKey 3)) "01" [nw 1; nr 2; nr 3] ∧
  P (TokenInitializeAccount2 (testKey 1) (testKey 2) (testKey 3)) ("10" +:+ key_hex 3) [nw 1; nr 2] ∧
  P (TokenInitializeAccount3 (testKey 1) (testKey 2) (testKey 3)) ("12" +:+ key_hex 3) [nw 1; nr 2] ∧
  P (TokenInitializeMultisig (testKey 1) [testKey 2; testKey 3] (byte_of 2)) "0202" [nw 1; nr 2; nr 3] ∧
  P (TokenTransfer (testKey 1) (testKey 2) (testKey 3) [] 5000) "038813000000000000" [nw 1; nw 2; sr 3] ∧
  P (TokenTransfer (testKey 1) (testKey 2) (testKey 3) [testKey 4; testKey 5] 1) "030100000000000000"
    [nw 1; nw 2; nr 3; sr 4; sr 5] ∧
  P (TokenTransferChecked (testKey 1) (testKey 2) (testKey 3) (testKey 4) [] 5000 (byte_of 9))
    "0c881300000000000009" [nw 1; nr 2; nw 3; sr 4] ∧
  P (TokenApprove (testKey 1) (testKey 2) (testKey 3) [] 77) "044d00000000000000" [nw 1; nr 2; sr 3] ∧
  P (TokenApproveChecked (testKey 1) (testKey 2) (testKey 3) (testKey 4) [] 77 (byte_of 6))
    "0d4d0000000000000006" [nw 1; nr 2; nr 3; sr 4] ∧
  P (TokenRevoke (testKey 1) (testKey 2) []) "05" [nw 1; sr 2] ∧
  P (TokenSetAuthority (testKey 1) (Some (testKey 9)) AuthorityAccountOwner (testKey 2) [])
    ("060201" +:+ key_hex 9) [nw 1; sr 2] ∧
  P (TokenSetAuthority (testKey 1) None AuthorityMintTokens (testKey 2) []) "060000" [nw 1; sr 2] ∧
  P (TokenMintTo (testKey 1) (testKey 2) (testKey 3) [] 1000000) "0740420f0000000000" [nw 1; nw 2; sr 3] ∧
  P (TokenMintToChecked (testKey 1) (testKey 2) (testKey 3) [] 1000000 (byte_of 6))
    "0e40420f000000000006" [nw 1; nw 2; sr 3] ∧
  P (TokenBurn (testKey 1) (testKey 2) (testKey 3) [] 42) "082a00000000000000" [nw 1; nw 2; sr 3] ∧
  P (TokenBurnChecked (testKey 1) (testKey 2) (testKey 3) [] 42 (byte_of 9)) "0f2a0000000000000009"
    [nw 1; nw 2; sr 3] ∧
  P (TokenCloseAccount (testKey 1) (testKey 2) (testKey 3) []) "09" [nw 1; nw 2; sr 3] ∧
  P (TokenFreezeAccount (testKey 1) (testKey 2) (testKey 3) []) "0a" [nw 1; nr 2; sr 3] ∧
  P (TokenThawAccount (testKey 1) (testKey 2) (testKey 3) []) "0b" [nw 1; nr 2; sr 3] ∧
  P (TokenSyncNative (testKey 1)) "11" [nw 1].
Proof. check_pins. Qed.

Example associated_vectors : pins
  (CreateAssociatedTokenAccount (testKey 1) (testKey 2) (testKey 7) (testKey 9)) AssociatedTokenProgramID ""
  [sw 1; nw 2; nr 7; nr 9; MkAccountMeta SystemProgramID false false; MkAccountMeta TokenProgramID false false].
Proof. check_pins. Qed.

Example loader_vectors :
  let P := λ ix, pins ix BpfLoaderProgramID in
  P (LoaderWrite (testKey 1) (testKey 2) 16 (bytes_lit [9; 8; 7]))
    ("00000000" +:+ "10000000" +:+ "0300000000000000" +:+ "090807") [nw 1; sr 2] ∧
  P (LoaderTruncate (testKey 1) (testKey 2) 4096) "0100000000100000" [sw 1; sr 2] ∧
  P (LoaderDeploy (testKey 1) (testKey 2)) "02000000" [nw 1; sr 2] ∧
  hex.EncodeToString (ix_Data (LoaderRetract (testKey 1) (testKey 2))) = "03000000" ∧
  hex.EncodeToString (ix_Data (LoaderTransferAuthority (testKey 1) (testKey 2) (testKey 3))) = "04000000" ∧
  P (LoaderFinalize (testKey 1) (testKey 2) (testKey 3)) "05000000" [sw 1; sr 2; nr 3].
Proof. check_pins. Qed.

(** ** JSON *)

Definition dq (s : string) : string := String.string_of_list_byte
  ((λ b, if decide (b = x27) then x22 else b) <$> String.list_byte_of_string s).

Fixpoint commas (n : nat) (s : string) : string :=
  match n with O => "" | S O => s | S n => s +:+ "," +:+ commas n s end.
Definition numbers (n : nat) (s : string) : string := "[" +:+ commas n s +:+ "]".
Definition zeros32 : string := numbers 32 "0".

(** [newMockNode]: the answer with this result, as the client reads it. *)
Definition mocked {A} (x : exchange A) (res : string) : result A :=
  ex_result x (Responded 200 (dq ("{'result':" +:+ res +:+ "}"))).

(** The text of the params of a posted request. *)
Definition params_text {A} (x : exchange A) : option string := json_text <$> json_get "params" (ex_body x).

Example filter_texts :
  json_text (AccountFilter_json (DataSizeFilter 32)) = dq "{'DataSize':32}" ∧
  json_text (AccountFilter_json (DataContentFilter 8 (Some (bytes_lit [255; 1])))) =
    dq "{'DataContent':{'offset':8,'bytes':[255,1]}}".
Proof. split; vm_compute; reflexivity. Qed.

(** The shapes of the parameters on the wire. *)
Example params_texts :
  params_text (GetBestBlockHash localClient) = None ∧
  params_text (GetBlockCount localClient) = None ∧
  params_text (GetBlock localClient "aabb") = Some (dq "['aabb']") ∧
  params_text (GetFullBlockByHeight localClient 100) = Some (dq "[100,'full']") ∧
  params_text (GetBlockHash localClient 42) = Some "42" ∧
  params_text (GetProcessedTransaction localClient "aabbcc") = Some (dq "'aabbcc'") ∧
  params_text (GetProgramAccounts localClient (zero_array 32) (Some [DataSizeFilter 64])) =
    Some (dq ("[" +:+ zeros32 +:+ ",[{'DataSize':64}]]")) ∧
  params_text (GetTransactionsByIds localClient (Some ["aa"])) = Some (dq "{'txids':['aa']}") ∧
  params_text (GetTransactionStatus localClient (Some ["aa"; "bb"])) = Some (dq "{'txids':['aa','bb']}") ∧
  params_text (RecentTransactions localClient (MkTransactionListParams (Some 10) None None)) =
    Some (dq "{'limit':10}") ∧
  params_text (GetTransactionsByBlock localClient (MkBlockTransactionsParams "aa" None None None)) =
    Some (dq "{'block_hash':'aa'}").
Proof. repeat split; vm_compute; reflexivity. Qed.

Definition emptyTransaction : RuntimeTransaction :=
  MkRuntimeTransaction 0 [] (MkSanitizedMessage (MkMessageHeader (byte_of 0) (byte_of 0) (byte_of 0)) []
    (zero_array 32) []).

Definition emptyTransaction_text : string :=
  "{'version':0,'signatures':[],'message':{'header':{'num_required_signatures':0," +:+
  "'num_readonly_signed_accounts':0,'num_readonly_unsigned_accounts':0},'account_keys':[]," +:+
  "'recent_blockhash':" +:+ zeros32 +:+ ",'instructions':[]}}".

(** What the client returns for the node's answers. *)
Example result_texts :
  mocked (SendTransaction localClient emptyTransaction) "'deadbeef'" = Ok "deadbeef" ∧
  mocked (SendTransactions localClient (Some [emptyTransaction; emptyTransaction])) "['a','b']" = Ok ["a"; "b"] ∧
  mocked (ReadAccountInfo localClient (testKey 1))
    ("{'lamports':1000000,'owner':" +:+ zeros32 +:+
     ",'data':[1,2,3,4],'utxo':'abc123:0','is_executable':false}") =
    Ok (MkAccountInfo 1000000 (zero_array 32) (Some (bytes_lit [1; 2; 3; 4])) "abc123:0" false) ∧
  mocked (GetAccountAddress localClient (testKey 170)) "'bc1p...'" = Ok "bc1p..." ∧
  mocked (GetBlock localClient "aabb")
    ("{'transactions':[" +:+ zeros32 +:+ "],'previous_block_hash':" +:+ zeros32 +:+
     ",'timestamp':1700000000000,'block_height':42,'bitcoin_block_height':800000}") =
    Ok (Some (MkBlock [zero_array 32] (zero_array 32) 1700000000000 42 800000)) ∧
  mocked (GetBlockCount localClient) "12345" = Ok 12345 ∧
  mocked (GetBlockHash localClient 42) "'cafe'" = Ok "cafe" ∧
  mocked (RequestAirdrop localClient (testKey 1)) "null" = Ok () ∧
  mocked (GetTransactionsByIds localClient (Some ["aa"])) "[null]" = Ok [None] ∧
  mocked (GetTransactionStatus localClient (Some ["aa"; "bb"])) "[{'type':'queued'},null]" =
    Ok [Some (MkProcessedTransactionStatus "queued" ""); None] ∧
  mocked (CheckPreAnchorConflict localClient (Some [testKey 1])) "true" = Ok true.
Proof. repeat split; vm_compute; reflexivity. Qed.

Example account_texts :
  mocked (GetProgramAccounts localClient (testKey 1) (Some [DataSizeFilter 64]))
    ("[{'pubkey':" +:+ numbers 32 "5" +:+ ",'account':{'lamports':999,'owner':" +:+ zeros32 +:+
     ",'data':[10,20],'utxo':'txid:1','is_executable':true}}]") =
    Ok [MkProgramAccount (pubkey_lit (replicate 32 5))
          (MkAccountInfo 999 (zero_array 32) (Some (bytes_lit [10; 20])) "txid:1" true)] ∧
  mocked (GetMultipleAccounts localClient (Some [testKey 1; testKey 2]))
    ("[{'key':" +:+ zeros32 +:+ ",'lamports':500,'owner':" +:+ zeros32 +:+
     ",'data':[],'utxo':'','is_executable':false},null]") =
    Ok [Some (MkAccountInfoWithPubkey (zero_array 32) 500 (zero_array 32) (Some []) "" false); None].
Proof. split; vm_compute; reflexivity. Qed.

Example processed_text :
  mocked (GetProcessedTransaction localClient "aabbcc")
    ("{'runtime_transaction':" +:+ emptyTransaction_text +:+
     ",'status':{'type':'failed','message':'out of gas'},'bitcoin_txid':null," +:+
     "'logs':['Program log: hello'],'rollback_status':{'type':'notRolledback'}," +:+
     "'inner_instructions_list':[]}") =
  Ok (Some (MkProcessedTransaction emptyTransaction (MkProcessedTransactionStatus StatusFailed "out of gas")
    None ["Program log: hello"] (MkRollbackStatus RollbackStatusNotRolledback "") [])).
Proof. vm_compute. reflexivity. Qed.

(** Errors of the node and of HTTP. *)
Definition answered {A} (x : exchange A) (status : Z) (body : string) : result A :=
  ex_result x (Responded status (dq body)).

Example error_texts :
  answered (GetBlock localClient "missing") 200 "{'error':{'code':404,'message':'not found'}}" = Ok None ∧
  answered (GetProcessedTransaction localClient "missing") 200
    "{'error':{'code':404,'message':'not found'}}" = Ok None ∧
  answered (GetBestBlockHash localClient) 200 "{'error':{'code':500,'message':'internal error'}}" =
    Err (RPCErr 500 "internal error") ∧
  fails (answered (GetBlock localClient "x") 200 "{'error':{'code':500,'message':'internal error'}}") = true ∧
  answered (GetBestBlockHash localClient) 502 "boom" = Err (ErrorString "node returned HTTP 502: boom").
Proof. repeat split; vm_compute; reflexivity. Qed.

(** ** WebSocket frames *)

Definition newline : string := String.string_of_list_byte [x0a].

Example request_texts :
  request_text (MkWsRequest "subscribe" (wsSubscribeParams "block" (Some ∅))) =
    Ok (dq "{'method':'subscribe','params':{'topic':'block','filter':{}}}" +:+ newline) ∧
  request_text (MkWsRequest "unsubscribe" (wsUnsubscribeParams "dkg" "sub-9")) =
    Ok (dq "{'method':'unsubscribe','params':{'topic':'dkg','subscription_id':'sub-9'}}" +:+ newline).
Proof. split; vm_compute; reflexivity. Qed.

(** An event with a typed payload, and one of another topic. *)
Example event_texts :
  match frame_input (Ok (dq ("{'topic':'transaction','data':{'hash':'tx2','status':{'type':'failed'," +:+
    "'message':'compute budget exceeded'},'program_ids':['p1','p2'],'block_height':42}}"))) with
  | InMessage (MkWsMessage topic (Some data) _ _ _ _) =>
      Event_Transaction (MkEvent topic data) = Ok (MkTransactionEvent "tx2"
        (MkProcessedTransactionStatus StatusFailed "compute budget exceeded") ["p1"; "p2"] 42) ∧
      fails (Event_Block (MkEvent topic data)) = true
  | _ => False
  end.
Proof. vm_compute. split; reflexivity. Qed.
